(** * go-specgen: annotation parser and type resolver

    A shallow embedding of the annotation parsing pipeline
    (package [parser], package [schema]) and of the field resolver
    (package [resolver]) of go-specgen, with the properties of the
    specification that concern them.

    Go strings are byte sequences; they are modelled by [string]
    (a list of 8-bit [ascii]).  Go [int] indices are modelled by [Z],
    with [-1] as the "not found" value, as in the source. *)

From Stdlib Require Import ZArith List Bool Ascii String Lia.
From Stdlib Require Import Numbers.DecimalString.
From stdpp Require Import base gmap strings.

Set Warnings "-register-all".

Import ListNotations.
Local Open Scope Z_scope.
Local Open Scope string_scope.

(** ** The functions of Go's [strings] package used by the program *)

Module GoStrings.

Definition tab : ascii := ascii_of_nat 9.
Definition nul : ascii := ascii_of_nat 0.
Definition newline : ascii := ascii_of_nat 10.

Fixpoint drop (n : nat) (s : string) : string :=
  match n, s with
  | O, _ => s
  | S n', String _ r => drop n' r
  | S _, EmptyString => EmptyString
  end.

Fixpoint take (n : nat) (s : string) : string :=
  match n, s with
  | O, _ => EmptyString
  | S n', String c r => String c (take n' r)
  | S _, EmptyString => EmptyString
  end.

(** [s[i:]], [s[:j]] and [s[i:j]] for in-range indices. *)
Definition slice_from (s : string) (i : Z) : string := drop (Z.to_nat i) s.
Definition slice_to (s : string) (j : Z) : string := take (Z.to_nat j) s.
Definition slice (s : string) (i j : Z) : string :=
  take (Z.to_nat (j - i)) (drop (Z.to_nat i) s).

Definition len (s : string) : Z := Z.of_nat (String.length s).

(** [s[i]]; the program only indexes in range. *)
Definition at_ (s : string) (i : Z) : option ascii :=
  if (i <? 0)%Z then None else String.get (Z.to_nat i) s.

Fixpoint HasPrefix (s pre : string) {struct pre} : bool :=
  match pre, s with
  | EmptyString, _ => true
  | String p ps, String c cs => Ascii.eqb c p && HasPrefix cs ps
  | String _ _, EmptyString => false
  end.

Definition TrimPrefix (s pre : string) : string :=
  if HasPrefix s pre then drop (String.length pre) s else s.

Definition HasSuffix (s suf : string) : bool :=
  (String.length suf <=? String.length s)%nat
  && String.eqb (drop (String.length s - String.length suf) s) suf.

Definition TrimSuffix (s suf : string) : string :=
  if HasSuffix s suf then take (String.length s - String.length suf) s else s.

(** White space of [strings.TrimSpace], on the ASCII range. *)
Definition isSpace (c : ascii) : bool :=
  let n := nat_of_ascii c in
  ((9 <=? n) && (n <=? 13) || (n =? 32))%nat.

Fixpoint trimLeft (s : string) : string :=
  match s with
  | String c r => if isSpace c then trimLeft r else s
  | EmptyString => EmptyString
  end.

Fixpoint trimRight (s : string) : string :=
  match s with
  | String c r =>
      match trimRight r with
      | EmptyString => if isSpace c then EmptyString else String c EmptyString
      | r' => String c r'
      end
  | EmptyString => EmptyString
  end.

Definition TrimSpace (s : string) : string := trimRight (trimLeft s).

Fixpoint index_from (i : Z) (s sub : string) : Z :=
  if HasPrefix s sub then i
  else match s with
       | String _ r => index_from (i + 1) r sub
       | EmptyString => -1
       end.

Definition Index (s sub : string) : Z := index_from 0 s sub.

Fixpoint last_index_from (i : Z) (s sub : string) (found : Z) : Z :=
  let found' := if HasPrefix s sub then i else found in
  match s with
  | String _ r => last_index_from (i + 1) r sub found'
  | EmptyString => found'
  end.

Definition LastIndex (s sub : string) : Z := last_index_from 0 s sub (-1).

Definition Contains (s sub : string) : bool := (0 <=? Index s sub)%Z.

Fixpoint mem_byte (c : ascii) (chars : string) : bool :=
  match chars with
  | String d r => Ascii.eqb c d || mem_byte c r
  | EmptyString => false
  end.

Fixpoint index_any_from (i : Z) (s chars : string) : Z :=
  match s with
  | String c r => if mem_byte c chars then i else index_any_from (i + 1) r chars
  | EmptyString => -1
  end.

Definition IndexAny (s chars : string) : Z := index_any_from 0 s chars.

(** [strings.ReplaceAll] for a non-empty [old]: the leftmost
    non-overlapping occurrences are replaced.  [skip] counts the bytes of
    a matched occurrence that the scan still has to pass. *)
Fixpoint replace_loop (old new : string) (skip : nat) (s : string) : string :=
  match s with
  | EmptyString => EmptyString
  | String c r =>
      match skip with
      | S k => replace_loop old new k r
      | O =>
          if HasPrefix s old
          then new ++ replace_loop old new (String.length old - 1) r
          else String c (replace_loop old new O r)
      end
  end.

Definition ReplaceAll (s old new : string) : string :=
  match old with
  | EmptyString => s
  | _ => replace_loop old new O s
  end.

(** [strings.Split] for a non-empty separator; [cur] is the piece being
    read, in order. *)
Fixpoint split_loop (sep : string) (skip : nat) (cur : string) (s : string)
  : list string :=
  match s with
  | EmptyString => [cur]
  | String c r =>
      match skip with
      | S k => split_loop sep k cur r
      | O =>
          if HasPrefix s sep
          then cur :: split_loop sep (String.length sep - 1) EmptyString r
          else split_loop sep O (cur ++ String c EmptyString) r
      end
  end.

Definition Split (s sep : string) : list string :=
  match sep with
  | EmptyString => [s]
  | _ => split_loop sep O EmptyString s
  end.

(** [%d] of [fmt]. *)
Definition itoa (z : Z) : string := NilZero.string_of_int (Z.to_int z).

End GoStrings.
Export GoStrings.

(** ** escape.go *)

Module Escape.

Definition backslash : ascii := "\"%char.

(** The characters that may follow a backslash in an escape sequence:
    [next == '{' || next == '}' || next == '@' || next == '\\']. *)
Definition isEscapable (next : ascii) : bool :=
  Ascii.eqb next "{" || Ascii.eqb next "}" || Ascii.eqb next "@"
  || Ascii.eqb next backslash.

Definition atPlaceholder : string := String nul ("AT" ++ String nul "").
Definition backslashPlaceholder : string := String nul ("BS" ++ String nul "").

Definition UnescapeValue (value : string) : string :=
  let result := ReplaceAll value "\\" backslashPlaceholder in
  let result := ReplaceAll result "\{" "{" in
  let result := ReplaceAll result "\}" "}" in
  let result := ReplaceAll result "\@" "@" in
  let result := ReplaceAll result backslashPlaceholder "\" in
  result.

(** The scanning loop shared by [CountUnescapedBraces] and
    [countBracesFromPosition]: [s] is [content[i:]]. *)
Fixpoint count_loop (s : string) (depth : Z) : Z :=
  match s with
  | EmptyString => depth
  | String c r =>
      let step :=
        count_loop r (if Ascii.eqb c "{" then depth + 1
                      else if Ascii.eqb c "}" then depth - 1
                      else depth) in
      if Ascii.eqb c backslash then
        match r with
        | String next r' => if isEscapable next then count_loop r' depth else step
        | EmptyString => step
        end
      else step
  end.

Definition CountUnescapedBraces (content : string) : Z * bool :=
  let depth := count_loop content 0 in (depth, (depth =? 0)%Z).

Definition ProtectEscapedAt (content : string) : string :=
  ReplaceAll content "\@" atPlaceholder.

Definition RestoreEscapedAt (content : string) : string :=
  ReplaceAll content atPlaceholder "\@".

Fixpoint ContainsUnescapedBrace (content : string) : bool :=
  match content with
  | EmptyString => false
  | String c r =>
      let here := if Ascii.eqb c "{" || Ascii.eqb c "}" then true
                  else ContainsUnescapedBrace r in
      if Ascii.eqb c backslash then
        match r with
        | String next r' =>
            if isEscapable next then ContainsUnescapedBrace r' else here
        | EmptyString => here
        end
      else here
  end.

Definition StartsWithUnescapedAt (line : string) : bool :=
  match TrimSpace line with
  | EmptyString => false
  | String c _ => Ascii.eqb c "@"
  end.

End Escape.
Export Escape.

(** ** schema.go: the annotation grammar *)

Module Schema.

Inductive AnnotationType : Set :=
| BlockAnnotation
| ValueAnnotation
| FlagAnnotation
| MarkerAnnotation
| ReferenceAnnotation
| SubCommand.

Definition AnnotationType_eqb (a b : AnnotationType) : bool :=
  match a, b with
  | BlockAnnotation, BlockAnnotation
  | ValueAnnotation, ValueAnnotation
  | FlagAnnotation, FlagAnnotation
  | MarkerAnnotation, MarkerAnnotation
  | ReferenceAnnotation, ReferenceAnnotation
  | SubCommand, SubCommand => true
  | _, _ => false
  end.

(** [SchemaNode].  [Children] is the Go map [map[string]*SchemaNode], kept
    as the list of its entries (a [nil] map is the empty list).  The
    [Parent] back-reference and the [Validator] hook (never set by the
    grammar) play no part in parsing and are left out. *)
Inductive SchemaNode : Type :=
  MkSchemaNode (name : string) (type : AnnotationType)
               (required hasMetadata repeatable supportsMultiline : bool)
               (children : list (string * SchemaNode)).

Definition Name (n : SchemaNode) : string :=
  match n with MkSchemaNode name _ _ _ _ _ _ => name end.
Definition NodeType (n : SchemaNode) : AnnotationType :=
  match n with MkSchemaNode _ t _ _ _ _ _ => t end.
Definition Required (n : SchemaNode) : bool :=
  match n with MkSchemaNode _ _ r _ _ _ _ => r end.
Definition HasMetadata (n : SchemaNode) : bool :=
  match n with MkSchemaNode _ _ _ m _ _ _ => m end.
Definition Repeatable (n : SchemaNode) : bool :=
  match n with MkSchemaNode _ _ _ _ r _ _ => r end.
Definition SupportsMultiline (n : SchemaNode) : bool :=
  match n with MkSchemaNode _ _ _ _ _ s _ => s end.
Definition Children (n : SchemaNode) : list (string * SchemaNode) :=
  match n with MkSchemaNode _ _ _ _ _ _ c => c end.

(** Lookup in a Go map kept as its list of entries. *)
Fixpoint map_lookup {V : Type} (m : list (string * V)) (key : string) : option V :=
  match m with
  | [] => None
  | (k, v) :: rest => if String.eqb k key then Some v else map_lookup rest key
  end.

Definition GetChild (n : SchemaNode) (name : string) : option SchemaNode :=
  map_lookup (Children n) name.

Definition HasChild (n : SchemaNode) (name : string) : bool :=
  match GetChild n name with Some _ => true | None => false end.

Definition CanBeEmpty (n : SchemaNode) : bool :=
  forallb (fun child => negb (Required (snd child))) (Children n).

(** Constructors for the literals of [AnnotationSchema]. *)
Definition value (name : string) : SchemaNode :=
  MkSchemaNode name ValueAnnotation false false false false [].
Definition requiredValue (name : string) : SchemaNode :=
  MkSchemaNode name ValueAnnotation true false false false [].
Definition multilineValue (name : string) : SchemaNode :=
  MkSchemaNode name ValueAnnotation false false false true [].
Definition flag (name : string) : SchemaNode :=
  MkSchemaNode name FlagAnnotation false false false false [].
Definition marker (name : string) : SchemaNode :=
  MkSchemaNode name MarkerAnnotation false false false false [].
Definition repeatableReference (name : string) : SchemaNode :=
  MkSchemaNode name ReferenceAnnotation false false true false [].
Definition entry (n : SchemaNode) : string * SchemaNode := (Name n, n).

Definition bodyNode : SchemaNode :=
  MkSchemaNode "@body" ValueAnnotation false true false false [].

Definition apiNode : SchemaNode :=
  MkSchemaNode "@api" BlockAnnotation true false false false
    [ entry (requiredValue "@title");
      entry (requiredValue "@version");
      entry (multilineValue "@description");
      entry (value "@termsOfService");
      entry (MkSchemaNode "@contact" BlockAnnotation false false false false
               [ entry (value "@name"); entry (value "@email"); entry (value "@url") ]);
      entry (MkSchemaNode "@license" BlockAnnotation false false false false
               [ entry (value "@name"); entry (value "@url") ]);
      entry (MkSchemaNode "@server" BlockAnnotation false true true false
               [ entry (multilineValue "@description") ]);
      entry (MkSchemaNode "@securityScheme" BlockAnnotation false true true false
               [ entry (requiredValue "@type");
                 entry (value "@scheme");
                 entry (value "@bearerFormat");
                 entry (value "@in");
                 entry (value "@name");
                 entry (multilineValue "@description") ]);
      entry (MkSchemaNode "@security" BlockAnnotation false false true false
               [ entry (MkSchemaNode "@with" SubCommand false true true false
                          [ entry (MkSchemaNode "@scope" ValueAnnotation
                                     false false true false []) ]) ]);
      entry (MkSchemaNode "@tag" BlockAnnotation false true true false
               [ entry (multilineValue "@description") ]);
      entry (value "@defaultContentType") ].

Definition endpointNode : SchemaNode :=
  MkSchemaNode "@endpoint" BlockAnnotation false true false false
    [ entry (value "@operationID");
      entry (value "@summary");
      entry (multilineValue "@description");
      entry (repeatableReference "@tag");
      entry (flag "@deprecated");
      entry (value "@auth");
      entry (repeatableReference "@path");
      entry (repeatableReference "@query");
      entry (repeatableReference "@header");
      entry (repeatableReference "@cookie");
      entry (MkSchemaNode "@request" BlockAnnotation false false false false
               [ entry (value "@contentType"); entry bodyNode; entry (value "@bind") ]);
      entry (MkSchemaNode "@response" BlockAnnotation false true true false
               [ entry (value "@contentType");
                 entry bodyNode;
                 entry (value "@bind");
                 entry (multilineValue "@description");
                 entry (MkSchemaNode "@header" ValueAnnotation
                          false false true false []) ]) ].

Definition fieldNode : SchemaNode :=
  MkSchemaNode "@field" BlockAnnotation false false false false
    [ entry (multilineValue "@description");
      entry (value "@format");
      entry (value "@example");
      entry (value "@enum");
      entry (value "@default");
      entry (value "@minimum");
      entry (value "@maximum");
      entry (value "@minLength");
      entry (value "@maxLength");
      entry (value "@minItems");
      entry (value "@maxItems");
      entry (flag "@uniqueItems");
      entry (value "@pattern");
      entry (flag "@deprecated") ].

Definition schemaNode : SchemaNode :=
  MkSchemaNode "@schema" BlockAnnotation false false false false
    [ entry (multilineValue "@description"); entry (flag "@deprecated") ].

Definition AnnotationSchema : SchemaNode :=
  MkSchemaNode "root" BlockAnnotation false false false false
    [ entry apiNode; entry endpointNode; entry fieldNode; entry schemaNode;
      entry (marker "@path"); entry (marker "@query");
      entry (marker "@header"); entry (marker "@cookie") ].

Inductive result (A : Type) : Type :=
| Ok (a : A)
| Error (msg : string).
Arguments Ok {A} a.
Arguments Error {A} msg.

(** schema/validator.go *)
Fixpoint nested_loop (s : string) (depth : Z) : result unit :=
  match s with
  | EmptyString =>
      if negb (depth =? 0)%Z then Error "unbalanced braces in inline content"
      else Ok tt
  | String c r =>
      let step :=
        if Ascii.eqb c "{" then
          if (1 <? depth + 1)%Z
          then Error "nested blocks cannot be inlined, use multi-line format"
          else nested_loop r (depth + 1)
        else if Ascii.eqb c "}" then nested_loop r (depth - 1)
        else nested_loop r depth in
      if Ascii.eqb c backslash then
        match r with
        | String next r' => if isEscapable next then nested_loop r' depth else step
        | EmptyString => step
        end
      else step
  end.

Definition ValidateNoNestedBraces (content : string) : result unit :=
  nested_loop content 0.

End Schema.
Export Schema.

(** ** The block and line parser *)

Module Parser.

(** [ParsedAnnotation].  [Children] and [RepeatedChildren] are Go maps,
    kept as the list of their entries in order of first insertion. *)
Inductive ParsedAnnotation : Type :=
  MkParsed (name metadata : string)
           (children : list (string * ParsedAnnotation))
           (repeatedChildren : list (string * list ParsedAnnotation))
           (value : string) (isFlag : bool) (lines : list string).

Definition PName (p : ParsedAnnotation) : string :=
  match p with MkParsed n _ _ _ _ _ _ => n end.
Definition Metadata (p : ParsedAnnotation) : string :=
  match p with MkParsed _ m _ _ _ _ _ => m end.
Definition PChildren (p : ParsedAnnotation) : list (string * ParsedAnnotation) :=
  match p with MkParsed _ _ c _ _ _ _ => c end.
Definition RepeatedChildren (p : ParsedAnnotation)
  : list (string * list ParsedAnnotation) :=
  match p with MkParsed _ _ _ r _ _ _ => r end.
Definition Value (p : ParsedAnnotation) : string :=
  match p with MkParsed _ _ _ _ v _ _ => v end.
Definition IsFlag (p : ParsedAnnotation) : bool :=
  match p with MkParsed _ _ _ _ _ f _ => f end.
Definition Lines (p : ParsedAnnotation) : list string :=
  match p with MkParsed _ _ _ _ _ _ l => l end.

Definition setMetadata (p : ParsedAnnotation) (m : string) : ParsedAnnotation :=
  match p with MkParsed n _ c r v f l => MkParsed n m c r v f l end.
Definition setValue (p : ParsedAnnotation) (v : string) : ParsedAnnotation :=
  match p with MkParsed n m c r _ f l => MkParsed n m c r v f l end.
Definition setIsFlag (p : ParsedAnnotation) (f : bool) : ParsedAnnotation :=
  match p with MkParsed n m c r v _ l => MkParsed n m c r v f l end.
Definition setChildren (p : ParsedAnnotation) c : ParsedAnnotation :=
  match p with MkParsed n m _ r v f l => MkParsed n m c r v f l end.
Definition setRepeatedChildren (p : ParsedAnnotation) r : ParsedAnnotation :=
  match p with MkParsed n m c _ v f l => MkParsed n m c r v f l end.

(** [m[key] = v] on a Go map kept as its list of entries. *)
Fixpoint map_store {V : Type} (m : list (string * V)) (key : string) (v : V)
  : list (string * V) :=
  match m with
  | [] => [(key, v)]
  | (k, w) :: rest =>
      if String.eqb k key then (k, v) :: rest else (k, w) :: map_store rest key v
  end.

(** [m[key]] for a map of slices: the [nil] slice when [key] is absent. *)
Definition map_slice {V : Type} (m : list (string * list V)) (key : string)
  : list V :=
  match map_lookup m key with Some l => l | None => [] end.

Definition isEmpty (s : string) : bool := String.eqb s "".

Fixpoint findBlockOpener_loop (i : Z) (s : string) : Z :=
  match s with
  | String c ((String next r') as r) =>
      if Ascii.eqb c backslash && isEscapable next
      then findBlockOpener_loop (i + 2) r'
      else if (Ascii.eqb c " " || Ascii.eqb c tab) && Ascii.eqb next "{"
           then i + 1
           else findBlockOpener_loop (i + 1) r
  | _ => -1
  end.

Definition findBlockOpener (line : string) : Z := findBlockOpener_loop 0 line.

Definition countBracesFromPosition (line : string) (startPos : Z) : Z :=
  count_loop (slice_from line startPos) 0.

(** The first line that has a block opener, with the lines that follow
    it, and the position of its opener. *)
Fixpoint findOpenLine (lines : list string) : option (list string * Z) :=
  match lines with
  | [] => None
  | line :: rest =>
      let pos := findBlockOpener line in
      if (0 <=? pos)%Z then Some (lines, pos) else findOpenLine rest
  end.

(** The loop [for i := openLineIndex; i < len(lines); i++] of
    [ParseBracedBlock]; [isOpenLine] is [i == openLineIndex]. *)
Fixpoint braced_loop (isOpenLine : bool) (openBracePos : Z)
         (lines : list string) (content : list string) (braceDepth : Z)
  : result (list string) :=
  match lines with
  | [] =>
      if negb (braceDepth =? 0)%Z
      then Error ("unbalanced braces: depth=" ++ itoa braceDepth)
      else Ok content
  | originalLine :: rest =>
      let braceDepth :=
        if isOpenLine
        then braceDepth + countBracesFromPosition originalLine openBracePos
        else braceDepth + fst (CountUnescapedBraces originalLine) in
      let line :=
        if isOpenLine then slice_from originalLine (openBracePos + 1)
        else originalLine in
      let line := TrimSpace line in
      if (braceDepth =? 0)%Z then
        if isOpenLine && negb (isEmpty line) then
          let line := TrimSuffix line "}" in
          let line := TrimSpace line in
          Ok (if negb (isEmpty line) then content ++ [line] else content)%list
        else Ok content
      else
        let content :=
          (if negb (isEmpty line) then content ++ [line] else content)%list in
        if (braceDepth <? 0)%Z
        then Error ("unbalanced braces at line: " ++ originalLine)
        else braced_loop false openBracePos rest content braceDepth
  end.

Definition ParseBracedBlock (lines : list string) : result (list string) :=
  match findOpenLine lines with
  | None => Ok []
  | Some (fromOpen, openBracePos) => braced_loop true openBracePos fromOpen [] 0
  end.

Definition ExtractMetadata (line annotationName : string) : string :=
  let line := TrimPrefix line annotationName in
  let blockPos := findBlockOpener line in
  let line := if (0 <=? blockPos)%Z then slice_to line (blockPos - 1) else line in
  TrimSpace line.

Fixpoint name_end (s : string) : string :=
  match s with
  | String ch r =>
      if Ascii.eqb ch " " || Ascii.eqb ch "{" || Ascii.eqb ch tab
      then EmptyString
      else String ch (name_end r)
  | EmptyString => EmptyString
  end.

Definition extractAnnotationName (line : string) : string :=
  let line := TrimSpace line in
  if negb (HasPrefix line "@") then "" else name_end line.

Fixpoint inline_count (s : string) (count : Z) : bool :=
  match s with
  | EmptyString => false
  | String c r =>
      let step :=
        if Ascii.eqb c "@"
        then if (1 <? count + 1)%Z then true else inline_count r (count + 1)
        else inline_count r count in
      if Ascii.eqb c backslash then
        match r with
        | String next r' => if isEscapable next then inline_count r' count else step
        | EmptyString => step
        end
      else step
  end.

Definition isInlineContent (content : string) : bool := inline_count content 0.

(** The "Store in result" step of [parseChildren] and of
    [parseInlineChildren]. *)
Definition storeChild (childNode : SchemaNode) (annotationName : string)
           (parsed result : ParsedAnnotation) : Schema.result ParsedAnnotation :=
  if Repeatable childNode then
    Ok (setRepeatedChildren result
          (map_store (RepeatedChildren result) annotationName
             (map_slice (RepeatedChildren result) annotationName ++ [parsed])%list))
  else
    match map_lookup (PChildren result) annotationName with
    | Some _ =>
        Error (annotationName ++ " appears multiple times but is not repeatable")
    | None =>
        Ok (setChildren result (map_store (PChildren result) annotationName parsed))
    end.

Definition emptyParsed (annotationName : string) (lines : list string)
  : ParsedAnnotation :=
  MkParsed annotationName "" [] [] "" false lines.

(** inline.go *)
Definition IsInlineFormat (lines : list string) : bool :=
  match lines with
  | [] => false
  | firstLine :: _ =>
      if negb (Contains firstLine "{") then false
      else if negb (Contains firstLine "}") then false
      else (Index firstLine "{" <? Index firstLine "}")%Z
  end.

Fixpoint inline_loop (i : Z) (parts : list string) (parentNode : SchemaNode)
         (result : ParsedAnnotation) : Schema.result ParsedAnnotation :=
  match parts with
  | [] => Ok result
  | part :: rest =>
      if (i =? 0)%Z && isEmpty (TrimSpace part)
      then inline_loop (i + 1) rest parentNode result
      else
        let part := RestoreEscapedAt part in
        let part := TrimSpace part in
        if isEmpty part then inline_loop (i + 1) rest parentNode result
        else
          let spaceIdx := IndexAny part (String " " (String tab "")) in
          let annotationName :=
            if (spaceIdx =? -1)%Z then "@" ++ part
            else "@" ++ slice_to part spaceIdx in
          let value :=
            if (spaceIdx =? -1)%Z then ""
            else TrimSpace (slice_from part (spaceIdx + 1)) in
          match GetChild parentNode annotationName with
          | None =>
              Error ("unknown annotation " ++ annotationName ++ " in "
                     ++ Name parentNode)
          | Some childNode =>
              if AnnotationType_eqb (NodeType childNode) SubCommand
                 && (0 <? Z.of_nat (List.length (Children childNode)))%Z
                 && ContainsUnescapedBrace value
              then Error ("sub-commands with sub-blocks cannot be inlined: "
                          ++ annotationName)
              else
                let unescapedValue := UnescapeValue value in
                let parsed :=
                  MkParsed annotationName
                    (if HasMetadata childNode then unescapedValue else "")
                    [] [] unescapedValue
                    (AnnotationType_eqb (NodeType childNode) FlagAnnotation)
                    [] in
                match storeChild childNode annotationName parsed result with
                | Error e => Error e
                | Ok result => inline_loop (i + 1) rest parentNode result
                end
          end
  end.

Definition parseInlineChildren (content : string) (parentNode : SchemaNode)
           (result : ParsedAnnotation) : Schema.result ParsedAnnotation :=
  if isEmpty content then Ok result
  else
    let protected := ProtectEscapedAt content in
    let parts := Split protected "@" in
    inline_loop 0 parts parentNode result.

Definition ParseInlineAnnotation (line annotationName : string)
           (node : SchemaNode) : Schema.result ParsedAnnotation :=
  match ValidateNoNestedBraces line with
  | Error e => Error e
  | Ok _ =>
      let result := emptyParsed annotationName [line] in
      let openIdx := Index line "{" in
      let closeIdx := LastIndex line "}" in
      if (openIdx =? -1)%Z || (closeIdx =? -1)%Z || (closeIdx <=? openIdx)%Z
      then Error ("invalid inline format for " ++ annotationName)
      else
        let content := slice line (openIdx + 1) closeIdx in
        let content := TrimSpace content in
        if isEmpty content then
          if negb (CanBeEmpty node)
          then Error (annotationName ++ " cannot be empty (has required children)")
          else Ok result
        else parseInlineChildren content node result
  end.

(** block.go: [parseChildren] and [ParseAnnotationBlock] *)

(** The lines that follow an opening child line until its braces close:
    [for i < len(lines) && braceDepth > 0]. *)
Fixpoint collectBlock (lines : list string) (braceDepth : Z) : list string :=
  match lines with
  | nextLine :: rest =>
      if (0 <? braceDepth)%Z
      then nextLine
           :: collectBlock rest (braceDepth + fst (CountUnescapedBraces nextLine))
      else []
  | [] => []
  end.

(** The continuation lines of a multi-line value, and the number of lines
    the index [i] passed (blank lines are passed but not collected). *)
Fixpoint collectContinuation (parentNode : SchemaNode) (lines : list string)
  : list string * nat :=
  match lines with
  | [] => ([], O)
  | nextLine :: rest =>
      if isEmpty (TrimSpace nextLine) then
        let '(more, n) := collectContinuation parentNode rest in (more, S n)
      else if StartsWithUnescapedAt nextLine
              && HasChild parentNode (extractAnnotationName nextLine)
      then ([], O)
      else
        let '(more, n) := collectContinuation parentNode rest in
        (nextLine :: more, S n)
  end.

Definition ParseFn : Type :=
  SchemaNode -> list string -> string -> Schema.result ParsedAnnotation.

(** [childNode := parentNode.GetChild(name); if childNode == nil { none }
    else { some childNode }], written so that [some] receives a
    sub-tree of [parentNode]. *)
Definition withChild {R : Type} (parentNode : SchemaNode) (name : string)
           (none : R) (some : SchemaNode -> R) : R :=
  (fix go (m : list (string * SchemaNode)) : R :=
     match m with
     | [] => none
     | (k, v) :: rest => if String.eqb k name then some v else go rest
     end) (Children parentNode).

Section ParseChildren.

(** [ParseAnnotationBlock], which [parseChildren] calls on each child. *)
Variable parse : ParseFn.
Variable parentNode : SchemaNode.

(** The loop [for i < len(lines)] of [parseChildren].  [lines] is
    [lines[i0:]] for the index [i0] of the iteration at hand; [skip] is
    [i - i0], the number of those lines that the annotation parsed last
    has consumed already. *)
Fixpoint children_loop (lines : list string) (skip : nat)
         (result : ParsedAnnotation) : Schema.result ParsedAnnotation :=
  match lines with
  | [] => Ok result
  | line :: rest =>
      match skip with
      | S k => children_loop rest k result
      | O =>
          if isEmpty (TrimSpace line) then children_loop rest O result
          else if negb (HasPrefix line "@") then children_loop rest O result
          else
            let annotationName := extractAnnotationName line in
            if isEmpty annotationName then children_loop rest O result
            else
              withChild parentNode annotationName
                (Error ("unknown annotation " ++ annotationName ++ " in "
                        ++ Name parentNode))
                (fun childNode =>
                   let blockPos := findBlockOpener line in
                   let '(more, consumed) :=
                     if (0 <=? blockPos)%Z then
                       let more :=
                         collectBlock rest
                           (countBracesFromPosition line blockPos) in
                       (more, List.length more)
                     else if SupportsMultiline childNode
                     then collectContinuation parentNode rest
                     else ([], O) in
                   let annotationLines := line :: more in
                   match parse childNode annotationLines annotationName with
                   | Error e => Error e
                   | Ok parsed =>
                       match storeChild childNode annotationName parsed result with
                       | Error e => Error e
                       | Ok result => children_loop rest consumed result
                       end
                   end)
      end
  end.

Definition parseChildren (lines : list string) (result : ParsedAnnotation)
  : Schema.result ParsedAnnotation :=
  children_loop lines O result.

End ParseChildren.

Definition first (lines : list string) : string := List.hd "" lines.

Fixpoint ParseAnnotationBlock_node (node : SchemaNode) (lines : list string)
         (annotationName : string) {struct node}
  : Schema.result ParsedAnnotation :=
  let result := emptyParsed annotationName lines in
  if AnnotationType_eqb (NodeType node) MarkerAnnotation
  then Ok (setIsFlag result true)
  else if AnnotationType_eqb (NodeType node) FlagAnnotation
  then Ok (setIsFlag result true)
  else
    let result :=
      if HasMetadata node && (0 <? Z.of_nat (List.length lines))%Z
      then setMetadata result (ExtractMetadata (first lines) annotationName)
      else result in
    if AnnotationType_eqb (NodeType node) ValueAnnotation then
      match lines with
      | firstLine :: more =>
          let value := TrimPrefix firstLine annotationName in
          let value := TrimSpace value in
          let value :=
            if SupportsMultiline node then
              fold_left
                (fun value line =>
                   let continuation := TrimSpace line in
                   if negb (isEmpty continuation)
                   then value ++ String newline "" ++ continuation
                   else value)
                more value
            else value in
          Ok (setValue result (UnescapeValue value))
      | [] => Ok result
      end
    else if AnnotationType_eqb (NodeType node) ReferenceAnnotation then
      match lines with
      | firstLine :: _ =>
          let value := TrimPrefix firstLine annotationName in
          let value := TrimSpace value in
          Ok (setValue result value)
      | [] => Ok result
      end
    else if AnnotationType_eqb (NodeType node) BlockAnnotation
            || AnnotationType_eqb (NodeType node) SubCommand then
      match ParseBracedBlock lines with
      | Error err => Error ("failed to parse " ++ annotationName ++ ": " ++ err)
      | Ok content =>
          if (List.length content =? 0)%nat then
            if negb (CanBeEmpty node)
            then Error (annotationName ++ " cannot be empty (has required children)")
            else Ok result
          else if (List.length content =? 1)%nat && isInlineContent (first content)
          then
            match parseInlineChildren (first content) node result with
            | Error err =>
                Error ("failed to parse " ++ annotationName ++ " children: " ++ err)
            | Ok result => Ok result
            end
          else
            match parseChildren ParseAnnotationBlock_node node content result with
            | Error err =>
                Error ("failed to parse " ++ annotationName ++ " children: " ++ err)
            | Ok result => Ok result
            end
      end
    else Ok result.

(** [ParseAnnotationBlock]; [node] is [None] for the [nil] pointer. *)
Definition ParseAnnotationBlock (lines : list string) (annotationName : string)
           (node : option SchemaNode) : Schema.result ParsedAnnotation :=
  match node with
  | None => Error ("unknown annotation: " ++ annotationName)
  | Some node => ParseAnnotationBlock_node node lines annotationName
  end.

End Parser.
Export Parser.

(** ** The resolver: Go types to OpenAPI types *)

(** The part of [go/types] that the resolver inspects.  A type is the finite
    tree that the resolver walks: a named type carries its object (package
    path and name) and its underlying type.  The resolver never follows a
    named struct into its fields through a reference to it, so the fields
    of a named struct behind a field type may be left empty where the Go
    type graph is cyclic. *)
Module types.

Inductive BasicKind : Set :=
| Invalid | Bool | Int | Int8 | Int16 | Int32 | Int64
| Uint | Uint8 | Uint16 | Uint32 | Uint64 | Uintptr
| Float32 | Float64 | Complex64 | Complex128 | String | UnsafePointer
| UntypedBool | UntypedInt | UntypedRune | UntypedFloat | UntypedComplex
| UntypedString | UntypedNil.

(** [structType.Field(i)] and [structType.Tag(i)]: the field's name, the
    result of [field.Exported()], its type and its raw tag. *)
Record Field (T : Type) : Type := MkField {
  FieldName : string;
  Exported : bool;
  FieldType : T;
  Tag : string
}.
Arguments MkField {T}.
Arguments FieldName {T}.
Arguments Exported {T}.
Arguments FieldType {T}.
Arguments Tag {T}.

(** [named.Obj()]: [Pkg] is [None] for the universe ([obj.Pkg() == nil]). *)
Record TypeName : Set := MkTypeName {
  Pkg : option string;
  ObjName : string
}.

Inductive Type_ : Type :=
| Basic (kind : BasicKind)
| Pointer (elem : Type_)
| Slice (elem : Type_)
| Array (length : Z) (elem : Type_)
| Map (key elem : Type_)
| Struct (fields : list (Field Type_))
| Named (obj : TypeName) (underlying : Type_)
| Alias (obj : TypeName) (rhs : Type_)
| Interface
| Chan (elem : Type_)
| Signature
| TypeParam (obj : TypeName).

End types.

Module TypeInfo.
Record t : Set := Mk {
  OpenAPIType : string;
  Format : string;
  IsArray : bool;
  ItemsType : string;
  IsNullable : bool;
  IsAnyValue : bool
}.
Definition empty : t := Mk "" "" false "" false false.
End TypeInfo.

(** [parser.Field], the parsed [@field] annotation of a struct field. *)
Module Field.
Record t (float64 : Type) : Type := Mk {
  GoName : string;
  Nullable : bool;
  Description : string;
  Format : string;
  Example : string;
  Enum : list string;
  Default : string;
  Minimum : option float64;
  Maximum : option float64;
  MinLength : option Z;
  MaxLength : option Z;
  MinItems : option Z;
  MaxItems : option Z;
  UniqueItems : bool;
  Pattern : string;
  Deprecated : bool
}.
Arguments Mk {float64}.
Arguments GoName {float64}.
Arguments Nullable {float64}.
Arguments Description {float64}.
Arguments Format {float64}.
Arguments Example {float64}.
Arguments Enum {float64}.
Arguments Default {float64}.
Arguments Minimum {float64}.
Arguments Maximum {float64}.
Arguments MinLength {float64}.
Arguments MaxLength {float64}.
Arguments MinItems {float64}.
Arguments MaxItems {float64}.
Arguments UniqueItems {float64}.
Arguments Pattern {float64}.
Arguments Deprecated {float64}.
End Field.

(** [reflect.StructTag.Get] of the Go library, for the conventional tag
    syntax: a list of key:value pairs, each value a quoted Go string.  The
    value is unquoted as Go does for the escapes of a backslash, of a
    double quote, and the escapes n, r and t; a value with any other
    escape is outside this model and is read as a malformed tag. *)
Module Reflect.

Definition dquote : ascii := ascii_of_nat 34.

(** The Go string literal of [s], for a value without escapes. *)
Definition quoted (s : string) : string :=
  String dquote (s ++ String dquote "").

Fixpoint skipSpaces (tag : string) : string :=
  match tag with
  | String c r => if Ascii.eqb c " " then skipSpaces r else tag
  | EmptyString => EmptyString
  end.

(** The index of the end of the key: the first byte that is a space, a
    control character, a colon, a quote or DEL. *)
Fixpoint keyLen (tag : string) : nat :=
  match tag with
  | String c r =>
      if (32 <? nat_of_ascii c)%nat && negb (Ascii.eqb c ":")
         && negb (Ascii.eqb c dquote) && negb (nat_of_ascii c =? 127)%nat
      then S (keyLen r) else O
  | EmptyString => O
  end.

(** The length of a quoted value up to its closing quote; [s] starts
    after the opening quote. *)
Fixpoint quotedLen (s : string) : option nat :=
  match s with
  | EmptyString => None
  | String c r =>
      if Ascii.eqb c dquote then Some O
      else if Ascii.eqb c backslash then
        match r with
        | String _ r' => option_map (fun n => S (S n)) (quotedLen r')
        | EmptyString => None
        end
      else option_map S (quotedLen r)
  end.

Fixpoint unquote (s : string) : option string :=
  match s with
  | EmptyString => Some EmptyString
  | String c r =>
      if Ascii.eqb c newline then None
      else if Ascii.eqb c backslash then
        match r with
        | String e r' =>
            let char :=
              if Ascii.eqb e backslash then Some backslash
              else if Ascii.eqb e dquote then Some dquote
              else if Ascii.eqb e "n" then Some newline
              else if Ascii.eqb e "r" then Some (ascii_of_nat 13)
              else if Ascii.eqb e "t" then Some tab
              else None in
            match char, unquote r' with
            | Some ch, Some rest => Some (String ch rest)
            | _, _ => None
            end
        | EmptyString => None
        end
      else option_map (String c) (unquote r)
  end.

(** [StructTag.Lookup]; every round of its loop consumes a byte of the
    tag at least, so [fuel] rounds suffice for a tag of [fuel] bytes. *)
Fixpoint lookup_loop (fuel : nat) (tag key : string) : option string :=
  match fuel with
  | O => None
  | S fuel =>
      let tag := skipSpaces tag in
      let i := keyLen tag in
      match i, drop i tag with
      | S _, String colon (String quote rest) =>
          if Ascii.eqb colon ":" && Ascii.eqb quote dquote then
            match quotedLen rest with
            | Some n =>
                if String.eqb key (take i tag) then unquote (take n rest)
                else lookup_loop fuel (drop (S n) rest) key
            | None => None
            end
          else None
      | _, _ => None
      end
  end.

Definition Lookup (tag key : string) : option string :=
  lookup_loop (String.length tag) tag key.

Definition Get (tag key : string) : string :=
  match Lookup tag key with
  | Some value => value
  | None => ""
  end.

End Reflect.

Module Resolver.

(** [ResolvedField].  A Go slice field is [None] when it is [nil]. *)
Inductive ResolvedField (float64 : Type) : Type := MkResolvedField {
  Name : string;
  GoName : string;
  Description : string;
  Required : bool;
  Nullable : bool;
  Deprecated : bool;
  GoType : string;
  OpenAPIType : string;
  Format : string;
  IsArray : bool;
  ItemsType : string;
  ItemsInlineFields : option (list (ResolvedField float64));
  IsMap : bool;
  MapValueInlineFields : option (list (ResolvedField float64));
  IsAnyValue : bool;
  IsUnresolvedStruct : bool;
  UnresolvedTypeName : string;
  InlineFields : option (list (ResolvedField float64));
  Enum : list string;
  Default : string;
  Example : string;
  Pattern : string;
  MinLength : option Z;
  MaxLength : option Z;
  MinItems : option Z;
  MaxItems : option Z;
  UniqueItems : bool;
  Minimum : option float64;
  Maximum : option float64
}.
Arguments MkResolvedField {float64}.
Arguments Name {float64}.
Arguments GoName {float64}.
Arguments Description {float64}.
Arguments Required {float64}.
Arguments Nullable {float64}.
Arguments Deprecated {float64}.
Arguments GoType {float64}.
Arguments OpenAPIType {float64}.
Arguments Format {float64}.
Arguments IsArray {float64}.
Arguments ItemsType {float64}.
Arguments ItemsInlineFields {float64}.
Arguments IsMap {float64}.
Arguments MapValueInlineFields {float64}.
Arguments IsAnyValue {float64}.
Arguments IsUnresolvedStruct {float64}.
Arguments UnresolvedTypeName {float64}.
Arguments InlineFields {float64}.
Arguments Enum {float64}.
Arguments Default {float64}.
Arguments Example {float64}.
Arguments Pattern {float64}.
Arguments MinLength {float64}.
Arguments MaxLength {float64}.
Arguments MinItems {float64}.
Arguments MaxItems {float64}.
Arguments UniqueItems {float64}.
Arguments Minimum {float64}.
Arguments Maximum {float64}.

Definition set_Name {float64 : Type} (v : string) (r : ResolvedField float64)
  : ResolvedField float64 :=
  MkResolvedField v (GoName r) (Description r) (Required r) (Nullable r) (Deprecated r) (GoType r) (OpenAPIType r) (Format r) (IsArray r) (ItemsType r) (ItemsInlineFields r) (IsMap r) (MapValueInlineFields r) (IsAnyValue r) (IsUnresolvedStruct r) (UnresolvedTypeName r) (InlineFields r) (Enum r) (Default r) (Example r) (Pattern r) (MinLength r) (MaxLength r) (MinItems r) (MaxItems r) (UniqueItems r) (Minimum r) (Maximum r).
Definition set_GoName {float64 : Type} (v : string) (r : ResolvedField float64)
  : ResolvedField float64 :=
  MkResolvedField (Name r) v (Description r) (Required r) (Nullable r) (Deprecated r) (GoType r) (OpenAPIType r) (Format r) (IsArray r) (ItemsType r) (ItemsInlineFields r) (IsMap r) (MapValueInlineFields r) (IsAnyValue r) (IsUnresolvedStruct r) (UnresolvedTypeName r) (InlineFields r) (Enum r) (Default r) (Example r) (Pattern r) (MinLength r) (MaxLength r) (MinItems r) (MaxItems r) (UniqueItems r) (Minimum r) (Maximum r).
Definition set_Description {float64 : Type} (v : string) (r : ResolvedField float64)
  : ResolvedField float64 :=
  MkResolvedField (Name r) (GoName r) v (Required r) (Nullable r) (Deprecated r) (GoType r) (OpenAPIType r) (Format r) (IsArray r) (ItemsType r) (ItemsInlineFields r) (IsMap r) (MapValueInlineFields r) (IsAnyValue r) (IsUnresolvedStruct r) (UnresolvedTypeName r) (InlineFields r) (Enum r) (Default r) (Example r) (Pattern r) (MinLength r) (MaxLength r) (MinItems r) (MaxItems r) (UniqueItems r) (Minimum r) (Maximum r).
Definition set_Required {float64 : Type} (v : bool) (r : ResolvedField float64)
  : ResolvedField float64 :=
  MkResolvedField (Name r) (GoName r) (Description r) v (Nullable r) (Deprecated r) (GoType r) (OpenAPIType r) (Format r) (IsArray r) (ItemsType r) (ItemsInlineFields r) (IsMap r) (MapValueInlineFields r) (IsAnyValue r) (IsUnresolvedStruct r) (UnresolvedTypeName r) (InlineFields r) (Enum r) (Default r) (Example r) (Pattern r) (MinLength r) (MaxLength r) (MinItems r) (MaxItems r) (UniqueItems r) (Minimum r) (Maximum r).
Definition set_Nullable {float64 : Type} (v : bool) (r : ResolvedField float64)
  : ResolvedField float64 :=
  MkResolvedField (Name r) (GoName r) (Description r) (Required r) v (Deprecated r) (GoType r) (OpenAPIType r) (Format r) (IsArray r) (ItemsType r) (ItemsInlineFields r) (IsMap r) (MapValueInlineFields r) (IsAnyValue r) (IsUnresolvedStruct r) (UnresolvedTypeName r) (InlineFields r) (Enum r) (Default r) (Example r) (Pattern r) (MinLength r) (MaxLength r) (MinItems r) (MaxItems r) (UniqueItems r) (Minimum r) (Maximum r).
Definition set_Deprecated {float64 : Type} (v : bool) (r : ResolvedField float64)
  : ResolvedField float64 :=
  MkResolvedField (Name r) (GoName r) (Description r) (Required r) (Nullable r) v (GoType r) (OpenAPIType r) (Format r) (IsArray r) (ItemsType r) (ItemsInlineFields r) (IsMap r) (MapValueInlineFields r) (IsAnyValue r) (IsUnresolvedStruct r) (UnresolvedTypeName r) (InlineFields r) (Enum r) (Default r) (Example r) (Pattern r) (MinLength r) (MaxLength r) (MinItems r) (MaxItems r) (UniqueItems r) (Minimum r) (Maximum r).
Definition set_GoType {float64 : Type} (v : string) (r : ResolvedField float64)
  : ResolvedField float64 :=
  MkResolvedField (Name r) (GoName r) (Description r) (Required r) (Nullable r) (Deprecated r) v (OpenAPIType r) (Format r) (IsArray r) (ItemsType r) (ItemsInlineFields r) (IsMap r) (MapValueInlineFields r) (IsAnyValue r) (IsUnresolvedStruct r) (UnresolvedTypeName r) (InlineFields r) (Enum r) (Default r) (Example r) (Pattern r) (MinLength r) (MaxLength r) (MinItems r) (MaxItems r) (UniqueItems r) (Minimum r) (Maximum r).
Definition set_OpenAPIType {float64 : Type} (v : string) (r : ResolvedField float64)
  : ResolvedField float64 :=
  MkResolvedField (Name r) (GoName r) (Description r) (Required r) (Nullable r) (Deprecated r) (GoType r) v (Format r) (IsArray r) (ItemsType r) (ItemsInlineFields r) (IsMap r) (MapValueInlineFields r) (IsAnyValue r) (IsUnresolvedStruct r) (UnresolvedTypeName r) (InlineFields r) (Enum r) (Default r) (Example r) (Pattern r) (MinLength r) (MaxLength r) (MinItems r) (MaxItems r) (UniqueItems r) (Minimum r) (Maximum r).
Definition set_Format {float64 : Type} (v : string) (r : ResolvedField float64)
  : ResolvedField float64 :=
  MkResolvedField (Name r) (GoName r) (Description r) (Required r) (Nullable r) (Deprecated r) (GoType r) (OpenAPIType r) v (IsArray r) (ItemsType r) (ItemsInlineFields r) (IsMap r) (MapValueInlineFields r) (IsAnyValue r) (IsUnresolvedStruct r) (UnresolvedTypeName r) (InlineFields r) (Enum r) (Default r) (Example r) (Pattern r) (MinLength r) (MaxLength r) (MinItems r) (MaxItems r) (UniqueItems r) (Minimum r) (Maximum r).
Definition set_IsArray {float64 : Type} (v : bool) (r : ResolvedField float64)
  : ResolvedField float64 :=
  MkResolvedField (Name r) (GoName r) (Description r) (Required r) (Nullable r) (Deprecated r) (GoType r) (OpenAPIType r) (Format r) v (ItemsType r) (ItemsInlineFields r) (IsMap r) (MapValueInlineFields r) (IsAnyValue r) (IsUnresolvedStruct r) (UnresolvedTypeName r) (InlineFields r) (Enum r) (Default r) (Example r) (Pattern r) (MinLength r) (MaxLength r) (MinItems r) (MaxItems r) (UniqueItems r) (Minimum r) (Maximum r).
Definition set_ItemsType {float64 : Type} (v : string) (r : ResolvedField float64)
  : ResolvedField float64 :=
  MkResolvedField (Name r) (GoName r) (Description r) (Required r) (Nullable r) (Deprecated r) (GoType r) (OpenAPIType r) (Format r) (IsArray r) v (ItemsInlineFields r) (IsMap r) (MapValueInlineFields r) (IsAnyValue r) (IsUnresolvedStruct r) (UnresolvedTypeName r) (InlineFields r) (Enum r) (Default r) (Example r) (Pattern r) (MinLength r) (MaxLength r) (MinItems r) (MaxItems r) (UniqueItems r) (Minimum r) (Maximum r).
Definition set_ItemsInlineFields {float64 : Type} (v : option (list (ResolvedField float64))) (r : ResolvedField float64)
  : ResolvedField float64 :=
  MkResolvedField (Name r) (GoName r) (Description r) (Required r) (Nullable r) (Deprecated r) (GoType r) (OpenAPIType r) (Format r) (IsArray r) (ItemsType r) v (IsMap r) (MapValueInlineFields r) (IsAnyValue r) (IsUnresolvedStruct r) (UnresolvedTypeName r) (InlineFields r) (Enum r) (Default r) (Example r) (Pattern r) (MinLength r) (MaxLength r) (MinItems r) (MaxItems r) (UniqueItems r) (Minimum r) (Maximum r).
Definition set_IsMap {float64 : Type} (v : bool) (r : ResolvedField float64)
  : ResolvedField float64 :=
  MkResolvedField (Name r) (GoName r) (Description r) (Required r) (Nullable r) (Deprecated r) (GoType r) (OpenAPIType r) (Format r) (IsArray r) (ItemsType r) (ItemsInlineFields r) v (MapValueInlineFields r) (IsAnyValue r) (IsUnresolvedStruct r) (UnresolvedTypeName r) (InlineFields r) (Enum r) (Default r) (Example r) (Pattern r) (MinLength r) (MaxLength r) (MinItems r) (MaxItems r) (UniqueItems r) (Minimum r) (Maximum r).
Definition set_MapValueInlineFields {float64 : Type} (v : option (list (ResolvedField float64))) (r : ResolvedField float64)
  : ResolvedField float64 :=
  MkResolvedField (Name r) (GoName r) (Description r) (Required r) (Nullable r) (Deprecated r) (GoType r) (OpenAPIType r) (Format r) (IsArray r) (ItemsType r) (ItemsInlineFields r) (IsMap r) v (IsAnyValue r) (IsUnresolvedStruct r) (UnresolvedTypeName r) (InlineFields r) (Enum r) (Default r) (Example r) (Pattern r) (MinLength r) (MaxLength r) (MinItems r) (MaxItems r) (UniqueItems r) (Minimum r) (Maximum r).
Definition set_IsAnyValue {float64 : Type} (v : bool) (r : ResolvedField float64)
  : ResolvedField float64 :=
  MkResolvedField (Name r) (GoName r) (Description r) (Required r) (Nullable r) (Deprecated r) (GoType r) (OpenAPIType r) (Format r) (IsArray r) (ItemsType r) (ItemsInlineFields r) (IsMap r) (MapValueInlineFields r) v (IsUnresolvedStruct r) (UnresolvedTypeName r) (InlineFields r) (Enum r) (Default r) (Example r) (Pattern r) (MinLength r) (MaxLength r) (MinItems r) (MaxItems r) (UniqueItems r) (Minimum r) (Maximum r).
Definition set_IsUnresolvedStruct {float64 : Type} (v : bool) (r : ResolvedField float64)
  : ResolvedField float64 :=
  MkResolvedField (Name r) (GoName r) (Description r) (Required r) (Nullable r) (Deprecated r) (GoType r) (OpenAPIType r) (Format r) (IsArray r) (ItemsType r) (ItemsInlineFields r) (IsMap r) (MapValueInlineFields r) (IsAnyValue r) v (UnresolvedTypeName r) (InlineFields r) (Enum r) (Default r) (Example r) (Pattern r) (MinLength r) (MaxLength r) (MinItems r) (MaxItems r) (UniqueItems r) (Minimum r) (Maximum r).
Definition set_UnresolvedTypeName {float64 : Type} (v : string) (r : ResolvedField float64)
  : ResolvedField float64 :=
  MkResolvedField (Name r) (GoName r) (Description r) (Required r) (Nullable r) (Deprecated r) (GoType r) (OpenAPIType r) (Format r) (IsArray r) (ItemsType r) (ItemsInlineFields r) (IsMap r) (MapValueInlineFields r) (IsAnyValue r) (IsUnresolvedStruct r) v (InlineFields r) (Enum r) (Default r) (Example r) (Pattern r) (MinLength r) (MaxLength r) (MinItems r) (MaxItems r) (UniqueItems r) (Minimum r) (Maximum r).
Definition set_InlineFields {float64 : Type} (v : option (list (ResolvedField float64))) (r : ResolvedField float64)
  : ResolvedField float64 :=
  MkResolvedField (Name r) (GoName r) (Description r) (Required r) (Nullable r) (Deprecated r) (GoType r) (OpenAPIType r) (Format r) (IsArray r) (ItemsType r) (ItemsInlineFields r) (IsMap r) (MapValueInlineFields r) (IsAnyValue r) (IsUnresolvedStruct r) (UnresolvedTypeName r) v (Enum r) (Default r) (Example r) (Pattern r) (MinLength r) (MaxLength r) (MinItems r) (MaxItems r) (UniqueItems r) (Minimum r) (Maximum r).
Definition set_Enum {float64 : Type} (v : list string) (r : ResolvedField float64)
  : ResolvedField float64 :=
  MkResolvedField (Name r) (GoName r) (Description r) (Required r) (Nullable r) (Deprecated r) (GoType r) (OpenAPIType r) (Format r) (IsArray r) (ItemsType r) (ItemsInlineFields r) (IsMap r) (MapValueInlineFields r) (IsAnyValue r) (IsUnresolvedStruct r) (UnresolvedTypeName r) (InlineFields r) v (Default r) (Example r) (Pattern r) (MinLength r) (MaxLength r) (MinItems r) (MaxItems r) (UniqueItems r) (Minimum r) (Maximum r).
Definition set_Default {float64 : Type} (v : string) (r : ResolvedField float64)
  : ResolvedField float64 :=
  MkResolvedField (Name r) (GoName r) (Description r) (Required r) (Nullable r) (Deprecated r) (GoType r) (OpenAPIType r) (Format r) (IsArray r) (ItemsType r) (ItemsInlineFields r) (IsMap r) (MapValueInlineFields r) (IsAnyValue r) (IsUnresolvedStruct r) (UnresolvedTypeName r) (InlineFields r) (Enum r) v (Example r) (Pattern r) (MinLength r) (MaxLength r) (MinItems r) (MaxItems r) (UniqueItems r) (Minimum r) (Maximum r).
Definition set_Example {float64 : Type} (v : string) (r : ResolvedField float64)
  : ResolvedField float64 :=
  MkResolvedField (Name r) (GoName r) (Description r) (Required r) (Nullable r) (Deprecated r) (GoType r) (OpenAPIType r) (Format r) (IsArray r) (ItemsType r) (ItemsInlineFields r) (IsMap r) (MapValueInlineFields r) (IsAnyValue r) (IsUnresolvedStruct r) (UnresolvedTypeName r) (InlineFields r) (Enum r) (Default r) v (Pattern r) (MinLength r) (MaxLength r) (MinItems r) (MaxItems r) (UniqueItems r) (Minimum r) (Maximum r).
Definition set_Pattern {float64 : Type} (v : string) (r : ResolvedField float64)
  : ResolvedField float64 :=
  MkResolvedField (Name r) (GoName r) (Description r) (Required r) (Nullable r) (Deprecated r) (GoType r) (OpenAPIType r) (Format r) (IsArray r) (ItemsType r) (ItemsInlineFields r) (IsMap r) (MapValueInlineFields r) (IsAnyValue r) (IsUnresolvedStruct r) (UnresolvedTypeName r) (InlineFields r) (Enum r) (Default r) (Example r) v (MinLength r) (MaxLength r) (MinItems r) (MaxItems r) (UniqueItems r) (Minimum r) (Maximum r).
Definition set_MinLength {float64 : Type} (v : option Z) (r : ResolvedField float64)
  : ResolvedField float64 :=
  MkResolvedField (Name r) (GoName r) (Description r) (Required r) (Nullable r) (Deprecated r) (GoType r) (OpenAPIType r) (Format r) (IsArray r) (ItemsType r) (ItemsInlineFields r) (IsMap r) (MapValueInlineFields r) (IsAnyValue r) (IsUnresolvedStruct r) (UnresolvedTypeName r) (InlineFields r) (Enum r) (Default r) (Example r) (Pattern r) v (MaxLength r) (MinItems r) (MaxItems r) (UniqueItems r) (Minimum r) (Maximum r).
Definition set_MaxLength {float64 : Type} (v : option Z) (r : ResolvedField float64)
  : ResolvedField float64 :=
  MkResolvedField (Name r) (GoName r) (Description r) (Required r) (Nullable r) (Deprecated r) (GoType r) (OpenAPIType r) (Format r) (IsArray r) (ItemsType r) (ItemsInlineFields r) (IsMap r) (MapValueInlineFields r) (IsAnyValue r) (IsUnresolvedStruct r) (UnresolvedTypeName r) (InlineFields r) (Enum r) (Default r) (Example r) (Pattern r) (MinLength r) v (MinItems r) (MaxItems r) (UniqueItems r) (Minimum r) (Maximum r).
Definition set_MinItems {float64 : Type} (v : option Z) (r : ResolvedField float64)
  : ResolvedField float64 :=
  MkResolvedField (Name r) (GoName r) (Description r) (Required r) (Nullable r) (Deprecated r) (GoType r) (OpenAPIType r) (Format r) (IsArray r) (ItemsType r) (ItemsInlineFields r) (IsMap r) (MapValueInlineFields r) (IsAnyValue r) (IsUnresolvedStruct r) (UnresolvedTypeName r) (InlineFields r) (Enum r) (Default r) (Example r) (Pattern r) (MinLength r) (MaxLength r) v (MaxItems r) (UniqueItems r) (Minimum r) (Maximum r).
Definition set_MaxItems {float64 : Type} (v : option Z) (r : ResolvedField float64)
  : ResolvedField float64 :=
  MkResolvedField (Name r) (GoName r) (Description r) (Required r) (Nullable r) (Deprecated r) (GoType r) (OpenAPIType r) (Format r) (IsArray r) (ItemsType r) (ItemsInlineFields r) (IsMap r) (MapValueInlineFields r) (IsAnyValue r) (IsUnresolvedStruct r) (UnresolvedTypeName r) (InlineFields r) (Enum r) (Default r) (Example r) (Pattern r) (MinLength r) (MaxLength r) (MinItems r) v (UniqueItems r) (Minimum r) (Maximum r).
Definition set_UniqueItems {float64 : Type} (v : bool) (r : ResolvedField float64)
  : ResolvedField float64 :=
  MkResolvedField (Name r) (GoName r) (Description r) (Required r) (Nullable r) (Deprecated r) (GoType r) (OpenAPIType r) (Format r) (IsArray r) (ItemsType r) (ItemsInlineFields r) (IsMap r) (MapValueInlineFields r) (IsAnyValue r) (IsUnresolvedStruct r) (UnresolvedTypeName r) (InlineFields r) (Enum r) (Default r) (Example r) (Pattern r) (MinLength r) (MaxLength r) (MinItems r) (MaxItems r) v (Minimum r) (Maximum r).
Definition set_Minimum {float64 : Type} (v : option float64) (r : ResolvedField float64)
  : ResolvedField float64 :=
  MkResolvedField (Name r) (GoName r) (Description r) (Required r) (Nullable r) (Deprecated r) (GoType r) (OpenAPIType r) (Format r) (IsArray r) (ItemsType r) (ItemsInlineFields r) (IsMap r) (MapValueInlineFields r) (IsAnyValue r) (IsUnresolvedStruct r) (UnresolvedTypeName r) (InlineFields r) (Enum r) (Default r) (Example r) (Pattern r) (MinLength r) (MaxLength r) (MinItems r) (MaxItems r) (UniqueItems r) v (Maximum r).
Definition set_Maximum {float64 : Type} (v : option float64) (r : ResolvedField float64)
  : ResolvedField float64 :=
  MkResolvedField (Name r) (GoName r) (Description r) (Required r) (Nullable r) (Deprecated r) (GoType r) (OpenAPIType r) (Format r) (IsArray r) (ItemsType r) (ItemsInlineFields r) (IsMap r) (MapValueInlineFields r) (IsAnyValue r) (IsUnresolvedStruct r) (UnresolvedTypeName r) (InlineFields r) (Enum r) (Default r) (Example r) (Pattern r) (MinLength r) (MaxLength r) (MinItems r) (MaxItems r) (UniqueItems r) (Minimum r) v.

Import types.

Definition emptyField {float64 : Type} : ResolvedField float64 :=
  MkResolvedField "" "" "" false false false "" "" "" false "" None false None
    false false "" None [] "" "" "" None None None None false None None.

(** [specialTypeMapping] and the table [specialTypes]. *)
Record specialTypeMapping : Set := MkSpecial {
  openAPIType : string;
  format : string
}.

Definition specialTypes : list (string * list (string * specialTypeMapping)) :=
  [ ("time", [ ("Time", MkSpecial "string" "date-time") ]);
    ("net/url", [ ("URL", MkSpecial "string" "uri") ]);
    ("net/netip", [ ("Addr", MkSpecial "string" "");
                    ("AddrPort", MkSpecial "string" "");
                    ("Prefix", MkSpecial "string" "") ]);
    ("math/big", [ ("Int", MkSpecial "string" "");
                   ("Float", MkSpecial "string" "");
                   ("Rat", MkSpecial "string" "") ]);
    ("regexp", [ ("Regexp", MkSpecial "string" "") ]) ].

Definition resolveSpecialType (pkgPath typeName : string)
  : option specialTypeMapping :=
  match map_lookup specialTypes pkgPath with
  | Some pkgTypes => map_lookup pkgTypes typeName
  | None => None
  end.

Definition isSpecialType (pkgPath typeName : string) : bool :=
  match resolveSpecialType pkgPath typeName with Some _ => true | None => false end.

Definition SupportedTags : list string := [ "json"; "xml" ].

(** [schemaNames[typeName]] on a [map[string]bool]. *)
Definition inSchemaNames (schemaNames : gmap string bool) (typeName : string)
  : bool :=
  match schemaNames !! typeName with Some b => b | None => false end.

Section Host.

(** [reflect.StructTag(tag).Get(key)] of the Go library. *)
Variable StructTag_Get : string -> string -> string.
(** [t.String()] of [go/types], the key of the type cache. *)
Variable TypeString : Type_ -> string.
(** Go's [float64]. *)
Variable float64 : Type.

Abbreviation RField := (ResolvedField float64).
Abbreviation Cache := (gmap string TypeInfo.t).

Definition extractTagName (tag key : string) : string :=
  let value := StructTag_Get tag key in
  if isEmpty value then ""
  else
    match Split value "," with
    | part :: _ => part
    | [] => ""
    end.

Fixpoint tags_loop (tag : string) (tagKeys : list string)
         (goFieldName : string) : string :=
  match tagKeys with
  | [] => goFieldName
  | tagKey :: rest =>
      let tagValue := StructTag_Get tag tagKey in
      if isEmpty tagValue then tags_loop tag rest goFieldName
      else if String.eqb tagValue "-" then ""
      else
        let idx := Index tagValue "," in
        let name :=
          if negb (idx =? -1)%Z then slice_to tagValue idx else tagValue in
        if isEmpty name then tags_loop tag rest goFieldName
        else name
  end.

Definition resolveFieldNameFromTag (tag goFieldName : string) : string :=
  tags_loop tag SupportedTags goFieldName.

Definition set_info_type (ty fmt : string) (info : TypeInfo.t) : TypeInfo.t :=
  TypeInfo.Mk ty fmt (TypeInfo.IsArray info) (TypeInfo.ItemsType info)
    (TypeInfo.IsNullable info) (TypeInfo.IsAnyValue info).

(** The [switch basic.Kind()] of [resolveType]. *)
Definition basicInfo (info : TypeInfo.t) (kind : BasicKind) : TypeInfo.t :=
  match kind with
  | Bool => set_info_type "boolean" (TypeInfo.Format info) info
  | Int | Int8 | Int16 => set_info_type "integer" (TypeInfo.Format info) info
  | Int32 => set_info_type "integer" "int32" info
  | Int64 => set_info_type "integer" "int64" info
  | Uint | Uint8 | Uint16 | Uint32 | Uint64 =>
      set_info_type "integer" (TypeInfo.Format info) info
  | Float32 => set_info_type "number" "float" info
  | Float64 => set_info_type "number" "double" info
  | String => set_info_type "string" (TypeInfo.Format info) info
  | _ => set_info_type "string" (TypeInfo.Format info) info
  end.

Definition unwrapPointer (t : Type_) : Type_ :=
  match t with
  | Pointer elem => elem
  | _ => t
  end.

Definition isPointer (t : Type_) : bool :=
  match t with
  | Pointer _ => true
  | _ => false
  end.

(** [resolveType], with the type cache of the resolver passed in and
    out. *)
Fixpoint resolveType (t : Type_) (typeCache : Cache) {struct t}
  : TypeInfo.t * Cache :=
  let typeStr := TypeString t in
  match typeCache !! typeStr with
  | Some cached => (cached, typeCache)
  | None =>
      let info :=
        TypeInfo.Mk "" "" false "" (isPointer t) false in
      match unwrapPointer t with
      | Slice elem =>
          let '(elemInfo, typeCache) := resolveType elem typeCache in
          let info :=
            TypeInfo.Mk "array" (TypeInfo.Format info) true
              (TypeInfo.OpenAPIType elemInfo)
              (TypeInfo.IsNullable info) (TypeInfo.IsAnyValue info) in
          (info, <[typeStr := info]> typeCache)
      | Alias _ rhs => resolveType rhs typeCache
      | Named obj underlying =>
          let pkgPath :=
            match Pkg obj with Some path => path | None => "" end in
          match resolveSpecialType pkgPath (ObjName obj) with
          | Some specialType =>
              let info :=
                set_info_type (openAPIType specialType) (format specialType)
                  info in
              (info, <[typeStr := info]> typeCache)
          | None => resolveType underlying typeCache
          end
      | Basic kind =>
          let info := basicInfo info kind in
          (info, <[typeStr := info]> typeCache)
      | Interface =>
          let info :=
            TypeInfo.Mk (TypeInfo.OpenAPIType info) (TypeInfo.Format info)
              (TypeInfo.IsArray info) (TypeInfo.ItemsType info)
              (TypeInfo.IsNullable info) true in
          (info, <[typeStr := info]> typeCache)
      | _ =>
          let info := set_info_type "string" (TypeInfo.Format info) info in
          (info, <[typeStr := info]> typeCache)
      end
  end.

(** [checkUnresolvedStruct]: the name it stores in
    [resolved.UnresolvedTypeName] when it sets
    [resolved.IsUnresolvedStruct], and [None] when it leaves
    [resolved] as it is. *)
Fixpoint checkUnresolvedStruct (t : Type_) (schemaNames : gmap string bool)
         {struct t} : option string :=
  match unwrapPointer t with
  | Slice elem => checkUnresolvedStruct elem schemaNames
  | Map _ elem => checkUnresolvedStruct elem schemaNames
  | Named obj underlying =>
      if match Pkg obj with
         | Some path => isSpecialType path (ObjName obj)
         | None => false
         end
      then None
      else
        match underlying with
        | Struct _ =>
            let typeName := ObjName obj in
            if negb (inSchemaNames schemaNames typeName)
            then Some typeName
            else None
        | _ => checkUnresolvedStruct underlying schemaNames
        end
  | _ => None
  end.

Definition markUnresolved (unresolved : option string) (resolved : RField)
  : RField :=
  match unresolved with
  | Some typeName =>
      set_UnresolvedTypeName typeName (set_IsUnresolvedStruct true resolved)
  | None => resolved
  end.

(** The copy of a [TypeInfo] into the resolved field. *)
Definition applyTypeInfo (typeInfo : TypeInfo.t) (resolved : RField) : RField :=
  set_IsAnyValue (TypeInfo.IsAnyValue typeInfo)
    (set_Nullable (TypeInfo.IsNullable typeInfo)
       (set_ItemsType (TypeInfo.ItemsType typeInfo)
          (set_IsArray (TypeInfo.IsArray typeInfo)
             (set_Format (TypeInfo.Format typeInfo)
                (set_OpenAPIType (TypeInfo.OpenAPIType typeInfo) resolved))))).

Definition AnonResolver : Type :=
  Type_ -> gmap string bool -> Cache -> option (list RField) * Cache.

Definition resolveSliceOfAnonymousStruct_with (resolveAnonymousStruct : AnonResolver)
  : AnonResolver :=
  fun t schemaNames typeCache =>
    match unwrapPointer t with
    | Slice elem => resolveAnonymousStruct elem schemaNames typeCache
    | _ => (None, typeCache)
    end.

Definition resolveMapOfAnonymousStruct_with (resolveAnonymousStruct : AnonResolver)
  : AnonResolver :=
  fun t schemaNames typeCache =>
    match unwrapPointer t with
    | Map _ elem => resolveAnonymousStruct elem schemaNames typeCache
    | _ => (None, typeCache)
    end.

(** The classification chain that [resolveField] and the field loop of
    [resolveAnonymousStruct] both carry out on a fresh field:
    anonymous struct, slice of anonymous struct, map of anonymous
    struct, else [checkUnresolvedStruct] and [resolveType]. *)
Definition classifyField (resolveAnonymousStruct : AnonResolver)
           (fieldType : Type_) (schemaNames : gmap string bool)
           (resolved : RField) (typeCache : Cache) : RField * Cache :=
  match resolveAnonymousStruct fieldType schemaNames typeCache with
  | (Some inlineFields, typeCache) =>
      (set_OpenAPIType "object" (set_InlineFields (Some inlineFields) resolved),
       typeCache)
  | (None, typeCache) =>
      match resolveSliceOfAnonymousStruct_with resolveAnonymousStruct
              fieldType schemaNames typeCache with
      | (Some itemFields, typeCache) =>
          (set_ItemsInlineFields (Some itemFields)
             (set_ItemsType "object"
                (set_OpenAPIType "array" (set_IsArray true resolved))),
           typeCache)
      | (None, typeCache) =>
          match resolveMapOfAnonymousStruct_with resolveAnonymousStruct
                  fieldType schemaNames typeCache with
          | (Some mapValueFields, typeCache) =>
              (set_MapValueInlineFields (Some mapValueFields)
                 (set_OpenAPIType "object" (set_IsMap true resolved)),
               typeCache)
          | (None, typeCache) =>
              let resolved :=
                markUnresolved (checkUnresolvedStruct fieldType schemaNames)
                  resolved in
              let '(typeInfo, typeCache) := resolveType fieldType typeCache in
              (applyTypeInfo typeInfo resolved, typeCache)
          end
      end
  end.

(** A fresh [ResolvedField] with [Name], [GoName], [GoType] and
    [Required] set. *)
Definition newField (fieldName : string) (field : types.Field Type_) : RField :=
  set_Required (negb (Contains (Tag field) "omitempty"))
    (set_GoType (TypeString (FieldType field))
       (set_GoName (FieldName field)
          (set_Name fieldName emptyField))).

Section FieldsLoop.
Variable resolveOne : types.Field Type_ -> Cache -> option RField * Cache.

(** [for i := 0; i < structType.NumFields(); i++]: the fields that
    [resolveOne] does not skip, in order. *)
Fixpoint fields_loop (fields : list (types.Field Type_)) (typeCache : Cache)
  : list RField * Cache :=
  match fields with
  | [] => ([], typeCache)
  | field :: rest =>
      let '(resolvedField, typeCache) := resolveOne field typeCache in
      let '(more, typeCache) := fields_loop rest typeCache in
      (match resolvedField with
       | Some resolvedField => resolvedField :: more
       | None => more
       end, typeCache)
  end.
End FieldsLoop.

Fixpoint resolveAnonymousStruct (t : Type_) (schemaNames : gmap string bool)
         (typeCache : Cache) {struct t} : option (list RField) * Cache :=
  let loop (fields : list (types.Field Type_)) :=
    fields_loop
      (fun field typeCache =>
         if negb (Exported field) then (None, typeCache)
         else
           let fieldName :=
             resolveFieldNameFromTag (Tag field) (FieldName field) in
           if isEmpty fieldName then (None, typeCache)
           else
             let resolvedField := newField fieldName field in
             let '(resolvedField, typeCache) :=
               classifyField resolveAnonymousStruct (FieldType field)
                 schemaNames resolvedField typeCache in
             (Some resolvedField, typeCache))
      fields typeCache in
  match unwrapPointer t with
  | Struct fields =>
      let '(fields, typeCache) := loop fields in (Some fields, typeCache)
  | _ => (None, typeCache)
  end.

Definition resolveSliceOfAnonymousStruct : AnonResolver :=
  resolveSliceOfAnonymousStruct_with resolveAnonymousStruct.

Definition resolveMapOfAnonymousStruct : AnonResolver :=
  resolveMapOfAnonymousStruct_with resolveAnonymousStruct.

(** [if cond { update }] and [if ptr != nil { update }] on the field
    being resolved. *)
Definition when (cond : bool) (update : RField -> RField) (resolved : RField)
  : RField :=
  if cond then update resolved else resolved.

Definition whenSet {A : Type} (ptr : option A) (update : RField -> RField)
           (resolved : RField) : RField :=
  match ptr with
  | Some _ => update resolved
  | None => resolved
  end.

(** The overrides that [resolveField] and [resolveFieldWithParamType]
    both apply when [annotation != nil], up to [Maximum]. *)
Definition applyAnnotation (annotation : Field.t float64) (resolved : RField)
  : RField :=
  let resolved :=
    when (negb (isEmpty (Field.Description annotation)))
      (set_Description (Field.Description annotation)) resolved in
  let resolved :=
    when (negb (isEmpty (Field.Format annotation)))
      (set_Format (Field.Format annotation)) resolved in
  let resolved :=
    when (negb (isEmpty (Field.Example annotation)))
      (set_Example (Field.Example annotation)) resolved in
  let resolved :=
    when (negb (isEmpty (Field.Default annotation)))
      (set_Default (Field.Default annotation)) resolved in
  let resolved :=
    when (negb (isEmpty (Field.Pattern annotation)))
      (set_Pattern (Field.Pattern annotation)) resolved in
  let resolved :=
    when (0 <? List.length (Field.Enum annotation))%nat
      (set_Enum (Field.Enum annotation)) resolved in
  let resolved :=
    whenSet (Field.MinLength annotation)
      (set_MinLength (Field.MinLength annotation)) resolved in
  let resolved :=
    whenSet (Field.MaxLength annotation)
      (set_MaxLength (Field.MaxLength annotation)) resolved in
  let resolved :=
    whenSet (Field.MinItems annotation)
      (set_MinItems (Field.MinItems annotation)) resolved in
  let resolved :=
    whenSet (Field.MaxItems annotation)
      (set_MaxItems (Field.MaxItems annotation)) resolved in
  let resolved :=
    when (Field.UniqueItems annotation) (set_UniqueItems true) resolved in
  let resolved :=
    whenSet (Field.Minimum annotation)
      (set_Minimum (Field.Minimum annotation)) resolved in
  let resolved :=
    whenSet (Field.Maximum annotation)
      (set_Maximum (Field.Maximum annotation)) resolved in
  resolved.

(** [resolveField]; its error result is always [nil], and the result
    is [None] for the [nil] field of a skipped field. *)
Definition resolveField (field : types.Field Type_)
           (annotation : option (Field.t float64))
           (schemaNames : gmap string bool) (typeCache : Cache)
  : option RField * Cache :=
  if negb (Exported field) then (None, typeCache)
  else
    let fieldName := resolveFieldNameFromTag (Tag field) (FieldName field) in
    if isEmpty fieldName then (None, typeCache)
    else
      let resolved := newField fieldName field in
      let '(resolved, typeCache) :=
        classifyField resolveAnonymousStruct (FieldType field) schemaNames
          resolved typeCache in
      let resolved :=
        match annotation with
        | Some annotation =>
            let resolved := applyAnnotation annotation resolved in
            set_Deprecated (Field.Deprecated annotation) resolved
        | None => resolved
        end in
      (Some resolved, typeCache).

(** [resolveFieldWithParamType] *)
Definition resolveFieldWithParamType (field : types.Field Type_)
           (annotation : option (Field.t float64)) (paramType : string)
           (typeCache : Cache) : option RField * Cache :=
  if negb (Exported field) then (None, typeCache)
  else
    let tag := Tag field in
    let tagName : option string :=
      if String.eqb paramType "path" then Some (extractTagName tag "path")
      else if String.eqb paramType "query" then Some (extractTagName tag "query")
      else if String.eqb paramType "header" then Some (extractTagName tag "header")
      else if String.eqb paramType "cookie" then Some (extractTagName tag "cookie")
      else
        let tagName := resolveFieldNameFromTag tag (FieldName field) in
        if isEmpty tagName then None else Some tagName in
    match tagName with
    | None => (None, typeCache)
    | Some tagName =>
        let tagName :=
          if String.eqb tagName "-" || isEmpty tagName
          then FieldName field else tagName in
        let resolved := newField tagName field in
        let '(typeInfo, typeCache) := resolveType (FieldType field) typeCache in
        let resolved := applyTypeInfo typeInfo resolved in
        let resolved :=
          match annotation with
          | Some annotation =>
              let resolved := applyAnnotation annotation resolved in
              let resolved :=
                when (Field.Nullable annotation) (set_Nullable true) resolved in
              when (Field.Deprecated annotation) (set_Deprecated true) resolved
          | None => resolved
          end in
        (Some resolved, typeCache)
    end.

(** [fmt.Sscanf(s, "%f", &val)] and [fmt.Sscanf(s, "%d", &val)]:
    the value read, or [None] on error. *)
Variable parseFloat : string -> option float64.
Variable parseInt : string -> option Z.

(** One [@name value] part of an inline [@field] comment: the
    [switch annotName] of [applyFieldAnnotations]. *)
Definition applyPart (annotName annotValue : string) (field : RField) : RField :=
  if String.eqb annotName "@description" then set_Description annotValue field
  else if String.eqb annotName "@format" then set_Format annotValue field
  else if String.eqb annotName "@example" then set_Example annotValue field
  else if String.eqb annotName "@default" then set_Default annotValue field
  else if String.eqb annotName "@pattern" then set_Pattern annotValue field
  else if String.eqb annotName "@enum"
  then set_Enum (List.map TrimSpace (Split annotValue ",")) field
  else if String.eqb annotName "@deprecated" then set_Deprecated true field
  else if String.eqb annotName "@minimum" then
    match parseFloat annotValue with
    | Some val => set_Minimum (Some val) field
    | None => field
    end
  else if String.eqb annotName "@maximum" then
    match parseFloat annotValue with
    | Some val => set_Maximum (Some val) field
    | None => field
    end
  else if String.eqb annotName "@minLength" then
    match parseInt annotValue with
    | Some val => set_MinLength (Some val) field
    | None => field
    end
  else if String.eqb annotName "@maxLength" then
    match parseInt annotValue with
    | Some val => set_MaxLength (Some val) field
    | None => field
    end
  else if String.eqb annotName "@minItems" then
    match parseInt annotValue with
    | Some val => set_MinItems (Some val) field
    | None => field
    end
  else if String.eqb annotName "@maxItems" then
    match parseInt annotValue with
    | Some val => set_MaxItems (Some val) field
    | None => field
    end
  else if String.eqb annotName "@uniqueItems" then set_UniqueItems true field
  else field.

Definition applyLine (line : string) (field : RField) : RField :=
  let line := TrimSpace line in
  if negb (HasPrefix line "@field") then field
  else
    let start := Index line "{" in
    let end_ := LastIndex line "}" in
    if (start =? -1)%Z || (end_ =? -1)%Z || (end_ <=? start)%Z then field
    else
      let content := slice line (start + 1) end_ in
      let parts := Split content "@" in
      fold_left
        (fun field part =>
           let part := TrimSpace part in
           if isEmpty part then field
           else
             let spaceIdx := Index part " " in
             if (0 <? spaceIdx)%Z
             then applyPart ("@" ++ slice_to part spaceIdx)
                    (TrimSpace (slice_from part (spaceIdx + 1))) field
             else applyPart ("@" ++ part) "" field)
        parts field.

(** [applyFieldAnnotations]; [comment] is [None] for [nil], else the
    [Lines] of the comment block. *)
Definition applyFieldAnnotations (field : RField) (comment : option (list string))
  : RField :=
  match comment with
  | None => field
  | Some lines => fold_left (fun field line => applyLine line field) lines field
  end.

(** A field of an [*ast.StructType]: its names, the literal of its tag
    ([astField.Tag.Value], [None] when there is no tag) and the type
    that [TypesInfo.Types] gives for its type expression, if any. *)
Record astField : Type := MkAstField {
  Names : list string;
  TagLiteral : option string;
  TypeOf : option Type_
}.

Definition backquote : ascii := ascii_of_nat 96.

Definition tagOfLiteral (lit : option string) : string :=
  match lit with
  | None => ""
  | Some tag =>
      if (2 <=? String.length tag)%nat
         && (match String.get 0 tag with
             | Some c => Ascii.eqb c backquote | None => false end)
         && (match String.get (String.length tag - 1) tag with
             | Some c => Ascii.eqb c backquote | None => false end)
      then slice tag 1 (len tag - 1)
      else tag
  end.

(** The anonymous-struct chain of [resolveInlineStructFields]
    ([if schemaNames != nil]): as in [resolveField], without the last
    [else]. *)
Definition anonymousChain (fieldType : Type_) (schemaNames : gmap string bool)
           (resolved : RField) (typeCache : Cache) : RField * Cache :=
  match resolveAnonymousStruct fieldType schemaNames typeCache with
  | (Some inlineFields, typeCache) =>
      (set_OpenAPIType "object" (set_InlineFields (Some inlineFields) resolved),
       typeCache)
  | (None, typeCache) =>
      match resolveSliceOfAnonymousStruct fieldType schemaNames typeCache with
      | (Some itemFields, typeCache) =>
          (set_ItemsInlineFields (Some itemFields)
             (set_ItemsType "object"
                (set_OpenAPIType "array" (set_IsArray true resolved))),
           typeCache)
      | (None, typeCache) =>
          match resolveMapOfAnonymousStruct fieldType schemaNames typeCache with
          | (Some mapValueFields, typeCache) =>
              (set_MapValueInlineFields (Some mapValueFields)
                 (set_OpenAPIType "object" (set_IsMap true resolved)),
               typeCache)
          | (None, typeCache) => (resolved, typeCache)
          end
      end
  end.

(** The body of the loop of [resolveInlineStructFields] for one field;
    [None] when the field is skipped. *)
Definition resolveInlineStructField (astField : astField)
           (fieldComments : gmap string (list string)) (tagType : string)
           (schemaNames : option (gmap string bool)) (typeCache : Cache)
  : option RField * Cache :=
  match Names astField with
  | [] => (None, typeCache)
  | fieldName :: _ =>
      let tag := tagOfLiteral (TagLiteral astField) in
      let fieldType := TypeOf astField in
      let resolvedName : option string :=
        if String.eqb tagType "path" then Some (extractTagName tag "path")
        else if String.eqb tagType "query" then Some (extractTagName tag "query")
        else if String.eqb tagType "header" then Some (extractTagName tag "header")
        else if String.eqb tagType "cookie" then Some (extractTagName tag "cookie")
        else
          let resolvedName := resolveFieldNameFromTag tag fieldName in
          if isEmpty resolvedName then None else Some resolvedName in
      match resolvedName with
      | None => (None, typeCache)
      | Some resolvedName =>
          let resolvedName :=
            if isEmpty resolvedName || String.eqb resolvedName "-"
            then fieldName else resolvedName in
          let resolved : RField :=
            set_Required (negb (Contains tag "omitempty"))
              (set_Name resolvedName (set_GoName fieldName emptyField)) in
          let '(resolved, typeCache) :=
            match fieldType with
            | Some fieldType =>
                let resolved := set_GoType (TypeString fieldType) resolved in
                let '(resolved, typeCache) :=
                  match schemaNames with
                  | Some schemaNames =>
                      anonymousChain fieldType schemaNames resolved typeCache
                  | None => (resolved, typeCache)
                  end in
                if isEmpty (OpenAPIType resolved) then
                  let '(typeInfo, typeCache) := resolveType fieldType typeCache in
                  (applyTypeInfo typeInfo resolved, typeCache)
                else (resolved, typeCache)
            | None =>
                (set_OpenAPIType "string" (set_GoType "string" resolved), typeCache)
            end in
          let resolved :=
            applyFieldAnnotations resolved (fieldComments !! fieldName) in
          (Some resolved, typeCache)
      end
  end.

Fixpoint inline_fields_loop (fields : list astField)
         (fieldComments : gmap string (list string)) (tagType : string)
         (schemaNames : option (gmap string bool)) (typeCache : Cache)
  : list RField * Cache :=
  match fields with
  | [] => ([], typeCache)
  | astField :: rest =>
      let '(resolved, typeCache) :=
        resolveInlineStructField astField fieldComments tagType schemaNames
          typeCache in
      let '(more, typeCache) :=
        inline_fields_loop rest fieldComments tagType schemaNames typeCache in
      (match resolved with
       | Some resolved => resolved :: more
       | None => more
       end, typeCache)
  end.

(** [resolveInlineStructFields]; [structType] is [None] when the
    struct type or its field list is [nil]. *)
Definition resolveInlineStructFields (structType : option (list astField))
           (fieldComments : gmap string (list string)) (tagType : string)
           (schemaNames : option (gmap string bool)) (typeCache : Cache)
  : option (list RField) * Cache :=
  match structType with
  | None => (None, typeCache)
  | Some fields =>
      let '(fields, typeCache) :=
        inline_fields_loop fields fieldComments tagType schemaNames typeCache in
      (Some fields, typeCache)
  end.

End Host.

Arguments astField : clear implicits.

End Resolver.


(** ** block.go and inline.go: the other functions *)

Module Block.

(** [findUnescapedBrace]; [s] is [content[i:]]. *)
Fixpoint findUnescapedBrace_loop (i : Z) (s : string) (brace : ascii) : Z :=
  match s with
  | EmptyString => -1
  | String c r =>
      let step :=
        if Ascii.eqb c brace then i else findUnescapedBrace_loop (i + 1) r brace in
      if Ascii.eqb c backslash then
        match r with
        | String next r' =>
            if isEscapable next then findUnescapedBrace_loop (i + 2) r' brace
            else step
        | EmptyString => step
        end
      else step
  end.

Definition findUnescapedBrace (content : string) (brace : ascii) : Z :=
  findUnescapedBrace_loop 0 content brace.

(** The methods of [*ParsedAnnotation]. *)
Definition GetChildValue (pa : ParsedAnnotation) (name : string) : string :=
  match map_lookup (PChildren pa) name with
  | Some child => Value child
  | None => ""
  end.

Definition GetRepeatedChildren (pa : ParsedAnnotation) (name : string)
  : list ParsedAnnotation :=
  map_slice (RepeatedChildren pa) name.

Definition HasChild (pa : ParsedAnnotation) (name : string) : bool :=
  match map_lookup (PChildren pa) name with
  | Some _ => true
  | None => false
  end.

End Block.

Module Inline.

(** [s[i:j]] as Go evaluates it: [None] is the run-time panic for
    indices out of range. *)
Definition slice_checked (s : string) (i j : Z) : option string :=
  if (0 <=? i)%Z && (i <=? j)%Z && (j <=? len s)%Z then Some (slice s i j) else None.

(** The loop of [ConvertToMultiLine]: the lines it appends. *)
Fixpoint convert_loop (i : Z) (parts : list string) : list string :=
  match parts with
  | [] => []
  | part :: rest =>
      if (i =? 0)%Z && isEmpty (TrimSpace part) then convert_loop (i + 1) rest
      else
        let part := TrimSpace part in
        if isEmpty part then convert_loop (i + 1) rest
        else ("  @" ++ part) :: convert_loop (i + 1) rest
  end.

(** [ConvertToMultiLine]; [None] when the slice expression panics. *)
Definition ConvertToMultiLine (inlineLine annotationName : string)
  : option (list string) :=
  let result := [annotationName ++ " {"] in
  let openIdx := Index inlineLine "{" in
  let closeIdx := LastIndex inlineLine "}" in
  if (openIdx =? -1)%Z || (closeIdx =? -1)%Z then Some [inlineLine]
  else
    match slice_checked inlineLine (openIdx + 1) closeIdx with
    | None => None
    | Some content =>
        let content := TrimSpace content in
        let parts := Split content "@" in
        Some (result ++ convert_loop 0 parts ++ ["}"])%list
    end.

End Inline.

(** ** comments.go: the lines of a comment block *)

Module Comments.

(** [HasAnnotation] of a comment block, which is [None] for [nil],
    else its [Lines]. *)
Definition HasAnnotation (cb : option (list string)) (annotation : string) : bool :=
  match cb with
  | None => false
  | Some lines => existsb (fun line => HasPrefix line annotation) lines
  end.

(** The loop of [GetAnnotationLines]. *)
Fixpoint annotation_lines (inAnnotation : bool) (lines : list string)
  : list string :=
  match lines with
  | [] => []
  | line :: rest =>
      if HasPrefix line "@" then line :: annotation_lines true rest
      else if inAnnotation then line :: annotation_lines inAnnotation rest
           else annotation_lines inAnnotation rest
  end.

Definition GetAnnotationLines (cb : option (list string)) : list string :=
  match cb with
  | None => []
  | Some lines => annotation_lines false lines
  end.

End Comments.

(** ** parser.go: from a parsed annotation to a field *)

Module ParserGo.

(** The loop of [strings.SplitN] for a non-empty separator: [count] is
    the number of separators still to be used. *)
Fixpoint genSplit (count : nat) (s sep : string) : list string :=
  match count with
  | O => [s]
  | S count' =>
      let m := Index s sep in
      if (m <? 0)%Z then [s]
      else slice_to s m :: genSplit count' (slice_from s (m + len sep)) sep
  end.

(** [strings.SplitN(s, sep, n)] for a non-empty [sep] and [n > 0]. *)
Definition SplitN (s sep : string) (n : Z) : list string :=
  let n := if (len s + 1 <? n)%Z then len s + 1 else n in
  genSplit (Z.to_nat (n - 1)) s sep.

Record BindTarget : Set := MkBindTarget {
  Wrapper : string;
  Field : string
}.

(** [ParseBindTarget]; [None] is the [nil] result. *)
Definition ParseBindTarget (value : string) : option BindTarget :=
  match SplitN (TrimSpace value) "." 2 with
  | [wrapper; field] => Some (MkBindTarget (TrimSpace wrapper) (TrimSpace field))
  | _ => None
  end.

Definition extractBaseType (typeName : string) : string :=
  let idx := Index typeName "[" in
  if (0 <? idx)%Z then slice_to typeName idx else typeName.

Section Host.
(** Go's [float64], [strconv.ParseFloat(s, 64)] and [strconv.Atoi]:
    the value read, or [None] on error. *)
Variable float64 : Type.
Variable ParseFloat : string -> option float64.
Variable Atoi : string -> option Z.

(** [parser.Field] in full: [Name], [GoType] and [Required], which
    [Field.t] leaves out, and the members of [Field.t]. *)
Record ParsedField : Type := MkParsedField {
  Name : string;
  GoType : string;
  Required : bool;
  annotation : Field.t float64
}.

(** A numeric member: set when the value of the child is not empty
    and the parser of the host reads it without error. *)
Definition numberOf {A : Type} (parse : string -> option A) (v : string)
  : option A :=
  if negb (isEmpty v) then parse v else None.

Definition convertParsedField (fieldName : string) (parsed : ParsedAnnotation)
  : ParsedField :=
  let enum := Block.GetChildValue parsed "@enum" in
  MkParsedField fieldName "" false
    (Field.Mk
       fieldName
       false
       (Block.GetChildValue parsed "@description")
       (Block.GetChildValue parsed "@format")
       (Block.GetChildValue parsed "@example")
       (if negb (isEmpty enum) then List.map TrimSpace (Split enum ",") else [])
       (Block.GetChildValue parsed "@default")
       (numberOf ParseFloat (Block.GetChildValue parsed "@minimum"))
       (numberOf ParseFloat (Block.GetChildValue parsed "@maximum"))
       (numberOf Atoi (Block.GetChildValue parsed "@minLength"))
       (numberOf Atoi (Block.GetChildValue parsed "@maxLength"))
       (numberOf Atoi (Block.GetChildValue parsed "@minItems"))
       (numberOf Atoi (Block.GetChildValue parsed "@maxItems"))
       (Block.HasChild parsed "@uniqueItems")
       (Block.GetChildValue parsed "@pattern")
       (Block.HasChild parsed "@deprecated")).

(** The body of the field loop of [parseSchemas] and of
    [parseParameters] for the comment of one field: [None] when the
    field is passed over, else the field or the error that the
    function returns.  [fieldNode] is the node that
    [AnnotationSchema.GetChild] returns for [@field]. *)
Definition fieldOfComment (structName fieldName : string)
           (fieldComment : option (list string))
  : option (Schema.result ParsedField) :=
  if negb (Comments.HasAnnotation fieldComment "@field") then None
  else
    let fieldLines := Comments.GetAnnotationLines fieldComment in
    if IsInlineFormat fieldLines then
      match ParseInlineAnnotation (first fieldLines) "@field" fieldNode with
      | Error err =>
          Some (Error ("failed to parse inline @field for " ++ structName
                         ++ "." ++ fieldName ++ ": " ++ err))
      | Ok parsedField => Some (Ok (convertParsedField fieldName parsedField))
      end
    else
      match ParseAnnotationBlock fieldLines "@field" (Some fieldNode) with
      | Error err =>
          Some (Error ("failed to parse @field for " ++ structName
                         ++ "." ++ fieldName ++ ": " ++ err))
      | Ok parsedField => Some (Ok (convertParsedField fieldName parsedField))
      end.
End Host.

Arguments MkParsedField {float64}.
Arguments Name {float64}.
Arguments GoType {float64}.
Arguments Required {float64}.
Arguments annotation {float64}.

End ParserGo.

(** ** schema.go: the validation of the grammar *)

Module SchemaValidate.

Record ValidationError : Set := MkValidationError {
  Node : string;
  Message : string
}.

(** [Validate] of a schema node; [None] is the [nil] error.  The children
    are visited in the order of the list, where Go visits the map in an
    order of its own. *)
Fixpoint Validate (n : SchemaNode) : option ValidationError :=
  match n with
  | MkSchemaNode name type required _ repeatable _ children =>
      if required && repeatable then
        Some (MkValidationError name
                "annotation cannot be both required and repeatable")
      else if AnnotationType_eqb type MarkerAnnotation
              && (0 <? List.length children)%nat then
        Some (MkValidationError name "marker annotations cannot have children")
      else if AnnotationType_eqb type BlockAnnotation
              && (List.length children =? 0)%nat && negb (CanBeEmpty n) then
        Some (MkValidationError name "block annotations must have children")
      else
        (fix each (l : list (string * SchemaNode)) : option ValidationError :=
           match l with
           | [] => None
           | child :: rest =>
               match Validate (snd child) with
               | Some err => Some err
               | None => each rest
               end
           end) children
  end.

(** [ValidateSchemaIntegrity] *)
Definition ValidateSchemaIntegrity : option ValidationError :=
  Validate AnnotationSchema.

End SchemaValidate.

(** ** resolver.go: the field lists of schemas and parameters *)

Module ResolverMore.
Import Resolver.
Import types (Type_).

Definition extractTypeArg (aliasOf : string) : string :=
  let start := Index aliasOf "[" in
  let end_ := LastIndex aliasOf "]" in
  if (0 <? start)%Z && (start <? end_)%Z then slice aliasOf (start + 1) end_
  else "".

Section Host.
Variable StructTag_Get : string -> string -> string.
Variable TypeString : Type_ -> string.
Variable float64 : Type.

(** [for _, f := range fields { if f.GoName == field.Name() { ...;
    break } }] *)
Definition findAnnotation (annotations : list (Field.t float64))
           (goName : string) : option (Field.t float64) :=
  List.find (fun f => String.eqb (Field.GoName f) goName) annotations.

(** The field loop of [resolveSchema]. *)
Definition schemaFields (annotations : list (Field.t float64))
           (schemaNames : gmap string bool)
           (fields : list (types.Field Type_)) (typeCache : gmap string TypeInfo.t)
  : list (ResolvedField float64) * gmap string TypeInfo.t :=
  fields_loop float64
    (fun field typeCache =>
       resolveField StructTag_Get TypeString float64 field
         (findAnnotation annotations (types.FieldName field)) schemaNames
         typeCache)
    fields typeCache.

(** The field loop of [resolveParameter]. *)
Definition parameterFields (annotations : list (Field.t float64))
           (paramType : string)
           (fields : list (types.Field Type_)) (typeCache : gmap string TypeInfo.t)
  : list (ResolvedField float64) * gmap string TypeInfo.t :=
  fields_loop float64
    (fun field typeCache =>
       resolveFieldWithParamType StructTag_Get TypeString float64 field
         (findAnnotation annotations (types.FieldName field)) paramType
         typeCache)
    fields typeCache.
End Host.

End ResolverMore.

(** * Vocabulary of the properties *)

(** ** Parser *)

Module ParserSpec.

(** A single left-to-right decoding pass: a backslash followed by one of
    the four escapable characters yields that character, any other
    character is copied. *)
Fixpoint decodeOnce (s : string) : string :=
  match s with
  | EmptyString => EmptyString
  | String c r =>
      if Ascii.eqb c backslash then
        match r with
        | String next r' =>
            if isEscapable next then String next (decodeOnce r')
            else String c (decodeOnce r)
        | EmptyString => String c EmptyString
        end
      else String c (decodeOnce r)
  end.

(** No NUL byte occurs in [s]. *)
Fixpoint noNul (s : string) : bool :=
  match s with
  | EmptyString => true
  | String c r => negb (Ascii.eqb c nul) && noNul r
  end.

(** The five passes of [UnescapeValue]. *)
Definition pass1 (s : string) : string := replace_loop "\\" backslashPlaceholder O s.
Definition pass2 (s : string) : string := replace_loop "\{" "{" O s.
Definition pass3 (s : string) : string := replace_loop "\}" "}" O s.
Definition pass4 (s : string) : string := replace_loop "\@" "@" O s.
Definition pass5 (s : string) : string := replace_loop backslashPlaceholder "\" O s.

Definition isBlank (c : ascii) : bool := Ascii.eqb c " " || Ascii.eqb c tab.

(** [line[p-1]] is a space or a tab and [line[p]] is an opening brace. *)
Definition openerAt (line : string) (p : Z) : bool :=
  match at_ line (p - 1), at_ line p with
  | Some c, Some d => isBlank c && Ascii.eqb d "{"
  | _, _ => false
  end.

(** The scan for a blank followed by a brace, without the escape rule. *)
Fixpoint scanOpener (i : Z) (s : string) : Z :=
  match s with
  | String c ((String next _) as r) =>
      if isBlank c && Ascii.eqb next "{" then (i + 1)%Z else scanOpener (i + 1) r
  | _ => (-1)%Z
  end.

(** Induction on the grammar tree. *)
Section SchemaInduction.
Variable P : SchemaNode -> Prop.
Hypothesis step :
  forall name type required hasMetadata repeatable supportsMultiline children,
    Forall (fun e => P (snd e)) children ->
    P (MkSchemaNode name type required hasMetadata repeatable
                    supportsMultiline children).

Fixpoint SchemaNode_induction (n : SchemaNode) : P n :=
  match n with
  | MkSchemaNode name type required hasMetadata repeatable supportsMultiline
                 children =>
      step name type required hasMetadata repeatable supportsMultiline children
        ((fix all (l : list (string * SchemaNode))
            : Forall (fun e => P (snd e)) l :=
            match l with
            | [] => @List.Forall_nil _ _
            | e :: rest =>
                @List.Forall_cons _ _ e rest (SchemaNode_induction (snd e))
                  (all rest)
            end) children)
  end.
End SchemaInduction.

(** Every singleton child of [p] is a non-repeatable child of [node] in
    the grammar, every repeated child a repeatable one, and so on down
    the tree. *)
Inductive wellStored : SchemaNode -> ParsedAnnotation -> Prop :=
| WellStored (node : SchemaNode) (p : ParsedAnnotation) :
    (forall name child,
        In (name, child) (PChildren p) ->
        exists childNode,
          GetChild node name = Some childNode
          /\ Repeatable childNode = false /\ wellStored childNode child) ->
    (forall name children,
        In (name, children) (RepeatedChildren p) ->
        exists childNode,
          GetChild node name = Some childNode
          /\ Repeatable childNode = true
          /\ forall child, In child children -> wellStored childNode child) ->
    wellStored node p.

(** The keys of a Go map kept as its list of entries. *)
Definition keys {V : Type} (m : list (string * V)) : list string := List.map fst m.

End ParserSpec.

(** ** Resolver *)

Module ResolverSpec.
Import Resolver.
Import types (Type_, Field, FieldType, FieldName, Exported, Tag).

Fixpoint size (t : Type_) : nat :=
  match t with
  | types.Basic _ | types.Interface | types.Signature | types.TypeParam _ => 1
  | types.Pointer e | types.Slice e | types.Array _ e | types.Chan e => S (size e)
  | types.Map k e => S (size k + size e)
  | types.Struct fields =>
      S ((fix sum (l : list (Field Type_)) : nat :=
            match l with
            | [] => O
            | f :: rest => (size (FieldType f) + sum rest)%nat
            end) fields)
  | types.Named _ u => S (size u)
  | types.Alias _ r => S (size r)
  end.

Definition kindName (kind : types.BasicKind) : string :=
  match kind with
  | types.Invalid => "invalid type"
  | types.Bool => "bool"
  | types.Int => "int"
  | types.Int8 => "int8"
  | types.Int16 => "int16"
  | types.Int32 => "int32"
  | types.Int64 => "int64"
  | types.Uint => "uint"
  | types.Uint8 => "uint8"
  | types.Uint16 => "uint16"
  | types.Uint32 => "uint32"
  | types.Uint64 => "uint64"
  | types.Uintptr => "uintptr"
  | types.Float32 => "float32"
  | types.Float64 => "float64"
  | types.Complex64 => "complex64"
  | types.Complex128 => "complex128"
  | types.String => "string"
  | types.UnsafePointer => "unsafe.Pointer"
  | types.UntypedBool => "untyped bool"
  | types.UntypedInt => "untyped int"
  | types.UntypedRune => "untyped rune"
  | types.UntypedFloat => "untyped float"
  | types.UntypedComplex => "untyped complex"
  | types.UntypedString => "untyped string"
  | types.UntypedNil => "untyped nil"
  end.

Definition objString (obj : types.TypeName) : string :=
  match types.Pkg obj with
  | Some path => path ++ "." ++ types.ObjName obj
  | None => types.ObjName obj
  end.

(** A rendering of a type in the manner of [types.TypeString], used as
    the cache key where a statement is evaluated on a concrete type. *)
Fixpoint typeString (t : Type_) : string :=
  match t with
  | types.Basic kind => kindName kind
  | types.Pointer e => "*" ++ typeString e
  | types.Slice e => "[]" ++ typeString e
  | types.Array n e => "[" ++ itoa n ++ "]" ++ typeString e
  | types.Map k e => "map[" ++ typeString k ++ "]" ++ typeString e
  | types.Struct fields =>
      "struct{"
        ++ (fix all (l : list (Field Type_)) : string :=
              match l with
              | [] => ""
              | f :: rest =>
                  FieldName f ++ " " ++ typeString (FieldType f) ++ "; "
                  ++ all rest
              end) fields
        ++ "}"
  | types.Named obj _ | types.Alias obj _ | types.TypeParam obj => objString obj
  | types.Interface => "interface{}"
  | types.Chan e => "chan " ++ typeString e
  | types.Signature => "func()"
  end.

(** The part of a tag value before its first comma. *)
Fixpoint beforeComma (s : string) : string :=
  match s with
  | String c r => if Ascii.eqb c "," then EmptyString else String c (beforeComma r)
  | EmptyString => EmptyString
  end.

(** The fallback chain in the words of the specification: the [json]
    tag, then the [xml] tag, then the Go field name; a tag that is
    exactly [-] omits the field (the empty result), a tag with an empty
    name part passes on to the next. *)
Definition fallbackName (json xml goFieldName : string) : string :=
  if String.eqb json "-" then ""
  else if negb (isEmpty (beforeComma json)) then beforeComma json
  else if String.eqb xml "-" then ""
  else if negb (isEmpty (beforeComma xml)) then beforeComma xml
  else goFieldName.

(** The raw tag contains the substring [omitempty]. *)
Definition omitempty (tag : string) : bool := Contains tag "omitempty".

Inductive Classification : Set :=
| PrimitiveType | ArrayType | MapType | InlineObject | AnyValue.

Definition isSome {A : Type} (o : option A) : bool :=
  match o with Some _ => true | None => false end.

Definition isPrimitiveName (ty : string) : bool :=
  String.eqb ty "string" || String.eqb ty "integer" || String.eqb ty "number"
  || String.eqb ty "boolean".

(** A [TypeInfo] of [resolveType] is an array, an any-value or a
    primitive. *)
Definition info_ok (info : TypeInfo.t) : bool :=
  if TypeInfo.IsArray info
  then String.eqb (TypeInfo.OpenAPIType info) "array"
       && negb (TypeInfo.IsAnyValue info)
  else if TypeInfo.IsAnyValue info then isEmpty (TypeInfo.OpenAPIType info)
       else isPrimitiveName (TypeInfo.OpenAPIType info).

(** Every entry of the type cache is such a [TypeInfo]. *)
Definition cache_ok (typeCache : gmap string TypeInfo.t) : Prop :=
  forall key info, typeCache !! key = Some info -> info_ok info = true.

Section Fields.
Variable Get : string -> string -> string.
Variable TS : Type_ -> string.
Variable float64 : Type.
Abbreviation RField := (ResolvedField float64).

(** The fields of a struct that the resolver does not skip. *)
Definition keptFields (fields : list (Field Type_)) : list (Field Type_) :=
  List.filter
    (fun f => Exported f
              && negb (isEmpty (resolveFieldNameFromTag Get (Tag f) (FieldName f))))
    fields.

(** [rs] are the resolved fields of the anonymous struct [t]: one for
    each field that is kept, in order, with [Required] set from the
    tag of its field, and so on for the anonymous structs below. *)
Inductive requiredFromTags : Type_ -> list RField -> Prop :=
| RequiredFromTags (t : Type_) (fields : list (Field Type_)) (rs : list RField) :
    unwrapPointer t = types.Struct fields ->
    Forall2 fieldRequired (keptFields fields) rs ->
    requiredFromTags t rs
with fieldRequired : Field Type_ -> RField -> Prop :=
| FieldRequired (f : Field Type_) (r : RField) :
    GoName r = FieldName f ->
    Required r = negb (omitempty (Tag f)) ->
    nestedRequired (FieldType f) r ->
    fieldRequired f r
with nestedRequired : Type_ -> RField -> Prop :=
| NestedRequired (t : Type_) (r : RField) :
    (forall l, InlineFields r = Some l -> requiredFromTags t l) ->
    (forall l, ItemsInlineFields r = Some l ->
               exists e, unwrapPointer t = types.Slice e /\ requiredFromTags e l) ->
    (forall l, MapValueInlineFields r = Some l ->
               exists k e, unwrapPointer t = types.Map k e
                           /\ requiredFromTags e l) ->
    nestedRequired t r.

Definition noInline (r : RField) : Prop :=
  InlineFields r = None /\ ItemsInlineFields r = None
  /\ MapValueInlineFields r = None.

Definition anonSpec (rec : AnonResolver float64) (bound : nat) : Prop :=
  forall t sn c rs c2,
    (size t < bound)%nat -> rec t sn c = (Some rs, c2) -> requiredFromTags t rs.

(** The body of the field loop of [resolveAnonymousStruct]. *)
Definition anonBody (rec : AnonResolver float64) (sn : gmap string bool)
           (field : Field Type_) (typeCache : gmap string TypeInfo.t)
  : option RField * gmap string TypeInfo.t :=
  if negb (Exported field) then (None, typeCache)
  else
    let fieldName := resolveFieldNameFromTag Get (Tag field) (FieldName field) in
    if isEmpty fieldName then (None, typeCache)
    else
      let resolvedField := newField TS float64 fieldName field in
      let '(resolvedField, typeCache) :=
        classifyField TS float64 rec (FieldType field) sn resolvedField
          typeCache in
      (Some resolvedField, typeCache).

(** The classifications of a resolved field; each asks for its own
    mark and for the absence of the marks of the others. *)
Definition classifiedAs (r : RField) (c : Classification) : bool :=
  match c with
  | InlineObject =>
      isSome (InlineFields r) && negb (IsArray r) && negb (IsMap r)
      && negb (IsAnyValue r) && String.eqb (OpenAPIType r) "object"
  | ArrayType =>
      IsArray r && negb (isSome (InlineFields r)) && negb (IsMap r)
      && negb (IsAnyValue r) && String.eqb (OpenAPIType r) "array"
  | MapType =>
      IsMap r && negb (isSome (InlineFields r)) && negb (IsArray r)
      && negb (IsAnyValue r) && String.eqb (OpenAPIType r) "object"
  | AnyValue =>
      IsAnyValue r && negb (isSome (InlineFields r)) && negb (IsArray r)
      && negb (IsMap r) && isEmpty (OpenAPIType r)
  | PrimitiveType =>
      negb (isSome (InlineFields r)) && negb (IsArray r) && negb (IsMap r)
      && negb (IsAnyValue r) && isPrimitiveName (OpenAPIType r)
  end.

(** Exactly one classification holds of [r]. *)
Definition uniquelyClassified (r : RField) : Prop :=
  exists c, classifiedAs r c = true
            /\ forall c', classifiedAs r c' = true -> c' = c.

(** [P] holds of [r] and of every field nested in it. *)
Inductive everyField (P : RField -> Prop) : RField -> Prop :=
| EveryField (r : RField) :
    P r ->
    (forall l, InlineFields r = Some l -> Forall (everyField P) l) ->
    (forall l, ItemsInlineFields r = Some l -> Forall (everyField P) l) ->
    (forall l, MapValueInlineFields r = Some l -> Forall (everyField P) l) ->
    everyField P r.

(** The part of a resolved field that the type resolution decides. *)
Definition shape (r : RField) :=
  (Required r, GoName r, OpenAPIType r, IsArray r, IsMap r, IsAnyValue r,
   IsUnresolvedStruct r, InlineFields r, ItemsInlineFields r,
   MapValueInlineFields r).

Definition allClassified : RField -> Prop := everyField uniquelyClassified.

Definition anonOk (rec : AnonResolver float64) (bound : nat) : Prop :=
  forall t sn c o c2,
    (size t < bound)%nat -> cache_ok c -> rec t sn c = (o, c2) ->
    cache_ok c2 /\ forall rs, o = Some rs -> Forall allClassified rs.

(** A fresh field: no classification yet. *)
Definition blank (r : RField) : Prop :=
  OpenAPIType r = "" /\ IsArray r = false /\ IsMap r = false
  /\ IsAnyValue r = false /\ IsUnresolvedStruct r = false
  /\ InlineFields r = None /\ ItemsInlineFields r = None
  /\ MapValueInlineFields r = None.

End Fields.

(** ** The type cache and the paths that resolve fields *)

(** What the cache holds under the key of [t], if anything, is what
    [resolveType] computes for [t] when the key is absent. *)
Definition ownEntry (TS : Type_ -> string) (t : Type_)
           (typeCache : gmap string TypeInfo.t) : Prop :=
  forall cached,
    typeCache !! TS t = Some cached -> cached = fst (resolveType TS t ∅).

(** The type part of [r] is that of [info], as [resolveType] returned
    it, and [r] has no fields of an anonymous struct. *)
Definition typedBy {float64 : Type} (r : ResolvedField float64) (info : TypeInfo.t)
  : Prop :=
  OpenAPIType r = TypeInfo.OpenAPIType info
  /\ IsArray r = TypeInfo.IsArray info
  /\ ItemsType r = TypeInfo.ItemsType info
  /\ IsAnyValue r = TypeInfo.IsAnyValue info
  /\ IsMap r = false /\ InlineFields r = None
  /\ ItemsInlineFields r = None /\ MapValueInlineFields r = None.

(** The four kinds of parameter struct. *)
Definition isParamKind (paramType : string) : bool :=
  String.eqb paramType "path" || String.eqb paramType "query"
  || String.eqb paramType "header" || String.eqb paramType "cookie".

(** The fields of a struct that [resolveFieldWithParamType] does not
    skip. *)
Definition paramKept (Get : string -> string -> string) (paramType : string)
           (f : Field Type_) : bool :=
  Exported f
  && (isParamKind paramType
      || negb (isEmpty (resolveFieldNameFromTag Get (Tag f) (FieldName f)))).

(** The fields of an inline declaration that
    [resolveInlineStructFields] does not skip. *)
Definition inlineKept (Get : string -> string -> string) (tagType : string)
           (a : astField) : bool :=
  match Names a with
  | [] => false
  | fieldName :: _ =>
      isParamKind tagType
      || negb (isEmpty (resolveFieldNameFromTag Get (tagOfLiteral (TagLiteral a))
                          fieldName))
  end.

End ResolverSpec.
(** ** The inline and the multi-line form of a block *)

Module InlineSpec.

(** Every character of [s] satisfies [p]. *)
Fixpoint allChars (p : ascii -> bool) (s : string) : bool :=
  match s with
  | EmptyString => true
  | String c r => p c && allChars p r
  end.

(** A character with no role in the syntax: not white space, not one of
    the four escapable characters, not NUL. *)
Definition plainChar (c : ascii) : bool :=
  negb (isSpace c) && negb (isEscapable c) && negb (Ascii.eqb c nul).

(** The characters that a text may hold only behind a backslash, and
    NUL, which it may not hold. *)
Definition isMarkup (c : ascii) : bool :=
  Ascii.eqb c "{" || Ascii.eqb c "}" || Ascii.eqb c "@" || Ascii.eqb c nul.

Definition isBrace (c : ascii) : bool := Ascii.eqb c "{" || Ascii.eqb c "}".

(** [s] read as the scanners of the parser read it, an escape sequence
    as one unit: none of the other characters is [bad]. *)
Fixpoint clean (bad : ascii -> bool) (s : string) : bool :=
  match s with
  | EmptyString => true
  | String c r =>
      if Ascii.eqb c backslash then
        match r with
        | String next r' => if isEscapable next then clean bad r' else clean bad r
        | EmptyString => true
        end
      else negb (bad c) && clean bad r
  end.

(** The word of an annotation name, after its at sign. *)
Definition nameOk (word : string) : bool :=
  negb (isEmpty word) && allChars plainChar word.

(** The text of a child: every brace and at sign of it is escaped, and
    it has no white space around it. *)
Definition textOk (text : string) : bool :=
  clean isMarkup text && String.eqb (TrimSpace text) text.

(** A header of a block: the annotation name and its metadata, without
    braces or backslashes. *)
Definition headerChar (c : ascii) : bool :=
  negb (isBrace c || Ascii.eqb c backslash).

Definition headerOk (header : string) : bool := allChars headerChar header.

(** A child is the word of its name and its text. *)
Definition Child : Type := string * string.

Definition childName (c : Child) : string := "@" ++ fst c.

Definition childTail (c : Child) : string :=
  if isEmpty (snd c) then fst c else fst c ++ " " ++ snd c.

Definition childLine (c : Child) : string := "@" ++ childTail c.

(** A child that both forms are to read alike: a value annotation of
    the grammar of [node], or a flag without text. *)
Definition childOk (node : SchemaNode) (c : Child) : bool :=
  nameOk (fst c) && textOk (snd c)
  && match GetChild node (childName c) with
     | Some childNode =>
         match NodeType childNode with
         | ValueAnnotation => true
         | FlagAnnotation => isEmpty (snd c)
         | _ => false
         end
     | None => false
     end.

Definition isBlock (node : SchemaNode) : bool :=
  AnnotationType_eqb (NodeType node) BlockAnnotation
  || AnnotationType_eqb (NodeType node) SubCommand.

(** The children on one line, a space between them. *)
Fixpoint inlineBody (cs : list Child) : string :=
  match cs with
  | [] => ""
  | [c] => childLine c
  | c :: rest => childLine c ++ " " ++ inlineBody rest
  end.

(** The inline form: [header { child child }]. *)
Definition inlineLine (header : string) (cs : list Child) : string :=
  header ++ " { " ++ inlineBody cs ++ " }".

(** The multi-line form: the header with the opening brace, one line
    for each child, and the closing brace. *)
Definition multiLines (header : string) (cs : list Child) : list string :=
  (header ++ " {") :: (List.map childLine cs ++ ["}"])%list.

(** A parsed annotation without what records the layout: the source
    lines and the metadata. *)
Fixpoint forget (p : ParsedAnnotation) : ParsedAnnotation :=
  match p with
  | MkParsed name _ children repeatedChildren value isFlag _ =>
      MkParsed name ""
        (List.map (fun e => (fst e, forget (snd e))) children)
        (List.map (fun e => (fst e, List.map forget (snd e))) repeatedChildren)
        value isFlag []
  end.

(** The children of a parsed annotation: their names, values and flags,
    and so on below them. *)
Definition children (p : ParsedAnnotation)
  : list (string * ParsedAnnotation) * list (string * list ParsedAnnotation) :=
  (PChildren (forget p), RepeatedChildren (forget p)).

(** Both parses fail, or both succeed with the same children. *)
Definition sameChildren (a b : result ParsedAnnotation) : Prop :=
  match a, b with
  | Ok x, Ok y => children x = children y
  | Error _, Error _ => True
  | _, _ => False
  end.

(** Auxiliary notions of the proofs. *)

(** The character after a backslash that is not an escape sequence. *)
Definition loneAt (r : string) : Prop :=
  match r with
  | String next _ => isEscapable next = false
  | EmptyString => True
  end.

Definition protect (s : string) : string := replace_loop "\@" atPlaceholder O s.
Definition restore (s : string) : string := replace_loop atPlaceholder "\@" O s.

Fixpoint noAt (s : string) : bool :=
  match s with
  | EmptyString => true
  | String c r => negb (Ascii.eqb c "@") && noAt r
  end.

Definition headNotAt (q : string) : Prop :=
  match q with
  | String d _ => Ascii.eqb d "@" = false
  | EmptyString => True
  end.

(** The parts that [parseInlineChildren] gets for the children, after
    the empty part before the first at sign. *)
Fixpoint protectedParts (cs : list Child) : list string :=
  match cs with
  | [] => []
  | [c] => [protect (childTail c)]
  | c :: rest => (protect (childTail c) ++ " ") :: protectedParts rest
  end.

Definition wordOk (c : Child) : Prop := nameOk (fst c) = true /\ textOk (snd c) = true.

(** What [parseInlineChildren] reads in the part of a child. *)
Definition partFor (part : string) (c : Child) : Prop :=
  TrimSpace (RestoreEscapedAt part) = childTail c.

Definition onValues {V W : Type} (g : V -> W) (m : list (string * V))
  : list (string * W) :=
  List.map (fun e => (fst e, g (snd e))) m.

Definition withMetadata (node : SchemaNode) (lines : list string) (name : string)
  : ParsedAnnotation :=
  if HasMetadata node && (0 <? Z.of_nat (List.length lines))%Z
  then setMetadata (emptyParsed name lines) (ExtractMetadata (first lines) name)
  else emptyParsed name lines.

(** The error of the children, as [ParseAnnotationBlock] wraps it. *)
Definition wrapped (name : string) (a : result ParsedAnnotation)
  : result ParsedAnnotation :=
  match a with
  | Error err => Error ("failed to parse " ++ name ++ " children: " ++ err)
  | Ok result => Ok result
  end.

End InlineSpec.


(** * Vocabulary of the further properties *)

(** ** Escaping *)

Module EscapeSpec.

(** The text written with a backslash before every brace, at sign and
    backslash: what [UnescapeValue] documents as its input. *)
Fixpoint escaped (s : string) : string :=
  match s with
  | EmptyString => EmptyString
  | String c r =>
      if isEscapable c then String backslash (String c (escaped r))
      else String c (escaped r)
  end.

Definition notBlankOrBrace (c : ascii) : bool :=
  negb (Ascii.eqb c " " || Ascii.eqb c "{" || Ascii.eqb c tab).

Definition endsName (rest : string) : bool :=
  match rest with
  | EmptyString => true
  | String c _ => negb (notBlankOrBrace c)
  end.

(** A line as [ParseBracedBlock] returns it. *)
Definition contentLine (l : string) : Prop := TrimSpace l = l /\ l <> "".

End EscapeSpec.

Module HeaderSpec.
Import ParserSpec InlineSpec.

(** No brace of [s] follows a space or a tab. *)
Fixpoint noOpener (s : string) : bool :=
  match s with
  | String c ((String next _) as r) =>
      negb (isBlank c && Ascii.eqb next "{") && noOpener r
  | _ => true
  end.

(** No brace at all, escaped or not. *)
Definition noBrace (s : string) : bool := allChars (fun c => negb (isBrace c)) s.

End HeaderSpec.

Module ConvertSpec.
Import InlineSpec.

(** The parts that [ConvertToMultiLine] gets for children without an
    at sign in their text, after the empty part before the first child. *)
Fixpoint plainParts (cs : list Child) : list string :=
  match cs with
  | [] => []
  | [c] => [childTail c]
  | c :: rest => (childTail c ++ " ") :: plainParts rest
  end.

(** The lines that [ConvertToMultiLine] writes: the annotation name with
    the opening brace, one indented line for each child, and the closing
    brace. *)
Definition indented (c : Child) : string := "  " ++ childLine c.

Definition convertedLines (name : string) (cs : list Child) : list string :=
  (name ++ " {") :: (List.map indented cs ++ ["}"])%list.

(** The lines start with an opening line and end with a closing brace,
    and each line between them starts with two spaces and an at sign. *)
Definition convertedShape (name : string) (lines : list string) : Prop :=
  exists middle,
    lines = (name ++ " {") :: (middle ++ ["}"])%list
    /\ Forall (fun l => HasPrefix l "  @" = true /\ TrimSpace l <> "") middle.

End ConvertSpec.

Module FieldSpec.
Import InlineSpec.

(** No character of [s] is [c]. *)
Definition without (c : ascii) (s : string) : bool :=
  allChars (fun d => negb (Ascii.eqb d c)) s.

(** Both results are errors, or both are the same value. *)
Definition sameResult {A : Type} (a b : result A) : Prop :=
  match a, b with
  | Ok x, Ok y => x = y
  | Error _, Error _ => True
  | _, _ => False
  end.

End FieldSpec.

Module GrammarSpec.

(** No node of the grammar below [n], [n] included, is both required
    and repeatable, and no marker has children. *)
Fixpoint wellFormed (n : SchemaNode) : bool :=
  match n with
  | MkSchemaNode _ type required _ repeatable _ children =>
      negb (required && repeatable)
      && negb (AnnotationType_eqb type MarkerAnnotation
               && negb (match children with [] => true | _ :: _ => false end))
      && (fix all (l : list (string * SchemaNode)) : bool :=
            match l with
            | [] => true
            | child :: rest => wellFormed (snd child) && all rest
            end) children
  end.

End GrammarSpec.

Module ParameterSpec.
Import Resolver ResolverSpec.
Import types (Type_, Field, FieldType, FieldName, Exported, Tag).

(** The name of a field of a parameter struct: for the four kinds of
    parameter the part of the tag of that kind before its first comma,
    else the name of the fallback chain; the Go name of the field when
    that is empty or [-]. *)
Definition paramName (Get : string -> string -> string) (paramType : string)
           (f : Field Type_) : string :=
  let tagName :=
    if isParamKind paramType then beforeComma (Get (Tag f) paramType)
    else resolveFieldNameFromTag Get (Tag f) (FieldName f) in
  if String.eqb tagName "-" || isEmpty tagName then FieldName f else tagName.

End ParameterSpec.

Module CommentSpec.
Import Resolver InlineSpec.

(** The children of an inline [@field] comment, applied to a resolved
    field one after the other: each with its name and its text as it is
    written. *)
Definition appliedChildren (float64 : Type) (parseFloat : string -> option float64)
           (parseInt : string -> option Z) (cs : list Child)
           (field : ResolvedField float64) : ResolvedField float64 :=
  fold_left
    (fun field c => applyPart float64 parseFloat parseInt (childName c) (snd c) field)
    cs field.

(** The parts between the at signs of an inline line, after the part
    before the first child. *)
Definition spacedParts (cs : list Child) : list string :=
  List.map (fun c => childTail c ++ " ") cs.

(** A line that [applyFieldAnnotations] passes over. *)
Definition notFieldLine (line : string) : bool :=
  negb (HasPrefix (TrimSpace line) "@field").

End CommentSpec.

(** * Inputs of the worked examples *)

Module Examples.
Import Resolver ResolverSpec.
Import types (Type_, Field, FieldType, FieldName, Exported, Tag).

(** ** Annotation blocks *)

Definition fieldInline : string := "@field { @description X @format email }".
Definition fieldMultiLine : list string :=
  ["@field {"; "@description X"; "@format email"; "}"].

Definition nestedInline : string :=
  "@endpoint GET /users { @response 200 { @body User } }".
Definition nestedMultiLine : list string :=
  ["@endpoint GET /users {"; "@response 200 {"; "@body User"; "}"; "}"].

Definition pathLine : string :=
  "@endpoint GET /orgs/{orgId}/projects/{projectId} {".

(** The children of [fieldInline] and of [fieldMultiLine]. *)
Definition fieldChildren : list InlineSpec.Child :=
  [("description", "X"); ("format", "email")].

(** Children with escape sequences in their text, and a flag. *)
Definition patternChildren : list InlineSpec.Child :=
  [("pattern", "^\d\{2\}$"); ("deprecated", ""); ("example", "a\@b.c")].

(** A child that is not repeatable, twice. *)
Definition duplicateInline : string := "@field { @format email @format uuid }".
Definition duplicateMultiLine : list string :=
  ["@field {"; "@format email"; "@format uuid"; "}"].

(** A flag followed by text, in both forms. *)
Definition flagInline : string := "@field { @deprecated yes @format email }".
Definition flagMultiLine : list string :=
  ["@field {"; "@deprecated yes"; "@format email"; "}"].

(** A reference with an escaped at sign, in both forms. *)
Definition escapedInline : string :=
  "@endpoint GET /users { @tag users\@v2 @summary List }".
Definition escapedMultiLine : list string :=
  ["@endpoint GET /users {"; "@tag users\@v2"; "@summary List"; "}"].

(** ** Struct tags *)

Definition tagOf (key value : string) : string := key ++ ":" ++ Reflect.quoted value.

Definition jsonDashTag : string := tagOf "json" "-" ++ " " ++ tagOf "xml" "ShouldNotUse".
Definition xmlDashTag : string := tagOf "xml" "-".
Definition unnamedJsonTag : string :=
  tagOf "json" ",omitempty" ++ " " ++ tagOf "xml" "from_xml".
Definition omitemptyTag : string := tagOf "json" ",omitempty".
Definition namedTag : string := tagOf "json" "user_id" ++ " " ++ tagOf "xml" "UserName".

(** ** Go types and struct fields *)

Definition named (name : string) (underlying : Type_) : Type_ :=
  types.Named (types.MkTypeName (Some "example.com/app") name) underlying.

Definition Employee : Type_ :=
  named "Employee" (types.Struct [types.MkField "Name" true (types.Basic types.String) ""]).
Definition UserID : Type_ := named "UserID" (types.Basic types.String).
Definition Time : Type_ :=
  types.Named (types.MkTypeName (Some "time") "Time") (types.Struct []).

Definition fieldOf (name : string) (t : Type_) (tag : string) : Field Type_ :=
  types.MkField name true t tag.

(** [Manager *Employee], where [Employee] is a schema of the package. *)
Definition managerField : Field Type_ :=
  fieldOf "Manager" (types.Pointer Employee) (tagOf "json" "manager").
Definition nicknameField : Field Type_ :=
  fieldOf "Nickname" (types.Pointer (types.Basic types.String)) (tagOf "json" "nickname").
Definition ownerField : Field Type_ :=
  fieldOf "Owner" (types.Pointer UserID) (tagOf "json" "owner").
Definition createdField : Field Type_ :=
  fieldOf "Created" (types.Pointer Time) (tagOf "json" "created").
Definition detailsField : Field Type_ :=
  fieldOf "Details"
    (types.Pointer
       (types.Struct [fieldOf "Note" (types.Basic types.String) (tagOf "json" "note")]))
    (tagOf "json" "details").
(** [Address Address], where no schema is named [Address]. *)
Definition addressField : Field Type_ :=
  fieldOf "Address"
    (named "Address" (types.Struct [fieldOf "Street" (types.Basic types.String) ""]))
    (tagOf "json" "address").
Definition optionalField : Field Type_ :=
  fieldOf "Email" (types.Basic types.String) (tagOf "json" "email,omitempty").
Definition untaggedField : Field Type_ :=
  fieldOf "Email" (types.Basic types.String) "".
Definition hiddenField : Field Type_ :=
  types.MkField "email" false (types.Basic types.String) (tagOf "json" "email").

Definition schemaNames : gmap string bool := {[ "Employee" := true ]}.

(** An annotation that sets whatever a [@field] block can set. *)
Definition fullAnnotation : Field.t Z :=
  Field.Mk "Email" true "the address" "email" "a@b.c" ["x"; "y"] "d"
    (Some 0) (Some 9) (Some 1) (Some 64) (Some 1) (Some 2) true "^.+$" true.

(** The basic-kind table in the words of the specification, with an
    explicit format for [int32] and [int64] alone, and with [uintptr]
    among the kinds that are no integers: the OpenAPI type and the
    format. *)
Definition kindTable (kind : types.BasicKind) : string * string :=
  match kind with
  | types.Bool => ("boolean", "")
  | types.Int32 => ("integer", "int32")
  | types.Int64 => ("integer", "int64")
  | types.Int | types.Int8 | types.Int16
  | types.Uint | types.Uint8 | types.Uint16 | types.Uint32 | types.Uint64 =>
      ("integer", "")
  | types.Float32 => ("number", "float")
  | types.Float64 => ("number", "double")
  | types.String => ("string", "")
  | types.Uintptr | types.Invalid | types.Complex64 | types.Complex128
  | types.UnsafePointer | types.UntypedBool | types.UntypedInt
  | types.UntypedRune | types.UntypedFloat | types.UntypedComplex
  | types.UntypedString | types.UntypedNil => ("string", "")
  end.

(** The types that are neither a pointer, a slice, an alias, a named
    type, a basic type nor an interface. *)
Definition unrecognized (t : Type_) : bool :=
  match t with
  | types.Array _ _ | types.Map _ _ | types.Struct _ | types.Chan _
  | types.Signature | types.TypeParam _ => true
  | _ => false
  end.

(** [Addresses []Address] and [Grid [][]Address], where no schema is
    named [Address]. *)
Definition Address : Type_ :=
  named "Address" (types.Struct [fieldOf "Street" (types.Basic types.String) ""]).
Definition addressesField : Field Type_ :=
  fieldOf "Addresses" (types.Slice Address) (tagOf "json" "addresses").
Definition gridField : Field Type_ :=
  fieldOf "Grid" (types.Slice (types.Slice Address)) (tagOf "json" "grid").

(** A type cache that holds, under the string of [int32], an entry that
    was not stored for [int32]. *)
Definition foreignCache : gmap string TypeInfo.t :=
  {[ "int32" := TypeInfo.Mk "string" "" false "" false false ]}.

(** Fields of a parameter struct. *)
Definition limitField : Field Type_ :=
  fieldOf "Limit" (types.Basic types.Int) (tagOf "query" "limit,omitempty").
Definition idField : Field Type_ :=
  fieldOf "ID" (types.Basic types.String) (tagOf "path" "id").

(** An anonymous struct with an optional and a required field. *)
Definition contactStruct : Type_ :=
  types.Struct [optionalField; untaggedField].

(** The fields of an inline declaration: the tag is the literal of the
    source, between back quotes. *)
Definition literal (tag : string) : string :=
  String backquote (tag ++ String backquote "").
Definition inlineFields : list astField :=
  [ MkAstField ["Email"] (Some (literal (tagOf "json" "email,omitempty")))
      (Some (types.Basic types.String));
    MkAstField ["Age"] None (Some (types.Basic types.Int));
    MkAstField [] None (Some Address) ].
Definition inlineComments : gmap string (list string) :=
  {[ "Email" := ["@field { @description the address @deprecated }"] ]}.

(** A stand-in for the number parsers of the host, which [Required]
    does not depend on. *)
Definition noNumber {A : Type} (s : string) : option A := None.

End Examples.

(** * Facts about the parser *)

Module ParserFacts.
Import ParserSpec.

(** ** [strings.ReplaceAll] *)

Lemma HasPrefix_app (old x : string) : HasPrefix (old ++ x) old = true.
Proof.
  induction old as [|a o IH]; simpl; [reflexivity|].
  now rewrite Ascii.eqb_refl, IH.
Qed.

Lemma replace_skip (old new y x : string) :
  replace_loop old new (String.length y) (y ++ x) = replace_loop old new O x.
Proof.
  induction y as [|a y IH]; simpl; [reflexivity|exact IH].
Qed.

Lemma replace_match (a : ascii) (o new x : string) :
  replace_loop (String a o) new O (String a o ++ x)
  = new ++ replace_loop (String a o) new O x.
Proof.
  change (String a o ++ x) with (String a (o ++ x)).
  cbn [replace_loop].
  change (String a (o ++ x)) with (String a o ++ x).
  rewrite HasPrefix_app. f_equal.
  change (String.length (String a o) - 1)%nat with (S (String.length o) - 1)%nat.
  rewrite Nat.sub_succ, Nat.sub_0_r. apply replace_skip.
Qed.

Lemma replace_head_ne (a c : ascii) (o new r : string) :
  Ascii.eqb c a = false ->
  replace_loop (String a o) new O (String c r)
  = String c (replace_loop (String a o) new O r).
Proof.
  intros H. cbn [replace_loop HasPrefix]. now rewrite H.
Qed.

Lemma replace_second_ne (a b c : ascii) (o new r : string) :
  Ascii.eqb c b = false ->
  replace_loop (String a (String b o)) new O (String a (String c r))
  = String a (replace_loop (String a (String b o)) new O (String c r)).
Proof.
  intros H. cbn [replace_loop HasPrefix]. rewrite H.
  now rewrite andb_false_r, andb_false_l || rewrite andb_false_r.
Qed.

Lemma UnescapeValue_passes (s : string) :
  UnescapeValue s = pass5 (pass4 (pass3 (pass2 (pass1 s)))).
Proof. reflexivity. Qed.

Lemma passes_plain (c : ascii) (x : string) :
  Ascii.eqb c backslash = false -> Ascii.eqb c nul = false ->
  pass5 (pass4 (pass3 (pass2 (pass1 (String c x))))) = String c (pass5 (pass4 (pass3 (pass2 (pass1 x))))).
Proof.
  intros Hb Hn. unfold pass1, pass2, pass3, pass4, pass5, backslashPlaceholder.
  rewrite !(replace_head_ne _ c) by assumption. reflexivity.
Qed.

Lemma append_single (c : ascii) (y : string) : String c "" ++ y = String c y.
Proof. reflexivity. Qed.

Lemma replace_match2 (a b : ascii) (new x : string) :
  replace_loop (String a (String b "")) new O (String a (String b x))
  = new ++ replace_loop (String a (String b "")) new O x.
Proof. exact (replace_match a (String b "") new x). Qed.

Lemma replace_pass_placeholder (b : ascii) (new x : string) :
  replace_loop (String "\" (String b "")) new O (backslashPlaceholder ++ x)
  = backslashPlaceholder ++ replace_loop (String "\" (String b "")) new O x.
Proof. reflexivity. Qed.

Lemma replace_placeholder (new x : string) :
  replace_loop backslashPlaceholder new O (backslashPlaceholder ++ x)
  = new ++ replace_loop backslashPlaceholder new O x.
Proof. exact (replace_match nul ("BS" ++ String nul "") new x). Qed.

Lemma passes_backslash (x : string) :
  pass5 (pass4 (pass3 (pass2 (pass1 (String backslash (String backslash x))))))
  = String backslash (pass5 (pass4 (pass3 (pass2 (pass1 x))))).
Proof.
  unfold pass1 at 1. rewrite replace_match2. fold (pass1 x).
  unfold pass2 at 1. rewrite replace_pass_placeholder. fold (pass2 (pass1 x)).
  unfold pass3 at 1. rewrite replace_pass_placeholder. fold (pass3 (pass2 (pass1 x))).
  unfold pass4 at 1. rewrite replace_pass_placeholder. fold (pass4 (pass3 (pass2 (pass1 x)))).
  unfold pass5 at 1. rewrite replace_placeholder. reflexivity.
Qed.

Lemma passes_escape (n : ascii) (x : string) :
  isEscapable n = true -> Ascii.eqb n backslash = false ->
  pass5 (pass4 (pass3 (pass2 (pass1 (String backslash (String n x))))))
  = String n (pass5 (pass4 (pass3 (pass2 (pass1 x))))).
Proof.
  intros He Hb. unfold isEscapable in He. rewrite Hb, orb_false_r in He.
  assert (Hn : Ascii.eqb n nul = false).
  { destruct (Ascii.eqb_spec n nul) as [->|]; [discriminate He|reflexivity]. }
  unfold pass1 at 1. rewrite (replace_second_ne "\"%char "\"%char n) by assumption.
  rewrite (replace_head_ne "\"%char n) by assumption. fold (pass1 x).
  destruct (Ascii.eqb_spec n "{") as [->|H1].
  - unfold pass2 at 1. rewrite replace_match2, append_single. fold (pass2 (pass1 x)).
    unfold pass3 at 1. rewrite (replace_head_ne "\"%char "{") by reflexivity. fold (pass3 (pass2 (pass1 x))).
    unfold pass4 at 1. rewrite (replace_head_ne "\"%char "{") by reflexivity. fold (pass4 (pass3 (pass2 (pass1 x)))).
    unfold pass5 at 1, backslashPlaceholder. rewrite (replace_head_ne nul "{") by reflexivity. reflexivity.
  - destruct (Ascii.eqb_spec n "}") as [->|H2].
    + unfold pass2 at 1. rewrite (replace_second_ne "\"%char "{" "}") by reflexivity.
      rewrite (replace_head_ne "\"%char "}") by reflexivity. fold (pass2 (pass1 x)).
      unfold pass3 at 1. rewrite replace_match2, append_single. fold (pass3 (pass2 (pass1 x))).
      unfold pass4 at 1. rewrite (replace_head_ne "\"%char "}") by reflexivity. fold (pass4 (pass3 (pass2 (pass1 x)))).
      unfold pass5 at 1, backslashPlaceholder. rewrite (replace_head_ne nul "}") by reflexivity. reflexivity.
    + destruct (Ascii.eqb_spec n "@") as [->|H3]; [|discriminate He].
      unfold pass2 at 1. rewrite (replace_second_ne "\"%char "{" "@") by reflexivity.
      rewrite (replace_head_ne "\"%char "@") by reflexivity. fold (pass2 (pass1 x)).
      unfold pass3 at 1. rewrite (replace_second_ne "\"%char "}" "@") by reflexivity.
      rewrite (replace_head_ne "\"%char "@") by reflexivity. fold (pass3 (pass2 (pass1 x))).
      unfold pass4 at 1. rewrite replace_match2, append_single. fold (pass4 (pass3 (pass2 (pass1 x)))).
      unfold pass5 at 1, backslashPlaceholder. rewrite (replace_head_ne nul "@") by reflexivity. reflexivity.
Qed.

Lemma passes_lone (n : ascii) (x : string) :
  isEscapable n = false -> Ascii.eqb n nul = false ->
  pass5 (pass4 (pass3 (pass2 (pass1 (String backslash (String n x))))))
  = String backslash (String n (pass5 (pass4 (pass3 (pass2 (pass1 x)))))).
Proof.
  intros He Hn. unfold isEscapable in He.
  apply orb_false_elim in He as [He Hb].
  apply orb_false_elim in He as [He H3].
  apply orb_false_elim in He as [H1 H2].
  unfold pass1, pass2, pass3, pass4, pass5, backslashPlaceholder.
  rewrite (replace_second_ne "\"%char "\"%char n) by assumption.
  rewrite (replace_head_ne "\"%char n) by assumption.
  rewrite (replace_second_ne "\"%char "{" n) by assumption.
  rewrite (replace_head_ne "\"%char n) by assumption.
  rewrite (replace_second_ne "\"%char "}" n) by assumption.
  rewrite (replace_head_ne "\"%char n) by assumption.
  rewrite (replace_second_ne "\"%char "@" n) by assumption.
  rewrite (replace_head_ne "\"%char n) by assumption.
  rewrite (replace_head_ne nul "\"%char) by reflexivity.
  rewrite (replace_head_ne nul n) by assumption.
  reflexivity.
Qed.

Lemma UnescapeValue_decodeOnce_aux (s : string) :
  (noNul s = true -> UnescapeValue s = decodeOnce s)
  /\ (forall c, noNul (String c s) = true ->
                UnescapeValue (String c s) = decodeOnce (String c s)).
Proof.
  induction s as [|d r [IH1 IH2]].
  - split; [reflexivity|].
    intros c Hc. rewrite UnescapeValue_passes. cbn [decodeOnce].
    destruct (Ascii.eqb c backslash) eqn:Hb.
    + apply Ascii.eqb_eq in Hb. subst c. reflexivity.
    + cbn [noNul] in Hc. apply andb_prop in Hc as [Hc _]. apply negb_true_iff in Hc.
      rewrite passes_plain by assumption. reflexivity.
  - split; [apply IH2|].
    intros c Hc. cbn [noNul] in Hc.
    apply andb_prop in Hc as [Hc Hr]. apply negb_true_iff in Hc.
    pose proof Hr as Hr'. cbn [noNul] in Hr'.
    apply andb_prop in Hr' as [Hd Hr']. apply negb_true_iff in Hd.
    rewrite UnescapeValue_passes. cbn [decodeOnce].
    destruct (Ascii.eqb c backslash) eqn:Hb.
    + apply Ascii.eqb_eq in Hb. subst c.
      destruct (isEscapable d) eqn:He.
      * destruct (Ascii.eqb d backslash) eqn:Hdb.
        -- apply Ascii.eqb_eq in Hdb. subst d. rewrite passes_backslash.
           rewrite <- UnescapeValue_passes, IH1 by assumption. reflexivity.
        -- rewrite passes_escape by assumption.
           rewrite <- UnescapeValue_passes, IH1 by assumption. reflexivity.
      * rewrite passes_lone by assumption.
        rewrite <- UnescapeValue_passes, IH1 by assumption.
        assert (Hdb : Ascii.eqb d backslash = false).
        { unfold isEscapable in He. apply orb_false_elim in He as [_ He]. exact He. }
        change (decodeOnce (String d r)) with
          (if Ascii.eqb d backslash then
             match r with
             | String next r' =>
                 if isEscapable next then String next (decodeOnce r')
                 else String d (decodeOnce r)
             | EmptyString => String d EmptyString
             end
           else String d (decodeOnce r)).
        rewrite Hdb. reflexivity.
    + rewrite passes_plain by assumption.
      rewrite <- UnescapeValue_passes, IH2 by assumption. reflexivity.
Qed.

(** ** The block opener *)

Lemma escapable_not_blank (c : ascii) : isEscapable c = true -> isBlank c = false.
Proof.
  unfold isEscapable, isBlank. intros H.
  repeat (apply orb_prop in H as [H|H]);
    apply Ascii.eqb_eq in H; subst c; reflexivity.
Qed.

Lemma findBlockOpener_loop_eq (c d : ascii) (r : string) (i : Z) :
  findBlockOpener_loop i (String c (String d r))
  = if Ascii.eqb c backslash && isEscapable d
    then findBlockOpener_loop (i + 2) r
    else if isBlank c && Ascii.eqb d "{" then (i + 1)%Z
         else findBlockOpener_loop (i + 1) (String d r).
Proof. reflexivity. Qed.

Lemma scanOpener_eq (c d : ascii) (r : string) (i : Z) :
  scanOpener i (String c (String d r))
  = if isBlank c && Ascii.eqb d "{" then (i + 1)%Z
    else scanOpener (i + 1) (String d r).
Proof. reflexivity. Qed.

Lemma scanOpener_skip (d : ascii) (r : string) (i : Z) :
  isBlank d = false -> scanOpener i (String d r) = scanOpener (i + 1) r.
Proof.
  intros H. destruct r as [|e r']; [reflexivity|].
  rewrite scanOpener_eq, H. reflexivity.
Qed.

Lemma findBlockOpener_loop_scan (s : string) :
  (forall i, findBlockOpener_loop i s = scanOpener i s)
  /\ (forall c i, findBlockOpener_loop i (String c s) = scanOpener i (String c s)).
Proof.
  induction s as [|d r [IH1 IH2]].
  - split; intros; reflexivity.
  - split; [intros i; apply IH2|].
    intros c i. rewrite findBlockOpener_loop_eq, scanOpener_eq.
    destruct (Ascii.eqb c backslash && isEscapable d) eqn:He.
    + apply andb_prop in He as [Hc Hd]. apply Ascii.eqb_eq in Hc. subst c.
      change (isBlank backslash) with false. cbn [andb].
      rewrite IH1, (scanOpener_skip d) by (now apply escapable_not_blank).
      f_equal. lia.
    + rewrite IH2. reflexivity.
Qed.

Lemma findBlockOpener_scan (line : string) : findBlockOpener line = scanOpener 0 line.
Proof. apply findBlockOpener_loop_scan. Qed.

Lemma at_cons (c : ascii) (s : string) (p : Z) :
  (0 < p)%Z -> at_ (String c s) p = at_ s (p - 1).
Proof.
  intros H. unfold at_.
  destruct (Z.ltb_spec p 0); [lia|]. destruct (Z.ltb_spec (p - 1) 0); [lia|].
  replace (Z.to_nat p) with (S (Z.to_nat (p - 1))) by lia. reflexivity.
Qed.

Lemma at_nil (p : Z) : at_ "" p = None.
Proof. unfold at_. destruct (p <? 0)%Z; [reflexivity|]. now destruct (Z.to_nat p). Qed.

Lemma openerAt_cons (c : ascii) (s : string) (p : Z) :
  (1 < p)%Z -> openerAt (String c s) p = openerAt s (p - 1).
Proof.
  intros H. unfold openerAt. rewrite !at_cons by lia.
  replace (p - 1 - 1)%Z with (p - 1 - 1)%Z by lia. reflexivity.
Qed.

Lemma openerAt_low (s : string) (p : Z) : (p <= 0)%Z -> openerAt s p = false.
Proof.
  intros H. unfold openerAt, at_ at 1.
  destruct (Z.ltb_spec (p - 1) 0); [reflexivity|lia].
Qed.

Lemma scanOpener_spec (s : string) (i : Z) :
  let p := (scanOpener i s - i)%Z in
  (scanOpener i s = -1 /\ forall q, openerAt s q = false)%Z
  \/ ((0 < p)%Z /\ openerAt s p = true
      /\ forall q, (q < p)%Z -> openerAt s q = false).
Proof.
  revert i. induction s as [|c r IH]; intros i.
  - left. split; [reflexivity|]. intros q. unfold openerAt. now rewrite !at_nil.
  - cbn zeta. destruct r as [|d r'].
    + left. split; [reflexivity|]. intros q. unfold openerAt.
      destruct (Z_lt_le_dec 0 q).
      * rewrite (at_cons c "" q) by lia. rewrite at_nil. now destruct (at_ _ (q - 1)).
      * unfold at_ at 1. destruct (Z.ltb_spec (q - 1) 0); [reflexivity|lia].
    + rewrite scanOpener_eq.
      assert (H1 : openerAt (String c (String d r')) 1 = isBlank c && Ascii.eqb d "{")
        by reflexivity.
      destruct (isBlank c && Ascii.eqb d "{") eqn:Hb.
      * right. replace (i + 1 - i)%Z with 1%Z by lia.
        split; [lia|]. split; [exact H1|].
        intros q Hq. apply openerAt_low. lia.
      * assert (Hshift : forall q, openerAt (String c (String d r')) q
                                    = if (q <=? 1)%Z then false
                                      else openerAt (String d r') (q - 1)).
        { intros q. destruct (Z.leb_spec q 1).
          - destruct (Z.eq_dec q 1) as [->|]; [exact H1|]. apply openerAt_low. lia.
          - apply openerAt_cons. lia. }
        specialize (IH (i + 1)%Z). cbn zeta in IH.
        destruct IH as [[E N]|(P1 & P2 & P3)].
        -- left. split; [exact E|]. intros q. rewrite Hshift.
           destruct (q <=? 1)%Z; [reflexivity|apply N].
        -- right. remember (scanOpener (i + 1) (String d r')) as k eqn:Ek.
           replace (k - (i + 1))%Z with (k - i - 1)%Z in * by lia.
           split; [lia|]. split.
           ++ rewrite Hshift. destruct (Z.leb_spec (k - i) 1); [lia|exact P2].
           ++ intros q Hq. rewrite Hshift.
              destruct (Z.leb_spec q 1); [reflexivity|]. apply P3. lia.
Qed.

(** ** Stored children *)

Lemma map_lookup_In {V} (m : list (string * V)) (k : string) (v : V) :
  map_lookup m k = Some v -> In (k, v) m.
Proof.
  induction m as [|[k' v'] m IH]; cbn [map_lookup]; [discriminate|].
  destruct (String.eqb_spec k' k) as [->|].
  - intros [= ->]. now left.
  - intros H. right. now apply IH.
Qed.

Lemma In_map_lookup {V} (m : list (string * V)) (k : string) (v : V) :
  In (k, v) m -> exists w, map_lookup m k = Some w.
Proof.
  induction m as [|[k' v'] m IH]; cbn [map_lookup In]; [tauto|].
  intros [[= -> ->]|H].
  - rewrite String.eqb_refl. eauto.
  - destruct (String.eqb k' k); eauto.
Qed.

Lemma In_map_store {V} (m : list (string * V)) (key k : string) (x v : V) :
  In (k, v) (map_store m key x) -> (k = key /\ v = x) \/ In (k, v) m.
Proof.
  induction m as [|[k' v'] m IH]; cbn [map_store In].
  - intros [[= <- <-]|[]]. now left.
  - destruct (String.eqb_spec k' key) as [->|Hne]; cbn [In].
    + intros [[= <- <-]|H]; [now left|right; now right].
    + intros [H|H]; [right; now left|].
      destruct (IH H) as [?|?]; [now left|right; now right].
Qed.

Lemma withChild_GetChild {R} (node : SchemaNode) (name : string) (none : R)
      (some : SchemaNode -> R) :
  withChild node name none some
  = match GetChild node name with Some c => some c | None => none end.
Proof.
  unfold withChild, GetChild. induction (Children node) as [|[k v] m IH].
  - reflexivity.
  - cbn [map_lookup]. destruct (String.eqb k name); [reflexivity|exact IH].
Qed.

Lemma wellStored_leaf (node : SchemaNode) (p : ParsedAnnotation) :
  PChildren p = [] -> RepeatedChildren p = [] -> wellStored node p.
Proof.
  intros H1 H2. constructor; intros ? ? Hin; [rewrite H1 in Hin|rewrite H2 in Hin];
    destruct Hin.
Qed.

Lemma storeChild_wellStored (node childNode : SchemaNode) (name : string)
      (parsed result result' : ParsedAnnotation) :
  GetChild node name = Some childNode ->
  wellStored childNode parsed ->
  wellStored node result ->
  storeChild childNode name parsed result = Ok result' ->
  wellStored node result'.
Proof.
  intros Hg Hp Hr. unfold storeChild.
  destruct (Repeatable childNode) eqn:Hrep.
  - intros [= <-]. inversion Hr as [? ? HC HR]; subst.
    destruct result as [n m c r v f l]. cbn [setRepeatedChildren PChildren RepeatedChildren] in *.
    constructor; cbn [PChildren RepeatedChildren]; [exact HC|].
    intros k cs Hin. apply In_map_store in Hin as [[-> ->]|Hin]; [|now apply HR].
    exists childNode. split; [exact Hg|]. split; [exact Hrep|].
    intros child Hc. apply in_app_or in Hc as [Hc|[<-|[]]]; [|exact Hp].
    unfold map_slice in Hc. destruct (map_lookup r name) as [old|] eqn:Hl; [|destruct Hc].
    apply map_lookup_In in Hl. destruct (HR _ _ Hl) as (cn & Hcn & _ & Hall).
    rewrite Hg in Hcn. injection Hcn as <-. now apply Hall.
  - destruct (map_lookup (PChildren result) name); [discriminate|].
    intros [= <-]. inversion Hr as [? ? HC HR]; subst.
    destruct result as [n m c r v f l]. cbn [setChildren PChildren RepeatedChildren] in *.
    constructor; cbn [PChildren RepeatedChildren]; [|exact HR].
    intros k ch Hin. apply In_map_store in Hin as [[-> ->]|Hin]; [|now apply HC].
    exists childNode. auto.
Qed.

Lemma inline_loop_wellStored (node : SchemaNode) (parts : list string) :
  forall i result result',
    wellStored node result ->
    inline_loop i parts node result = Ok result' ->
    wellStored node result'.
Proof.
  induction parts as [|part rest IH]; intros i result result' Hr; cbn [inline_loop].
  - now intros [= <-].
  - destruct ((i =? 0)%Z && isEmpty (TrimSpace part)); [now apply IH|].
    destruct (isEmpty (TrimSpace (RestoreEscapedAt part))); [now apply IH|].
    set (p := TrimSpace (RestoreEscapedAt part)).
    set (name := if (IndexAny p _ =? -1)%Z then _ else _).
    destruct (GetChild node name) as [childNode|] eqn:Hg; [|discriminate].
    destruct (_ && _ && _); [discriminate|].
    destruct (storeChild _ _ _ _) as [result2|] eqn:Hs; [|discriminate].
    apply IH. eapply storeChild_wellStored; [exact Hg| |exact Hr|exact Hs].
    now apply wellStored_leaf.
Qed.

Lemma children_loop_wellStored (parse : ParseFn) (node : SchemaNode) :
  (forall name childNode lines r,
      GetChild node name = Some childNode ->
      parse childNode lines name = Ok r -> wellStored childNode r) ->
  forall lines skip result result',
    wellStored node result ->
    children_loop parse node lines skip result = Ok result' ->
    wellStored node result'.
Proof.
  intros Hparse lines. induction lines as [|line rest IH]; intros skip result result' Hr;
    cbn [children_loop].
  - now intros [= <-].
  - destruct skip as [|k]; [|now apply IH].
    destruct (isEmpty (TrimSpace line)); [now apply IH|].
    destruct (negb (HasPrefix line "@")); [now apply IH|].
    destruct (isEmpty (extractAnnotationName line)); [now apply IH|].
    rewrite withChild_GetChild.
    destruct (GetChild node (extractAnnotationName line)) as [childNode|] eqn:Hg;
      [|discriminate].
    destruct (if (0 <=? findBlockOpener line)%Z then _ else _) as [more consumed].
    destruct (parse childNode (line :: more) (extractAnnotationName line))
      as [parsed|] eqn:Hp; [|discriminate].
    destruct (storeChild _ _ _ _) as [result2|] eqn:Hs; [|discriminate].
    apply IH. eapply storeChild_wellStored; [exact Hg| |exact Hr|exact Hs].
    eapply Hparse; eassumption.
Qed.

Lemma GetChild_In (node : SchemaNode) (name : string) (child : SchemaNode) :
  GetChild node name = Some child -> In child (List.map snd (Children node)).
Proof.
  intros H. apply map_lookup_In in H. now apply (in_map snd) in H.
Qed.

Lemma ParseAnnotationBlock_node_wellStored (node : SchemaNode) :
  forall lines annotationName r,
    ParseAnnotationBlock_node node lines annotationName = Ok r ->
    wellStored node r.
Proof.
  induction node as [name type required hasMetadata repeatable supportsMultiline
                       children IH] using SchemaNode_induction.
  intros lines annotationName r.
  set (node := MkSchemaNode name type required hasMetadata repeatable
                            supportsMultiline children) in *.
  assert (Hchildren :
            forall cname childNode clines cr,
              GetChild node cname = Some childNode ->
              ParseAnnotationBlock_node childNode clines cname = Ok cr ->
              wellStored childNode cr).
  { intros cname childNode clines cr Hg. apply GetChild_In in Hg.
    apply in_map_iff in Hg as (e & <- & He).
    rewrite List.Forall_forall in IH. apply (IH e He). }
  assert (Hleaf : forall p : ParsedAnnotation,
             PChildren p = [] -> RepeatedChildren p = [] -> wellStored node p)
    by (intros; now apply wellStored_leaf).
  change (ParseAnnotationBlock_node node lines annotationName)
    with
      (let result := emptyParsed annotationName lines in
       if AnnotationType_eqb (NodeType node) MarkerAnnotation
       then Ok (setIsFlag result true)
       else if AnnotationType_eqb (NodeType node) FlagAnnotation
       then Ok (setIsFlag result true)
       else
         let result :=
           if HasMetadata node && (0 <? Z.of_nat (List.length lines))%Z
           then setMetadata result (ExtractMetadata (first lines) annotationName)
           else result in
         if AnnotationType_eqb (NodeType node) ValueAnnotation then
           match lines with
           | firstLine :: more =>
               let value := TrimPrefix firstLine annotationName in
               let value := TrimSpace value in
               let value :=
                 if SupportsMultiline node then
                   fold_left
                     (fun value line =>
                        let continuation := TrimSpace line in
                        if negb (isEmpty continuation)
                        then value ++ String newline "" ++ continuation
                        else value)
                     more value
                 else value in
               Ok (setValue result (UnescapeValue value))
           | [] => Ok result
           end
         else if AnnotationType_eqb (NodeType node) ReferenceAnnotation then
           match lines with
           | firstLine :: _ =>
               let value := TrimPrefix firstLine annotationName in
               let value := TrimSpace value in
               Ok (setValue result value)
           | [] => Ok result
           end
         else if AnnotationType_eqb (NodeType node) BlockAnnotation
                 || AnnotationType_eqb (NodeType node) SubCommand then
           match ParseBracedBlock lines with
           | Error err => Error ("failed to parse " ++ annotationName ++ ": " ++ err)
           | Ok content =>
               if (List.length content =? 0)%nat then
                 if negb (CanBeEmpty node)
                 then Error (annotationName ++ " cannot be empty (has required children)")
                 else Ok result
               else if (List.length content =? 1)%nat && isInlineContent (first content)
               then
                 match parseInlineChildren (first content) node result with
                 | Error err =>
                     Error ("failed to parse " ++ annotationName ++ " children: " ++ err)
                 | Ok result => Ok result
                 end
               else
                 match parseChildren ParseAnnotationBlock_node node content result with
                 | Error err =>
                     Error ("failed to parse " ++ annotationName ++ " children: " ++ err)
                 | Ok result => Ok result
                 end
           end
         else Ok result).
  cbv zeta.
  destruct (AnnotationType_eqb (NodeType node) MarkerAnnotation);
    [intros [= <-]; now apply Hleaf|].
  destruct (AnnotationType_eqb (NodeType node) FlagAnnotation);
    [intros [= <-]; now apply Hleaf|].
  set (result := if HasMetadata node && _ then _ else _).
  assert (Hres : PChildren result = [] /\ RepeatedChildren result = []).
  { subst result. destruct (HasMetadata node && _); split; reflexivity. }
  destruct Hres as [Hc Hrc]. clearbody result.
  destruct (AnnotationType_eqb (NodeType node) ValueAnnotation).
  { destruct lines; intros [= <-]; apply Hleaf; destruct result; assumption. }
  destruct (AnnotationType_eqb (NodeType node) ReferenceAnnotation).
  { destruct lines; intros [= <-]; apply Hleaf; destruct result; assumption. }
  destruct (_ || _); [|intros [= <-]; now apply Hleaf].
  destruct (ParseBracedBlock lines) as [content|]; [|discriminate].
  destruct (List.length content =? 0)%nat.
  { destruct (negb (CanBeEmpty node)); [discriminate|]. intros [= <-]. now apply Hleaf. }
  destruct (_ && _).
  - destruct (parseInlineChildren _ _ _) as [r'|] eqn:Hin; [|discriminate].
    intros [= <-]. unfold parseInlineChildren in Hin.
    destruct (isEmpty (first content)).
    + injection Hin as <-. now apply Hleaf.
    + eapply inline_loop_wellStored; [|exact Hin]. now apply Hleaf.
  - destruct (parseChildren _ _ _ _) as [r'|] eqn:Hch; [|discriminate].
    intros [= <-]. unfold parseChildren in Hch.
    eapply children_loop_wellStored; [exact Hchildren| |exact Hch]. now apply Hleaf.
Qed.

Lemma wellStored_exclusive (node : SchemaNode) (p : ParsedAnnotation) :
  wellStored node p ->
  forall name, In name (keys (PChildren p)) -> ~ In name (keys (RepeatedChildren p)).
Proof.
  intros Hw name H1 H2. inversion Hw as [? ? HC HR]; subst.
  unfold keys in *. apply in_map_iff in H1 as ([k c] & <- & H1).
  apply in_map_iff in H2 as ([k' cs] & E & H2). cbn in E. subst k'.
  destruct (HC _ _ H1) as (n1 & G1 & R1 & _).
  destruct (HR _ _ H2) as (n2 & G2 & R2 & _).
  cbn in G2. rewrite G1 in G2. injection G2 as <-. congruence.
Qed.

Lemma map_lookup_store {V} (m : list (string * V)) (key : string) (v : V) :
  map_lookup (map_store m key v) key = Some v.
Proof.
  induction m as [|[k w] m IH]; cbn [map_store map_lookup].
  - now rewrite String.eqb_refl.
  - destruct (String.eqb k key) eqn:E; cbn [map_lookup]; rewrite E; [reflexivity|exact IH].
Qed.

Lemma storeChild_repeatable (childNode : SchemaNode) (name : string)
      (parsed result : ParsedAnnotation) :
  Repeatable childNode = true ->
  exists result',
    storeChild childNode name parsed result = Ok result'
    /\ map_slice (RepeatedChildren result') name
       = (map_slice (RepeatedChildren result) name ++ [parsed])%list
    /\ PChildren result' = PChildren result.
Proof.
  intros H. unfold storeChild. rewrite H. eexists. split; [reflexivity|].
  destruct result as [n m c r v f l]. cbn [setRepeatedChildren RepeatedChildren PChildren].
  split; [|reflexivity]. unfold map_slice at 1. now rewrite map_lookup_store.
Qed.

Lemma storeChild_single (childNode : SchemaNode) (name : string)
      (parsed result : ParsedAnnotation) :
  Repeatable childNode = false ->
  match map_lookup (PChildren result) name with
  | Some _ =>
      storeChild childNode name parsed result
      = Error (name ++ " appears multiple times but is not repeatable")
  | None =>
      exists result',
        storeChild childNode name parsed result = Ok result'
        /\ map_lookup (PChildren result') name = Some parsed
        /\ RepeatedChildren result' = RepeatedChildren result
  end.
Proof.
  intros H. unfold storeChild. rewrite H.
  destruct (map_lookup (PChildren result) name); [reflexivity|].
  eexists. split; [reflexivity|].
  destruct result as [n m c r v f l]. cbn [setChildren RepeatedChildren PChildren].
  split; [apply map_lookup_store|reflexivity].
Qed.

Lemma ParseInlineAnnotation_wellStored (line annotationName : string)
      (node : SchemaNode) (r : ParsedAnnotation) :
  ParseInlineAnnotation line annotationName node = Ok r -> wellStored node r.
Proof.
  unfold ParseInlineAnnotation.
  destruct (ValidateNoNestedBraces line); [|discriminate].
  destruct (_ || _ || _); [discriminate|].
  destruct (isEmpty _).
  - destruct (negb (CanBeEmpty node)); [discriminate|].
    intros [= <-]. now apply wellStored_leaf.
  - unfold parseInlineChildren. destruct (isEmpty _).
    + intros [= <-]. now apply wellStored_leaf.
    + apply inline_loop_wellStored. now apply wellStored_leaf.
Qed.

End ParserFacts.

(** * The inline and the multi-line form: facts *)

Module InlineFacts.
Import ParserSpec ParserFacts InlineSpec.


(** ** Strings *)

Lemma append_cons (c : ascii) (r q : string) : String c r ++ q = String c (r ++ q).
Proof. reflexivity. Qed.

Lemma append_nil_l (q : string) : "" ++ q = q.
Proof. reflexivity. Qed.

Lemma append_nil_r (s : string) : s ++ "" = s.
Proof.
  induction s as [|c s IH]; [reflexivity|]. rewrite append_cons. congruence.
Qed.

Lemma append_assoc (a b c : string) : (a ++ b) ++ c = a ++ b ++ c.
Proof.
  induction a as [|x a IH]; [reflexivity|]. rewrite !append_cons. congruence.
Qed.

Lemma length_append (a b : string) :
  String.length (a ++ b) = (String.length a + String.length b)%nat.
Proof.
  induction a as [|x a IH]; [reflexivity|]. rewrite append_cons. cbn. congruence.
Qed.

(** ** Scanning with escape sequences *)

Lemma escaped_ind (P : string -> Prop) :
  P "" ->
  (forall c r, Ascii.eqb c backslash = false -> P r -> P (String c r)) ->
  (forall next r', isEscapable next = true -> P r' ->
                   P (String backslash (String next r'))) ->
  (forall r, loneAt r -> P r -> P (String backslash r)) ->
  forall s, P s.
Proof.
  intros H0 Hp He Hl.
  assert (H : forall s, P s /\ forall c, P (String c s)); [|intros s; apply H].
  induction s as [|d s [IH1 IH2]].
  - split; [exact H0|]. intros c. destruct (Ascii.eqb c backslash) eqn:E.
    + apply Ascii.eqb_eq in E. subst. apply Hl; [exact I|exact H0].
    + now apply Hp.
  - split; [apply IH2|]. intros c. destruct (Ascii.eqb c backslash) eqn:E.
    + apply Ascii.eqb_eq in E. subst. destruct (isEscapable d) eqn:Ed.
      * now apply He.
      * apply Hl; [exact Ed|apply IH2].
    + apply Hp; [assumption|apply IH2].
Qed.

Lemma loneAt_app (r q : string) : loneAt r -> loneAt q -> loneAt (r ++ q).
Proof. destruct r; cbn; auto. Qed.

Lemma backslash_eqb : Ascii.eqb backslash backslash = true.
Proof. reflexivity. Qed.

Lemma clean_plain (bad : ascii -> bool) (c : ascii) (r : string) :
  Ascii.eqb c backslash = false ->
  clean bad (String c r) = negb (bad c) && clean bad r.
Proof. intros E. cbn [clean]. now rewrite E. Qed.

Lemma clean_pair (bad : ascii -> bool) (next : ascii) (r' : string) :
  isEscapable next = true ->
  clean bad (String backslash (String next r')) = clean bad r'.
Proof. intros E. cbn [clean]. now rewrite backslash_eqb, E. Qed.

Lemma clean_lone (bad : ascii -> bool) (r : string) :
  loneAt r -> clean bad (String backslash r) = clean bad r.
Proof.
  intros H. cbn [clean]. rewrite backslash_eqb.
  destruct r as [|next r']; [reflexivity|]. cbn in H. now rewrite H.
Qed.

Lemma count_plain (c : ascii) (r : string) (d : Z) :
  Ascii.eqb c backslash = false ->
  count_loop (String c r) d
  = count_loop r (if Ascii.eqb c "{" then d + 1
                  else if Ascii.eqb c "}" then d - 1 else d).
Proof. intros E. cbn [count_loop]. now rewrite E. Qed.

Lemma count_pair (next : ascii) (r' : string) (d : Z) :
  isEscapable next = true ->
  count_loop (String backslash (String next r')) d = count_loop r' d.
Proof. intros E. cbn [count_loop]. now rewrite backslash_eqb, E. Qed.

Lemma count_lone (r : string) (d : Z) :
  loneAt r -> count_loop (String backslash r) d = count_loop r d.
Proof.
  intros H. cbn [count_loop]. rewrite backslash_eqb.
  destruct r as [|next r']; [reflexivity|]. cbn in H. now rewrite H.
Qed.

Lemma isBrace_false (c : ascii) :
  isBrace c = false -> Ascii.eqb c "{" = false /\ Ascii.eqb c "}" = false.
Proof. unfold isBrace. now intros [-> ->]%orb_false_elim. Qed.

(** The brace count passes a text without bare braces. *)
Lemma count_clean_app (x q : string) :
  clean isBrace x = true -> loneAt q ->
  forall d, count_loop (x ++ q) d = count_loop q d.
Proof.
  intros Hx Hq. revert Hx. induction x as [|c r E IH|next r' E IH|r L IH] using escaped_ind.
  - reflexivity.
  - rewrite clean_plain by exact E. intros [Hc Hr]%andb_prop d.
    apply negb_true_iff, isBrace_false in Hc. destruct Hc as [H1 H2].
    change (String c r ++ q) with (String c (r ++ q)).
    rewrite count_plain by exact E. rewrite H1, H2. now apply IH.
  - rewrite clean_pair by exact E. intros Hr d.
    change (String backslash (String next r') ++ q)
      with (String backslash (String next (r' ++ q))).
    rewrite count_pair by exact E. now apply IH.
  - rewrite clean_lone by exact L. intros Hr d.
    change (String backslash r ++ q) with (String backslash (r ++ q)).
    rewrite count_lone by now apply loneAt_app. now apply IH.
Qed.

Lemma count_clean (x : string) (d : Z) :
  clean isBrace x = true -> count_loop x d = d.
Proof.
  intros H. pose proof (count_clean_app x "" H I d) as E.
  now rewrite append_nil_r in E.
Qed.

Lemma nested_plain (c : ascii) (r : string) (d : Z) :
  Ascii.eqb c backslash = false ->
  nested_loop (String c r) d
  = if Ascii.eqb c "{" then
      if (1 <? d + 1)%Z
      then Error "nested blocks cannot be inlined, use multi-line format"
      else nested_loop r (d + 1)
    else if Ascii.eqb c "}" then nested_loop r (d - 1)
         else nested_loop r d.
Proof. intros E. cbn [nested_loop]. now rewrite E. Qed.

Lemma nested_pair (next : ascii) (r' : string) (d : Z) :
  isEscapable next = true ->
  nested_loop (String backslash (String next r')) d = nested_loop r' d.
Proof. intros E. cbn [nested_loop]. now rewrite backslash_eqb, E. Qed.

Lemma nested_lone (r : string) (d : Z) :
  loneAt r -> nested_loop (String backslash r) d = nested_loop r d.
Proof.
  intros H. cbn [nested_loop]. rewrite backslash_eqb.
  destruct r as [|next r']; [reflexivity|]. cbn in H. now rewrite H.
Qed.

(** The check for nested braces passes a text without bare braces. *)
Lemma nested_clean_app (x q : string) :
  clean isBrace x = true -> loneAt q ->
  forall d, nested_loop (x ++ q) d = nested_loop q d.
Proof.
  intros Hx Hq. revert Hx.
  induction x as [|c r E IH|next r' E IH|r L IH] using escaped_ind.
  - reflexivity.
  - rewrite clean_plain by exact E. intros [Hc Hr]%andb_prop d.
    apply negb_true_iff, isBrace_false in Hc. destruct Hc as [H1 H2].
    rewrite append_cons, nested_plain by exact E. rewrite H1, H2. now apply IH.
  - rewrite clean_pair by exact E. intros Hr d.
    rewrite !append_cons, nested_pair by exact E. now apply IH.
  - rewrite clean_lone by exact L. intros Hr d.
    rewrite append_cons, nested_lone by now apply loneAt_app. now apply IH.
Qed.

Lemma inline_plain (c : ascii) (r : string) (n : Z) :
  Ascii.eqb c backslash = false ->
  inline_count (String c r) n
  = if Ascii.eqb c "@"
    then if (1 <? n + 1)%Z then true else inline_count r (n + 1)
    else inline_count r n.
Proof. intros E. cbn [inline_count]. now rewrite E. Qed.

Lemma inline_pair (next : ascii) (r' : string) (n : Z) :
  isEscapable next = true ->
  inline_count (String backslash (String next r')) n = inline_count r' n.
Proof. intros E. cbn [inline_count]. now rewrite backslash_eqb, E. Qed.

Lemma inline_lone (r : string) (n : Z) :
  loneAt r -> inline_count (String backslash r) n = inline_count r n.
Proof.
  intros H. cbn [inline_count]. rewrite backslash_eqb.
  destruct r as [|next r']; [reflexivity|]. cbn in H. now rewrite H.
Qed.

Lemma isMarkup_false (c : ascii) :
  isMarkup c = false ->
  Ascii.eqb c "{" = false /\ Ascii.eqb c "}" = false
  /\ Ascii.eqb c "@" = false /\ Ascii.eqb c nul = false.
Proof.
  unfold isMarkup. intros [[[-> ->]%orb_false_elim ->]%orb_false_elim ->]%orb_false_elim.
  auto.
Qed.

(** The count of annotations passes a text without bare at signs. *)
Lemma inline_count_clean_app (x q : string) :
  clean isMarkup x = true -> loneAt q ->
  forall n, inline_count (x ++ q) n = inline_count q n.
Proof.
  intros Hx Hq. revert Hx.
  induction x as [|c r E IH|next r' E IH|r L IH] using escaped_ind.
  - reflexivity.
  - rewrite clean_plain by exact E. intros [Hc Hr]%andb_prop n.
    apply negb_true_iff, isMarkup_false in Hc. destruct Hc as (_ & _ & H3 & _).
    rewrite append_cons, inline_plain by exact E. rewrite H3. now apply IH.
  - rewrite clean_pair by exact E. intros Hr n.
    rewrite !append_cons, inline_pair by exact E. now apply IH.
  - rewrite clean_lone by exact L. intros Hr n.
    rewrite append_cons, inline_lone by now apply loneAt_app. now apply IH.
Qed.

Lemma clean_weaken (bad bad' : ascii -> bool) (s : string) :
  (forall c, bad c = true -> bad' c = true) ->
  clean bad' s = true -> clean bad s = true.
Proof.
  intros Hb. induction s as [|c r E IH|next r' E IH|r L IH] using escaped_ind.
  - reflexivity.
  - rewrite !clean_plain by exact E. intros [Hc Hr]%andb_prop.
    rewrite IH by exact Hr. rewrite andb_true_r. apply negb_true_iff.
    apply negb_true_iff in Hc. destruct (bad c) eqn:B; [|reflexivity].
    apply Hb in B. congruence.
  - rewrite !clean_pair by exact E. exact IH.
  - rewrite !clean_lone by exact L. exact IH.
Qed.

Lemma clean_markup_brace (s : string) : clean isMarkup s = true -> clean isBrace s = true.
Proof.
  apply clean_weaken. intros c. unfold isBrace, isMarkup.
  intros [->| ->]%orb_prop; [reflexivity|]. now rewrite orb_true_r.
Qed.

Lemma clean_app (bad : ascii -> bool) (x q : string) :
  clean bad x = true -> loneAt q -> clean bad q = true -> clean bad (x ++ q) = true.
Proof.
  intros Hx Hq Hc. revert Hx.
  induction x as [|c r E IH|next r' E IH|r L IH] using escaped_ind.
  - intros _. exact Hc.
  - rewrite append_cons, !clean_plain by exact E. intros [H1 H2]%andb_prop.
    now rewrite H1, IH.
  - rewrite !append_cons, !clean_pair by exact E. exact IH.
  - rewrite append_cons, clean_lone by exact L.
    rewrite clean_lone by now apply loneAt_app. exact IH.
Qed.

(** A text without bare braces has no block opener. *)
Lemma scanOpener_clean (s : string) :
  clean isBrace s = true -> forall i, scanOpener i s = -1.
Proof.
  induction s as [|c r E IH|next r' E IH|r L IH] using escaped_ind.
  - reflexivity.
  - rewrite clean_plain by exact E. intros [Hc Hr]%andb_prop i.
    destruct r as [|d r]; [reflexivity|].
    rewrite scanOpener_eq.
    assert (Hd : Ascii.eqb d "{" = false).
    { destruct (Ascii.eqb d "{") eqn:D; [|reflexivity].
      apply Ascii.eqb_eq in D. subst d. discriminate Hr. }
    rewrite Hd, andb_false_r. now apply IH.
  - rewrite clean_pair by exact E. intros Hr i.
    rewrite scanOpener_skip by reflexivity.
    rewrite scanOpener_skip by now apply escapable_not_blank.
    now apply IH.
  - rewrite clean_lone by exact L. intros Hr i.
    rewrite scanOpener_skip by reflexivity. now apply IH.
Qed.

Lemma findBlockOpener_clean (s : string) :
  clean isBrace s = true -> findBlockOpener s = -1.
Proof. intros H. rewrite findBlockOpener_scan. now apply scanOpener_clean. Qed.

Lemma headerChar_inv (c : ascii) :
  headerChar c = true ->
  Ascii.eqb c "{" = false /\ Ascii.eqb c "}" = false
  /\ Ascii.eqb c backslash = false.
Proof.
  unfold headerChar, isBrace. intros H. apply negb_true_iff in H.
  apply orb_false_elim in H as [[-> ->]%orb_false_elim ->]. auto.
Qed.

(** The opener of a line is the brace after its header. *)
Lemma scanOpener_header (h rest : string) :
  headerOk h = true ->
  forall i, scanOpener i (h ++ " {" ++ rest) = i + len h + 1.
Proof.
  unfold headerOk, len. induction h as [|c h IH]; intros Hh i.
  - change (scanOpener i ("" ++ " {" ++ rest)) with (i + 1).
    change (Z.of_nat (String.length "")) with 0. lia.
  - cbn [allChars] in Hh. apply andb_prop in Hh as [Hc Hh].
    rewrite append_cons.
    assert (E : exists d r, h ++ " {" ++ rest = String d r /\ Ascii.eqb d "{" = false).
    { destruct h as [|d h'].
      - do 2 eexists. split; reflexivity.
      - exists d, (h' ++ " {" ++ rest). split; [reflexivity|].
        cbn [allChars] in Hh. apply andb_prop in Hh as [Hd _].
        now apply headerChar_inv in Hd as (Hd & _). }
    destruct E as (d & r & Er & Ed). rewrite Er, scanOpener_eq, Ed, andb_false_r.
    rewrite <- Er, IH by exact Hh. cbn [String.length]. lia.
Qed.

Lemma findBlockOpener_header (h rest : string) :
  headerOk h = true -> findBlockOpener (h ++ " {" ++ rest) = len h + 1.
Proof.
  intros H. rewrite findBlockOpener_scan, scanOpener_header by exact H. lia.
Qed.

(** ** Trimming *)

Lemma trimLeft_cons (c : ascii) (r : string) :
  isSpace c = false -> trimLeft (String c r) = String c r.
Proof. intros H. cbn [trimLeft]. now rewrite H. Qed.

Lemma trimLeft_space (c : ascii) (r : string) :
  isSpace c = true -> trimLeft (String c r) = trimLeft r.
Proof. intros H. cbn [trimLeft]. now rewrite H. Qed.

Lemma trimRight_cons (c : ascii) (r : string) :
  trimRight (String c r)
  = match trimRight r with
    | EmptyString => if isSpace c then EmptyString else String c EmptyString
    | r' => String c r'
    end.
Proof. reflexivity. Qed.

Lemma trimRight_app_nonempty (a b : string) :
  trimRight b <> "" -> trimRight (a ++ b) = a ++ trimRight b.
Proof.
  intros H. induction a as [|c a IH]; [reflexivity|].
  rewrite !append_cons, trimRight_cons, IH.
  destruct (a ++ trimRight b) eqn:E; [|reflexivity].
  destruct a; [|discriminate]. now rewrite append_nil_l in E.
Qed.

Lemma trimRight_app_empty (a b : string) :
  trimRight b = "" -> trimRight (a ++ b) = trimRight a.
Proof.
  intros H. induction a as [|c a IH]; [exact H|].
  now rewrite append_cons, !trimRight_cons, IH.
Qed.

Lemma trimRight_noSpace (w : string) :
  allChars (fun c => negb (isSpace c)) w = true -> trimRight w = w.
Proof.
  induction w as [|c w IH]; [reflexivity|].
  cbn [allChars]. intros [Hc Hw]%andb_prop. apply negb_true_iff in Hc.
  rewrite trimRight_cons, IH by exact Hw. rewrite Hc. now destruct w.
Qed.

Lemma trimLeft_length (s : string) :
  trimLeft s = s \/ (String.length (trimLeft s) < String.length s)%nat.
Proof.
  induction s as [|c s IH]; [now left|].
  cbn [trimLeft]. destruct (isSpace c); [|now left].
  right. cbn [String.length]. destruct IH as [-> | IH]; lia.
Qed.

Lemma trimRight_length (s : string) :
  (String.length (trimRight s) <= String.length s)%nat.
Proof.
  induction s as [|c s IH]; [reflexivity|].
  rewrite trimRight_cons. destruct (trimRight s) eqn:E.
  - destruct (isSpace c); cbn [String.length]; lia.
  - cbn [String.length] in *. lia.
Qed.

(** A string that [TrimSpace] leaves as it is has no white space at
    either end. *)
Lemma TrimSpace_fixed (v : string) :
  TrimSpace v = v -> trimLeft v = v /\ trimRight v = v.
Proof.
  unfold TrimSpace. intros H.
  assert (E : trimLeft v = v).
  { destruct (trimLeft_length v) as [E|E]; [exact E|].
    pose proof (trimRight_length (trimLeft v)) as L. rewrite H in L. lia. }
  split; [exact E|]. now rewrite E in H.
Qed.

Lemma TrimSpace_of (v : string) :
  trimLeft v = v -> trimRight v = v -> TrimSpace v = v.
Proof. unfold TrimSpace. now intros -> ->. Qed.

Lemma plainChar_inv (c : ascii) :
  plainChar c = true ->
  isSpace c = false /\ isEscapable c = false /\ Ascii.eqb c nul = false.
Proof.
  unfold plainChar. intros [[H1 H2]%andb_prop H3]%andb_prop.
  now rewrite !negb_true_iff in *.
Qed.

Lemma allChars_weaken (p p' : ascii -> bool) (s : string) :
  (forall c, p c = true -> p' c = true) ->
  allChars p s = true -> allChars p' s = true.
Proof.
  intros H. induction s as [|c s IH]; [reflexivity|].
  cbn [allChars]. intros [Hc Hs]%andb_prop. now rewrite (H _ Hc), IH.
Qed.

Lemma escapable_inv (c : ascii) :
  isEscapable c = false ->
  Ascii.eqb c "{" = false /\ Ascii.eqb c "}" = false
  /\ Ascii.eqb c "@" = false /\ Ascii.eqb c backslash = false.
Proof.
  unfold isEscapable.
  intros [[[-> ->]%orb_false_elim ->]%orb_false_elim ->]%orb_false_elim. auto.
Qed.

(** ** The line of a child *)

Lemma nameOk_inv (w : string) :
  nameOk w = true ->
  exists c r, w = String c r /\ plainChar c = true /\ allChars plainChar w = true.
Proof.
  unfold nameOk. intros [Hn Hw]%andb_prop.
  destruct w as [|c r]; [discriminate|]. exists c, r.
  split; [reflexivity|]. split; [|exact Hw].
  cbn [allChars] in Hw. now apply andb_prop in Hw.
Qed.

Lemma textOk_inv (v : string) :
  textOk v = true -> clean isMarkup v = true /\ trimLeft v = v /\ trimRight v = v.
Proof.
  unfold textOk. intros [Hc Ht]%andb_prop.
  apply String.eqb_eq in Ht. split; [exact Hc|]. now apply TrimSpace_fixed.
Qed.

Lemma clean_plain_app (bad : ascii -> bool) (w q : string) :
  (forall c, plainChar c = true -> bad c = false) ->
  allChars plainChar w = true -> clean bad (w ++ q) = clean bad q.
Proof.
  intros Hb. induction w as [|c w IH]; [reflexivity|].
  cbn [allChars]. intros [Hc Hw]%andb_prop.
  destruct (plainChar_inv _ Hc) as (_ & He & _).
  apply escapable_inv in He as (_ & _ & _ & He).
  rewrite append_cons, clean_plain by exact He.
  now rewrite (Hb _ Hc), IH.
Qed.

Lemma plain_not_markup (c : ascii) : plainChar c = true -> isMarkup c = false.
Proof.
  intros H. destruct (plainChar_inv _ H) as (_ & He & Hn).
  apply escapable_inv in He as (H1 & H2 & H3 & _).
  unfold isMarkup. now rewrite H1, H2, H3, Hn.
Qed.

Lemma isEmpty_false (s : string) : isEmpty s = false -> s <> "".
Proof. unfold isEmpty. now intros H%String.eqb_neq. Qed.

Lemma isEmpty_eq (s : string) : isEmpty s = true -> s = "".
Proof. unfold isEmpty. now intros H%String.eqb_eq. Qed.

Section Child.
Variable c : Child.
Hypothesis Hname : nameOk (fst c) = true.
Hypothesis Htext : textOk (snd c) = true.

Lemma childTail_clean : clean isMarkup (childTail c) = true.
Proof.
  destruct (nameOk_inv _ Hname) as (d0 & r0 & _ & _ & Hw).
  destruct (textOk_inv _ Htext) as (Hv & _).
  unfold childTail. destruct (isEmpty (snd c)).
  - rewrite <- (append_nil_r (fst c)).
    now rewrite clean_plain_app by (exact plain_not_markup || exact Hw).
  - rewrite clean_plain_app by (exact plain_not_markup || exact Hw).
    rewrite append_cons, append_nil_l, clean_plain by reflexivity. exact Hv.
Qed.

Lemma childTail_nonempty : exists d r, childTail c = String d r /\ plainChar d = true.
Proof.
  destruct (nameOk_inv _ Hname) as (d & r & E & Hd & _).
  unfold childTail. rewrite E. destruct (isEmpty (snd c)).
  - now exists d, r.
  - eexists d, _. split; [apply append_cons|exact Hd].
Qed.

Lemma childTail_trimRight : trimRight (childTail c) = childTail c.
Proof.
  destruct (nameOk_inv _ Hname) as (d0 & r0 & _ & _ & Hw).
  destruct (textOk_inv _ Htext) as (_ & _ & Hv).
  assert (Hs : allChars (fun x => negb (isSpace x)) (fst c) = true).
  { revert Hw. apply allChars_weaken. intros x Hx.
    destruct (plainChar_inv _ Hx) as (-> & _). reflexivity. }
  unfold childTail. destruct (isEmpty (snd c)) eqn:E.
  - now apply trimRight_noSpace.
  - apply isEmpty_false in E.
    rewrite trimRight_app_nonempty.
    + f_equal. rewrite trimRight_app_nonempty by now rewrite Hv.
      now rewrite Hv.
    + rewrite trimRight_app_nonempty by now rewrite Hv. discriminate.
Qed.

Lemma childTail_trim : TrimSpace (childTail c) = childTail c.
Proof.
  apply TrimSpace_of; [|apply childTail_trimRight].
  destruct childTail_nonempty as (d & r & -> & Hd).
  apply trimLeft_cons. now destruct (plainChar_inv _ Hd).
Qed.

Lemma childTail_trim_blank : TrimSpace (childTail c ++ " ") = childTail c.
Proof.
  unfold TrimSpace. destruct childTail_nonempty as (d & r & E & Hd).
  rewrite E at 1. rewrite append_cons, trimLeft_cons by now destruct (plainChar_inv _ Hd).
  rewrite <- append_cons, <- E, trimRight_app_empty by reflexivity.
  apply childTail_trimRight.
Qed.

Lemma childLine_trim : TrimSpace (childLine c) = childLine c.
Proof.
  unfold childLine, TrimSpace. rewrite append_cons, append_nil_l.
  rewrite trimLeft_cons by reflexivity.
  rewrite trimRight_cons, childTail_trimRight.
  now destruct childTail_nonempty as (d & r & -> & _).
Qed.

Lemma childLine_clean : clean isBrace (childLine c) = true.
Proof.
  unfold childLine. rewrite append_cons, append_nil_l, clean_plain by reflexivity.
  apply clean_markup_brace, childTail_clean.
Qed.
End Child.

(** ** Indices and slices *)

Lemma drop_append (a b : string) : drop (String.length a) (a ++ b) = b.
Proof. induction a as [|c a IH]; [now destruct b|]. exact IH. Qed.

Lemma take_append (a b : string) : take (String.length a) (a ++ b) = a.
Proof.
  induction a as [|c a IH]; [now destruct b|].
  rewrite append_cons. cbn [String.length take]. now rewrite IH.
Qed.

Lemma index_from_header (h rest : string) :
  headerOk h = true ->
  forall i, index_from i (h ++ String "{" rest) "{" = i + len h.
Proof.
  unfold headerOk, len. induction h as [|c h IH]; intros Hh i.
  - rewrite append_nil_l. cbn. lia.
  - cbn [allChars] in Hh. apply andb_prop in Hh as [Hc Hh].
    apply headerChar_inv in Hc as (Hc & _).
    rewrite append_cons. cbn [index_from HasPrefix]. rewrite Hc. cbn [andb].
    rewrite IH by exact Hh. cbn [String.length]. lia.
Qed.

Lemma last_index_end (s : string) :
  forall i found, last_index_from i (s ++ "}") "}" found = i + len s.
Proof.
  unfold len. induction s as [|c s IH]; intros i found.
  - rewrite append_nil_l. cbn. lia.
  - rewrite append_cons. cbn [last_index_from]. rewrite IH.
    cbn [String.length]. lia.
Qed.

Lemma HasSuffix_end (s : string) : HasSuffix (s ++ "}") "}" = true.
Proof.
  unfold HasSuffix. rewrite length_append. cbn [String.length].
  replace (String.length s + 1 - 1)%nat with (String.length s) by lia.
  rewrite drop_append. apply andb_true_intro. split; [|reflexivity].
  apply Nat.leb_le. lia.
Qed.

Lemma TrimSuffix_end (s : string) : TrimSuffix (s ++ "}") "}" = s.
Proof.
  unfold TrimSuffix. rewrite HasSuffix_end, length_append. cbn [String.length].
  replace (String.length s + 1 - 1)%nat with (String.length s) by lia.
  apply take_append.
Qed.

(** ** Protecting, splitting and restoring *)

Lemma ProtectEscapedAt_eq (s : string) : ProtectEscapedAt s = protect s.
Proof. reflexivity. Qed.

Lemma RestoreEscapedAt_eq (s : string) : RestoreEscapedAt s = restore s.
Proof. reflexivity. Qed.

Lemma protect_plain (c : ascii) (r : string) :
  Ascii.eqb c backslash = false -> protect (String c r) = String c (protect r).
Proof. intros E. unfold protect. now rewrite replace_head_ne by exact E. Qed.

Lemma protect_at (r : string) :
  protect (String backslash (String "@" r)) = atPlaceholder ++ protect r.
Proof. unfold protect. apply replace_match2. Qed.

Lemma protect_other (next : ascii) (r : string) :
  Ascii.eqb next "@" = false ->
  protect (String backslash (String next r))
  = String backslash (protect (String next r)).
Proof. intros E. unfold protect. now rewrite replace_second_ne by exact E. Qed.

Lemma protect_end : protect (String backslash "") = String backslash "".
Proof. reflexivity. Qed.

Lemma clean_head (bad : ascii -> bool) (c : ascii) (r : string) :
  clean bad (String c r) = true -> bad c = true -> Ascii.eqb c backslash = true.
Proof.
  intros H B. destruct (Ascii.eqb c backslash) eqn:E; [reflexivity|].
  rewrite clean_plain in H by exact E. rewrite B in H. discriminate.
Qed.

Lemma clean_head_at (r : string) :
  clean isMarkup r = true ->
  match r with String d _ => Ascii.eqb d "@" = false | EmptyString => True end.
Proof.
  destruct r as [|d r]; [exact (fun _ => I)|]. intros H.
  destruct (Ascii.eqb d "@") eqn:E; [|reflexivity].
  apply Ascii.eqb_eq in E. subst d.
  now pose proof (clean_head _ _ _ H eq_refl).
Qed.

Lemma noAt_app (a b : string) : noAt a = true -> noAt b = true -> noAt (a ++ b) = true.
Proof.
  induction a as [|c a IH]; [auto|]. cbn [noAt]. intros [H1 H2]%andb_prop Hb.
  rewrite append_cons. cbn [noAt]. now rewrite H1, IH.
Qed.

(** In a text without bare at signs, protecting leaves no at sign. *)
Lemma protect_noAt (x : string) : clean isMarkup x = true -> noAt (protect x) = true.
Proof.
  induction x as [|c r E IH|next r' E IH|r L IH] using escaped_ind.
  - reflexivity.
  - rewrite clean_plain by exact E. intros [Hc Hr]%andb_prop.
    apply negb_true_iff, isMarkup_false in Hc as (_ & _ & Hc & _).
    rewrite protect_plain by exact E. cbn [noAt]. now rewrite Hc, IH.
  - rewrite clean_pair by exact E. intros Hr.
    destruct (Ascii.eqb next "@") eqn:N.
    + apply Ascii.eqb_eq in N. subst next. rewrite protect_at.
      apply noAt_app; [reflexivity|now apply IH].
    + rewrite protect_other by exact N. cbn [noAt]. cbn [Ascii.eqb negb andb].
      change (noAt (protect (String next r')) = true).
      destruct (Ascii.eqb next backslash) eqn:B.
      * apply Ascii.eqb_eq in B. subst next.
        pose proof (clean_head_at _ Hr) as Hd.
        destruct r' as [|d r'']; [reflexivity|].
        rewrite protect_other by exact Hd. cbn [noAt]. cbn [Ascii.eqb negb andb].
        change (noAt (protect (String d r'')) = true). now apply IH.
      * rewrite protect_plain by exact B. cbn [noAt]. now rewrite N, IH.
  - rewrite clean_lone by exact L. intros Hr.
    destruct r as [|d r'].
    + reflexivity.
    + cbn in L. apply escapable_inv in L as (_ & _ & L & _).
      rewrite protect_other by exact L. cbn [noAt]. cbn [Ascii.eqb negb andb].
      change (noAt (protect (String d r')) = true). now apply IH.
Qed.

Lemma protect_lone (r : string) :
  headNotAt r -> protect (String backslash r) = String backslash (protect r).
Proof.
  destruct r as [|d r]; [reflexivity|]. intros H. now apply protect_other.
Qed.

(** Protecting goes through a concatenation whose second part does not
    start with an at sign. *)
Lemma protect_app (x q : string) :
  headNotAt q -> protect (x ++ q) = protect x ++ protect q.
Proof.
  intros Hq.
  assert (H : forall x,
             protect (x ++ q) = protect x ++ protect q
             /\ forall c, protect (String c x ++ q) = protect (String c x) ++ protect q);
    [|apply H].
  clear x. induction x as [|d x [IH1 IH2]].
  - split; [reflexivity|]. intros c. rewrite append_cons, append_nil_l.
    destruct (Ascii.eqb c backslash) eqn:E.
    + apply Ascii.eqb_eq in E. subst c. now rewrite protect_lone.
    + now rewrite !protect_plain by exact E.
  - split; [apply IH2|]. intros c.
    destruct (Ascii.eqb c backslash) eqn:E.
    + apply Ascii.eqb_eq in E. subst c. destruct (Ascii.eqb d "@") eqn:D.
      * apply Ascii.eqb_eq in D. subst d. rewrite !append_cons.
        now rewrite !protect_at, IH1, append_assoc.
      * rewrite !append_cons.
        rewrite (protect_other d (x ++ q)) by exact D.
        rewrite (protect_other d x) by exact D.
        change (String d (x ++ q)) with (String d x ++ q).
        now rewrite IH2.
    + rewrite !append_cons. rewrite (protect_plain c (String d (x ++ q))) by exact E.
      rewrite (protect_plain c (String d x)) by exact E.
      change (String d (x ++ q)) with (String d x ++ q). now rewrite IH2.
Qed.

Lemma protect_pair (next : ascii) (r' : string) :
  Ascii.eqb next "@" = false -> clean isMarkup r' = true ->
  protect (String backslash (String next r'))
  = String backslash (String next (protect r')).
Proof.
  intros N Hr. rewrite protect_other by exact N. f_equal.
  destruct (Ascii.eqb next backslash) eqn:B.
  - apply Ascii.eqb_eq in B. subst next. apply protect_lone.
    exact (clean_head_at _ Hr).
  - now apply protect_plain.
Qed.

Lemma restore_plain (c : ascii) (r : string) :
  Ascii.eqb c nul = false -> restore (String c r) = String c (restore r).
Proof. intros E. unfold restore, atPlaceholder. now rewrite replace_head_ne by exact E. Qed.

Lemma restore_placeholder (r : string) :
  restore (atPlaceholder ++ r) = "\@" ++ restore r.
Proof. unfold restore, atPlaceholder. apply replace_match. Qed.

Lemma escapable_not_nul (c : ascii) : isEscapable c = true -> Ascii.eqb c nul = false.
Proof.
  unfold isEscapable.
  intros [[[H|H]%orb_prop|H]%orb_prop|H]%orb_prop;
    apply Ascii.eqb_eq in H; subst c; reflexivity.
Qed.

(** Restoring undoes protecting, on a text without bare at signs and
    without NUL. *)
Lemma restore_protect (x q : string) :
  clean isMarkup x = true -> restore (protect x ++ q) = x ++ restore q.
Proof.
  induction x as [|c r E IH|next r' E IH|r L IH] using escaped_ind.
  - reflexivity.
  - rewrite clean_plain by exact E. intros [Hc Hr]%andb_prop.
    apply negb_true_iff, isMarkup_false in Hc as (_ & _ & _ & Hc).
    rewrite protect_plain by exact E.
    rewrite !append_cons, restore_plain by exact Hc. now rewrite IH.
  - rewrite clean_pair by exact E. intros Hr.
    destruct (Ascii.eqb next "@") eqn:N.
    + apply Ascii.eqb_eq in N. subst next.
      rewrite protect_at, append_assoc, restore_placeholder, IH by exact Hr.
      reflexivity.
    + rewrite protect_pair by assumption. rewrite !append_cons.
      rewrite restore_plain by reflexivity.
      rewrite restore_plain by now apply escapable_not_nul.
      now rewrite IH.
  - rewrite clean_lone by exact L. intros Hr.
    rewrite protect_lone.
    + rewrite !append_cons, restore_plain by reflexivity. now rewrite IH.
    + destruct r as [|d r']; [exact I|]. cbn in L.
      now apply escapable_inv in L as (_ & _ & L & _).
Qed.

Lemma split_step (cur : string) (c : ascii) (r : string) :
  split_loop "@" O cur (String c r)
  = if Ascii.eqb c "@" then cur :: split_loop "@" O "" r
    else split_loop "@" O (cur ++ String c "") r.
Proof. cbn [split_loop HasPrefix]. now destruct (Ascii.eqb c "@"). Qed.

Lemma split_noAt (p q : string) :
  noAt p = true ->
  forall cur, split_loop "@" O cur (p ++ q) = split_loop "@" O (cur ++ p) q.
Proof.
  induction p as [|c p IH]; intros Hp cur.
  - now rewrite append_nil_l, append_nil_r.
  - cbn [noAt] in Hp. apply andb_prop in Hp as [Hc Hp].
    apply negb_true_iff in Hc.
    rewrite append_cons, split_step, Hc, IH by exact Hp.
    now rewrite append_assoc.
Qed.

Lemma split_body (cs : list Child) :
  Forall wordOk cs -> cs <> [] ->
  forall cur,
    split_loop "@" O cur (protect (inlineBody cs)) = cur :: protectedParts cs.
Proof.
  induction cs as [|c rest IH]; [congruence|].
  intros Hcs _ cur. inversion Hcs as [|? ? [Hn Ht] Hrest]; subst.
  pose proof (protect_noAt _ (childTail_clean c Hn Ht)) as Hno.
  destruct rest as [|c' rest'].
  - cbn [inlineBody protectedParts]. unfold childLine.
    rewrite append_cons, append_nil_l, protect_plain by reflexivity.
    rewrite split_step. cbn [Ascii.eqb Bool.eqb].
    rewrite <- (append_nil_r (protect (childTail c))) at 1.
    rewrite split_noAt by exact Hno. reflexivity.
  - change (inlineBody (c :: c' :: rest'))
      with (childLine c ++ " " ++ inlineBody (c' :: rest')).
    change (protectedParts (c :: c' :: rest'))
      with ((protect (childTail c) ++ " ") :: protectedParts (c' :: rest')).
    unfold childLine at 1.
    rewrite append_assoc, append_cons, append_nil_l, protect_plain by reflexivity.
    rewrite protect_app by reflexivity.
    rewrite (append_cons " " "" (inlineBody _)), append_nil_l.
    rewrite (protect_plain " ") by reflexivity.
    rewrite split_step. cbn [Ascii.eqb Bool.eqb]. f_equal.
    change (String " " (protect (inlineBody (c' :: rest'))))
      with (" " ++ protect (inlineBody (c' :: rest'))).
    rewrite <- append_assoc.
    rewrite split_noAt by (apply noAt_app; [exact Hno|reflexivity]).
    rewrite append_nil_l. apply IH; [exact Hrest|discriminate].
Qed.

Lemma protectedParts_partFor (cs : list Child) :
  Forall wordOk cs -> Forall2 partFor (protectedParts cs) cs.
Proof.
  induction cs as [|c rest IH]; [constructor|].
  intros Hcs. inversion Hcs as [|? ? [Hn Ht] Hrest]; subst.
  pose proof (childTail_clean c Hn Ht) as Hc.
  destruct rest as [|c' rest'].
  - constructor; [|constructor]. unfold partFor.
    rewrite RestoreEscapedAt_eq, <- (append_nil_r (protect _)), restore_protect by exact Hc.
    change (restore "") with "". rewrite append_nil_r. now apply childTail_trim.
  - change (protectedParts (c :: c' :: rest'))
      with ((protect (childTail c) ++ " ") :: protectedParts (c' :: rest')).
    constructor; [|now apply IH]. unfold partFor.
    rewrite RestoreEscapedAt_eq, restore_protect by exact Hc.
    change (restore " ") with " ". now apply childTail_trim_blank.
Qed.

(** ** Storing under [forget] *)

Lemma children_eq (p : ParsedAnnotation) :
  children p
  = (onValues forget (PChildren p), onValues (List.map forget) (RepeatedChildren p)).
Proof. now destruct p. Qed.

Lemma map_lookup_onValues {V W} (g : V -> W) (m : list (string * V)) (k : string) :
  map_lookup (onValues g m) k = option_map g (map_lookup m k).
Proof.
  induction m as [|[k' v] m IH]; [reflexivity|].
  cbn [onValues List.map map_lookup fst snd]. destruct (String.eqb k' k); [reflexivity|].
  exact IH.
Qed.

Lemma map_store_onValues {V W} (g : V -> W) (m : list (string * V)) (k : string)
      (v : V) :
  onValues g (map_store m k v) = map_store (onValues g m) k (g v).
Proof.
  induction m as [|[k' w] m IH]; [reflexivity|].
  cbn [onValues List.map map_store fst snd]. destruct (String.eqb k' k); [reflexivity|].
  cbn [List.map fst snd]. f_equal. exact IH.
Qed.

Lemma map_slice_onValues {V W} (g : V -> W) (m : list (string * list V)) (k : string) :
  map_slice (onValues (List.map g) m) k = List.map g (map_slice m k).
Proof.
  unfold map_slice. rewrite map_lookup_onValues. now destruct (map_lookup m k).
Qed.

Lemma storeChild_same (childNode : SchemaNode) (name : string)
      (p1 p2 r1 r2 : ParsedAnnotation) :
  forget p1 = forget p2 -> children r1 = children r2 ->
  sameChildren (storeChild childNode name p1 r1) (storeChild childNode name p2 r2).
Proof.
  intros Hp. rewrite !children_eq. intros [= HC HR].
  unfold storeChild. destruct (Repeatable childNode).
  - cbn [sameChildren]. rewrite !children_eq.
    destruct r1 as [n1 m1 c1 rc1 v1 f1 l1], r2 as [n2 m2 c2 rc2 v2 f2 l2].
    cbn [setRepeatedChildren PChildren RepeatedChildren] in *.
    rewrite HC. f_equal.
    rewrite !map_store_onValues, !List.map_app, <- !map_slice_onValues, HR.
    cbn [List.map]. now rewrite Hp.
  - pose proof (map_lookup_onValues forget (PChildren r1) name) as L1.
    pose proof (map_lookup_onValues forget (PChildren r2) name) as L2.
    rewrite HC in L1. rewrite L1 in L2.
    destruct (map_lookup (PChildren r1) name), (map_lookup (PChildren r2) name);
      try discriminate L2; cbn [sameChildren]; [exact I|].
    rewrite !children_eq.
    destruct r1 as [n1 m1 c1 rc1 v1 f1 l1], r2 as [n2 m2 c2 rc2 v2 f2 l2].
    cbn [setChildren PChildren RepeatedChildren] in *.
    rewrite HR. f_equal. now rewrite !map_store_onValues, HC, Hp.
Qed.

(** ** One child, read in either way *)

Lemma allChars_app (p : ascii -> bool) (a b : string) :
  allChars p (a ++ b) = allChars p a && allChars p b.
Proof.
  induction a as [|c a IH]; [reflexivity|].
  rewrite append_cons. cbn [allChars]. now rewrite IH, andb_assoc.
Qed.

Lemma len_append (a b : string) : len (a ++ b) = len a + len b.
Proof. unfold len. rewrite length_append. lia. Qed.

Lemma len_nonneg (a : string) : 0 <= len a.
Proof. unfold len. lia. Qed.

Lemma index_any_plain (w q : string) :
  allChars plainChar w = true ->
  forall i, index_any_from i (w ++ q) (String " " (String tab ""))
            = index_any_from (i + len w) q (String " " (String tab "")).
Proof.
  unfold len. induction w as [|c w IH]; intros Hw i.
  - rewrite append_nil_l. f_equal. cbn. lia.
  - cbn [allChars] in Hw. apply andb_prop in Hw as [Hc Hw].
    rewrite append_cons. cbn [index_any_from mem_byte].
    assert (E : Ascii.eqb c " " || (Ascii.eqb c tab || false) = false).
    { destruct (plainChar_inv _ Hc) as (Hs & _).
      destruct (Ascii.eqb c " ") eqn:E1.
      { apply Ascii.eqb_eq in E1. subst c. discriminate Hs. }
      destruct (Ascii.eqb c tab) eqn:E2; [|reflexivity].
      apply Ascii.eqb_eq in E2. subst c. discriminate Hs. }
    rewrite E, IH by exact Hw. f_equal. cbn [String.length]. lia.
Qed.

Lemma name_end_plain (w q : string) :
  allChars plainChar w = true -> name_end (w ++ q) = w ++ name_end q.
Proof.
  induction w as [|c w IH]; intros Hw; [reflexivity|].
  cbn [allChars] in Hw. apply andb_prop in Hw as [Hc Hw].
  rewrite !append_cons. cbn [name_end].
  assert (E : Ascii.eqb c " " || Ascii.eqb c "{" || Ascii.eqb c tab = false).
  { destruct (plainChar_inv _ Hc) as (Hs & He & _).
    apply escapable_inv in He as (-> & _).
    destruct (Ascii.eqb c " ") eqn:E1.
    { apply Ascii.eqb_eq in E1. subst c. discriminate Hs. }
    destruct (Ascii.eqb c tab) eqn:E2; [|reflexivity].
    apply Ascii.eqb_eq in E2. subst c. discriminate Hs. }
  now rewrite E, IH.
Qed.

Section OneChild.
Variable node : SchemaNode.
Variable c : Child.
Hypothesis Hc : childOk node c = true.

Lemma childOk_inv :
  nameOk (fst c) = true /\ textOk (snd c) = true
  /\ exists childNode,
      GetChild node (childName c) = Some childNode
      /\ (NodeType childNode = ValueAnnotation
          \/ (NodeType childNode = FlagAnnotation /\ snd c = "")).
Proof.
  unfold childOk in Hc. apply andb_prop in Hc as [[Hn Ht]%andb_prop Hk].
  split; [exact Hn|]. split; [exact Ht|].
  destruct (GetChild node (childName c)) as [cn|]; [|discriminate].
  exists cn. split; [reflexivity|].
  destruct (NodeType cn); try discriminate; [now left|right].
  split; [reflexivity|]. now apply isEmpty_eq.
Qed.

Lemma childOk_wordOk : wordOk c.
Proof. destruct childOk_inv as (Hn & Ht & _). now split. Qed.

Lemma childTail_split :
  childTail c = fst c ++ (if isEmpty (snd c) then "" else " " ++ snd c).
Proof.
  unfold childTail. destruct (isEmpty (snd c)); [now rewrite append_nil_r|reflexivity].
Qed.

Lemma childLine_split :
  childLine c = childName c ++ (if isEmpty (snd c) then "" else " " ++ snd c).
Proof. unfold childLine, childName. now rewrite childTail_split, append_assoc. Qed.

Lemma childTail_index :
  IndexAny (childTail c) (String " " (String tab ""))
  = if isEmpty (snd c) then -1 else len (fst c).
Proof.
  destruct childOk_inv as (Hn & _).
  destruct (nameOk_inv _ Hn) as (d0 & r0 & _ & _ & Hw).
  unfold IndexAny. rewrite childTail_split, index_any_plain by exact Hw.
  destruct (isEmpty (snd c)); [reflexivity|].
  rewrite append_cons. cbn [index_any_from mem_byte Ascii.eqb Bool.eqb orb]. lia.
Qed.

(** The name and the value that [parseInlineChildren] reads. *)
Lemma inline_name_value :
  let part := childTail c in
  let spaceIdx := IndexAny part (String " " (String tab "")) in
  (if (spaceIdx =? -1)%Z then "@" ++ part else "@" ++ slice_to part spaceIdx)
  = childName c
  /\ (if (spaceIdx =? -1)%Z then "" else TrimSpace (slice_from part (spaceIdx + 1)))
     = snd c.
Proof.
  cbv zeta. rewrite childTail_index.
  destruct childOk_inv as (_ & Ht & _).
  destruct (textOk_inv _ Ht) as (_ & Hl & Hr).
  unfold childTail, childName. destruct (isEmpty (snd c)) eqn:E.
  - split; [reflexivity|]. cbn. symmetry. now apply isEmpty_eq.
  - pose proof (len_nonneg (fst c)) as Hpos.
    replace (len (fst c) =? -1)%Z with false by (symmetry; apply Z.eqb_neq; lia).
    unfold slice_to, slice_from, len. split.
    + now rewrite Nat2Z.id, take_append.
    + replace (Z.to_nat (Z.of_nat (String.length (fst c)) + 1))
        with (String.length (fst c ++ " "))
        by (rewrite length_append; cbn [String.length]; lia).
      rewrite <- append_assoc, drop_append. now apply TrimSpace_of.
Qed.

Lemma childLine_name : extractAnnotationName (childLine c) = childName c.
Proof.
  destruct childOk_inv as (Hn & Ht & _).
  destruct (nameOk_inv _ Hn) as (d0 & r0 & _ & _ & Hw).
  unfold extractAnnotationName. rewrite childLine_trim by assumption.
  unfold childLine. rewrite append_cons, append_nil_l. cbn [HasPrefix negb].
  cbn [Ascii.eqb Bool.eqb andb negb name_end orb].
  unfold childName. rewrite append_cons, append_nil_l. f_equal.
  rewrite childTail_split, name_end_plain by exact Hw.
  destruct (isEmpty (snd c)); [apply append_nil_r|].
  rewrite append_cons. cbn [name_end Ascii.eqb Bool.eqb orb]. apply append_nil_r.
Qed.

Lemma childLine_value :
  TrimSpace (TrimPrefix (childLine c) (childName c)) = snd c.
Proof.
  destruct childOk_inv as (_ & Ht & _).
  destruct (textOk_inv _ Ht) as (_ & Hl & Hr).
  unfold TrimPrefix. rewrite childLine_split, HasPrefix_app, drop_append.
  destruct (isEmpty (snd c)) eqn:E.
  - symmetry. now apply isEmpty_eq.
  - unfold TrimSpace. rewrite append_cons, append_nil_l, trimLeft_space by reflexivity.
    now rewrite Hl, Hr.
Qed.

Lemma childLine_not_blank : isEmpty (TrimSpace (childLine c)) = false.
Proof.
  destruct childOk_inv as (Hn & Ht & _). now rewrite childLine_trim.
Qed.

Lemma childLine_sibling :
  StartsWithUnescapedAt (childLine c) && HasChild node (extractAnnotationName (childLine c))
  = true.
Proof.
  destruct childOk_inv as (Hn & Ht & cn & Hg & _).
  unfold StartsWithUnescapedAt. rewrite childLine_trim by assumption.
  rewrite childLine_name. unfold HasChild. now rewrite Hg.
Qed.
End OneChild.

Lemma collectContinuation_children (node : SchemaNode) (cs : list Child) :
  Forall (fun c => childOk node c = true) cs ->
  collectContinuation node (List.map childLine cs) = ([], O).
Proof.
  intros Hcs. destruct cs as [|c rest]; [reflexivity|].
  inversion Hcs as [|? ? Hc _]; subst.
  cbn [List.map collectContinuation].
  now rewrite (childLine_not_blank node c Hc), (childLine_sibling node c Hc).
Qed.

(** ** [ParseAnnotationBlock] by the kind of the node *)

Lemma parse_flag_node (childNode : SchemaNode) (lines : list string) (name : string) :
  NodeType childNode = FlagAnnotation ->
  ParseAnnotationBlock_node childNode lines name
  = Ok (setIsFlag (emptyParsed name lines) true).
Proof. destruct childNode. cbn [NodeType]. now intros ->. Qed.

Lemma parse_value_node (childNode : SchemaNode) (line name : string) :
  NodeType childNode = ValueAnnotation ->
  ParseAnnotationBlock_node childNode [line] name
  = Ok (setValue
          (if HasMetadata childNode
           then setMetadata (emptyParsed name [line]) (ExtractMetadata line name)
           else emptyParsed name [line])
          (UnescapeValue (TrimSpace (TrimPrefix line name)))).
Proof.
  destruct childNode as [nm ty req md rep sm ch]. cbn [NodeType]. intros ->.
  destruct md, sm; reflexivity.
Qed.

Lemma parse_block_node (node : SchemaNode) (lines : list string) (name : string) :
  isBlock node = true ->
  ParseAnnotationBlock_node node lines name
  = match ParseBracedBlock lines with
    | Error err => Error ("failed to parse " ++ name ++ ": " ++ err)
    | Ok content =>
        if (List.length content =? 0)%nat then
          if negb (CanBeEmpty node)
          then Error (name ++ " cannot be empty (has required children)")
          else Ok (withMetadata node lines name)
        else if (List.length content =? 1)%nat && isInlineContent (first content)
        then
          match parseInlineChildren (first content) node
                  (withMetadata node lines name) with
          | Error err => Error ("failed to parse " ++ name ++ " children: " ++ err)
          | Ok result => Ok result
          end
        else
          match parseChildren ParseAnnotationBlock_node node content
                  (withMetadata node lines name) with
          | Error err => Error ("failed to parse " ++ name ++ " children: " ++ err)
          | Ok result => Ok result
          end
    end.
Proof.
  destruct node as [nm ty req md rep sm ch]. unfold isBlock. cbn [NodeType].
  destruct ty; try discriminate; intros _; reflexivity.
Qed.

(** A child line, parsed as [parseChildren] does, and the same child as
    [parseInlineChildren] makes it. *)
Lemma parse_child (node : SchemaNode) (c : Child) (childNode : SchemaNode) :
  childOk node c = true ->
  GetChild node (childName c) = Some childNode ->
  exists parsed,
    ParseAnnotationBlock_node childNode [childLine c] (childName c) = Ok parsed
    /\ forget parsed
       = forget
           (MkParsed (childName c)
              (if HasMetadata childNode then UnescapeValue (snd c) else "")
              [] [] (UnescapeValue (snd c))
              (AnnotationType_eqb (NodeType childNode) FlagAnnotation) [])
    /\ AnnotationType_eqb (NodeType childNode) SubCommand = false.
Proof.
  intros Hc Hg. destruct (childOk_inv node c Hc) as (_ & _ & cn & Hg' & Hk).
  rewrite Hg in Hg'. injection Hg' as <-.
  destruct Hk as [Hk|[Hk Hv]].
  - eexists. split; [now apply parse_value_node|].
    rewrite (childLine_value node c Hc), Hk. split; [|reflexivity].
    now destruct (HasMetadata childNode).
  - eexists. split; [now apply parse_flag_node|].
    rewrite Hk, Hv. split; [|reflexivity]. now destruct (HasMetadata childNode).
Qed.

(** ** The two loops *)

Lemma loops_same (node : SchemaNode) (parts : list string) (cs : list Child) :
  Forall (fun c => childOk node c = true) cs ->
  Forall2 partFor parts cs ->
  forall i r1 r2,
    0 < i -> children r1 = children r2 ->
    sameChildren
      (inline_loop i parts node r1)
      (children_loop ParseAnnotationBlock_node node (List.map childLine cs) O r2).
Proof.
  intros Hcs Hparts. induction Hparts as [|part c parts cs Hp Hrest IH];
    intros i r1 r2 Hi Hr.
  - exact Hr.
  - inversion Hcs as [|? ? Hc Hcs']; subst.
    destruct (childOk_inv node c Hc) as (Hn & Ht & cn & Hg & _).
    destruct (parse_child node c cn Hc Hg) as (parsed & Hparse & Hforget & Hsub).
    destruct (inline_name_value node c Hc) as [Hname Hvalue]. cbv zeta in Hname, Hvalue.
    destruct (childTail_nonempty c Hn) as (d & r & Etail & _).
    (* the inline step *)
    cbn [inline_loop].
    replace (i =? 0)%Z with false by (symmetry; apply Z.eqb_neq; lia).
    cbn [andb]. cbv zeta. unfold partFor in Hp. rewrite Hp.
    replace (isEmpty (childTail c)) with false by now rewrite Etail.
    rewrite Hname, Hvalue, Hg, Hsub. cbn [andb].
    (* the line step *)
    cbn [List.map children_loop].
    rewrite (childLine_not_blank node c Hc).
    replace (HasPrefix (childLine c) "@") with true by reflexivity.
    cbn [negb]. rewrite (childLine_name node c Hc).
    replace (isEmpty (childName c)) with false by reflexivity.
    rewrite withChild_GetChild, Hg.
    rewrite findBlockOpener_clean by now apply childLine_clean.
    replace (0 <=? -1)%Z with false by reflexivity.
    rewrite (collectContinuation_children node cs Hcs').
    replace (if SupportsMultiline cn then (@nil string, O) else ([], O))
      with (@nil string, O) by now destruct (SupportsMultiline cn).
    rewrite Hparse.
    pose proof (storeChild_same cn (childName c) _ _ _ _ (eq_sym Hforget) Hr) as Hs.
    destruct (storeChild cn (childName c) _ r1) as [r1'|e1],
             (storeChild cn (childName c) parsed r2) as [r2'|e2];
      cbn [sameChildren] in Hs; try contradiction; [|exact I].
    apply IH; [exact Hcs'|lia|exact Hs].
Qed.

(** ** The body of the inline form *)

Lemma slice_from_len (a b : string) : slice_from (a ++ b) (len a) = b.
Proof. unfold slice_from, len. now rewrite Nat2Z.id, drop_append. Qed.

Lemma slice_mid (a b c : string) : slice (a ++ b ++ c) (len a) (len a + len b) = b.
Proof.
  unfold slice, len.
  replace (Z.to_nat (Z.of_nat (String.length a) + Z.of_nat (String.length b)
                     - Z.of_nat (String.length a)))
    with (String.length b) by lia.
  now rewrite Nat2Z.id, drop_append, take_append.
Qed.

Lemma inlineBody_cons (c : Child) (rest : list Child) :
  inlineBody (c :: rest)
  = childLine c ++ (if rest is [] then "" else " " ++ inlineBody rest).
Proof. destruct rest; [now rewrite append_nil_r|reflexivity]. Qed.

Lemma inlineBody_head (cs : list Child) :
  cs <> [] -> exists r, inlineBody cs = String "@" r.
Proof.
  destruct cs as [|c rest]; [congruence|]. intros _.
  rewrite inlineBody_cons. unfold childLine. eexists.
  rewrite append_assoc. apply append_cons.
Qed.

Lemma inlineBody_clean (cs : list Child) :
  Forall wordOk cs -> clean isBrace (inlineBody cs) = true.
Proof.
  induction cs as [|c rest IH]; [reflexivity|].
  intros Hcs. inversion Hcs as [|? ? [Hn Ht] Hrest]; subst.
  rewrite inlineBody_cons.
  apply clean_app; [now apply childLine_clean| |]; destruct rest; try reflexivity.
  rewrite append_cons, append_nil_l, clean_plain by reflexivity. now apply IH.
Qed.

Lemma inlineBody_trimRight (cs : list Child) :
  Forall wordOk cs -> cs <> [] ->
  trimRight (inlineBody cs) = inlineBody cs /\ inlineBody cs <> "".
Proof.
  induction cs as [|c rest IH]; [congruence|].
  intros Hcs _. inversion Hcs as [|? ? [Hn Ht] Hrest]; subst.
  assert (Hline : trimRight (childLine c) = childLine c /\ childLine c <> "").
  { split; [|discriminate].
    pose proof (childLine_trim c Hn Ht) as H. now apply TrimSpace_fixed in H. }
  rewrite inlineBody_cons. destruct rest as [|c' rest'].
  - now rewrite append_nil_r.
  - destruct (IH Hrest ltac:(discriminate)) as [IH1 IH2].
    assert (E : trimRight (" " ++ inlineBody (c' :: rest'))
                = " " ++ inlineBody (c' :: rest')).
    { rewrite trimRight_app_nonempty by now rewrite IH1. now rewrite IH1. }
    split.
    + rewrite trimRight_app_nonempty by (rewrite E; discriminate). now rewrite E.
    + unfold childLine. discriminate.
Qed.

Lemma inlineBody_trim_inner (cs : list Child) :
  Forall wordOk cs ->
  TrimSpace (" " ++ inlineBody cs ++ " ") = inlineBody cs.
Proof.
  intros Hcs. unfold TrimSpace.
  rewrite append_cons, append_nil_l, trimLeft_space by reflexivity.
  destruct cs as [|c rest]; [reflexivity|].
  destruct (inlineBody_head (c :: rest) ltac:(discriminate)) as (r & E).
  destruct (inlineBody_trimRight (c :: rest) Hcs ltac:(discriminate)) as [Ht _].
  rewrite E at 1. rewrite append_cons, trimLeft_cons by reflexivity.
  rewrite <- append_cons, <- E, trimRight_app_empty by reflexivity. exact Ht.
Qed.

Lemma inlineBody_trim_close (cs : list Child) :
  Forall wordOk cs -> cs <> [] ->
  TrimSpace (" " ++ inlineBody cs ++ " }") = inlineBody cs ++ " }".
Proof.
  intros Hcs Hne. unfold TrimSpace.
  rewrite append_cons, append_nil_l, trimLeft_space by reflexivity.
  destruct cs as [|c rest]; [congruence|].
  destruct (inlineBody_head (c :: rest) ltac:(discriminate)) as (r & E).
  rewrite E at 1. rewrite append_cons, trimLeft_cons by reflexivity.
  rewrite <- append_cons, <- E. now rewrite trimRight_app_nonempty.
Qed.

Lemma inlineBody_trim_blank (cs : list Child) :
  Forall wordOk cs -> TrimSpace (inlineBody cs ++ " ") = inlineBody cs.
Proof.
  intros Hcs. unfold TrimSpace.
  destruct cs as [|c rest]; [reflexivity|].
  destruct (inlineBody_head (c :: rest) ltac:(discriminate)) as (r & E).
  destruct (inlineBody_trimRight (c :: rest) Hcs ltac:(discriminate)) as [Ht _].
  rewrite E at 1. rewrite append_cons, trimLeft_cons by reflexivity.
  rewrite <- append_cons, <- E, trimRight_app_empty by reflexivity. exact Ht.
Qed.

Lemma childLine_count (c : Child) :
  wordOk c -> forall q, loneAt q -> inline_count (childLine c ++ q) 0 = inline_count q 1.
Proof.
  intros [Hn Ht] q Hq. unfold childLine.
  rewrite append_assoc, append_cons, append_nil_l, inline_plain by reflexivity.
  cbn [Ascii.eqb Bool.eqb]. replace (1 <? 0 + 1)%Z with false by reflexivity.
  now rewrite inline_count_clean_app by first [now apply childTail_clean|exact Hq].
Qed.

(** One child is not inline content, two or more are. *)
Lemma inlineBody_count (cs : list Child) :
  Forall wordOk cs ->
  isInlineContent (inlineBody cs) = (1 <? List.length cs)%nat.
Proof.
  intros Hcs. unfold isInlineContent. destruct cs as [|c rest]; [reflexivity|].
  inversion Hcs as [|? ? Hc Hrest]; subst.
  rewrite inlineBody_cons, childLine_count by (exact Hc || now destruct rest).
  destruct rest as [|c' rest']; [reflexivity|].
  destruct (inlineBody_head (c' :: rest') ltac:(discriminate)) as (r & ->).
  reflexivity.
Qed.

(** ** The two forms of a block *)

Lemma headerOk_clean (h : string) : headerOk h = true -> clean isBrace h = true.
Proof.
  unfold headerOk. induction h as [|c h IH]; [reflexivity|].
  cbn [allChars]. intros [Hc Hh]%andb_prop.
  apply headerChar_inv in Hc as (H1 & H2 & H4).
  rewrite clean_plain, IH by assumption. unfold isBrace. now rewrite H1, H2.
Qed.

Lemma headerOk_blank (h : string) : headerOk h = true -> headerOk (h ++ " ") = true.
Proof. unfold headerOk. intros H. now rewrite allChars_app, H. Qed.

Lemma nonempty_dec {A : Type} (l : list A) : l = [] \/ l <> [].
Proof. destruct l; [now left|now right]. Qed.

Lemma match_nonempty {A B : Type} (l : list A) (x y : B) :
  l <> [] -> match l with [] => x | _ :: _ => y end = y.
Proof. destruct l; [congruence|reflexivity]. Qed.

Lemma children_wordOk (node : SchemaNode) (cs : list Child) :
  Forall (fun c => childOk node c = true) cs -> Forall wordOk cs.
Proof.
  induction 1 as [|c rest Hc _ IH]; [constructor|].
  constructor; [|exact IH]. now apply childOk_wordOk with (node := node).
Qed.

Section Forms.
Variable node : SchemaNode.
Variable header : string.
Variable cs : list Child.
Hypothesis Hheader : headerOk header = true.
Hypothesis Hcs : Forall (fun c => childOk node c = true) cs.

Lemma validate_inline : ValidateNoNestedBraces (inlineLine header cs) = Ok tt.
Proof.
  unfold ValidateNoNestedBraces, inlineLine.
  rewrite nested_clean_app by first [now apply headerOk_clean|reflexivity].
  change (" { " ++ inlineBody cs ++ " }")
    with (String " " (String "{" (String " " (inlineBody cs ++ " }")))).
  rewrite nested_plain by reflexivity. cbn [Ascii.eqb Bool.eqb].
  rewrite nested_plain by reflexivity. cbn [Ascii.eqb Bool.eqb].
  replace (1 <? 0 + 1)%Z with false by reflexivity.
  rewrite nested_plain by reflexivity. cbn [Ascii.eqb Bool.eqb].
  rewrite nested_clean_app by first [now apply inlineBody_clean, (children_wordOk node)|reflexivity].
  reflexivity.
Qed.

Lemma inlineLine_eq :
  inlineLine header cs
  = (header ++ " ") ++ String "{" ((" " ++ inlineBody cs ++ " ") ++ "}").
Proof. unfold inlineLine. now rewrite !append_assoc. Qed.

Lemma inlineLine_close :
  inlineLine header cs = ((header ++ " {") ++ " " ++ inlineBody cs ++ " ") ++ "}".
Proof. unfold inlineLine. now rewrite !append_assoc. Qed.

Lemma inlineLine_open :
  inlineLine header cs = (header ++ " {") ++ (" " ++ inlineBody cs ++ " ") ++ "}".
Proof. unfold inlineLine. now rewrite !append_assoc. Qed.

Lemma index_inline : Index (inlineLine header cs) "{" = len (header ++ " ").
Proof.
  unfold Index. rewrite inlineLine_eq, index_from_header by now apply headerOk_blank.
  lia.
Qed.

Lemma lastIndex_inline :
  LastIndex (inlineLine header cs) "}"
  = len (header ++ " {") + len (" " ++ inlineBody cs ++ " ").
Proof.
  unfold LastIndex. rewrite inlineLine_close, last_index_end, len_append. lia.
Qed.

Lemma len_open : len (header ++ " {") = len (header ++ " ") + 1.
Proof.
  rewrite !len_append. change (len " {") with 2. change (len " ") with 1. lia.
Qed.

Lemma content_inline :
  TrimSpace (slice (inlineLine header cs)
               (Index (inlineLine header cs) "{" + 1)
               (LastIndex (inlineLine header cs) "}"))
  = inlineBody cs.
Proof.
  rewrite index_inline, lastIndex_inline, <- len_open.
  rewrite inlineLine_open at 1. rewrite slice_mid.
  apply inlineBody_trim_inner, (children_wordOk node), Hcs.
Qed.

Lemma parseInlineChildren_body (r : ParsedAnnotation) :
  cs <> [] ->
  parseInlineChildren (inlineBody cs) node r
  = inline_loop 1 (protectedParts cs) node r.
Proof.
  intros Hne. unfold parseInlineChildren.
  destruct (inlineBody_head cs Hne) as (b & E).
  replace (isEmpty (inlineBody cs)) with false by now rewrite E.
  unfold Split. rewrite ProtectEscapedAt_eq, split_body by first [now apply (children_wordOk node)|exact Hne].
  reflexivity.
Qed.

Lemma ParseInlineAnnotation_form (name : string) :
  ParseInlineAnnotation (inlineLine header cs) name node
  = match cs with
    | [] =>
        if negb (CanBeEmpty node)
        then Error (name ++ " cannot be empty (has required children)")
        else Ok (emptyParsed name [inlineLine header cs])
    | _ =>
        inline_loop 1 (protectedParts cs) node
          (emptyParsed name [inlineLine header cs])
    end.
Proof.
  unfold ParseInlineAnnotation. rewrite validate_inline. cbv zeta.
  rewrite content_inline.
  pose proof (len_nonneg (header ++ " ")) as P1.
  pose proof (len_nonneg (" " ++ inlineBody cs ++ " ")) as P2.
  pose proof len_open as P3.
  rewrite index_inline, lastIndex_inline.
  replace (len (header ++ " ") =? -1)%Z with false by (symmetry; apply Z.eqb_neq; lia).
  replace (len (header ++ " {") + len (" " ++ inlineBody cs ++ " ") =? -1)%Z
    with false by (symmetry; apply Z.eqb_neq; lia).
  replace (len (header ++ " {") + len (" " ++ inlineBody cs ++ " ")
           <=? len (header ++ " "))%Z
    with false by (symmetry; apply Z.leb_gt; lia).
  cbn [orb].
  destruct (nonempty_dec cs) as [E|Hne]; [rewrite E; reflexivity|].
  destruct (inlineBody_head cs Hne) as (b & E).
  replace (isEmpty (inlineBody cs)) with false by now rewrite E.
  rewrite parseInlineChildren_body by exact Hne.
  symmetry. now apply match_nonempty.
Qed.
End Forms.

(** ** [ParseBracedBlock] on the two forms *)

Lemma braced_children (pos : Z) (cs : list Child) :
  Forall wordOk cs ->
  forall content,
    braced_loop false pos (List.map childLine cs ++ ["}"])%list content 1
    = Ok (content ++ List.map childLine cs)%list.
Proof.
  induction cs as [|c rest IH]; intros Hcs content.
  - cbn. now rewrite app_nil_r.
  - inversion Hcs as [|? ? [Hn Ht] Hrest]; subst.
    cbn [List.map app braced_loop]. cbv zeta.
    unfold CountUnescapedBraces. cbn [fst].
    rewrite count_clean by now apply childLine_clean.
    rewrite childLine_trim by assumption.
    replace (1 + 0 =? 0)%Z with false by reflexivity.
    replace (1 + 0 <? 0)%Z with false by reflexivity.
    replace (isEmpty (childLine c)) with false by reflexivity.
    cbn [negb]. replace (1 + 0) with 1 by reflexivity.
    rewrite IH by exact Hrest. now rewrite <- app_assoc.
Qed.

Section Braced.
Variable node : SchemaNode.
Variable header : string.
Variable cs : list Child.
Hypothesis Hheader : headerOk header = true.
Hypothesis Hcs : Forall (fun c => childOk node c = true) cs.

Lemma opener_inline : findBlockOpener (inlineLine header cs) = len (header ++ " ").
Proof.
  unfold inlineLine.
  change (" { " ++ inlineBody cs ++ " }") with (" {" ++ " " ++ inlineBody cs ++ " }").
  rewrite findBlockOpener_header by exact Hheader.
  rewrite len_append. reflexivity.
Qed.

Lemma count_inline :
  countBracesFromPosition (inlineLine header cs) (len (header ++ " ")) = 0.
Proof.
  unfold countBracesFromPosition.
  rewrite (inlineLine_eq header cs), slice_from_len.
  rewrite count_plain by reflexivity. cbn [Ascii.eqb Bool.eqb].
  rewrite !append_assoc, append_cons, append_nil_l.
  rewrite count_plain by reflexivity. cbn [Ascii.eqb Bool.eqb].
  rewrite count_clean_app
    by first [now apply inlineBody_clean, (children_wordOk node)|reflexivity].
  reflexivity.
Qed.

Lemma rest_inline :
  slice_from (inlineLine header cs) (len (header ++ " ") + 1)
  = " " ++ inlineBody cs ++ " }".
Proof.
  rewrite <- len_open, (inlineLine_open header cs), slice_from_len.
  now rewrite !append_assoc.
Qed.

Lemma ParseBracedBlock_inline :
  ParseBracedBlock [inlineLine header cs]
  = Ok (match cs with [] => [] | _ :: _ => [inlineBody cs] end).
Proof.
  pose proof (len_nonneg (header ++ " ")) as Hpos.
  unfold ParseBracedBlock. cbn [findOpenLine]. rewrite opener_inline.
  replace (0 <=? len (header ++ " "))%Z with true by (symmetry; apply Z.leb_le; lia).
  cbn [braced_loop]. cbv zeta. rewrite count_inline, rest_inline.
  replace (0 + 0 =? 0)%Z with true by reflexivity. cbn [andb].
  destruct (nonempty_dec cs) as [E|Hne]; [rewrite E; reflexivity|].
  pose proof (children_wordOk node cs Hcs) as Hw.
  rewrite inlineBody_trim_close by assumption.
  destruct (inlineBody_head cs Hne) as (b & E).
  replace (isEmpty (inlineBody cs ++ " }")) with false by now rewrite E.
  cbn [negb]. change (inlineBody cs ++ " }") with (inlineBody cs ++ " " ++ "}").
  rewrite <- (append_assoc (inlineBody cs) " " "}"), TrimSuffix_end.
  rewrite inlineBody_trim_blank by exact Hw.
  replace (isEmpty (inlineBody cs)) with false by now rewrite E.
  cbn [negb app]. symmetry. f_equal. now apply match_nonempty.
Qed.

Lemma opener_multi : findBlockOpener (header ++ " {") = len (header ++ " ").
Proof.
  change (header ++ " {") with (header ++ " {" ++ "").
  rewrite findBlockOpener_header by exact Hheader.
  rewrite len_append. reflexivity.
Qed.

Lemma ParseBracedBlock_multi :
  ParseBracedBlock (multiLines header cs) = Ok (List.map childLine cs).
Proof.
  pose proof (len_nonneg (header ++ " ")) as Hpos.
  unfold ParseBracedBlock, multiLines. cbn [findOpenLine]. rewrite opener_multi.
  replace (0 <=? len (header ++ " "))%Z with true by (symmetry; apply Z.leb_le; lia).
  cbn [braced_loop]. cbv zeta.
  assert (E1 : countBracesFromPosition (header ++ " {") (len (header ++ " ")) = 1).
  { unfold countBracesFromPosition.
    change (header ++ " {") with (header ++ " " ++ "{").
    now rewrite <- append_assoc, slice_from_len. }
  assert (E2 : slice_from (header ++ " {") (len (header ++ " ") + 1) = "").
  { rewrite <- len_open. rewrite <- (append_nil_r (header ++ " {")) at 1.
    apply slice_from_len. }
  rewrite E1, E2.
  replace (0 + 1 =? 0)%Z with false by reflexivity.
  replace (0 + 1 <? 0)%Z with false by reflexivity.
  change (TrimSpace "") with "". cbn [isEmpty String.eqb negb].
  replace (0 + 1) with 1 by reflexivity.
  rewrite braced_children by now apply (children_wordOk node). reflexivity.
Qed.
End Braced.

(** ** Both parses *)

Lemma sameChildren_sym (a b : result ParsedAnnotation) :
  sameChildren a b -> sameChildren b a.
Proof. destruct a, b; cbn; auto. Qed.

Lemma sameChildren_trans (a b c : result ParsedAnnotation) :
  sameChildren a b -> sameChildren b c -> sameChildren a c.
Proof. destruct a, b, c; cbn; try tauto. congruence. Qed.

Lemma sameChildren_wrapped (name : string) (a : result ParsedAnnotation) :
  sameChildren a (wrapped name a).
Proof. destruct a; cbn; auto. Qed.

Lemma children_withMetadata (node : SchemaNode) (lines : list string) (name : string) :
  children (withMetadata node lines name) = ([], []).
Proof. unfold withMetadata. now destruct (_ && _). Qed.

Section Both.
Variable node : SchemaNode.
Variable header : string.
Variable cs : list Child.
Variable name : string.
Hypothesis Hnode : isBlock node = true.
Hypothesis Hheader : headerOk header = true.
Hypothesis Hcs : Forall (fun c => childOk node c = true) cs.

Lemma inline_loop_children (r1 r2 : ParsedAnnotation) :
  children r1 = children r2 ->
  sameChildren
    (inline_loop 1 (protectedParts cs) node r1)
    (parseChildren ParseAnnotationBlock_node node (List.map childLine cs) r2).
Proof.
  intros Hr. unfold parseChildren.
  apply loops_same; [exact Hcs| |lia|exact Hr].
  now apply protectedParts_partFor, (children_wordOk node).
Qed.

Lemma multi_form :
  ParseAnnotationBlock (multiLines header cs) name (Some node)
  = match cs with
    | [] =>
        if negb (CanBeEmpty node)
        then Error (name ++ " cannot be empty (has required children)")
        else Ok (withMetadata node (multiLines header cs) name)
    | _ :: _ =>
        wrapped name
          (parseChildren ParseAnnotationBlock_node node (List.map childLine cs)
             (withMetadata node (multiLines header cs) name))
    end.
Proof.
  cbn [ParseAnnotationBlock].
  rewrite parse_block_node, (ParseBracedBlock_multi node) by assumption.
  pose proof (children_wordOk node cs Hcs) as Hw.
  pose proof (inlineBody_count cs Hw) as Hcount.
  destruct (nonempty_dec cs) as [E|Hne]; [rewrite E; reflexivity|].
  rewrite (match_nonempty cs) by exact Hne.
  rewrite length_map.
  replace (List.length cs =? 0)%nat with false
    by (symmetry; apply Nat.eqb_neq; now destruct cs).
  assert (E : (List.length cs =? 1)%nat
              && isInlineContent (first (List.map childLine cs)) = false).
  { clear Hne. destruct cs as [|c [|c' rest]]; try reflexivity. exact Hcount. }
  now rewrite E.
Qed.

Lemma single_form :
  ParseAnnotationBlock [inlineLine header cs] name (Some node)
  = match cs with
    | [] =>
        if negb (CanBeEmpty node)
        then Error (name ++ " cannot be empty (has required children)")
        else Ok (withMetadata node [inlineLine header cs] name)
    | [c] =>
        wrapped name
          (parseChildren ParseAnnotationBlock_node node [childLine c]
             (withMetadata node [inlineLine header cs] name))
    | _ :: _ :: _ =>
        wrapped name
          (inline_loop 1 (protectedParts cs) node
             (withMetadata node [inlineLine header cs] name))
    end.
Proof.
  cbn [ParseAnnotationBlock].
  rewrite parse_block_node, (ParseBracedBlock_inline node) by assumption.
  pose proof (children_wordOk node cs Hcs) as Hw.
  pose proof (inlineBody_count cs Hw) as Hcount.
  pose proof (parseInlineChildren_body node cs Hcs) as Hbody.
  destruct (nonempty_dec cs) as [E|Hne]; [rewrite E; reflexivity|].
  rewrite (match_nonempty cs) by exact Hne.
  cbn [List.length Nat.eqb first hd andb]. rewrite Hcount, Hbody by exact Hne.
  clear Hbody Hcount Hw.
  destruct cs as [|c [|c' rest]]; [congruence|reflexivity|reflexivity].
Qed.

Lemma inline_multi_same :
  sameChildren
    (ParseInlineAnnotation (inlineLine header cs) name node)
    (ParseAnnotationBlock (multiLines header cs) name (Some node)).
Proof.
  rewrite (ParseInlineAnnotation_form node), multi_form by assumption.
  destruct (nonempty_dec cs) as [E|Hne].
  - rewrite E. destruct (negb (CanBeEmpty node)); [exact I|].
    cbn [sameChildren]. now rewrite children_withMetadata.
  - rewrite !(match_nonempty cs) by exact Hne.
    eapply sameChildren_trans; [|apply sameChildren_wrapped].
    apply inline_loop_children. now rewrite children_withMetadata.
Qed.

Lemma single_multi_same :
  sameChildren
    (ParseAnnotationBlock [inlineLine header cs] name (Some node))
    (ParseAnnotationBlock (multiLines header cs) name (Some node)).
Proof.
  rewrite single_form, multi_form.
  assert (Hc : children (withMetadata node [inlineLine header cs] name)
               = children (withMetadata node (multiLines header cs) name))
    by now rewrite (children_withMetadata node [_]), children_withMetadata.
  pose proof (inline_loop_children _ _ Hc) as H1.
  pose proof (inline_loop_children
                (withMetadata node [inlineLine header cs] name) _ eq_refl) as H2.
  clear Hcs Hc.
  destruct cs as [|c [|c' rest]].
  - destruct (negb (CanBeEmpty node)); [exact I|].
    cbn [sameChildren]. now rewrite !children_withMetadata.
  - eapply sameChildren_trans; [apply sameChildren_sym, sameChildren_wrapped|].
    eapply sameChildren_trans; [|apply sameChildren_wrapped].
    eapply sameChildren_trans; [apply sameChildren_sym, H2|exact H1].
  - eapply sameChildren_trans; [apply sameChildren_sym, sameChildren_wrapped|].
    eapply sameChildren_trans; [|apply sameChildren_wrapped]. exact H1.
Qed.
End Both.

Lemma childOk_all (node : SchemaNode) (cs : list Child) :
  forallb (childOk node) cs = true -> Forall (fun c => childOk node c = true) cs.
Proof.
  intros H. apply List.Forall_forall. now apply forallb_forall.
Qed.

End InlineFacts.

(** * Facts about the resolver *)

Module ResolverFacts.
Import Resolver ResolverSpec.
Import types (Type_, Field, FieldType, FieldName, Exported, Tag).

Lemma size_unwrap t : (size (unwrapPointer t) <= size t)%nat.
Proof. destruct t; simpl; lia. Qed.

Lemma size_field (fields : list (Field Type_)) (f : Field Type_) :
  In f fields -> (size (FieldType f) < size (types.Struct fields))%nat.
Proof.
  simpl. induction fields as [|g rest IH]; [intros []|].
  intros [->|H]; [lia|]. specialize (IH H). lia.
Qed.

Lemma index_from_comma (v : string) (i : Z) :
  (index_from i v "," = -1 /\ beforeComma v = v)
  \/ (i <= index_from i v ","
      /\ take (Z.to_nat (index_from i v "," - i)) v = beforeComma v).
Proof.
  revert i. induction v as [|c r IH]; intros i.
  - left. split; reflexivity.
  - cbn [index_from HasPrefix beforeComma]. rewrite andb_true_r.
    destruct (Ascii.eqb c ",").
    + right. split; [lia|]. replace (i - i) with 0 by lia. reflexivity.
    + destruct (IH (i + 1)) as [[E1 E2]|[E1 E2]].
      * left. split; [exact E1|now rewrite E2].
      * right. split; [lia|].
        replace (Z.to_nat (index_from (i + 1) r "," - i))
          with (S (Z.to_nat (index_from (i + 1) r "," - (i + 1)))) by lia.
        cbn [take]. now rewrite E2.
Qed.

Lemma namePart_beforeComma (v : string) :
  (if negb (Index v "," =? -1)%Z then slice_to v (Index v ",") else v) = beforeComma v.
Proof.
  unfold Index, slice_to. destruct (index_from_comma v 0) as [[E1 E2]|[E1 E2]].
  - rewrite E1. cbn. now rewrite E2.
  - destruct (Z.eqb_spec (index_from 0 v ",") (-1)); [lia|]. cbn [negb].
    now rewrite Z.sub_0_r in E2.
Qed.

Lemma isEmpty_true (s : string) : isEmpty s = true -> s = "".
Proof. unfold isEmpty. now intros H%String.eqb_eq. Qed.

Lemma beforeComma_empty (s : string) : isEmpty s = true -> beforeComma s = "".
Proof. intros ->%isEmpty_true. reflexivity. Qed.

(** ** The name of a field *)

Section FieldNames.
Variable Get : string -> string -> string.

Lemma resolveFieldNameFromTag_fallback (tag goFieldName : string) :
  resolveFieldNameFromTag Get tag goFieldName
  = fallbackName (Get tag "json") (Get tag "xml") goFieldName.
Proof.
  unfold resolveFieldNameFromTag, SupportedTags, fallbackName.
  cbn [tags_loop]. rewrite !namePart_beforeComma.
  destruct (isEmpty (Get tag "json")) eqn:Ej.
  - rewrite (beforeComma_empty _ Ej). apply isEmpty_true in Ej. rewrite Ej.
    cbn [String.eqb isEmpty negb].
    destruct (isEmpty (Get tag "xml")) eqn:Ex.
    + rewrite (beforeComma_empty _ Ex). apply isEmpty_true in Ex. rewrite Ex.
      reflexivity.
    + destruct (Get tag "xml" =? "-")%string; [reflexivity|].
      destruct (isEmpty (beforeComma (Get tag "xml"))); reflexivity.
  - destruct (Get tag "json" =? "-")%string; [reflexivity|].
    destruct (isEmpty (beforeComma (Get tag "json"))); [|reflexivity].
    cbn [negb].
    destruct (isEmpty (Get tag "xml")) eqn:Ex.
    + rewrite (beforeComma_empty _ Ex). apply isEmpty_true in Ex. rewrite Ex.
      reflexivity.
    + destruct (Get tag "xml" =? "-")%string; [reflexivity|].
      destruct (isEmpty (beforeComma (Get tag "xml"))); reflexivity.
Qed.
End FieldNames.

(** ** [Required] follows the tag *)

Section Required.
Variable Get : string -> string -> string.
Variable TS : Type_ -> string.
Variable float64 : Type.
Abbreviation RField := (ResolvedField float64).
#[local] Abbreviation keptFields := (ResolverSpec.keptFields Get).
#[local] Abbreviation requiredFromTags := (ResolverSpec.requiredFromTags Get float64).
#[local] Abbreviation fieldRequired := (ResolverSpec.fieldRequired Get float64).
#[local] Abbreviation nestedRequired := (ResolverSpec.nestedRequired Get float64).
#[local] Abbreviation noInline := (ResolverSpec.noInline float64).
#[local] Abbreviation anonSpec := (ResolverSpec.anonSpec Get float64).
#[local] Abbreviation anonBody := (ResolverSpec.anonBody Get TS float64).

Lemma nestedRequired_noInline (t : Type_) (r : RField) :
  noInline r -> nestedRequired t r.
Proof.
  intros (H1 & H2 & H3). constructor; intros l Hl; congruence.
Qed.

Lemma classifyField_required (rec : AnonResolver float64) (ft : Type_) sn
      (resolved : RField) cache r c' :
  anonSpec rec (S (size ft)) ->
  noInline resolved ->
  classifyField TS float64 rec ft sn resolved cache = (r, c') ->
  Required r = Required resolved /\ GoName r = GoName resolved
  /\ nestedRequired ft r.
Proof.
  intros Hrec (N1 & N2 & N3). unfold classifyField.
  destruct (rec ft sn cache) as [[l|] c1] eqn:E1.
  { intros [= <- <-]. repeat split; try reflexivity.
    - intros l' [= <-]. eapply Hrec; [|exact E1]. lia.
    - intros l' Hl'. cbn in Hl'. congruence.
    - intros l' Hl'. cbn in Hl'. congruence. }
  unfold resolveSliceOfAnonymousStruct_with, resolveMapOfAnonymousStruct_with.
  pose proof (size_unwrap ft) as Hu.
  destruct (match unwrapPointer ft with
            | types.Slice elem => rec elem sn c1
            | _ => (None, c1)
            end) as [[l|] c2] eqn:E2.
  { intros [= <- <-]. repeat split; try reflexivity.
    - intros l' Hl'. cbn in Hl'. congruence.
    - intros l' [= <-]. destruct (unwrapPointer ft) eqn:Eu; try discriminate E2.
      eexists. split; [reflexivity|]. eapply Hrec; [|exact E2]. simpl in Hu. lia.
    - intros l' Hl'. cbn in Hl'. congruence. }
  destruct (match unwrapPointer ft with
            | types.Map _ elem => rec elem sn c2
            | _ => (None, c2)
            end) as [[l|] c3] eqn:E3.
  { intros [= <- <-]. repeat split; try reflexivity.
    - intros l' Hl'. cbn in Hl'. congruence.
    - intros l' Hl'. cbn in Hl'. congruence.
    - intros l' [= <-]. destruct (unwrapPointer ft) eqn:Eu; try discriminate E3.
      do 2 eexists. split; [reflexivity|]. eapply Hrec; [|exact E3]. simpl in Hu. lia. }
  destruct (resolveType TS ft c3) as [info c4].
  intros [= <- <-].
  destruct (checkUnresolvedStruct ft sn);
    (split; [reflexivity|split; [reflexivity|]]);
    apply nestedRequired_noInline; (split; [exact N1|split; [exact N2|exact N3]]).
Qed.

Lemma resolveAnonymousStruct_unfold (t : Type_) sn (cache : gmap string TypeInfo.t) :
  resolveAnonymousStruct Get TS float64 t sn cache
  = match unwrapPointer t with
    | types.Struct fields =>
        let '(fields, typeCache) :=
          fields_loop float64 (anonBody (resolveAnonymousStruct Get TS float64) sn)
            fields cache in
        (Some fields, typeCache)
    | _ => (None, cache)
    end.
Proof. destruct t; reflexivity. Qed.

Lemma anonBody_required (rec : AnonResolver float64) sn (f : Field Type_) cache :
  anonSpec rec (S (size (FieldType f))) ->
  match anonBody rec sn f cache with
  | (Some r, _) =>
      fieldRequired f r
      /\ Exported f
         && negb (isEmpty (resolveFieldNameFromTag Get (Tag f) (FieldName f))) = true
  | (None, _) =>
      Exported f
      && negb (isEmpty (resolveFieldNameFromTag Get (Tag f) (FieldName f))) = false
  end.
Proof.
  intros Hrec. unfold anonBody.
  destruct (Exported f); cbn [negb andb]; [|reflexivity].
  destruct (isEmpty _) eqn:En; cbn [negb]; [reflexivity|].
  destruct (classifyField _ _ _ _ _ _ _) as [r c2] eqn:Ec.
  apply classifyField_required in Ec as (H1 & H2 & H3);
    [|exact Hrec|repeat split; reflexivity].
  split; [|reflexivity]. constructor; [exact H2| |exact H3].
  rewrite H1. reflexivity.
Qed.

Lemma fields_loop_required (rec : AnonResolver float64) sn (bound : nat)
      (fields : list (Field Type_)) :
  anonSpec rec bound ->
  (forall f, In f fields -> (size (FieldType f) < bound)%nat) ->
  forall cache rs c',
    fields_loop float64 (anonBody rec sn) fields cache = (rs, c') ->
    Forall2 fieldRequired (keptFields fields) rs.
Proof.
  intros Hrec. induction fields as [|f rest IH]; intros Hsize cache rs c'.
  - cbn. intros [= <- <-]. constructor.
  - cbn [fields_loop keptFields List.filter].
    assert (Hf : anonSpec rec (S (size (FieldType f)))).
    { intros t sn' c l c2 Hlt. apply Hrec. specialize (Hsize f (or_introl eq_refl)). lia. }
    pose proof (anonBody_required rec sn f cache Hf) as Hb.
    destruct (anonBody rec sn f cache) as [[r|] c1].
    + destruct Hb as [Hr ->].
      destruct (fields_loop _ _ rest c1) as [more c2] eqn:El.
      intros [= <- <-]. constructor; [exact Hr|].
      eapply IH; [|exact El]. intros g Hg. apply Hsize. now right.
    + rewrite Hb.
      destruct (fields_loop _ _ rest c1) as [more c2] eqn:El.
      intros [= <- <-]. eapply IH; [|exact El]. intros g Hg. apply Hsize. now right.
Qed.

Lemma resolveAnonymousStruct_required_bound (n : nat) :
  anonSpec (resolveAnonymousStruct Get TS float64) n.
Proof.
  induction n as [|n IH]; intros t sn c rs c2 Hlt; [lia|].
  rewrite resolveAnonymousStruct_unfold.
  destruct (unwrapPointer t) as [| | | | |fields| | | | | |] eqn:Eu; try discriminate.
  destruct (fields_loop _ _ fields c) as [l c3] eqn:El.
  intros [= <- <-]. econstructor; [exact Eu|].
  eapply fields_loop_required; [exact IH| |exact El].
  intros f Hf. apply size_field in Hf. pose proof (size_unwrap t). rewrite Eu in *. lia.
Qed.

Lemma resolveAnonymousStruct_required (t : Type_) sn c rs c2 :
  resolveAnonymousStruct Get TS float64 t sn c = (Some rs, c2) ->
  requiredFromTags t rs.
Proof. apply (resolveAnonymousStruct_required_bound (S (size t))). lia. Qed.

End Required.

(** ** The classification of a field *)

Lemma cache_ok_empty : cache_ok ∅.
Proof. intros key info H. rewrite lookup_empty in H. discriminate. Qed.

Lemma cache_ok_insert (typeCache : gmap string TypeInfo.t) key info :
  cache_ok typeCache -> info_ok info = true -> cache_ok (<[key := info]> typeCache).
Proof.
  intros Hc Hi k i. destruct (decide (key = k)) as [->|Hne].
  - rewrite lookup_insert_eq. now intros [= <-].
  - rewrite lookup_insert_ne by assumption. apply Hc.
Qed.

Section Classified.
Variable Get : string -> string -> string.
Variable TS : Type_ -> string.
Variable float64 : Type.
Abbreviation RField := (ResolvedField float64).
#[local] Abbreviation classifiedAs := (ResolverSpec.classifiedAs float64).
#[local] Abbreviation uniquelyClassified := (ResolverSpec.uniquelyClassified float64).
#[local] Abbreviation everyField := (ResolverSpec.everyField float64).
#[local] Abbreviation shape := (ResolverSpec.shape float64).

Lemma classifiedAs_unique (r : RField) (c : Classification) :
  classifiedAs r c = true -> uniquelyClassified r.
Proof.
  intros H. exists c. split; [exact H|]. intros c' H'.
  destruct c, c'; try reflexivity; exfalso; unfold classifiedAs in *;
    destruct (isSome (InlineFields r)), (IsArray r), (IsMap r), (IsAnyValue r);
    cbn in *; congruence.
Qed.

Lemma classified_shape (a b : RField) :
  shape a = shape b -> uniquelyClassified a -> uniquelyClassified b.
Proof.
  unfold shape. intros [= H1 H2 H3 H4 H5 H6 H7 H8 H9 H10].
  assert (E : forall c, classifiedAs b c = classifiedAs a c).
  { intros c. unfold classifiedAs. now rewrite H3, H4, H5, H6, H8. }
  intros (c & Hc & Hu).
  exists c. split; [now rewrite E|]. intros c'. rewrite E. apply Hu.
Qed.

Lemma everyField_shape (P : RField -> Prop) (a b : RField) :
  (P a -> P b) -> shape a = shape b -> everyField P a -> everyField P b.
Proof.
  unfold shape. intros HP [= H1 H2 H3 H4 H5 H6 H7 H8 H9 H10] H.
  inversion H as [? Pa I1 I2 I3]; subst.
  constructor; [now apply HP|rewrite <- H8|rewrite <- H9|rewrite <- H10]; assumption.
Qed.

Lemma when_shape (c : bool) (f : RField -> RField) (r : RField) :
  (forall x, shape (f x) = shape x) -> shape (when float64 c f r) = shape r.
Proof. intros H. unfold when. destruct c; [apply H|reflexivity]. Qed.

Lemma whenSet_shape {A} (o : option A) (f : RField -> RField) (r : RField) :
  (forall x, shape (f x) = shape x) -> shape (whenSet float64 o f r) = shape r.
Proof. intros H. unfold whenSet. destruct o; [apply H|reflexivity]. Qed.

Lemma applyAnnotation_shape (a : Field.t float64) (r : RField) :
  shape (applyAnnotation float64 a r) = shape r.
Proof.
  unfold applyAnnotation. cbv zeta.
  repeat first [rewrite when_shape by reflexivity
               |rewrite whenSet_shape by reflexivity].
  reflexivity.
Qed.

Section Inline.
Variable parseFloat : string -> option float64.
Variable parseInt : string -> option Z.

Lemma applyPart_shape (n v : string) (r : RField) :
  shape (applyPart float64 parseFloat parseInt n v r) = shape r.
Proof.
  unfold applyPart.
  repeat (match goal with
          | |- context [if ?c then _ else _] => destruct c; [try reflexivity|]
          end;
          try (match goal with
               | |- context [match ?o with Some _ => _ | None => _ end] =>
                   destruct o; reflexivity
               end)).
  reflexivity.
Qed.

Lemma fold_left_shape {A} (f : RField -> A -> RField) (l : list A) (r : RField) :
  (forall x a, shape (f x a) = shape x) -> shape (fold_left f l r) = shape r.
Proof.
  intros H. revert r. induction l as [|a l IH]; intros r; [reflexivity|].
  cbn [fold_left]. now rewrite IH, H.
Qed.

Lemma applyLine_shape (line : string) (r : RField) :
  shape (applyLine float64 parseFloat parseInt line r) = shape r.
Proof.
  unfold applyLine. destruct (negb _); [reflexivity|].
  destruct (_ || _ || _); [reflexivity|].
  apply fold_left_shape. intros x part.
  destruct (isEmpty _); [reflexivity|].
  destruct (0 <? _)%Z; apply applyPart_shape.
Qed.

Lemma applyFieldAnnotations_shape (r : RField) (comment : option (list string)) :
  shape (applyFieldAnnotations float64 parseFloat parseInt r comment) = shape r.
Proof.
  destruct comment as [lines|]; [|reflexivity].
  apply fold_left_shape. intros x line. apply applyLine_shape.
Qed.
End Inline.

End Classified.

Section ClassifiedProofs.
Variable Get : string -> string -> string.
Variable TS : Type_ -> string.
Variable float64 : Type.
Abbreviation RField := (ResolvedField float64).
Abbreviation Cache := (gmap string TypeInfo.t).
#[local] Abbreviation Q := (ResolverSpec.allClassified float64).
#[local] Abbreviation anonOk := (ResolverSpec.anonOk float64).
#[local] Abbreviation blank := (ResolverSpec.blank float64).

Lemma resolveType_unfold (t : Type_) (typeCache : Cache) :
  resolveType TS t typeCache
  = let typeStr := TS t in
    match typeCache !! typeStr with
    | Some cached => (cached, typeCache)
    | None =>
        let info := TypeInfo.Mk "" "" false "" (isPointer t) false in
        match unwrapPointer t with
        | types.Slice elem =>
            let '(elemInfo, typeCache) := resolveType TS elem typeCache in
            let info :=
              TypeInfo.Mk "array" (TypeInfo.Format info) true
                (TypeInfo.OpenAPIType elemInfo)
                (TypeInfo.IsNullable info) (TypeInfo.IsAnyValue info) in
            (info, <[typeStr := info]> typeCache)
        | types.Alias _ rhs => resolveType TS rhs typeCache
        | types.Named obj underlying =>
            let pkgPath :=
              match types.Pkg obj with Some path => path | None => "" end in
            match resolveSpecialType pkgPath (types.ObjName obj) with
            | Some specialType =>
                let info :=
                  set_info_type (openAPIType specialType) (format specialType)
                    info in
                (info, <[typeStr := info]> typeCache)
            | None => resolveType TS underlying typeCache
            end
        | types.Basic kind =>
            let info := basicInfo info kind in
            (info, <[typeStr := info]> typeCache)
        | types.Interface =>
            let info :=
              TypeInfo.Mk (TypeInfo.OpenAPIType info) (TypeInfo.Format info)
                (TypeInfo.IsArray info) (TypeInfo.ItemsType info)
                (TypeInfo.IsNullable info) true in
            (info, <[typeStr := info]> typeCache)
        | _ =>
            let info := set_info_type "string" (TypeInfo.Format info) info in
            (info, <[typeStr := info]> typeCache)
        end
    end.
Proof. destruct t; reflexivity. Qed.

Lemma resolveSpecialType_string (pkgPath typeName : string) (m : specialTypeMapping) :
  resolveSpecialType pkgPath typeName = Some m -> openAPIType m = "string".
Proof.
  unfold resolveSpecialType, specialTypes. cbn [map_lookup].
  repeat (destruct (String.eqb _ pkgPath);
          [cbn [map_lookup];
           repeat (destruct (String.eqb _ typeName); [now intros [= <-]|]);
           discriminate|]).
  discriminate.
Qed.

Lemma resolveType_ok_bound (n : nat) :
  forall t typeCache,
    (size t < n)%nat -> cache_ok typeCache ->
    info_ok (fst (resolveType TS t typeCache)) = true
    /\ cache_ok (snd (resolveType TS t typeCache)).
Proof.
  induction n as [|n IH]; intros t typeCache Hlt Hc; [lia|].
  rewrite resolveType_unfold. cbv zeta.
  destruct (typeCache !! TS t) as [cached|] eqn:El.
  { split; [exact (Hc _ _ El)|exact Hc]. }
  pose proof (size_unwrap t) as Hu.
  destruct (unwrapPointer t) as [kind|e|elem|? e|k e|fields|obj u|obj rhs| |e| |obj] eqn:Eu;
    cbn [size] in Hu;
    try (cbn [fst snd]; split; [reflexivity|apply cache_ok_insert; [exact Hc|reflexivity]]).
  - cbn [fst snd]. assert (Hk : info_ok (basicInfo (TypeInfo.Mk "" "" false "" (isPointer t) false) kind) = true)
      by (destruct kind; reflexivity).
    split; [exact Hk|apply cache_ok_insert; assumption].
  - destruct (IH elem typeCache ltac:(lia) Hc) as [_ Hc'].
    destruct (resolveType TS elem typeCache) as [elemInfo c1]. cbn [fst snd] in *.
    split; [reflexivity|apply cache_ok_insert; [exact Hc'|reflexivity]].
  - destruct (resolveSpecialType _ _) as [m|] eqn:Es.
    + cbn [fst snd].
      assert (Hk : info_ok (set_info_type (openAPIType m) (format m)
                              (TypeInfo.Mk "" "" false "" (isPointer t) false)) = true).
      { unfold info_ok, set_info_type. cbn. now rewrite (resolveSpecialType_string _ _ _ Es). }
      split; [exact Hk|apply cache_ok_insert; assumption].
    + apply IH; [lia|exact Hc].
  - apply IH; [lia|exact Hc].
Qed.

Lemma resolveType_ok (t : Type_) (typeCache : Cache) info c' :
  cache_ok typeCache -> resolveType TS t typeCache = (info, c') ->
  info_ok info = true /\ cache_ok c'.
Proof.
  intros Hc E. pose proof (resolveType_ok_bound (S (size t)) t typeCache ltac:(lia) Hc) as H.
  now rewrite E in H.
Qed.

Lemma info_classified (info : TypeInfo.t) (u : option string) (r : RField) :
  blank r -> info_ok info = true ->
  Q (applyTypeInfo float64 info (markUnresolved float64 u r)).
Proof.
  intros (B1 & B2 & B3 & B4 & B5 & B6 & B7 & B8) Hi.
  set (r' := applyTypeInfo float64 info (markUnresolved float64 u r)).
  assert (E : InlineFields r' = None /\ ItemsInlineFields r' = None
              /\ MapValueInlineFields r' = None /\ IsMap r' = false
              /\ OpenAPIType r' = TypeInfo.OpenAPIType info
              /\ IsArray r' = TypeInfo.IsArray info
              /\ IsAnyValue r' = TypeInfo.IsAnyValue info).
  { subst r'. destruct u; cbn; repeat split; assumption. }
  destruct E as (E1 & E2 & E3 & E4 & E5 & E6 & E7).
  constructor; try (intros l Hl; congruence).
  unfold info_ok in Hi.
  assert (Hc : classifiedAs float64 r' ArrayType = true
               \/ classifiedAs float64 r' AnyValue = true
               \/ classifiedAs float64 r' PrimitiveType = true).
  { unfold classifiedAs. rewrite E1, E4, E5, E6, E7. cbn [isSome negb andb].
    destruct (TypeInfo.IsArray info).
    - left. apply andb_prop in Hi as [H1 H2]. now rewrite H1, H2.
    - destruct (TypeInfo.IsAnyValue info).
      + right. left. exact Hi.
      + right. right. exact Hi. }
  destruct Hc as [Hc|[Hc|Hc]]; eapply classifiedAs_unique; exact Hc.
Qed.

Lemma classifyField_classified (rec : AnonResolver float64) (ft : Type_) sn
      (resolved : RField) cache r c' :
  anonOk rec (S (size ft)) ->
  blank resolved -> cache_ok cache ->
  classifyField TS float64 rec ft sn resolved cache = (r, c') ->
  cache_ok c' /\ Q r.
Proof.
  intros Hrec HB Hc. pose proof HB as (B1 & B2 & B3 & B4 & B5 & B6 & B7 & B8).
  unfold classifyField.
  destruct (rec ft sn cache) as [o1 c1] eqn:E1.
  destruct (Hrec ft sn cache o1 c1 (Nat.lt_succ_diag_r _) Hc E1) as [Hc1 H1].
  destruct o1 as [l|].
  { intros [= <- <-]. split; [exact Hc1|].
    constructor; cbn; try (intros l' Hl'; congruence).
    - apply (classifiedAs_unique float64 _ InlineObject). cbn. now rewrite B2, B3, B4.
    - intros l' [= <-]. now apply H1. }
  unfold resolveSliceOfAnonymousStruct_with, resolveMapOfAnonymousStruct_with.
  pose proof (size_unwrap ft) as Hu.
  destruct (match unwrapPointer ft with
            | types.Slice elem => rec elem sn c1
            | _ => (None, c1)
            end) as [o2 c2] eqn:E2.
  assert (H2 : cache_ok c2 /\ forall rs, o2 = Some rs -> Forall Q rs).
  { destruct (unwrapPointer ft); try (injection E2 as <- <-; split; [exact Hc1|discriminate]).
    eapply Hrec; [|exact Hc1|exact E2]. cbn [size] in Hu. lia. }
  destruct H2 as [Hc2 H2].
  destruct o2 as [l|].
  { intros [= <- <-]. split; [exact Hc2|].
    constructor; cbn; try (intros l' Hl'; congruence).
    - apply (classifiedAs_unique float64 _ ArrayType). cbn. now rewrite B3, B4, B6.
    - intros l' [= <-]. now apply H2. }
  destruct (match unwrapPointer ft with
            | types.Map _ elem => rec elem sn c2
            | _ => (None, c2)
            end) as [o3 c3] eqn:E3.
  assert (H3 : cache_ok c3 /\ forall rs, o3 = Some rs -> Forall Q rs).
  { destruct (unwrapPointer ft); try (injection E3 as <- <-; split; [exact Hc2|discriminate]).
    eapply Hrec; [|exact Hc2|exact E3]. cbn [size] in Hu. lia. }
  destruct H3 as [Hc3 H3].
  destruct o3 as [l|].
  { intros [= <- <-]. split; [exact Hc3|].
    constructor; cbn; try (intros l' Hl'; congruence).
    - apply (classifiedAs_unique float64 _ MapType). cbn. now rewrite B2, B4, B6.
    - intros l' [= <-]. now apply H3. }
  destruct (resolveType TS ft c3) as [info c4] eqn:Et.
  destruct (resolveType_ok _ _ _ _ Hc3 Et) as [Hi Hc4].
  intros [= <- <-]. split; [exact Hc4|]. now apply info_classified.
Qed.

Lemma newField_blank (name : string) (f : Field Type_) :
  blank (newField TS float64 name f).
Proof. repeat split. Qed.

Lemma anonBody_classified (rec : AnonResolver float64) sn (f : Field Type_)
      cache o c' :
  anonOk rec (S (size (FieldType f))) -> cache_ok cache ->
  anonBody Get TS float64 rec sn f cache = (o, c') ->
  cache_ok c' /\ forall r, o = Some r -> Q r.
Proof.
  intros Hrec Hc. unfold anonBody.
  destruct (negb (Exported f)); [intros [= <- <-]; split; [exact Hc|discriminate]|].
  destruct (isEmpty _); [intros [= <- <-]; split; [exact Hc|discriminate]|].
  destruct (classifyField _ _ _ _ _ _ _) as [r c2] eqn:Ec.
  apply classifyField_classified in Ec as [Hc2 Hq];
    [|exact Hrec|apply newField_blank|exact Hc].
  intros [= <- <-]. split; [exact Hc2|]. now intros r' [= <-].
Qed.

Lemma fields_loop_classified (rec : AnonResolver float64) sn (bound : nat)
      (fields : list (Field Type_)) :
  anonOk rec bound ->
  (forall f, In f fields -> (size (FieldType f) < bound)%nat) ->
  forall cache rs c',
    cache_ok cache ->
    fields_loop float64 (anonBody Get TS float64 rec sn) fields cache = (rs, c') ->
    cache_ok c' /\ Forall Q rs.
Proof.
  intros Hrec. induction fields as [|f rest IH]; intros Hsize cache rs c' Hc.
  - cbn. intros [= <- <-]. split; [exact Hc|constructor].
  - cbn [fields_loop].
    assert (Hf : anonOk rec (S (size (FieldType f)))).
    { intros t sn' c l c2 Hlt. apply Hrec. specialize (Hsize f (or_introl eq_refl)). lia. }
    destruct (anonBody Get TS float64 rec sn f cache) as [o c1] eqn:Eb.
    destruct (anonBody_classified _ _ _ _ _ _ Hf Hc Eb) as [Hc1 Ho].
    destruct (fields_loop _ _ rest c1) as [more c2] eqn:El.
    destruct (IH (fun g Hg => Hsize g (or_intror Hg)) _ _ _ Hc1 El) as [Hc2 Hm].
    intros [= <- <-]. split; [exact Hc2|].
    destruct o as [r|]; [constructor; [now apply Ho|exact Hm]|exact Hm].
Qed.

Lemma resolveAnonymousStruct_classified_bound (n : nat) :
  anonOk (resolveAnonymousStruct Get TS float64) n.
Proof.
  induction n as [|n IH]; intros t sn c o c2 Hlt Hc; [lia|].
  rewrite resolveAnonymousStruct_unfold.
  destruct (unwrapPointer t) as [| | | | |fields| | | | | |] eqn:Eu;
    try (intros [= <- <-]; split; [exact Hc|discriminate]).
  destruct (fields_loop _ _ fields c) as [l c3] eqn:El.
  intros [= <- <-].
  eapply fields_loop_classified in El as [Hc3 Hl]; [| exact IH | | exact Hc].
  - split; [exact Hc3|]. now intros rs [= <-].
  - intros f Hf. apply size_field in Hf. pose proof (size_unwrap t). rewrite Eu in *. lia.
Qed.

Lemma resolveField_classified (f : Field Type_) ann sn cache r c' :
  cache_ok cache ->
  resolveField Get TS float64 f ann sn cache = (Some r, c') ->
  cache_ok c' /\ Q r.
Proof.
  intros Hc. unfold resolveField.
  destruct (negb (Exported f)); [discriminate|].
  destruct (isEmpty _); [discriminate|].
  destruct (classifyField _ _ _ _ _ _ _) as [r0 c2] eqn:Ec.
  apply classifyField_classified in Ec as [Hc2 Hq];
    [|apply resolveAnonymousStruct_classified_bound|apply newField_blank|exact Hc].
  intros [= <- <-]. split; [exact Hc2|].
  destruct ann as [a|]; [|exact Hq].
  assert (Hs : shape float64 r0
               = shape float64 (set_Deprecated (Field.Deprecated a)
                                  (applyAnnotation float64 a r0))).
  { symmetry. apply (applyAnnotation_shape float64 a r0). }
  eapply everyField_shape; [|exact Hs|exact Hq].
  apply classified_shape. exact Hs.
Qed.
End ClassifiedProofs.

Section RequiredTop.
Variable Get : string -> string -> string.
Variable TS : Type_ -> string.
Variable float64 : Type.
Abbreviation RField := (ResolvedField float64).
Abbreviation Cache := (gmap string TypeInfo.t).

Lemma nestedRequired_shape (t : Type_) (a b : RField) :
  shape float64 a = shape float64 b ->
  nestedRequired Get float64 t a -> nestedRequired Get float64 t b.
Proof.
  unfold shape. intros [= H1 H2 H3 H4 H5 H6 H7 H8 H9 H10] H.
  inversion H as [? ? I1 I2 I3]; subst.
  constructor; [rewrite <- H8|rewrite <- H9|rewrite <- H10]; assumption.
Qed.

Lemma fieldRequired_shape (f : Field Type_) (a b : RField) :
  shape float64 a = shape float64 b ->
  fieldRequired Get float64 f a -> fieldRequired Get float64 f b.
Proof.
  intros Hs H. inversion H as [? ? I1 I2 I3]; subst.
  pose proof Hs as Hs'. unfold shape in Hs'.
  injection Hs' as H1 H2 H3 H4 H5 H6 H7 H8 H9 H10.
  constructor; [now rewrite <- H2|now rewrite <- H1|].
  eapply nestedRequired_shape; eassumption.
Qed.

Lemma resolveField_required (f : Field Type_) ann sn (cache : Cache) r c' :
  resolveField Get TS float64 f ann sn cache = (Some r, c') ->
  fieldRequired Get float64 f r.
Proof.
  unfold resolveField.
  destruct (negb (Exported f)); [discriminate|].
  destruct (isEmpty _); [discriminate|].
  destruct (classifyField _ _ _ _ _ _ _) as [r0 c2] eqn:Ec.
  apply (classifyField_required Get) in Ec as (H1 & H2 & H3);
    [|apply resolveAnonymousStruct_required_bound|repeat split; reflexivity].
  intros [= <- <-].
  assert (H0 : fieldRequired Get float64 f r0)
    by (constructor; [exact H2|rewrite H1; reflexivity|exact H3]).
  destruct ann as [a|]; [|exact H0].
  eapply fieldRequired_shape; [|exact H0].
  symmetry. apply (applyAnnotation_shape float64 a r0).
Qed.

Lemma resolveFieldWithParamType_required (f : Field Type_) ann paramType
      (cache : Cache) r c' :
  resolveFieldWithParamType Get TS float64 f ann paramType cache = (Some r, c') ->
  Required r = negb (omitempty (Tag f)) /\ GoName r = FieldName f.
Proof.
  unfold resolveFieldWithParamType.
  destruct (negb (Exported f)); [discriminate|].
  match goal with |- context [match ?o with Some _ => _ | None => _ end = _] =>
                    destruct o as [tagName|] end; [|discriminate].
  destruct (resolveType TS (FieldType f) cache) as [info c2].
  intros [= <- <-].
  set (r0 := applyTypeInfo float64 info _).
  assert (H0 : Required r0 = negb (omitempty (Tag f)) /\ GoName r0 = FieldName f)
    by (split; reflexivity).
  destruct ann as [a|]; [|exact H0].
  match goal with |- Required ?x = _ /\ _ =>
    assert (Hs : shape float64 x = shape float64 r0) end.
  { unfold when.
    destruct (Field.Deprecated a), (Field.Nullable a);
      apply (applyAnnotation_shape float64 a r0). }
  unfold shape in Hs. injection Hs as H1 H2 _ _ _ _ _ _ _ _.
  now rewrite H1, H2.
Qed.

Section Inline.
Variable parseFloat : string -> option float64.
Variable parseInt : string -> option Z.

Lemma anonymousChain_required (ft : Type_) schemaNames (resolved : RField)
      (cache : Cache) r2 c2 :
  noInline float64 resolved ->
  anonymousChain Get TS float64 ft schemaNames resolved cache = (r2, c2) ->
  Required r2 = Required resolved /\ nestedRequired Get float64 ft r2.
Proof.
  intros (N1 & N2 & N3). unfold anonymousChain.
  destruct (resolveAnonymousStruct Get TS float64 ft schemaNames cache)
    as [[l|] k1] eqn:A1.
  { intros [= <- <-]. split; [reflexivity|]. constructor; cbn.
    - intros l' [= <-]. eapply resolveAnonymousStruct_required; exact A1.
    - intros l' Hl'. congruence.
    - intros l' Hl'. congruence. }
  unfold resolveSliceOfAnonymousStruct, resolveMapOfAnonymousStruct,
    resolveSliceOfAnonymousStruct_with, resolveMapOfAnonymousStruct_with.
  destruct (match unwrapPointer ft with
            | types.Slice elem =>
                resolveAnonymousStruct Get TS float64 elem schemaNames k1
            | _ => (None, k1)
            end) as [[l|] k2] eqn:A2.
  { intros [= <- <-]. split; [reflexivity|]. constructor; cbn.
    - intros l' Hl'. congruence.
    - intros l' [= <-]. destruct (unwrapPointer ft); try discriminate A2.
      eexists. split; [reflexivity|].
      eapply resolveAnonymousStruct_required; exact A2.
    - intros l' Hl'. congruence. }
  destruct (match unwrapPointer ft with
            | types.Map _ elem =>
                resolveAnonymousStruct Get TS float64 elem schemaNames k2
            | _ => (None, k2)
            end) as [[l|] k3] eqn:A3.
  { intros [= <- <-]. split; [reflexivity|]. constructor; cbn.
    - intros l' Hl'. congruence.
    - intros l' Hl'. congruence.
    - intros l' [= <-]. destruct (unwrapPointer ft); try discriminate A3.
      do 2 eexists. split; [reflexivity|].
      eapply resolveAnonymousStruct_required; exact A3. }
  intros [= <- <-]. split; [reflexivity|].
  apply nestedRequired_noInline. repeat split; assumption.
Qed.

Lemma resolveInlineStructField_required (a : astField) comments tagType sn
      (cache : Cache) r c' :
  resolveInlineStructField Get TS float64 parseFloat parseInt a comments
    tagType sn cache = (Some r, c') ->
  Required r = negb (omitempty (tagOfLiteral (TagLiteral a)))
  /\ (forall ft, TypeOf a = Some ft -> nestedRequired Get float64 ft r).
Proof.
  unfold resolveInlineStructField.
  destruct (Names a) as [|fieldName names]; [discriminate|].
  match goal with |- context [match ?o with Some _ => _ | None => _ end = _] =>
                    destruct o as [resolvedName|] end; [|discriminate].
  set (resolved := set_Required _ _).
  assert (HB : noInline float64 resolved) by (repeat split).
  assert (HR : Required resolved = negb (omitempty (tagOfLiteral (TagLiteral a))))
    by reflexivity.
  clearbody resolved.
  match goal with
  | |- (let '(x, y) := ?e in _) = _ -> _ => destruct e as [r1 c1] eqn:E1
  end.
  intros [= <- <-].
  assert (H1 : Required r1 = Required resolved
               /\ forall ft, TypeOf a = Some ft -> nestedRequired Get float64 ft r1).
  { destruct (TypeOf a) as [ft|].
    - set (resolved2 := set_GoType (TS ft) resolved) in *.
      assert (HB2 : noInline float64 resolved2) by exact HB.
      assert (HR2 : Required resolved2 = Required resolved) by reflexivity.
      clearbody resolved2.
      match type of E1 with
      | (let '(x, y) := ?e in _) = _ => destruct e as [r2 c2] eqn:E2
      end.
      assert (H2 : Required r2 = Required resolved2
                   /\ nestedRequired Get float64 ft r2).
      { destruct sn as [schemaNames|].
        - eapply anonymousChain_required; eassumption.
        - injection E2 as <- <-. split; [reflexivity|].
          now apply nestedRequired_noInline. }
      destruct H2 as [HR3 HN3]. rewrite HR2 in HR3.
      destruct (isEmpty (OpenAPIType r2)).
      + destruct (resolveType TS ft c2) as [info c3].
        injection E1 as <- <-. split; [exact HR3|].
        intros ft' [= <-]. inversion HN3 as [? ? I1 I2 I3]; subst.
        constructor; assumption.
      + injection E1 as <- <-. split; [exact HR3|]. now intros ft' [= <-].
    - injection E1 as <- <-. split; [reflexivity|discriminate]. }
  destruct H1 as [H1 H1'].
  pose proof (applyFieldAnnotations_shape float64 parseFloat parseInt r1
                (comments !! fieldName)) as Hs.
  split.
  - unfold shape in Hs. injection Hs as -> _ _ _ _ _ _ _ _ _. now rewrite H1.
  - intros ft Hft. eapply nestedRequired_shape; [symmetry; exact Hs|now apply H1'].
Qed.
End Inline.
End RequiredTop.

Section Unresolved.
Variable Get : string -> string -> string.
Variable TS : Type_ -> string.
Variable float64 : Type.
Abbreviation RField := (ResolvedField float64).
Abbreviation Cache := (gmap string TypeInfo.t).

Lemma checkUnresolvedStruct_unfold (t : Type_) (schemaNames : gmap string bool) :
  checkUnresolvedStruct t schemaNames
  = match unwrapPointer t with
    | types.Slice elem => checkUnresolvedStruct elem schemaNames
    | types.Map _ elem => checkUnresolvedStruct elem schemaNames
    | types.Named obj underlying =>
        if match types.Pkg obj with
           | Some path => isSpecialType path (types.ObjName obj)
           | None => false
           end
        then None
        else
          match underlying with
          | types.Struct _ =>
              let typeName := types.ObjName obj in
              if negb (inSchemaNames schemaNames typeName)
              then Some typeName
              else None
          | _ => checkUnresolvedStruct underlying schemaNames
          end
    | _ => None
    end.
Proof. destruct t; reflexivity. Qed.

Lemma resolveAnonymousStruct_none (t : Type_) sn (c c2 : Cache) :
  resolveAnonymousStruct Get TS float64 t sn c = (None, c2) -> c2 = c.
Proof.
  rewrite resolveAnonymousStruct_unfold.
  destruct (unwrapPointer t); try (now intros [= <-]).
  destruct (fields_loop _ _ _ _). discriminate.
Qed.
End Unresolved.

Section Names.
Variable Get : string -> string -> string.
Variable TS : Type_ -> string.
Variable float64 : Type.
#[local] Abbreviation RField := (ResolvedField float64).
#[local] Abbreviation Cache := (gmap string TypeInfo.t).

Lemma when_name (c : bool) (f : RField -> RField) (r : RField) :
  (forall x, Name (f x) = Name x) -> Name (when float64 c f r) = Name r.
Proof. intros H. unfold when. destruct c; [apply H|reflexivity]. Qed.

Lemma whenSet_name {A} (o : option A) (f : RField -> RField) (r : RField) :
  (forall x, Name (f x) = Name x) -> Name (whenSet float64 o f r) = Name r.
Proof. intros H. unfold whenSet. destruct o; [apply H|reflexivity]. Qed.

Lemma applyAnnotation_name (a : Field.t float64) (r : RField) :
  Name (applyAnnotation float64 a r) = Name r.
Proof.
  unfold applyAnnotation. cbv zeta.
  repeat first [rewrite when_name by reflexivity
               |rewrite whenSet_name by reflexivity].
  reflexivity.
Qed.

Lemma classifyField_name (rec : AnonResolver float64) (ft : Type_) sn
      (resolved : RField) (cache : Cache) :
  Name (fst (classifyField TS float64 rec ft sn resolved cache)) = Name resolved.
Proof.
  unfold classifyField.
  destruct (rec ft sn cache) as [[l|] c1]; [reflexivity|].
  destruct (resolveSliceOfAnonymousStruct_with _ _ _ _ _) as [[l|] c2]; [reflexivity|].
  destruct (resolveMapOfAnonymousStruct_with _ _ _ _ _) as [[l|] c3]; [reflexivity|].
  cbv zeta. destruct (resolveType TS ft c3) as [info c4].
  destruct (checkUnresolvedStruct ft sn); reflexivity.
Qed.

Lemma resolveField_name (f : Field Type_) ann sn (cache : Cache) r c' :
  resolveField Get TS float64 f ann sn cache = (Some r, c') ->
  Name r = resolveFieldNameFromTag Get (Tag f) (FieldName f).
Proof.
  unfold resolveField.
  destruct (negb (Exported f)); [discriminate|].
  destruct (isEmpty _); [discriminate|].
  pose proof (classifyField_name (resolveAnonymousStruct Get TS float64)
                (FieldType f) sn
                (newField TS float64
                   (resolveFieldNameFromTag Get (Tag f) (FieldName f)) f) cache) as Hn.
  destruct (classifyField _ _ _ _ _ _ _) as [r0 c2]. cbn [fst] in Hn.
  intros [= <- <-].
  destruct ann as [a|]; [|exact Hn].
  cbn [Name set_Deprecated]. now rewrite applyAnnotation_name.
Qed.

Lemma resolveField_skipped (f : Field Type_) ann sn (cache : Cache) :
  fst (resolveField Get TS float64 f ann sn cache) = None
  <-> Exported f = false
      \/ resolveFieldNameFromTag Get (Tag f) (FieldName f) = "".
Proof.
  unfold resolveField.
  destruct (Exported f); cbn [negb].
  - destruct (isEmpty _) eqn:E.
    + split; [intros _; right; now apply isEmpty_true|reflexivity].
    + destruct (classifyField _ _ _ _ _ _ _) as [r0 c2]. cbn [fst].
      split; [discriminate|]. intros [H|H]; [discriminate|].
      rewrite H in E. discriminate.
  - split; [now left|reflexivity].
Qed.
End Names.

(** ** The fields that the annotation leaves as they are *)

Section Marked.
Variable Get : string -> string -> string.
Variable TS : Type_ -> string.
Variable float64 : Type.
#[local] Abbreviation RField := (ResolvedField float64).
#[local] Abbreviation Cache := (gmap string TypeInfo.t).

Lemma when_items (c : bool) (f : RField -> RField) (r : RField) :
  (forall x, ItemsType (f x) = ItemsType x) ->
  ItemsType (when float64 c f r) = ItemsType r.
Proof. intros H. unfold when. destruct c; [apply H|reflexivity]. Qed.

Lemma whenSet_items {A} (o : option A) (f : RField -> RField) (r : RField) :
  (forall x, ItemsType (f x) = ItemsType x) ->
  ItemsType (whenSet float64 o f r) = ItemsType r.
Proof. intros H. unfold whenSet. destruct o; [apply H|reflexivity]. Qed.

Lemma applyAnnotation_items (a : Field.t float64) (r : RField) :
  ItemsType (applyAnnotation float64 a r) = ItemsType r.
Proof.
  unfold applyAnnotation. cbv zeta.
  repeat first [rewrite when_items by reflexivity
               |rewrite whenSet_items by reflexivity].
  reflexivity.
Qed.

Lemma when_unresolvedName (c : bool) (f : RField -> RField) (r : RField) :
  (forall x, UnresolvedTypeName (f x) = UnresolvedTypeName x) ->
  UnresolvedTypeName (when float64 c f r) = UnresolvedTypeName r.
Proof. intros H. unfold when. destruct c; [apply H|reflexivity]. Qed.

Lemma whenSet_unresolvedName {A} (o : option A) (f : RField -> RField)
      (r : RField) :
  (forall x, UnresolvedTypeName (f x) = UnresolvedTypeName x) ->
  UnresolvedTypeName (whenSet float64 o f r) = UnresolvedTypeName r.
Proof. intros H. unfold whenSet. destruct o; [apply H|reflexivity]. Qed.

Lemma applyAnnotation_unresolvedName (a : Field.t float64) (r : RField) :
  UnresolvedTypeName (applyAnnotation float64 a r) = UnresolvedTypeName r.
Proof.
  unfold applyAnnotation. cbv zeta.
  repeat first [rewrite when_unresolvedName by reflexivity
               |rewrite whenSet_unresolvedName by reflexivity].
  reflexivity.
Qed.

(** ** The mark of an unresolved struct *)

Lemma classifyField_marked (ft : Type_) sn (resolved r : RField) (c c' : Cache) :
  blank float64 resolved ->
  classifyField TS float64 (resolveAnonymousStruct Get TS float64) ft sn resolved c
  = (r, c') ->
  IsUnresolvedStruct r = true ->
  checkUnresolvedStruct ft sn = Some (UnresolvedTypeName r)
  /\ typedBy r (fst (resolveType TS ft c)).
Proof.
  intros (B1 & B2 & B3 & B4 & B5 & B6 & B7 & B8).
  unfold classifyField.
  destruct (resolveAnonymousStruct Get TS float64 ft sn c) as [[l|] c1] eqn:E1.
  { intros [= <- <-]. cbn. congruence. }
  apply resolveAnonymousStruct_none in E1. subst c1.
  unfold resolveSliceOfAnonymousStruct_with, resolveMapOfAnonymousStruct_with.
  destruct (match unwrapPointer ft with
            | types.Slice elem => resolveAnonymousStruct Get TS float64 elem sn c
            | _ => (None, c)
            end) as [[l|] c2] eqn:E2.
  { intros [= <- <-]. cbn. congruence. }
  assert (c2 = c).
  { destruct (unwrapPointer ft); try (now injection E2 as <-).
    now apply resolveAnonymousStruct_none in E2. }
  subst c2.
  destruct (match unwrapPointer ft with
            | types.Map _ elem => resolveAnonymousStruct Get TS float64 elem sn c
            | _ => (None, c)
            end) as [[l|] c3] eqn:E3.
  { intros [= <- <-]. cbn. congruence. }
  assert (c3 = c).
  { destruct (unwrapPointer ft); try (now injection E3 as <-).
    now apply resolveAnonymousStruct_none in E3. }
  subst c3.
  destruct (resolveType TS ft c) as [info c4] eqn:Et.
  intros [= <- <-].
  destruct (checkUnresolvedStruct ft sn) as [name|] eqn:Ec;
    [|cbn; intros Hm; congruence].
  intros _. split; [reflexivity|].
  unfold typedBy. cbn. repeat split; assumption.
Qed.

Lemma resolveField_marked (f : Field Type_) ann sn (c c' : Cache) (r : RField) :
  resolveField Get TS float64 f ann sn c = (Some r, c') ->
  IsUnresolvedStruct r = true ->
  checkUnresolvedStruct (FieldType f) sn = Some (UnresolvedTypeName r)
  /\ typedBy r (fst (resolveType TS (FieldType f) c)).
Proof.
  unfold resolveField.
  destruct (negb (Exported f)); [discriminate|].
  destruct (isEmpty _); [discriminate|].
  destruct (classifyField _ _ _ _ _ _ _) as [r0 c2] eqn:Ec.
  intros [= <- <-].
  pose proof (classifyField_marked _ _ _ _ _ _ (newField_blank TS float64 _ f) Ec)
    as H0.
  destruct ann as [a|]; [|exact H0].
  pose proof (applyAnnotation_shape float64 a r0) as Hs.
  pose proof (applyAnnotation_items a r0) as Hi.
  pose proof (applyAnnotation_unresolvedName a r0) as Hn.
  unfold shape in Hs. injection Hs as H1 H2 H3 H4 H5 H6 H7 H8 H9 H10.
  unfold typedBy in *. cbn.
  cbn in H3, H4, H5, H6, H7, H8, H9, H10.
  rewrite H3, H4, H5, H6, H7, H8, H9, H10, Hi, Hn. exact H0.
Qed.

Lemma resolveAnonymousStruct_some (t : Type_) sn (c c' : Cache) l :
  resolveAnonymousStruct Get TS float64 t sn c = (Some l, c') ->
  exists fields, unwrapPointer t = types.Struct fields.
Proof.
  rewrite resolveAnonymousStruct_unfold.
  destruct (unwrapPointer t); try discriminate. eauto.
Qed.

Lemma checkUnresolvedStruct_anonymous (t : Type_) sn fields :
  unwrapPointer t = types.Struct fields -> checkUnresolvedStruct t sn = None.
Proof. intros E. now rewrite checkUnresolvedStruct_unfold, E. Qed.

(** The mark is set exactly when [checkUnresolvedStruct] finds a
    name. *)
Lemma classifyField_mark (ft : Type_) sn (resolved r : RField) (c c' : Cache) :
  blank float64 resolved ->
  classifyField TS float64 (resolveAnonymousStruct Get TS float64) ft sn resolved c
  = (r, c') ->
  IsUnresolvedStruct r = isSome (checkUnresolvedStruct ft sn).
Proof.
  intros (B1 & B2 & B3 & B4 & B5 & B6 & B7 & B8).
  unfold classifyField.
  destruct (resolveAnonymousStruct Get TS float64 ft sn c) as [[l|] c1] eqn:E1.
  { intros [= <- <-]. apply resolveAnonymousStruct_some in E1 as (fields & E1).
    rewrite (checkUnresolvedStruct_anonymous _ _ _ E1). exact B5. }
  unfold resolveSliceOfAnonymousStruct_with, resolveMapOfAnonymousStruct_with.
  destruct (match unwrapPointer ft with
            | types.Slice elem => resolveAnonymousStruct Get TS float64 elem sn c1
            | _ => (None, c1)
            end) as [[l|] c2] eqn:E2.
  { intros [= <- <-]. rewrite checkUnresolvedStruct_unfold.
    destruct (unwrapPointer ft); try discriminate E2.
    apply resolveAnonymousStruct_some in E2 as (fields & E2).
    rewrite (checkUnresolvedStruct_anonymous _ _ _ E2). exact B5. }
  destruct (match unwrapPointer ft with
            | types.Map _ elem => resolveAnonymousStruct Get TS float64 elem sn c2
            | _ => (None, c2)
            end) as [[l|] c3] eqn:E3.
  { intros [= <- <-]. rewrite checkUnresolvedStruct_unfold.
    destruct (unwrapPointer ft); try discriminate E3.
    apply resolveAnonymousStruct_some in E3 as (fields & E3).
    rewrite (checkUnresolvedStruct_anonymous _ _ _ E3). exact B5. }
  destruct (resolveType TS ft c3) as [info c4].
  intros [= <- <-].
  destruct (checkUnresolvedStruct ft sn); [reflexivity|exact B5].
Qed.

Lemma resolveField_mark (f : Field Type_) ann sn (c c' : Cache) (r : RField) :
  resolveField Get TS float64 f ann sn c = (Some r, c') ->
  IsUnresolvedStruct r = isSome (checkUnresolvedStruct (FieldType f) sn).
Proof.
  unfold resolveField.
  destruct (negb (Exported f)); [discriminate|].
  destruct (isEmpty _); [discriminate|].
  destruct (classifyField _ _ _ _ _ _ _) as [r0 c2] eqn:Ec.
  intros [= <- <-].
  pose proof (classifyField_mark _ _ _ _ _ _ (newField_blank TS float64 _ f) Ec)
    as H0.
  destruct ann as [a|]; [|exact H0].
  pose proof (applyAnnotation_shape float64 a r0) as Hs.
  unfold shape in Hs. injection Hs as H1 H2 H3 H4 H5 H6 H7 H8 H9 H10.
  cbn. cbn in H7. now rewrite H7.
Qed.

(** On a fresh cache the type of an unresolved struct reference
    resolves to an array or to the string of the default. *)
Lemma unresolved_fresh_bound (n : nat) (sn : gmap string bool) :
  forall t name,
    (size t < n)%nat -> checkUnresolvedStruct t sn = Some name ->
    TypeInfo.IsAnyValue (fst (resolveType TS t ∅)) = false
    /\ (TypeInfo.IsArray (fst (resolveType TS t ∅)) = true
        /\ TypeInfo.OpenAPIType (fst (resolveType TS t ∅)) = "array"
        \/ TypeInfo.IsArray (fst (resolveType TS t ∅)) = false
           /\ TypeInfo.OpenAPIType (fst (resolveType TS t ∅)) = "string").
Proof.
  induction n as [|n IH]; intros t name Hlt; [lia|].
  rewrite checkUnresolvedStruct_unfold, resolveType_unfold. cbv zeta.
  rewrite lookup_empty. pose proof (size_unwrap t) as Hu.
  destruct (unwrapPointer t) as [kind|e|elem|? e|k e|fields|obj u|obj rhs| |e| |obj] eqn:Eu;
    cbn [size] in Hu; try discriminate.
  - intros _. destruct (resolveType TS elem ∅). cbn. split; [reflexivity|now left].
  - intros _. cbn. split; [reflexivity|now right].
  - assert (Hs : (if match types.Pkg obj with
                     | Some path => isSpecialType path (types.ObjName obj)
                     | None => false
                     end then true else false) = false ->
                 resolveSpecialType
                   match types.Pkg obj with Some path => path | None => "" end
                   (types.ObjName obj) = None).
    { destruct (types.Pkg obj) as [path|].
      - unfold isSpecialType. destruct (resolveSpecialType path _); [discriminate|reflexivity].
      - reflexivity. }
    destruct (match types.Pkg obj with
              | Some path => isSpecialType path (types.ObjName obj)
              | None => false
              end); [discriminate|].
    rewrite (Hs eq_refl).
    destruct u as [kind|e|elem|? e|k e|fields|obj' u'|obj' rhs| |e| |obj'];
      try (intros Hc; eapply IH; [|exact Hc]; cbn [size] in *; lia).
    intros _. rewrite resolveType_unfold. cbv zeta. rewrite lookup_empty.
    cbn. split; [reflexivity|now right].
Qed.

Lemma resolveField_marked_fresh (f : Field Type_) ann sn r (c' : Cache) :
  resolveField Get TS float64 f ann sn ∅ = (Some r, c') ->
  IsUnresolvedStruct r = true ->
  (classifiedAs float64 r PrimitiveType = true /\ OpenAPIType r = "string")
  \/ classifiedAs float64 r ArrayType = true.
Proof.
  intros H Hm.
  destruct (resolveField_marked _ _ _ _ _ _ H Hm)
    as (Hc & T1 & T2 & T3 & T4 & T5 & T6 & T7 & T8).
  destruct (unresolved_fresh_bound (S (size (FieldType f))) sn (FieldType f) _
              ltac:(lia) Hc) as [Hany [[Ha Ht]|[Ha Ht]]].
  - right. unfold classifiedAs. rewrite T1, T2, T4, T5, T6, Hany, Ha, Ht. reflexivity.
  - left. split; [|now rewrite T1].
    unfold classifiedAs. rewrite T1, T2, T4, T5, T6, Hany, Ha, Ht. reflexivity.
Qed.
End Marked.

(** ** The fields that each path produces *)

Section Produced.
Variable Get : string -> string -> string.
Variable TS : Type_ -> string.
Variable float64 : Type.
#[local] Abbreviation RField := (ResolvedField float64).
#[local] Abbreviation Cache := (gmap string TypeInfo.t).

Lemma isParamKind_name (tag key name paramType : string) (other : option string) :
  isParamKind paramType = true ->
  exists tagName,
    (if String.eqb paramType "path" then Some (extractTagName Get tag "path")
     else if String.eqb paramType "query" then Some (extractTagName Get tag "query")
     else if String.eqb paramType "header" then Some (extractTagName Get tag "header")
     else if String.eqb paramType "cookie" then Some (extractTagName Get tag "cookie")
     else other) = Some tagName.
Proof.
  unfold isParamKind. intros H.
  destruct (String.eqb paramType "path"); [eauto|].
  destruct (String.eqb paramType "query"); [eauto|].
  destruct (String.eqb paramType "header"); [eauto|].
  destruct (String.eqb paramType "cookie"); [eauto|discriminate].
Qed.

Lemma notParamKind_name (tag paramType : string) (other : option string) :
  isParamKind paramType = false ->
  (if String.eqb paramType "path" then Some (extractTagName Get tag "path")
   else if String.eqb paramType "query" then Some (extractTagName Get tag "query")
   else if String.eqb paramType "header" then Some (extractTagName Get tag "header")
   else if String.eqb paramType "cookie" then Some (extractTagName Get tag "cookie")
   else other) = other.
Proof.
  unfold isParamKind. intros H.
  destruct (String.eqb paramType "path"); [discriminate|].
  destruct (String.eqb paramType "query"); [discriminate|].
  destruct (String.eqb paramType "header"); [discriminate|].
  destruct (String.eqb paramType "cookie"); [discriminate|reflexivity].
Qed.

Lemma resolveFieldWithParamType_kept (f : Field Type_) ann paramType (c : Cache) :
  isSome (fst (resolveFieldWithParamType Get TS float64 f ann paramType c))
  = paramKept Get paramType f.
Proof.
  unfold resolveFieldWithParamType, paramKept.
  destruct (Exported f); [|reflexivity]. cbn [negb andb]. cbv zeta.
  destruct (isParamKind paramType) eqn:K.
  - destruct (isParamKind_name (Tag f) "" "" paramType
                (if isEmpty (resolveFieldNameFromTag Get (Tag f) (FieldName f))
                 then None
                 else Some (resolveFieldNameFromTag Get (Tag f) (FieldName f))) K)
      as (tagName & ->).
    destruct (resolveType TS (FieldType f) c). reflexivity.
  - rewrite notParamKind_name by exact K. cbn [orb].
    destruct (isEmpty _); [reflexivity|].
    destruct (resolveType TS (FieldType f) c). reflexivity.
Qed.

Lemma resolveField_kept (f : Field Type_) ann sn (c : Cache) :
  isSome (fst (resolveField Get TS float64 f ann sn c))
  = Exported f
    && negb (isEmpty (resolveFieldNameFromTag Get (Tag f) (FieldName f))).
Proof.
  unfold resolveField.
  destruct (Exported f); [|reflexivity]. cbn [negb andb].
  destruct (isEmpty _); [reflexivity|].
  destruct (classifyField _ _ _ _ _ _ _). reflexivity.
Qed.

Lemma resolveAnonymousStruct_produced (t : Type_) sn (c : Cache) fields :
  unwrapPointer t = types.Struct fields ->
  exists rs c', resolveAnonymousStruct Get TS float64 t sn c = (Some rs, c').
Proof.
  intros E. rewrite resolveAnonymousStruct_unfold, E.
  destruct (fields_loop _ _ _ _) as [rs c']. eauto.
Qed.

Section Inline.
Variable parseFloat : string -> option float64.
Variable parseInt : string -> option Z.

Lemma resolveInlineStructField_kept (a : astField) comments tagType sn
      (c : Cache) :
  isSome (fst (resolveInlineStructField Get TS float64 parseFloat parseInt a
                 comments tagType sn c))
  = inlineKept Get tagType a.
Proof.
  unfold resolveInlineStructField, inlineKept.
  destruct (Names a) as [|fieldName names]; [reflexivity|]. cbv zeta.
  assert (Hprod : forall resolvedName,
             isSome (fst (
               let resolvedName0 :=
                 if isEmpty resolvedName || String.eqb resolvedName "-"
                 then fieldName else resolvedName in
               let resolved : RField :=
                 set_Required (negb (Contains (tagOfLiteral (TagLiteral a)) "omitempty"))
                   (set_Name resolvedName0 (set_GoName fieldName emptyField)) in
               let '(resolved, typeCache) :=
                 match TypeOf a with
                 | Some fieldType =>
                     let resolved := set_GoType (TS fieldType) resolved in
                     let '(resolved, typeCache) :=
                       match sn with
                       | Some schemaNames =>
                           anonymousChain Get TS float64 fieldType schemaNames
                             resolved c
                       | None => (resolved, c)
                       end in
                     if isEmpty (OpenAPIType resolved) then
                       let '(typeInfo, typeCache) := resolveType TS fieldType typeCache in
                       (applyTypeInfo float64 typeInfo resolved, typeCache)
                     else (resolved, typeCache)
                 | None =>
                     (set_OpenAPIType "string" (set_GoType "string" resolved), c)
                 end in
               let resolved :=
                 applyFieldAnnotations float64 parseFloat parseInt resolved
                   (comments !! fieldName) in
               (Some resolved, typeCache))) = true).
  { intros resolvedName. cbv zeta.
    match goal with |- context [let '(x, y) := ?e in _] => destruct e end.
    reflexivity. }
  destruct (isParamKind tagType) eqn:K.
  - destruct (isParamKind_name (tagOfLiteral (TagLiteral a)) "" "" tagType
                (if isEmpty (resolveFieldNameFromTag Get
                               (tagOfLiteral (TagLiteral a)) fieldName)
                 then None
                 else Some (resolveFieldNameFromTag Get
                              (tagOfLiteral (TagLiteral a)) fieldName)) K)
      as (tagName & ->).
    apply Hprod.
  - rewrite notParamKind_name by exact K. cbn [orb].
    destruct (isEmpty _); [reflexivity|]. apply Hprod.
Qed.

Lemma inline_fields_loop_required (fields : list astField) comments tagType sn :
  forall c : Cache,
    Forall2
      (fun a r => Required r = negb (omitempty (tagOfLiteral (TagLiteral a))))
      (List.filter (inlineKept Get tagType) fields)
      (fst (inline_fields_loop Get TS float64 parseFloat parseInt fields
              comments tagType sn c)).
Proof.
  induction fields as [|a rest IH]; intros c; [constructor|].
  cbn [inline_fields_loop List.filter].
  pose proof (resolveInlineStructField_kept a comments tagType sn c) as Hk.
  destruct (resolveInlineStructField Get TS float64 parseFloat parseInt a
              comments tagType sn c) as [[r|] c1] eqn:E.
  - cbn [fst isSome] in Hk. rewrite <- Hk.
    specialize (IH c1).
    destruct (inline_fields_loop _ _ _ _ _ _ _ _ _ _) as [more c2].
    cbn [fst] in *. constructor; [|exact IH].
    exact (proj1 (resolveInlineStructField_required Get TS float64 parseFloat
                    parseInt a comments tagType sn c r c1 E)).
  - cbn [fst isSome] in Hk. rewrite <- Hk.
    specialize (IH c1).
    destruct (inline_fields_loop _ _ _ _ _ _ _ _ _ _) as [more c2].
    exact IH.
Qed.
End Inline.
End Produced.

End ResolverFacts.


(** * Facts for the further properties *)

(** * The parser: further facts *)

Module ParserMoreFacts.
Import ParserSpec ParserFacts InlineSpec InlineFacts EscapeSpec.

(** ** Protecting and restoring *)

Lemma restore_protect_noNul (s : string) :
  (noNul s = true -> restore (protect s) = s)
  /\ (forall c, noNul (String c s) = true ->
                restore (protect (String c s)) = String c s).
Proof.
  induction s as [|d s [IH1 IH2]].
  - split; [reflexivity|]. intros c H. cbn [noNul] in H.
    apply andb_prop in H as [Hc _]. apply negb_true_iff in Hc.
    destruct (Ascii.eqb c backslash) eqn:E.
    + apply Ascii.eqb_eq in E. subst c. reflexivity.
    + rewrite protect_plain by exact E. now rewrite restore_plain.
  - split; [apply IH2|]. intros c H.
    assert (Hs : noNul (String d s) = true /\ Ascii.eqb c nul = false).
    { cbn [noNul] in H. apply andb_prop in H as [Hc H].
      apply negb_true_iff in Hc. now split. }
    destruct Hs as [Hs Hc].
    destruct (Ascii.eqb c backslash) eqn:E.
    + apply Ascii.eqb_eq in E. subst c. destruct (Ascii.eqb d "@") eqn:D.
      * apply Ascii.eqb_eq in D. subst d.
        rewrite protect_at, restore_placeholder. rewrite IH1; [reflexivity|].
        cbn [noNul] in Hs. now apply andb_prop in Hs as [_ Hs].
      * rewrite protect_other by exact D. rewrite restore_plain by reflexivity.
        now rewrite IH2.
    + rewrite protect_plain by exact E. rewrite restore_plain by exact Hc.
      now rewrite IH2.
Qed.

(** ** Unescaping what was escaped *)

Lemma noNul_escaped (s : string) : noNul s = true -> noNul (escaped s) = true.
Proof.
  induction s as [|c s IH]; [reflexivity|].
  cbn [noNul escaped]. intros [Hc Hs]%andb_prop.
  destruct (isEscapable c); cbn [noNul]; rewrite ?Hc, IH by exact Hs; reflexivity.
Qed.

Lemma decodeOnce_escaped (s : string) : decodeOnce (escaped s) = s.
Proof.
  induction s as [|c s IH]; [reflexivity|].
  cbn [escaped]. destruct (isEscapable c) eqn:E.
  - cbn [decodeOnce]. rewrite backslash_eqb, E. now rewrite IH.
  - cbn [decodeOnce].
    replace (Ascii.eqb c backslash) with false
      by (symmetry; now apply escapable_inv in E as (_ & _ & _ & E)).
    now rewrite IH.
Qed.

Lemma escaped_plain (s : string) :
  allChars (fun c => negb (isEscapable c)) s = true -> escaped s = s.
Proof.
  induction s as [|c s IH]; [reflexivity|].
  cbn [allChars escaped]. intros [Hc Hs]%andb_prop. apply negb_true_iff in Hc.
  now rewrite Hc, IH.
Qed.

(** ** Braces *)

Lemma contains_plain (c : ascii) (r : string) :
  Ascii.eqb c backslash = false ->
  ContainsUnescapedBrace (String c r)
  = if Ascii.eqb c "{" || Ascii.eqb c "}" then true else ContainsUnescapedBrace r.
Proof. intros E. cbn [ContainsUnescapedBrace]. now rewrite E. Qed.

Lemma contains_pair (next : ascii) (r' : string) :
  isEscapable next = true ->
  ContainsUnescapedBrace (String backslash (String next r'))
  = ContainsUnescapedBrace r'.
Proof. intros E. cbn [ContainsUnescapedBrace]. now rewrite backslash_eqb, E. Qed.

Lemma contains_lone (r : string) :
  loneAt r -> ContainsUnescapedBrace (String backslash r) = ContainsUnescapedBrace r.
Proof.
  intros H. cbn [ContainsUnescapedBrace]. rewrite backslash_eqb.
  destruct r as [|next r']; [reflexivity|]. cbn in H. now rewrite H.
Qed.

Lemma contains_clean (s : string) :
  ContainsUnescapedBrace s = negb (clean isBrace s).
Proof.
  induction s as [|c r E IH|next r' E IH|r L IH] using escaped_ind.
  - reflexivity.
  - rewrite contains_plain, clean_plain by exact E. unfold isBrace at 1.
    destruct (Ascii.eqb c "{" || Ascii.eqb c "}"); [reflexivity|exact IH].
  - now rewrite contains_pair, clean_pair by exact E.
  - now rewrite contains_lone, clean_lone by exact L.
Qed.

Lemma nested_count (s : string) :
  forall d, nested_loop s d = Ok tt -> count_loop s d = 0.
Proof.
  induction s as [|c r E IH|next r' E IH|r L IH] using escaped_ind; intros d.
  - cbn. destruct (d =? 0)%Z eqn:D; [|discriminate]. intros _. now apply Z.eqb_eq.
  - rewrite nested_plain, count_plain by exact E.
    destruct (Ascii.eqb c "{").
    + destruct (1 <? d + 1)%Z; [discriminate|]. apply IH.
    + destruct (Ascii.eqb c "}"); apply IH.
  - rewrite nested_pair, count_pair by exact E. apply IH.
  - rewrite nested_lone, count_lone by exact L. apply IH.
Qed.

Lemma find_plain (i : Z) (c : ascii) (r : string) (b : ascii) :
  Ascii.eqb c backslash = false ->
  Block.findUnescapedBrace_loop i (String c r) b
  = if Ascii.eqb c b then i else Block.findUnescapedBrace_loop (i + 1) r b.
Proof. intros E. cbn [Block.findUnescapedBrace_loop]. now rewrite E. Qed.

Lemma find_pair (i : Z) (next : ascii) (r' : string) (b : ascii) :
  isEscapable next = true ->
  Block.findUnescapedBrace_loop i (String backslash (String next r')) b
  = Block.findUnescapedBrace_loop (i + 2) r' b.
Proof. intros E. cbn [Block.findUnescapedBrace_loop]. now rewrite backslash_eqb, E. Qed.

Lemma find_lone (i : Z) (r : string) (b : ascii) :
  loneAt r ->
  Block.findUnescapedBrace_loop i (String backslash r) b
  = if Ascii.eqb backslash b then i else Block.findUnescapedBrace_loop (i + 1) r b.
Proof.
  intros H. cbn [Block.findUnescapedBrace_loop]. rewrite backslash_eqb.
  destruct r as [|next r']; [reflexivity|]. cbn in H. now rewrite H.
Qed.

(** The result of the search is -1 or the index of an occurrence. *)
Lemma find_range (s : string) (b : ascii) :
  forall i, 0 <= i ->
    Block.findUnescapedBrace_loop i s b = -1
    \/ (i <= Block.findUnescapedBrace_loop i s b
        /\ String.get (Z.to_nat (Block.findUnescapedBrace_loop i s b - i)) s = Some b).
Proof.
  induction s as [|c r E IH|next r' E IH|r L IH] using escaped_ind; intros i Hi.
  - now left.
  - rewrite find_plain by exact E. destruct (Ascii.eqb c b) eqn:B.
    + right. apply Ascii.eqb_eq in B. subst. split; [lia|].
      now rewrite Z.sub_diag.
    + destruct (IH (i + 1) ltac:(lia)) as [H|[H1 H2]]; [now left|right].
      split; [lia|].
      replace (Z.to_nat (Block.findUnescapedBrace_loop (i + 1) r b - i))
        with (S (Z.to_nat (Block.findUnescapedBrace_loop (i + 1) r b - (i + 1))))
        by lia.
      exact H2.
  - rewrite find_pair by exact E.
    destruct (IH (i + 2) ltac:(lia)) as [H|[H1 H2]]; [now left|right].
    split; [lia|].
    replace (Z.to_nat (Block.findUnescapedBrace_loop (i + 2) r' b - i))
      with (S (S (Z.to_nat (Block.findUnescapedBrace_loop (i + 2) r' b - (i + 2)))))
      by lia.
    exact H2.
  - rewrite find_lone by exact L. destruct (Ascii.eqb backslash b) eqn:B.
    + right. apply Ascii.eqb_eq in B. subst. split; [lia|].
      now rewrite Z.sub_diag.
    + destruct (IH (i + 1) ltac:(lia)) as [H|[H1 H2]]; [now left|right].
      split; [lia|].
      replace (Z.to_nat (Block.findUnescapedBrace_loop (i + 1) r b - i))
        with (S (Z.to_nat (Block.findUnescapedBrace_loop (i + 1) r b - (i + 1))))
        by lia.
      exact H2.
Qed.

Lemma find_none (s : string) :
  forall i, 0 <= i ->
    (Block.findUnescapedBrace_loop i s "{" =? -1)%Z
    && (Block.findUnescapedBrace_loop i s "}" =? -1)%Z
    = clean isBrace s.
Proof.
  induction s as [|c r E IH|next r' E IH|r L IH] using escaped_ind; intros i Hi.
  - reflexivity.
  - rewrite !find_plain, clean_plain by exact E. unfold isBrace at 1.
    destruct (Ascii.eqb c "{") eqn:B1.
    + replace (i =? -1)%Z with false by (symmetry; apply Z.eqb_neq; lia).
      reflexivity.
    + destruct (Ascii.eqb c "}") eqn:B2.
      * replace (i =? -1)%Z with false by (symmetry; apply Z.eqb_neq; lia).
        now rewrite andb_false_r.
      * cbn [orb negb andb]. apply IH. lia.
  - rewrite !find_pair, clean_pair by exact E. apply IH. lia.
  - rewrite !find_lone, clean_lone by exact L. cbn [Ascii.eqb Bool.eqb].
    apply IH. lia.
Qed.

(** ** Trimming twice *)

Lemma trimRight_idem (s : string) : trimRight (trimRight s) = trimRight s.
Proof.
  induction s as [|c s IH]; [reflexivity|].
  rewrite trimRight_cons. destruct (trimRight s) as [|d r'] eqn:E.
  - destruct (isSpace c) eqn:C; [reflexivity|].
    rewrite trimRight_cons. cbn [trimRight]. now rewrite C.
  - rewrite trimRight_cons, IH. reflexivity.
Qed.

Lemma trimLeft_idem (s : string) : trimLeft (trimLeft s) = trimLeft s.
Proof.
  induction s as [|c s IH]; [reflexivity|].
  cbn [trimLeft]. destruct (isSpace c) eqn:C; [exact IH|].
  cbn [trimLeft]. now rewrite C.
Qed.

Lemma trimLeft_trimRight (t : string) :
  trimLeft t = t -> trimLeft (trimRight t) = trimRight t.
Proof.
  destruct t as [|c r]; [reflexivity|]. intros H.
  assert (C : isSpace c = false).
  { destruct (isSpace c) eqn:C; [|reflexivity].
    rewrite trimLeft_space in H by exact C.
    pose proof (trimLeft_length r) as [E|E]; rewrite H in E.
    - exfalso. assert (L : String.length (String c r) = String.length r) by now rewrite E.
      cbn [String.length] in L. lia.
    - cbn [String.length] in E. lia. }
  rewrite trimRight_cons. destruct (trimRight r).
  - rewrite C. now apply trimLeft_cons.
  - now apply trimLeft_cons.
Qed.

Lemma TrimSpace_idem (s : string) : TrimSpace (TrimSpace s) = TrimSpace s.
Proof.
  unfold TrimSpace.
  rewrite trimLeft_trimRight by apply trimLeft_idem. apply trimRight_idem.
Qed.

(** ** The content of a braced block *)

Lemma contentLine_trim (l : string) :
  isEmpty (TrimSpace l) = false -> contentLine (TrimSpace l).
Proof.
  intros H. split; [apply TrimSpace_idem|]. now apply isEmpty_false.
Qed.

Lemma Forall_snoc {A} (P : A -> Prop) (l : list A) (x : A) :
  Forall P l -> P x -> Forall P (l ++ [x]).
Proof. intros Hl Hx. apply Forall_app. split; [exact Hl|now constructor]. Qed.

Lemma braced_loop_content (lines : list string) :
  forall isOpenLine pos content depth result,
    Forall contentLine content ->
    braced_loop isOpenLine pos lines content depth = Ok result ->
    Forall contentLine result.
Proof.
  induction lines as [|line rest IH]; intros isOpenLine pos content depth result Hc.
  - cbn [braced_loop]. destruct (negb _); [discriminate|]. now intros [= <-].
  - cbn [braced_loop]. cbv zeta.
    set (d := if isOpenLine then _ else _).
    set (l := TrimSpace (if isOpenLine then _ else _)).
    destruct (d =? 0)%Z.
    + destruct (isOpenLine && negb (isEmpty l)).
      * intros [= <-].
        destruct (isEmpty (TrimSpace (TrimSuffix l "}"))) eqn:E; cbn [negb];
          [exact Hc|].
        apply Forall_snoc; [exact Hc|]. now apply contentLine_trim.
      * now intros [= <-].
    + destruct (d <? 0)%Z; [discriminate|].
      apply IH. destruct (isEmpty l) eqn:E; cbn [negb]; [exact Hc|].
      apply Forall_snoc; [exact Hc|]. subst l. now apply contentLine_trim.
Qed.

Lemma ParseBracedBlock_content (lines content : list string) :
  ParseBracedBlock lines = Ok content -> Forall contentLine content.
Proof.
  unfold ParseBracedBlock. destruct (findOpenLine lines) as [[fromOpen pos]|].
  - apply braced_loop_content. constructor.
  - intros [= <-]. constructor.
Qed.
End ParserMoreFacts.

Module HeaderFacts.
Import ParserSpec ParserFacts InlineSpec InlineFacts EscapeSpec HeaderSpec.

(** ** The metadata of an opening line *)

Lemma noOpener_eq (c d : ascii) (r : string) :
  noOpener (String c (String d r))
  = negb (isBlank c && Ascii.eqb d "{") && noOpener (String d r).
Proof. reflexivity. Qed.

Lemma scanOpener_none (s : string) :
  noOpener s = true -> forall i, scanOpener i s = -1.
Proof.
  induction s as [|c r IH]; intros H i; [reflexivity|].
  destruct r as [|d r']; [reflexivity|].
  rewrite noOpener_eq in H. apply andb_prop in H as [H1 H2].
  apply negb_true_iff in H1. rewrite scanOpener_eq, H1. now apply IH.
Qed.

(** The first opener of [a ++ " {" ++ rest] is the one after [a], when
    [a] has none and does not end where a brace could follow a blank. *)
Lemma scanOpener_first (a rest : string) :
  noOpener (a ++ " ") = true ->
  forall i, scanOpener i (a ++ " {" ++ rest) = i + len a + 1.
Proof.
  unfold len. induction a as [|c a IH]; intros H i.
  - rewrite append_nil_l.
    change (" {" ++ rest) with (String " " (String "{" rest)).
    rewrite scanOpener_eq. cbn. lia.
  - rewrite append_cons in H |- *.
    destruct a as [|d a'].
    + rewrite append_nil_l in H |- *.
      change (" {" ++ rest) with (String " " (String "{" rest)).
      rewrite scanOpener_eq.
      change (Ascii.eqb " " "{") with false. rewrite andb_false_r.
      change (String " " (String "{" rest)) with ("" ++ " {" ++ rest).
      rewrite IH by reflexivity. cbn [String.length]. lia.
    + rewrite append_cons in H |- *. rewrite noOpener_eq in H.
      apply andb_prop in H as [H1 H2]. apply negb_true_iff in H1.
      rewrite scanOpener_eq, H1. rewrite <- append_cons.
      rewrite IH by (now rewrite append_cons). cbn [String.length]. lia.
Qed.

Lemma noOpener_blank (s : string) :
  noOpener s = true -> noOpener (s ++ " ") = true.
Proof.
  induction s as [|c r IH]; intros H; [reflexivity|].
  rewrite append_cons. destruct r as [|d r'].
  - rewrite append_nil_l. cbn [noOpener].
    change (Ascii.eqb " " "{") with false. now rewrite andb_false_r.
  - rewrite append_cons. rewrite noOpener_eq in H |- *.
    apply andb_prop in H as [H1 H2]. rewrite H1. cbn [andb].
    rewrite <- append_cons. now apply IH.
Qed.

Lemma TrimPrefix_app (name rest : string) : TrimPrefix (name ++ rest) name = rest.
Proof.
  unfold TrimPrefix. rewrite HasPrefix_app. apply drop_append.
Qed.

Lemma TrimSpace_blank (s : string) : TrimSpace (String " " s) = TrimSpace s.
Proof. reflexivity. Qed.

Lemma ExtractMetadata_block (name meta rest : string) :
  TrimSpace meta = meta -> noOpener (" " ++ meta) = true ->
  ExtractMetadata (name ++ " " ++ meta ++ " {" ++ rest) name = meta.
Proof.
  intros Ht Hn. unfold ExtractMetadata. cbv zeta. rewrite TrimPrefix_app.
  rewrite findBlockOpener_scan.
  replace (" " ++ meta ++ " {" ++ rest) with ((" " ++ meta) ++ " {" ++ rest)
    by now rewrite append_assoc.
  rewrite scanOpener_first by now apply noOpener_blank.
  pose proof (len_nonneg (" " ++ meta)) as L.
  destruct (Z.leb_spec 0 (0 + len (" " ++ meta) + 1)) as [_|]; [|lia].
  unfold slice_to, len.
  replace (Z.to_nat (0 + Z.of_nat (String.length (" " ++ meta)) + 1 - 1))
    with (String.length (" " ++ meta)) by lia.
  rewrite take_append. exact Ht.
Qed.

Lemma ExtractMetadata_line (name meta : string) :
  TrimSpace meta = meta -> noOpener (" " ++ meta) = true ->
  ExtractMetadata (name ++ " " ++ meta) name = meta.
Proof.
  intros Ht Hn. unfold ExtractMetadata. cbv zeta. rewrite TrimPrefix_app.
  rewrite findBlockOpener_scan, scanOpener_none by exact Hn.
  exact Ht.
Qed.

(** ** The name of an annotation line *)

Lemma name_end_split (s : string) :
  exists rest,
    s = name_end s ++ rest
    /\ allChars notBlankOrBrace (name_end s) = true
    /\ endsName rest = true.
Proof.
  induction s as [|c s (rest & E & A & R)].
  - now exists "".
  - cbn [name_end].
    destruct (Ascii.eqb c " " || Ascii.eqb c "{" || Ascii.eqb c tab) eqn:B.
    + exists (String c s). split; [reflexivity|]. split; [reflexivity|].
      cbn [endsName]. unfold notBlankOrBrace. now rewrite B.
    + exists rest. rewrite append_cons. split; [now rewrite <- E|].
      split; [|exact R]. cbn [allChars]. rewrite A.
      unfold notBlankOrBrace. now rewrite B.
Qed.

Lemma name_end_at (s : string) :
  HasPrefix s "@" = true -> HasPrefix (name_end s) "@" = true.
Proof.
  destruct s as [|c s]; [discriminate|]. cbn [HasPrefix].
  destruct (Ascii.eqb_spec c "@") as [->|]; [|discriminate]. reflexivity.
Qed.

(** ** Stored children, read back *)

Lemma map_lookup_store_other {V} (m : list (string * V)) (key k : string) (v : V) :
  k <> key -> map_lookup (map_store m key v) k = map_lookup m k.
Proof.
  intros Hk. induction m as [|[k' w] m IH]; cbn [map_store map_lookup].
  - destruct (String.eqb_spec key k); [congruence|reflexivity].
  - destruct (String.eqb_spec k' key) as [->|Hne]; cbn [map_lookup].
    + destruct (String.eqb_spec key k); [congruence|reflexivity].
    + destruct (String.eqb k' k); [reflexivity|exact IH].
Qed.

Lemma map_slice_store {V} (m : list (string * list V)) (key : string) (v : list V) :
  map_slice (map_store m key v) key = v.
Proof. unfold map_slice. now rewrite map_lookup_store. Qed.

Lemma map_slice_store_other {V} (m : list (string * list V)) (key k : string)
      (v : list V) :
  k <> key -> map_slice (map_store m key v) k = map_slice m k.
Proof. intros H. unfold map_slice. now rewrite map_lookup_store_other. Qed.

Lemma PChildren_setChildren (p : ParsedAnnotation) c :
  PChildren (setChildren p c) = c.
Proof. now destruct p. Qed.

Lemma Repeated_setChildren (p : ParsedAnnotation) c :
  RepeatedChildren (setChildren p c) = RepeatedChildren p.
Proof. now destruct p. Qed.

Lemma PChildren_setRepeated (p : ParsedAnnotation) r :
  PChildren (setRepeatedChildren p r) = PChildren p.
Proof. now destruct p. Qed.

Lemma Repeated_setRepeated (p : ParsedAnnotation) r :
  RepeatedChildren (setRepeatedChildren p r) = r.
Proof. now destruct p. Qed.

(** ** The first line of an inline annotation *)

Lemma noBrace_cons (c : ascii) (h : string) :
  noBrace (String c h) = true ->
  Ascii.eqb c "{" = false /\ Ascii.eqb c "}" = false /\ noBrace h = true.
Proof.
  unfold noBrace. cbn [allChars]. intros [Hc Hh]%andb_prop.
  apply negb_true_iff in Hc. unfold isBrace in Hc.
  apply orb_false_elim in Hc as [H1 H2]. now repeat split.
Qed.

Lemma index_open (h tail : string) :
  noBrace h = true -> forall i, index_from i (h ++ String "{" tail) "{" = i + len h.
Proof.
  unfold len. induction h as [|c h IH]; intros Hh i.
  - rewrite append_nil_l. cbn. lia.
  - apply noBrace_cons in Hh as (H1 & H2 & Hh).
    rewrite append_cons. cbn [index_from HasPrefix]. rewrite H1. cbn [andb].
    rewrite IH by exact Hh. cbn [String.length]. lia.
Qed.

Lemma index_from_range (s sub : string) :
  forall i, index_from i s sub = -1 \/ i <= index_from i s sub.
Proof.
  induction s as [|c s IH]; intros i; cbn [index_from].
  - destruct (HasPrefix "" sub); [right; lia|now left].
  - destruct (HasPrefix (String c s) sub); [right; lia|].
    destruct (IH (i + 1)) as [E|E]; [now left|right; lia].
Qed.

Lemma index_from_shift (s sub : string) :
  forall i, index_from i s sub
            = if (index_from 0 s sub =? -1)%Z then -1 else i + index_from 0 s sub.
Proof.
  induction s as [|c s IH]; intros i; cbn [index_from].
  - destruct (HasPrefix "" sub); cbn; [lia|reflexivity].
  - destruct (HasPrefix (String c s) sub); [cbn; lia|].
    rewrite (IH (i + 1)), (IH (0 + 1)).
    destruct (index_from_range s sub 0) as [E|E].
    + rewrite E. reflexivity.
    + destruct (Z.eqb_spec (index_from 0 s sub) (-1)) as [E'|E']; [lia|].
      destruct (Z.eqb_spec (0 + 1 + index_from 0 s sub) (-1)); lia.
Qed.

Lemma index_close (h tail : string) :
  noBrace h = true ->
  forall i, index_from i (h ++ String "{" tail) "}"
            = index_from (i + len h + 1) tail "}".
Proof.
  unfold len. induction h as [|c h IH]; intros Hh i.
  - rewrite append_nil_l. cbn [index_from HasPrefix]. cbn [Ascii.eqb Bool.eqb andb].
    f_equal. cbn. lia.
  - apply noBrace_cons in Hh as (H1 & H2 & Hh).
    rewrite append_cons. cbn [index_from HasPrefix]. rewrite H2. cbn [andb].
    rewrite IH by exact Hh. f_equal. cbn [String.length]. lia.
Qed.

Lemma IsInlineFormat_first (h tail : string) (rest : list string) :
  noBrace h = true ->
  IsInlineFormat ((h ++ String "{" tail) :: rest) = Contains tail "}".
Proof.
  intros Hh. unfold IsInlineFormat, Contains, Index.
  rewrite index_open, index_close by exact Hh.
  pose proof (len_nonneg h) as L.
  destruct (Z.leb_spec 0 (0 + len h)) as [_|]; [|lia]. cbn [negb].
  rewrite index_from_shift.
  destruct (index_from_range tail "}" 0) as [E|E].
  - rewrite E. reflexivity.
  - destruct (Z.eqb_spec (index_from 0 tail "}") (-1)) as [E'|E']; [lia|].
    destruct (Z.leb_spec 0 (0 + len h + 1 + index_from 0 tail "}")); [|lia].
    cbn [negb].
    destruct (Z.leb_spec 0 (index_from 0 tail "}")); [|lia].
    apply Z.ltb_lt. lia.
Qed.
End HeaderFacts.

Module ConvertFacts.
Import ParserSpec ParserFacts InlineSpec InlineFacts EscapeSpec HeaderSpec.
Import ParserMoreFacts HeaderFacts ConvertSpec.
Import Inline.

(** ** The bounds of the slice *)

Lemma last_index_range (s sub : string) :
  forall i found,
    found <= i + len s ->
    last_index_from i s sub found <= i + len s
    /\ (last_index_from i s sub found = found \/ i <= last_index_from i s sub found).
Proof.
  unfold len. induction s as [|c s IH]; intros i found Hf; cbn [last_index_from].
  - cbn [String.length] in *. destruct (HasPrefix "" sub); lia.
  - cbn [String.length] in *.
    destruct (HasPrefix (String c s) sub).
    + destruct (IH (i + 1) i ltac:(lia)) as [H1 H2]. lia.
    + destruct (IH (i + 1) found ltac:(lia)) as [H1 H2]. lia.
Qed.

Lemma LastIndex_range (s sub : string) :
  -1 <= LastIndex s sub <= len s.
Proof.
  pose proof (len_nonneg s) as L.
  destruct (last_index_range s sub 0 (-1) ltac:(lia)) as [H1 H2].
  unfold LastIndex. lia.
Qed.

Lemma Index_range (s sub : string) : -1 <= Index s sub.
Proof. unfold Index. destruct (index_from_range s sub 0); lia. Qed.

Lemma index_from_get (s : string) (c : ascii) :
  forall i, index_from i s (String c "") = -1
            \/ (i <= index_from i s (String c "")
                /\ String.get (Z.to_nat (index_from i s (String c "") - i)) s
                   = Some c).
Proof.
  induction s as [|d s IH]; intros i; cbn [index_from HasPrefix]; [now left|].
  rewrite andb_true_r. destruct (Ascii.eqb_spec d c) as [->|].
  - right. split; [lia|]. now rewrite Z.sub_diag.
  - destruct (IH (i + 1)) as [E|[E1 E2]]; [now left|right]. split; [lia|].
    replace (Z.to_nat (index_from (i + 1) s (String c "") - i))
      with (S (Z.to_nat (index_from (i + 1) s (String c "") - (i + 1)))) by lia.
    exact E2.
Qed.

Lemma last_index_get (s : string) (c : ascii) :
  forall i found,
    last_index_from i s (String c "") found = found
    \/ (i <= last_index_from i s (String c "") found
        /\ String.get (Z.to_nat (last_index_from i s (String c "") found - i)) s
           = Some c).
Proof.
  induction s as [|d s IH]; intros i found; cbn [last_index_from HasPrefix];
    [now left|].
  rewrite andb_true_r. destruct (Ascii.eqb_spec d c) as [->|].
  - destruct (IH (i + 1) i) as [E|[E1 E2]].
    + right. rewrite E. split; [lia|]. now rewrite Z.sub_diag.
    + right. split; [lia|].
      replace (Z.to_nat (last_index_from (i + 1) s (String c "") i - i))
        with (S (Z.to_nat (last_index_from (i + 1) s (String c "") i - (i + 1))))
        by lia.
      exact E2.
  - destruct (IH (i + 1) found) as [E|[E1 E2]]; [now left|right]. split; [lia|].
    replace (Z.to_nat (last_index_from (i + 1) s (String c "") found - i))
      with (S (Z.to_nat (last_index_from (i + 1) s (String c "") found - (i + 1))))
      by lia.
    exact E2.
Qed.

(** The first opening brace and the last closing brace are not at the
    same index. *)
Lemma braces_apart (line : string) :
  Index line "{" <> -1 -> Index line "{" <> LastIndex line "}".
Proof.
  intros Ho E. unfold Index, LastIndex in *.
  destruct (index_from_get line "{" 0) as [?|[_ G1]]; [contradiction|].
  destruct (last_index_get line "}" 0 (-1)) as [L|[_ G2]]; [lia|].
  rewrite <- E in G2. rewrite G1 in G2. discriminate.
Qed.

Lemma slice_checked_some (s : string) (i j : Z) :
  0 <= i -> i <= j -> j <= len s -> slice_checked s i j = Some (slice s i j).
Proof.
  intros H1 H2 H3. unfold slice_checked.
  destruct (Z.leb_spec 0 i); [|lia]. destruct (Z.leb_spec i j); [|lia].
  destruct (Z.leb_spec j (len s)); [|lia]. reflexivity.
Qed.

(** ** The lines of the loop *)

Lemma convert_loop_shape (parts : list string) :
  forall i, Forall (fun l => HasPrefix l "  @" = true /\ TrimSpace l <> "")
                   (convert_loop i parts).
Proof.
  induction parts as [|part rest IH]; intros i; cbn [convert_loop]; [constructor|].
  destruct ((i =? 0)%Z && isEmpty (TrimSpace part)); [apply IH|]. cbv zeta.
  destruct (isEmpty (TrimSpace part)) eqn:E; [apply IH|].
  constructor; [|apply IH]. split; [reflexivity|].
  apply isEmpty_false in E.
  change ("  @" ++ TrimSpace part)
    with (String " " (String " " (String "@" (TrimSpace part)))).
  rewrite !TrimSpace_blank. unfold TrimSpace at 1.
  rewrite trimLeft_cons by reflexivity. rewrite trimRight_cons.
  destruct (trimRight (TrimSpace part)); discriminate.
Qed.

(** ** Children without an at sign in their text *)

Lemma nameOk_noAt (w : string) : allChars plainChar w = true -> noAt w = true.
Proof.
  induction w as [|c w IH]; [reflexivity|].
  cbn [allChars noAt]. intros [Hc Hw]%andb_prop.
  destruct (plainChar_inv _ Hc) as (_ & He & _).
  apply escapable_inv in He as (_ & _ & -> & _). now rewrite IH.
Qed.

Lemma childTail_noAt (c : Child) :
  nameOk (fst c) = true -> noAt (snd c) = true -> noAt (childTail c) = true.
Proof.
  intros Hn Ht. destruct (nameOk_inv _ Hn) as (d0 & r0 & _ & _ & Hw).
  unfold childTail. destruct (isEmpty (snd c)); [now apply nameOk_noAt|].
  apply noAt_app; [now apply nameOk_noAt|].
  rewrite append_cons, append_nil_l. cbn [noAt]. now rewrite Ht.
Qed.

Lemma split_plain (cs : list Child) :
  Forall wordOk cs -> Forall (fun c => noAt (snd c) = true) cs -> cs <> [] ->
  forall cur, split_loop "@" O cur (inlineBody cs) = cur :: plainParts cs.
Proof.
  induction cs as [|c rest IH]; [congruence|].
  intros Hcs Hat _ cur.
  inversion Hcs as [|? ? [Hn Ht] Hrest]; subst.
  inversion Hat as [|? ? Ha Harest]; subst.
  pose proof (childTail_noAt c Hn Ha) as Hno.
  destruct rest as [|c' rest'].
  - cbn [inlineBody plainParts]. unfold childLine.
    rewrite append_cons, append_nil_l, split_step. cbn [Ascii.eqb Bool.eqb].
    rewrite <- (append_nil_r (childTail c)) at 1.
    rewrite split_noAt by exact Hno. reflexivity.
  - change (inlineBody (c :: c' :: rest'))
      with (childLine c ++ " " ++ inlineBody (c' :: rest')).
    change (plainParts (c :: c' :: rest'))
      with ((childTail c ++ " ") :: plainParts (c' :: rest')).
    unfold childLine at 1.
    rewrite append_assoc, append_cons, append_nil_l, split_step.
    cbn [Ascii.eqb Bool.eqb]. f_equal.
    rewrite <- append_assoc.
    rewrite split_noAt by (apply noAt_app; [exact Hno|reflexivity]).
    rewrite append_nil_l. apply IH; [exact Hrest|exact Harest|discriminate].
Qed.

Lemma convert_parts (cs : list Child) :
  Forall wordOk cs ->
  forall i, convert_loop i (plainParts cs)
            = List.map indented cs.
Proof.
  induction cs as [|c rest IH]; intros Hcs i; [reflexivity|].
  inversion Hcs as [|? ? [Hn Ht] Hrest]; subst.
  destruct (childTail_nonempty c Hn) as (d & r & E & _).
  assert (Hstep : forall part,
             TrimSpace part = childTail c ->
             convert_loop i (part :: plainParts rest)
             = indented c :: convert_loop (i + 1) (plainParts rest)).
  { intros part Hp. cbn [convert_loop]. cbv zeta. rewrite Hp.
    replace (isEmpty (childTail c)) with false by now rewrite E.
    rewrite andb_false_r. reflexivity. }
  destruct rest as [|c' rest'].
  - cbn [plainParts List.map].
    change [childTail c] with (childTail c :: plainParts []).
    rewrite Hstep by now apply childTail_trim. reflexivity.
  - change (plainParts (c :: c' :: rest'))
      with ((childTail c ++ " ") :: plainParts (c' :: rest')).
    rewrite Hstep by now apply childTail_trim_blank.
    cbn [List.map]. f_equal. now apply IH.
Qed.

(** ** The converted form, parsed *)

Lemma braced_indented (pos : Z) (cs : list Child) :
  Forall wordOk cs ->
  forall content,
    braced_loop false pos
      (List.map indented cs ++ ["}"])%list content 1
    = Ok (content ++ List.map childLine cs)%list.
Proof.
  induction cs as [|c rest IH]; intros Hcs content.
  - cbn. now rewrite app_nil_r.
  - inversion Hcs as [|? ? [Hn Ht] Hrest]; subst.
    cbn [List.map app braced_loop]. cbv zeta.
    unfold CountUnescapedBraces. cbn [fst].
    change (indented c) with (String " " (String " " (childLine c))).
    rewrite !count_plain by reflexivity. cbn [Ascii.eqb Bool.eqb].
    rewrite count_clean by now apply childLine_clean.
    rewrite !TrimSpace_blank, childLine_trim by assumption.
    replace (1 + 0 =? 0)%Z with false by reflexivity.
    replace (1 + 0 <? 0)%Z with false by reflexivity.
    replace (isEmpty (childLine c)) with false by reflexivity.
    cbn [negb]. replace (1 + 0) with 1 by reflexivity.
    rewrite IH by exact Hrest. now rewrite <- app_assoc.
Qed.

Lemma ParseBracedBlock_converted (name : string) (cs : list Child) :
  headerOk name = true -> Forall wordOk cs ->
  ParseBracedBlock (convertedLines name cs) = Ok (List.map childLine cs).
Proof.
  intros Hname Hw.
  pose proof (len_nonneg (name ++ " ")) as Hpos.
  unfold ParseBracedBlock, convertedLines. cbn [findOpenLine].
  rewrite (opener_multi name Hname).
  replace (0 <=? len (name ++ " "))%Z with true by (symmetry; apply Z.leb_le; lia).
  cbn [braced_loop]. cbv zeta.
  assert (E1 : countBracesFromPosition (name ++ " {") (len (name ++ " ")) = 1).
  { unfold countBracesFromPosition.
    change (name ++ " {") with (name ++ " " ++ "{").
    now rewrite <- append_assoc, slice_from_len. }
  assert (E2 : slice_from (name ++ " {") (len (name ++ " ") + 1) = "").
  { replace (len (name ++ " ") + 1) with (len (name ++ " {"))
      by (rewrite !len_append; change (len " {") with 2; change (len " ") with 1; lia).
    rewrite <- (append_nil_r (name ++ " {")) at 1.
    apply slice_from_len. }
  rewrite E1, E2.
  replace (0 + 1 =? 0)%Z with false by reflexivity.
  replace (0 + 1 <? 0)%Z with false by reflexivity.
  change (TrimSpace "") with "". cbn [isEmpty String.eqb negb].
  replace (0 + 1) with 1 by reflexivity.
  rewrite braced_indented by exact Hw. reflexivity.
Qed.

(** A block whose content is the lines of the children. *)
Lemma block_form (node : SchemaNode) (lines : list string) (cs : list Child)
      (name : string) :
  isBlock node = true ->
  Forall (fun c => childOk node c = true) cs ->
  ParseBracedBlock lines = Ok (List.map childLine cs) ->
  ParseAnnotationBlock lines name (Some node)
  = match cs with
    | [] =>
        if negb (CanBeEmpty node)
        then Error (name ++ " cannot be empty (has required children)")
        else Ok (withMetadata node lines name)
    | _ :: _ =>
        wrapped name
          (parseChildren ParseAnnotationBlock_node node (List.map childLine cs)
             (withMetadata node lines name))
    end.
Proof.
  intros Hnode Hcs Hb. cbn [ParseAnnotationBlock].
  rewrite parse_block_node, Hb by assumption.
  pose proof (children_wordOk node cs Hcs) as Hw.
  pose proof (inlineBody_count cs Hw) as Hcount.
  destruct (nonempty_dec cs) as [E|Hne]; [rewrite E; reflexivity|].
  rewrite (match_nonempty cs) by exact Hne.
  rewrite length_map.
  replace (List.length cs =? 0)%nat with false
    by (symmetry; apply Nat.eqb_neq; now destruct cs).
  assert (E : (List.length cs =? 1)%nat
              && isInlineContent (first (List.map childLine cs)) = false).
  { clear Hne Hb. destruct cs as [|c [|c' rest]]; try reflexivity. exact Hcount. }
  now rewrite E.
Qed.

Section Converted.
Variable node : SchemaNode.
Variable header : string.
Variable cs : list Child.
Variable name : string.
Hypothesis Hnode : isBlock node = true.
Hypothesis Hheader : headerOk header = true.
Hypothesis Hname : headerOk name = true.
Hypothesis Hcs : Forall (fun c => childOk node c = true) cs.
Hypothesis Hat : Forall (fun c => noAt (snd c) = true) cs.

Lemma ConvertToMultiLine_form :
  ConvertToMultiLine (inlineLine header cs) name = Some (convertedLines name cs).
Proof.
  pose proof (children_wordOk node cs Hcs) as Hw.
  unfold ConvertToMultiLine. cbv zeta.
  pose proof (content_inline node header cs Hheader Hcs) as Hc.
  revert Hc.
  rewrite (index_inline header cs Hheader), (lastIndex_inline header cs).
  intros Hc.
  pose proof (len_nonneg (header ++ " ")) as P1.
  pose proof (len_nonneg (" " ++ inlineBody cs ++ " ")) as P2.
  pose proof (len_open header) as P3.
  replace (len (header ++ " ") =? -1)%Z with false by (symmetry; apply Z.eqb_neq; lia).
  replace (len (header ++ " {") + len (" " ++ inlineBody cs ++ " ") =? -1)%Z
    with false by (symmetry; apply Z.eqb_neq; lia).
  cbn [orb].
  rewrite slice_checked_some; [|lia|lia|].
  2:{ rewrite (inlineLine_close header cs), !len_append. change (len "}") with 1.
      rewrite !len_append in P2, P3. lia. }
  rewrite Hc. unfold convertedLines. cbn [app]. do 2 f_equal.
  destruct (nonempty_dec cs) as [E|Hne]; [rewrite E; reflexivity|].
  unfold Split. rewrite split_plain by assumption.
  cbn [convert_loop]. change (TrimSpace "") with "".
  cbn [isEmpty String.eqb Z.eqb andb].
  now rewrite convert_parts.
Qed.

Lemma converted_same :
  sameChildren
    (ParseInlineAnnotation (inlineLine header cs) name node)
    (ParseAnnotationBlock (convertedLines name cs) name (Some node)).
Proof.
  pose proof (children_wordOk node cs Hcs) as Hw.
  rewrite (ParseInlineAnnotation_form node) by assumption.
  rewrite (block_form node _ cs) by (try assumption; now apply ParseBracedBlock_converted).
  destruct (nonempty_dec cs) as [E|Hne].
  - rewrite E. destruct (negb (CanBeEmpty node)); [exact I|].
    cbn [sameChildren]. now rewrite children_withMetadata.
  - rewrite !(match_nonempty cs) by exact Hne.
    eapply sameChildren_trans; [|apply sameChildren_wrapped].
    apply inline_loop_children; [assumption|]. now rewrite children_withMetadata.
Qed.
End Converted.

(** ** When the conversion fails *)

Lemma ConvertToMultiLine_cases (line name : string) :
  let openIdx := Index line "{" in
  let closeIdx := LastIndex line "}" in
  if (openIdx =? -1)%Z || (closeIdx =? -1)%Z
  then ConvertToMultiLine line name = Some [line]
  else if (closeIdx <? openIdx)%Z
       then ConvertToMultiLine line name = None
       else exists lines,
           ConvertToMultiLine line name = Some lines /\ convertedShape name lines.
Proof.
  cbv zeta. unfold ConvertToMultiLine. cbv zeta.
  pose proof (Index_range line "{") as Ho.
  pose proof (LastIndex_range line "}") as Hc.
  destruct ((Index line "{" =? -1)%Z || (LastIndex line "}" =? -1)%Z) eqn:E;
    [reflexivity|].
  apply orb_false_elim in E as [E1 E2].
  apply Z.eqb_neq in E1. apply Z.eqb_neq in E2.
  destruct (Z.ltb_spec (LastIndex line "}") (Index line "{")) as [L|L].
  - unfold slice_checked.
    destruct (Z.leb_spec (Index line "{" + 1) (LastIndex line "}")); [lia|].
    now rewrite andb_false_r.
  - pose proof (braces_apart line E1) as Hne.
    rewrite slice_checked_some by lia.
    eexists. split; [reflexivity|]. eexists. split; [reflexivity|].
    apply convert_loop_shape.
Qed.
End ConvertFacts.

Module FieldFacts.
Import ParserSpec ParserFacts InlineSpec InlineFacts EscapeSpec HeaderSpec.
Import ParserMoreFacts HeaderFacts ConvertSpec ConvertFacts FieldSpec.

(** ** The lines of a comment *)

Lemma annotation_lines_in (lines : list string) :
  Comments.annotation_lines true lines = lines.
Proof.
  induction lines as [|line rest IH]; [reflexivity|].
  cbn [Comments.annotation_lines]. rewrite IH. now destruct (HasPrefix line "@").
Qed.

Lemma annotation_lines_split (lines : list string) :
  exists before,
    lines = (before ++ Comments.annotation_lines false lines)%list
    /\ Forall (fun l => HasPrefix l "@" = false) before
    /\ (Comments.annotation_lines false lines = []
        \/ HasPrefix (first (Comments.annotation_lines false lines)) "@" = true).
Proof.
  induction lines as [|line rest (before & E & F & H)].
  - exists []. repeat split; [constructor|now left].
  - cbn [Comments.annotation_lines]. destruct (HasPrefix line "@") eqn:P.
    + exists []. rewrite annotation_lines_in. repeat split; [constructor|now right].
    + exists (line :: before). cbn [app]. rewrite <- E.
      repeat split; [now constructor|exact H].
Qed.

Lemma HasPrefix_at (line annotation : string) :
  HasPrefix annotation "@" = true -> HasPrefix line annotation = true ->
  HasPrefix line "@" = true.
Proof.
  destruct annotation as [|a r]; [discriminate|]. cbn [HasPrefix].
  rewrite andb_true_r. intros Ha.
  destruct line as [|c l]; [discriminate|]. cbn [HasPrefix].
  intros [Hc _]%andb_prop. apply Ascii.eqb_eq in Hc, Ha. subst.
  now rewrite Ascii.eqb_refl.
Qed.

Lemma annotation_lines_has (lines : list string) (annotation : string) :
  HasPrefix annotation "@" = true ->
  existsb (fun line => HasPrefix line annotation) lines = true ->
  Comments.annotation_lines false lines <> [].
Proof.
  intros Ha. induction lines as [|line rest IH]; [discriminate|].
  cbn [existsb Comments.annotation_lines].
  destruct (HasPrefix line "@") eqn:P; [discriminate|].
  destruct (HasPrefix line annotation) eqn:Q.
  - now rewrite (HasPrefix_at _ _ Ha Q) in P.
  - exact IH.
Qed.

Lemma annotation_lines_idem (lines : list string) :
  Comments.annotation_lines false (Comments.annotation_lines false lines)
  = Comments.annotation_lines false lines.
Proof.
  induction lines as [|line rest IH]; [reflexivity|].
  cbn [Comments.annotation_lines]. destruct (HasPrefix line "@") eqn:P; [|exact IH].
  rewrite annotation_lines_in. cbn [Comments.annotation_lines]. rewrite P.
  now rewrite annotation_lines_in.
Qed.

(** ** Splitting at the first separator *)

Lemma without_cons (c d : ascii) (s : string) :
  without c (String d s) = true -> Ascii.eqb d c = false /\ without c s = true.
Proof.
  unfold without. cbn [allChars]. intros [H1 H2]%andb_prop.
  now apply negb_true_iff in H1.
Qed.

Lemma index_without (c : ascii) (a : string) :
  without c a = true -> forall i, index_from i a (String c "") = -1.
Proof.
  induction a as [|d a IH]; intros H i; [reflexivity|].
  apply without_cons in H as [H1 H2].
  cbn [index_from HasPrefix]. rewrite H1. cbn [andb]. now apply IH.
Qed.

Lemma index_first (c : ascii) (a b : string) :
  without c a = true ->
  forall i, index_from i (a ++ String c b) (String c "") = i + len a.
Proof.
  unfold len. induction a as [|d a IH]; intros H i.
  - rewrite append_nil_l. cbn [index_from HasPrefix]. rewrite Ascii.eqb_refl.
    cbn. lia.
  - apply without_cons in H as [H1 H2]. rewrite append_cons.
    cbn [index_from HasPrefix]. rewrite H1. cbn [andb].
    rewrite IH by exact H2. cbn [String.length]. lia.
Qed.

Lemma SplitN_none (s : string) :
  without "." s = true -> ParserGo.SplitN s "." 2 = [s].
Proof.
  intros H. unfold ParserGo.SplitN. cbv zeta.
  destruct (Z.to_nat _) as [|k]; [reflexivity|].
  cbn [ParserGo.genSplit]. cbv zeta. unfold Index.
  now rewrite index_without.
Qed.

Lemma SplitN_first (a b : string) :
  without "." a = true -> ParserGo.SplitN (a ++ String "." b) "." 2 = [a; b].
Proof.
  intros H. unfold ParserGo.SplitN. cbv zeta.
  pose proof (len_nonneg a) as La. pose proof (len_nonneg b) as Lb.
  assert (L : len (a ++ String "." b) = len a + 1 + len b).
  { rewrite len_append. unfold len. cbn [String.length]. lia. }
  rewrite L. destruct (Z.ltb_spec (len a + 1 + len b + 1) 2); [lia|].
  change (Z.to_nat (2 - 1)) with 1%nat.
  cbn [ParserGo.genSplit]. cbv zeta. unfold Index.
  rewrite index_first by exact H.
  destruct (Z.ltb_spec (0 + len a) 0); [lia|].
  f_equal.
  - unfold slice_to, len. replace (Z.to_nat (0 + Z.of_nat (String.length a)))
      with (String.length a) by lia.
    apply take_append.
  - f_equal. unfold slice_from, len.
    change (Z.of_nat (String.length ".")) with 1.
    replace (Z.to_nat (0 + Z.of_nat (String.length a) + 1))
      with (S (String.length a)) by lia.
    change (a ++ String "." b) with (a ++ "." ++ b).
    rewrite <- append_assoc.
    replace (S (String.length a)) with (String.length (a ++ ".")).
    + apply drop_append.
    + rewrite length_append. cbn [String.length]. lia.
Qed.

Lemma ParseBindTarget_none (value : string) :
  without "." (TrimSpace value) = true -> ParserGo.ParseBindTarget value = None.
Proof. intros H. unfold ParserGo.ParseBindTarget. now rewrite SplitN_none. Qed.

Lemma ParseBindTarget_some (value a b : string) :
  without "." a = true -> TrimSpace value = a ++ String "." b ->
  ParserGo.ParseBindTarget value
  = Some (ParserGo.MkBindTarget (TrimSpace a) (TrimSpace b)).
Proof.
  intros H E. unfold ParserGo.ParseBindTarget. now rewrite E, SplitN_first.
Qed.

Lemma trimRight_dot (b : string) :
  trimRight (String "." b) = String "." (trimRight b).
Proof. rewrite trimRight_cons. now destruct (trimRight b). Qed.

Lemma TrimSpace_dotted (a b : string) :
  TrimSpace a = a -> TrimSpace b = b ->
  TrimSpace (a ++ String "." b) = a ++ String "." b.
Proof.
  intros Ha Hb. apply TrimSpace_fixed in Ha as [Ha1 Ha2].
  apply TrimSpace_fixed in Hb as [Hb1 Hb2].
  apply TrimSpace_of.
  - destruct a as [|c a]; [reflexivity|]. rewrite append_cons.
    destruct (isSpace c) eqn:C.
    + rewrite trimLeft_space in Ha1 by exact C.
      pose proof (trimLeft_length a) as [E|E]; rewrite Ha1 in E.
      * exfalso. assert (L : String.length (String c a) = String.length a)
          by now rewrite E.
        cbn [String.length] in L. lia.
      * cbn [String.length] in E. lia.
    + now apply trimLeft_cons.
  - rewrite trimRight_app_nonempty by (rewrite trimRight_dot; discriminate).
    now rewrite trimRight_dot, Hb2.
Qed.

(** ** The name and the argument of a generic instantiation *)

Lemma last_index_last (c : ascii) (s : string) :
  forall i found,
    last_index_from i (s ++ String c "") (String c "") found = i + len s.
Proof.
  unfold len. induction s as [|d s IH]; intros i found.
  - rewrite append_nil_l. cbn [last_index_from HasPrefix].
    rewrite Ascii.eqb_refl. cbn. lia.
  - rewrite append_cons. cbn [last_index_from]. rewrite IH.
    cbn [String.length]. lia.
Qed.

Lemma extract_generic (base arg : string) :
  base <> "" -> without "[" base = true ->
  ParserGo.extractBaseType (base ++ String "[" (arg ++ "]")) = base
  /\ ResolverMore.extractTypeArg (base ++ String "[" (arg ++ "]")) = arg.
Proof.
  intros Hne Hb.
  assert (Lb : 0 < len base).
  { unfold len. destruct base; [congruence|]. cbn [String.length]. lia. }
  pose proof (len_nonneg arg) as La.
  unfold ParserGo.extractBaseType, ResolverMore.extractTypeArg. cbv zeta.
  unfold Index. rewrite index_first by exact Hb.
  destruct (Z.ltb_spec 0 (0 + len base)); [|lia]. split.
  - unfold slice_to, len.
    replace (Z.to_nat (0 + Z.of_nat (String.length base))) with (String.length base)
      by lia.
    apply take_append.
  - unfold LastIndex.
    replace (base ++ String "[" (arg ++ "]")) with ((base ++ String "[" arg) ++ "]")
      by (rewrite append_assoc; now rewrite append_cons).
    rewrite last_index_last.
    assert (L : len (base ++ String "[" arg) = len base + 1 + len arg).
    { rewrite len_append. unfold len. cbn [String.length]. lia. }
    rewrite L. destruct (Z.ltb_spec (0 + len base) (0 + (len base + 1 + len arg)));
      [|lia].
    cbn [andb].
    replace ((base ++ String "[" arg) ++ "]") with ((base ++ "[") ++ arg ++ "]")
      by (rewrite !append_assoc; reflexivity).
    replace (0 + len base + 1) with (len (base ++ "["))
      by (rewrite len_append; change (len "[") with 1; lia).
    replace (0 + (len base + 1 + len arg)) with (len (base ++ "[") + len arg)
      by (rewrite len_append; change (len "[") with 1; lia).
    apply slice_mid.
Qed.

Lemma extract_plain (name : string) :
  without "[" name = true ->
  ParserGo.extractBaseType name = name /\ ResolverMore.extractTypeArg name = "".
Proof.
  intros H. unfold ParserGo.extractBaseType, ResolverMore.extractTypeArg.
  cbv zeta. unfold Index. rewrite index_without by exact H. now split.
Qed.
End FieldFacts.

Module GrammarFacts.
Import ParserSpec ParserFacts InlineSpec InlineFacts EscapeSpec HeaderSpec.
Import ParserMoreFacts HeaderFacts ConvertSpec ConvertFacts FieldSpec FieldFacts.
Import GrammarSpec.
Import SchemaValidate.

(** ** A field from the children of its annotation *)

Lemma Value_forget (p : ParsedAnnotation) : Value (forget p) = Value p.
Proof. now destruct p. Qed.

Lemma lookup_children (x y : ParsedAnnotation) (name : string) :
  children x = children y ->
  option_map forget (map_lookup (PChildren x) name)
  = option_map forget (map_lookup (PChildren y) name).
Proof.
  rewrite !children_eq. intros [= E _].
  now rewrite <- !map_lookup_onValues, E.
Qed.

Lemma GetChildValue_children (x y : ParsedAnnotation) (name : string) :
  children x = children y ->
  Block.GetChildValue x name = Block.GetChildValue y name.
Proof.
  intros E. apply (lookup_children x y name) in E. unfold Block.GetChildValue.
  destruct (map_lookup (PChildren x) name), (map_lookup (PChildren y) name);
    try discriminate; [|reflexivity].
  injection E as E. now rewrite <- (Value_forget p), E, Value_forget.
Qed.

Lemma HasChild_children (x y : ParsedAnnotation) (name : string) :
  children x = children y ->
  Block.HasChild x name = Block.HasChild y name.
Proof.
  intros E. apply (lookup_children x y name) in E. unfold Block.HasChild.
  now destruct (map_lookup (PChildren x) name), (map_lookup (PChildren y) name).
Qed.

Section Host.
Variable float64 : Type.
Variable ParseFloat : string -> option float64.
Variable Atoi : string -> option Z.

Lemma convertParsedField_children (fieldName : string) (x y : ParsedAnnotation) :
  children x = children y ->
  ParserGo.convertParsedField float64 ParseFloat Atoi fieldName x
  = ParserGo.convertParsedField float64 ParseFloat Atoi fieldName y.
Proof.
  intros E. unfold ParserGo.convertParsedField. cbv zeta.
  now rewrite !(GetChildValue_children x y), !(HasChild_children x y) by exact E.
Qed.

(** ** The two forms of a field comment *)

Lemma Contains_end (x : string) : Contains (x ++ "}") "}" = true.
Proof.
  unfold Contains, Index. apply Z.leb_le.
  assert (H : forall i, i <= index_from i (x ++ "}") "}").
  { induction x as [|c x IH]; intros i.
    - rewrite append_nil_l. cbn. lia.
    - rewrite append_cons. cbn [index_from].
      destruct (HasPrefix _ _); [lia|]. specialize (IH (i + 1)). lia. }
  apply H.
Qed.

Lemma IsInlineFormat_inline (cs : list Child) (rest : list string) :
  IsInlineFormat (inlineLine "@field" cs :: rest) = true.
Proof.
  unfold inlineLine.
  change ("@field" ++ " { " ++ inlineBody cs ++ " }")
    with ("@field " ++ String "{" (" " ++ inlineBody cs ++ " }")).
  rewrite IsInlineFormat_first by reflexivity.
  replace (" " ++ inlineBody cs ++ " }") with ((" " ++ inlineBody cs ++ " ") ++ "}")
    by now rewrite !append_assoc.
  apply Contains_end.
Qed.

Lemma IsInlineFormat_multi (cs : list Child) :
  IsInlineFormat (multiLines "@field" cs) = false.
Proof.
  unfold multiLines.
  change ("@field" ++ " {") with ("@field " ++ String "{" "").
  now rewrite IsInlineFormat_first.
Qed.

Lemma annotation_lines_after (before lines : list string) :
  Forall (fun l => HasPrefix l "@" = false) before ->
  Comments.annotation_lines false (before ++ lines)%list
  = Comments.annotation_lines false lines.
Proof.
  induction 1 as [|l before Hl _ IH]; [reflexivity|].
  cbn [app Comments.annotation_lines]. now rewrite Hl.
Qed.

Lemma annotation_lines_at (line : string) (rest : list string) :
  HasPrefix line "@" = true ->
  Comments.annotation_lines false (line :: rest) = line :: rest.
Proof.
  intros H. cbn [Comments.annotation_lines]. now rewrite H, annotation_lines_in.
Qed.

Lemma HasAnnotation_after (before : list string) (line : string)
      (rest : list string) (annotation : string) :
  HasPrefix line annotation = true ->
  Comments.HasAnnotation (Some (before ++ line :: rest)%list) annotation = true.
Proof.
  intros H. cbn [Comments.HasAnnotation]. rewrite existsb_app.
  cbn [existsb]. rewrite H. now rewrite orb_true_r.
Qed.

Lemma fieldOfComment_inline (structName fieldName : string)
      (before : list string) (cs : list Child) :
  Forall (fun l => HasPrefix l "@" = false) before ->
  ParserGo.fieldOfComment float64 ParseFloat Atoi structName fieldName
    (Some (before ++ [inlineLine "@field" cs])%list)
  = Some
      match ParseInlineAnnotation (inlineLine "@field" cs) "@field" fieldNode with
      | Error err =>
          Error ("failed to parse inline @field for " ++ structName
                   ++ "." ++ fieldName ++ ": " ++ err)
      | Ok parsedField =>
          Ok (ParserGo.convertParsedField float64 ParseFloat Atoi fieldName
                parsedField)
      end.
Proof.
  intros Hb. unfold ParserGo.fieldOfComment.
  rewrite HasAnnotation_after by reflexivity. cbn [negb]. cbv zeta.
  cbn [Comments.GetAnnotationLines].
  rewrite annotation_lines_after, annotation_lines_at by first [exact Hb|reflexivity].
  rewrite IsInlineFormat_inline. cbn [first hd].
  now destruct (ParseInlineAnnotation _ _ _).
Qed.

Lemma annotation_lines_multi (cs : list Child) :
  Comments.annotation_lines false (multiLines "@field" cs) = multiLines "@field" cs.
Proof. unfold multiLines. now apply annotation_lines_at. Qed.

Lemma fieldOfComment_multi (structName fieldName : string)
      (before : list string) (cs : list Child) :
  Forall (fun l => HasPrefix l "@" = false) before ->
  ParserGo.fieldOfComment float64 ParseFloat Atoi structName fieldName
    (Some (before ++ multiLines "@field" cs)%list)
  = Some
      match ParseAnnotationBlock (multiLines "@field" cs) "@field"
              (Some fieldNode) with
      | Error err =>
          Error ("failed to parse @field for " ++ structName
                   ++ "." ++ fieldName ++ ": " ++ err)
      | Ok parsedField =>
          Ok (ParserGo.convertParsedField float64 ParseFloat Atoi fieldName
                parsedField)
      end.
Proof.
  intros Hb. unfold ParserGo.fieldOfComment.
  unfold multiLines at 1. rewrite HasAnnotation_after by reflexivity.
  cbn [negb]. cbv zeta. cbn [Comments.GetAnnotationLines].
  rewrite annotation_lines_after by exact Hb.
  rewrite !annotation_lines_multi, IsInlineFormat_multi.
  now destruct (ParseAnnotationBlock _ _ _).
Qed.
End Host.

(** ** The validation of the grammar *)

Lemma Validate_unfold (n : SchemaNode) :
  Validate n
  = if Schema.Required n && Repeatable n then
      Some (MkValidationError (Schema.Name n)
              "annotation cannot be both required and repeatable")
    else if AnnotationType_eqb (NodeType n) MarkerAnnotation
            && negb (match Children n with [] => true | _ :: _ => false end) then
      Some (MkValidationError (Schema.Name n) "marker annotations cannot have children")
    else
      (fix each (l : list (string * SchemaNode)) : option ValidationError :=
         match l with
         | [] => None
         | child :: rest =>
             match Validate (snd child) with
             | Some err => Some err
             | None => each rest
             end
         end) (Children n).
Proof.
  destruct n as [name type required md repeatable sm children].
  cbn [Validate Schema.Required Repeatable Schema.Name NodeType Children].
  destruct (required && repeatable); [reflexivity|].
  destruct children as [|child rest].
  - cbn [List.length Nat.ltb Nat.leb Nat.eqb negb].
    rewrite andb_false_r. unfold CanBeEmpty. cbn [Children forallb negb].
    now rewrite !andb_false_r.
  - cbn [List.length Nat.eqb negb]. rewrite andb_false_r. cbn [andb].
    replace (0 <? S (List.length rest))%nat with true by reflexivity.
    reflexivity.
Qed.

Lemma Validate_wellFormed (n : SchemaNode) :
  Validate n = None <-> wellFormed n = true.
Proof.
  induction n as [name type required md repeatable sm children IH]
    using SchemaNode_induction.
  rewrite Validate_unfold.
  cbn [wellFormed Schema.Required Repeatable Schema.Name NodeType Children].
  destruct (required && repeatable); [cbn; split; discriminate|].
  destruct (AnnotationType_eqb type MarkerAnnotation
            && negb (match children with [] => true | _ :: _ => false end));
    [cbn; split; discriminate|].
  cbn [negb andb].
  induction IH as [|child rest Hc _ IHrest]; [tauto|].
  destruct (Validate (snd child)) as [err|] eqn:E.
  - split; [discriminate|]. intros [H _]%andb_prop.
    apply Hc in H. discriminate.
  - rewrite (proj1 Hc eq_refl). cbn [andb]. exact IHrest.
Qed.

Lemma Validate_message (n : SchemaNode) :
  forall err,
    Validate n = Some err ->
    Message err = "annotation cannot be both required and repeatable"
    \/ Message err = "marker annotations cannot have children".
Proof.
  induction n as [name type required md repeatable sm children IH]
    using SchemaNode_induction.
  intros err. rewrite Validate_unfold.
  cbn [Schema.Required Repeatable Schema.Name NodeType Children].
  destruct (required && repeatable); [intros [= <-]; now left|].
  destruct (AnnotationType_eqb type MarkerAnnotation
            && negb (match children with [] => true | _ :: _ => false end));
    [intros [= <-]; now right|].
  induction IH as [|child rest Hc _ IHrest]; [discriminate|].
  destruct (Validate (snd child)) as [e|] eqn:E.
  - intros [= <-]. now apply Hc.
  - exact IHrest.
Qed.
End GrammarFacts.

Module ResolverMoreFacts.
Import Resolver ResolverSpec ResolverFacts ParameterSpec.
Import InlineFacts ResolverMore.
Import types (Type_, Field, FieldType, FieldName, Exported, Tag).

(** ** The name in a tag *)

Lemma split_comma_head (s : string) :
  forall cur, exists rest,
    split_loop "," O cur s = (cur ++ beforeComma s) :: rest.
Proof.
  induction s as [|c r IH]; intros cur.
  - exists []. cbn. now rewrite append_nil_r.
  - cbn [split_loop HasPrefix beforeComma]. rewrite andb_true_r.
    destruct (Ascii.eqb c ",").
    + eexists. cbn [String.length Nat.sub]. now rewrite append_nil_r.
    + destruct (IH (cur ++ String c "")) as (rest & ->). exists rest.
      now rewrite append_assoc.
Qed.

Section Names.
Variable Get : string -> string -> string.
Variable TS : Type_ -> string.
Variable float64 : Type.
#[local] Abbreviation RField := (ResolvedField float64).
#[local] Abbreviation Cache := (gmap string TypeInfo.t).

Lemma extractTagName_beforeComma (tag key : string) :
  extractTagName Get tag key = beforeComma (Get tag key).
Proof.
  unfold extractTagName. destruct (isEmpty (Get tag key)) eqn:E.
  - now rewrite beforeComma_empty.
  - unfold Split. destruct (split_comma_head (Get tag key) "") as (rest & ->).
    apply append_nil_l.
Qed.

Lemma paramKind_tagName (tag paramType : string) (other : option string) :
  isParamKind paramType = true ->
  (if String.eqb paramType "path" then Some (extractTagName Get tag "path")
   else if String.eqb paramType "query" then Some (extractTagName Get tag "query")
   else if String.eqb paramType "header" then Some (extractTagName Get tag "header")
   else if String.eqb paramType "cookie" then Some (extractTagName Get tag "cookie")
   else other) = Some (beforeComma (Get tag paramType)).
Proof.
  unfold isParamKind. intros H.
  destruct (String.eqb_spec paramType "path") as [->|_];
    [now rewrite extractTagName_beforeComma|].
  destruct (String.eqb_spec paramType "query") as [->|_];
    [now rewrite extractTagName_beforeComma|].
  destruct (String.eqb_spec paramType "header") as [->|_];
    [now rewrite extractTagName_beforeComma|].
  destruct (String.eqb_spec paramType "cookie") as [->|_];
    [now rewrite extractTagName_beforeComma|discriminate].
Qed.

Lemma resolveFieldWithParamType_name (f : Field Type_) ann paramType
      (c c' : Cache) (r : RField) :
  resolveFieldWithParamType Get TS float64 f ann paramType c = (Some r, c') ->
  Name r = paramName Get paramType f.
Proof.
  unfold resolveFieldWithParamType, paramName.
  destruct (negb (Exported f)); [discriminate|]. cbv zeta.
  assert (Hw : forall (x : RField) (o : option (Field.t float64)),
             Name (match o with
                   | Some annotation =>
                       when float64 (Field.Deprecated annotation) (set_Deprecated true)
                         (when float64 (Field.Nullable annotation) (set_Nullable true)
                            (applyAnnotation float64 annotation x))
                   | None => x
                   end) = Name x).
  { intros x [a|]; [|reflexivity].
    rewrite !when_name by reflexivity. now rewrite applyAnnotation_name. }
  destruct (isParamKind paramType) eqn:K.
  - rewrite (paramKind_tagName (Tag f) paramType _ K).
    destruct (resolveType TS (FieldType f) c) as [info c2].
    intros [= <- <-]. now rewrite Hw.
  - rewrite (notParamKind_name Get (Tag f) paramType _ K).
    destruct (isEmpty (resolveFieldNameFromTag Get (Tag f) (FieldName f))) eqn:E;
      [discriminate|].
    destruct (resolveType TS (FieldType f) c) as [info c2].
    intros [= <- <-]. rewrite Hw. cbn [applyTypeInfo newField Name].
    now rewrite E.
Qed.

(** ** The field loops *)

Lemma fields_loop_kept (resolveOne : Field Type_ -> Cache -> option RField * Cache)
      (kept : Field Type_ -> bool) (R : Field Type_ -> RField -> Prop) :
  (forall f c, isSome (fst (resolveOne f c)) = kept f) ->
  (forall f c r c', resolveOne f c = (Some r, c') -> R f r) ->
  forall fields c,
    Forall2 R (List.filter kept fields)
            (fst (fields_loop float64 resolveOne fields c)).
Proof.
  intros Hk HR. induction fields as [|f rest IH]; intros c; [constructor|].
  cbn [fields_loop List.filter].
  pose proof (Hk f c) as K.
  destruct (resolveOne f c) as [[r|] c1] eqn:E; cbn [fst isSome] in K;
    rewrite <- K; specialize (IH c1);
    destruct (fields_loop float64 resolveOne rest c1) as [more c2];
    cbn [fst] in *.
  - constructor; [|exact IH]. exact (HR _ _ _ _ E).
  - exact IH.
Qed.

(** ** The annotation of a field *)

Lemma fields_loop_ext (f g : Field Type_ -> Cache -> option RField * Cache)
      (fields : list (Field Type_)) :
  Forall (fun x => forall c, f x c = g x c) fields ->
  forall c, fields_loop float64 f fields c = fields_loop float64 g fields c.
Proof.
  induction 1 as [|x rest Hx _ IH]; intros c; [reflexivity|].
  cbn [fields_loop]. rewrite Hx. destruct (g x c) as [o c1]. now rewrite IH.
Qed.

Lemma findAnnotation_other (before after : list (Field.t float64))
      (a : Field.t float64) (goName : string) :
  String.eqb (Field.GoName a) goName = false ->
  findAnnotation float64 (before ++ a :: after)%list goName
  = findAnnotation float64 (before ++ after)%list goName.
Proof.
  intros H. unfold findAnnotation.
  induction before as [|b before IH]; cbn [app List.find].
  - now rewrite H.
  - destruct (String.eqb (Field.GoName b) goName); [reflexivity|exact IH].
Qed.

Lemma findAnnotation_first (before after : list (Field.t float64))
      (a : Field.t float64) (goName : string) :
  forallb (fun b => negb (String.eqb (Field.GoName b) goName)) before = true ->
  String.eqb (Field.GoName a) goName = true ->
  findAnnotation float64 (before ++ a :: after)%list goName = Some a.
Proof.
  intros Hb H. unfold findAnnotation.
  induction before as [|b before IH]; cbn [app List.find].
  - now rewrite H.
  - cbn [forallb] in Hb. apply andb_prop in Hb as [Hb1 Hb2].
    apply negb_true_iff in Hb1. rewrite Hb1. now apply IH.
Qed.

Lemma unnamed_all (a : Field.t float64) (fields : list (Field Type_)) :
  forallb (fun f => negb (String.eqb (Field.GoName a) (FieldName f))) fields = true ->
  Forall (fun f => String.eqb (Field.GoName a) (FieldName f) = false) fields.
Proof.
  intros H. apply List.Forall_forall. intros f Hin.
  apply negb_true_iff. revert f Hin. now apply forallb_forall.
Qed.
End Names.

Section Cache.
Variable TS : Type_ -> string.

(** ** The type cache *)

Lemma resolveType_extends_bound (n : nat) :
  forall t (c : gmap string TypeInfo.t),
    (size t < n)%nat ->
    (forall key old,
        c !! key = Some old -> snd (resolveType TS t c) !! key = Some old)
    /\ exists key,
        snd (resolveType TS t c) !! key = Some (fst (resolveType TS t c)).
Proof.
  induction n as [|n IH]; intros t c Hlt; [lia|].
  rewrite resolveType_unfold. cbv zeta.
  destruct (c !! TS t) as [cached|] eqn:El.
  { cbn [fst snd]. split; [tauto|now exists (TS t)]. }
  assert (Hins : forall (info : TypeInfo.t) (c1 : gmap string TypeInfo.t),
             (forall key old, c !! key = Some old -> c1 !! key = Some old) ->
             (forall key old,
                 c !! key = Some old -> <[TS t := info]> c1 !! key = Some old)
             /\ exists key, <[TS t := info]> c1 !! key = Some info).
  { intros info c1 H1. split; [|exists (TS t); apply lookup_insert_eq].
    intros key old Hk. rewrite lookup_insert_ne; [now apply H1|].
    intros <-. rewrite El in Hk. discriminate. }
  pose proof (size_unwrap t) as Hu.
  destruct (unwrapPointer t) as [kind|e|elem|? e|k e|fields|obj u|obj rhs| |e| |obj] eqn:Eu;
    cbn [size] in Hu; try (cbn [fst snd]; apply Hins; tauto).
  - destruct (IH elem c ltac:(lia)) as [H1 _].
    destruct (resolveType TS elem c) as [elemInfo c1]. cbn [fst snd] in *.
    now apply Hins.
  - destruct (resolveSpecialType _ _).
    + cbn [fst snd]. apply Hins; tauto.
    + apply IH. lia.
  - apply IH. lia.
Qed.
End Cache.
End ResolverMoreFacts.

Module CommentFacts.
Import ParserSpec ParserFacts InlineSpec InlineFacts.
Import Resolver ResolverSpec ResolverFacts.
Import FieldSpec FieldFacts ConvertSpec ConvertFacts CommentSpec.

Lemma split_spaced (cs : list Child) :
  Forall wordOk cs -> Forall (fun c => noAt (snd c) = true) cs -> cs <> [] ->
  forall cur,
    split_loop "@" O cur (inlineBody cs ++ " ") = cur :: spacedParts cs.
Proof.
  induction cs as [|c rest IH]; [congruence|].
  intros Hcs Hat _ cur.
  inversion Hcs as [|? ? [Hn Ht] Hrest]; subst.
  inversion Hat as [|? ? Ha Harest]; subst.
  pose proof (childTail_noAt c Hn Ha) as Hno.
  destruct rest as [|c' rest'].
  - cbn [inlineBody spacedParts List.map]. unfold childLine.
    rewrite append_assoc, append_cons, append_nil_l, split_step.
    cbn [Ascii.eqb Bool.eqb].
    rewrite <- (append_nil_r (childTail c ++ " ")) at 1.
    rewrite split_noAt by (apply noAt_app; [exact Hno|reflexivity]).
    reflexivity.
  - change (inlineBody (c :: c' :: rest'))
      with (childLine c ++ " " ++ inlineBody (c' :: rest')).
    change (spacedParts (c :: c' :: rest'))
      with ((childTail c ++ " ") :: spacedParts (c' :: rest')).
    unfold childLine at 1.
    rewrite !append_assoc, append_cons, append_nil_l, split_step.
    cbn [Ascii.eqb Bool.eqb]. f_equal.
    rewrite <- append_assoc.
    rewrite split_noAt by (apply noAt_app; [exact Hno|reflexivity]).
    rewrite append_nil_l. apply IH; [exact Hrest|exact Harest|discriminate].
Qed.

Lemma plain_without_space (w : string) :
  allChars plainChar w = true -> without " " w = true.
Proof.
  apply allChars_weaken. intros c H. unfold plainChar in H.
  apply andb_prop in H as [[H _]%andb_prop _].
  destruct (Ascii.eqb_spec c " ") as [->|_]; [discriminate|reflexivity].
Qed.

Lemma slice_to_len (a b : string) : slice_to (a ++ b) (len a) = a.
Proof. unfold slice_to, len. now rewrite Nat2Z.id, take_append. Qed.

Section Applied.
Variable float64 : Type.
Variable parseFloat : string -> option float64.
Variable parseInt : string -> option Z.
#[local] Abbreviation RField := (ResolvedField float64).

(** The part of one child. *)
Lemma part_applied (c : Child) (field : RField) :
  wordOk c ->
  (let part := TrimSpace (childTail c ++ " ") in
   if isEmpty part then field
   else
     let spaceIdx := Index part " " in
     if (0 <? spaceIdx)%Z
     then applyPart float64 parseFloat parseInt ("@" ++ slice_to part spaceIdx)
            (TrimSpace (slice_from part (spaceIdx + 1))) field
     else applyPart float64 parseFloat parseInt ("@" ++ part) "" field)
  = applyPart float64 parseFloat parseInt (childName c) (snd c) field.
Proof.
  intros [Hn Ht]. cbv zeta. rewrite childTail_trim_blank by assumption.
  destruct (childTail_nonempty c Hn) as (d & r & E & _).
  replace (isEmpty (childTail c)) with false by now rewrite E.
  destruct (nameOk_inv _ Hn) as (c0 & r0 & Ew & _ & Hp).
  apply plain_without_space in Hp.
  unfold childTail, childName. destruct (isEmpty (snd c)) eqn:Ee.
  - unfold Index. rewrite index_without by exact Hp. cbn [Z.ltb Z.compare].
    apply isEmpty_true in Ee. now rewrite Ee.
  - unfold Index.
    change (fst c ++ " " ++ snd c) with (fst c ++ String " " (snd c)).
    rewrite index_first by exact Hp. rewrite Z.add_0_l.
    assert (L : 0 < len (fst c))
      by (rewrite Ew; unfold len; cbn [String.length]; lia).
    replace (0 <? len (fst c))%Z with true by (symmetry; apply Z.ltb_lt; lia).
    rewrite slice_to_len.
    change (fst c ++ String " " (snd c)) with (fst c ++ " " ++ snd c).
    rewrite <- append_assoc.
    replace (len (fst c) + 1) with (len (fst c ++ " "))
      by (rewrite len_append; reflexivity).
    rewrite slice_from_len.
    apply textOk_inv in Ht as (_ & T1 & T2). now rewrite TrimSpace_of.
Qed.

Lemma parts_applied (cs : list Child) :
  Forall wordOk cs ->
  forall field : RField,
    fold_left
      (fun field part =>
         let part := TrimSpace part in
         if isEmpty part then field
         else
           let spaceIdx := Index part " " in
           if (0 <? spaceIdx)%Z
           then applyPart float64 parseFloat parseInt ("@" ++ slice_to part spaceIdx)
                  (TrimSpace (slice_from part (spaceIdx + 1))) field
           else applyPart float64 parseFloat parseInt ("@" ++ part) "" field)
      (spacedParts cs) field
    = appliedChildren float64 parseFloat parseInt cs field.
Proof.
  induction 1 as [|c rest Hc _ IH]; intros field; [reflexivity|].
  unfold appliedChildren. cbn [spacedParts List.map fold_left].
  etransitivity; [|apply IH]. f_equal. exact (part_applied c field Hc).
Qed.

Lemma inlineLine_trim (header : string) (cs : list Child) :
  trimLeft header = header -> header <> "" ->
  TrimSpace (inlineLine header cs) = inlineLine header cs.
Proof.
  intros Hl Hne. apply TrimSpace_of.
  - unfold inlineLine. destruct header as [|c h]; [congruence|].
    rewrite append_cons.
    destruct (isSpace c) eqn:S.
    + rewrite trimLeft_space in Hl by exact S.
      destruct (trimLeft_length h) as [E|L].
      * rewrite E in Hl. apply (f_equal String.length) in Hl.
        cbn [String.length] in Hl. lia.
      * rewrite Hl in L. cbn [String.length] in L. lia.
    + now apply trimLeft_cons.
  - rewrite inlineLine_close. now rewrite trimRight_app_nonempty.
Qed.

Lemma applyLine_inline (cs : list Child) (field : RField) :
  Forall wordOk cs -> Forall (fun c => noAt (snd c) = true) cs ->
  applyLine float64 parseFloat parseInt (inlineLine "@field" cs) field
  = appliedChildren float64 parseFloat parseInt cs field.
Proof.
  intros Hw Hat. unfold applyLine. cbv zeta.
  rewrite inlineLine_trim by (reflexivity || discriminate).
  replace (HasPrefix (inlineLine "@field" cs) "@field") with true by reflexivity.
  cbn [negb].
  rewrite (index_inline "@field" cs eq_refl), (lastIndex_inline "@field" cs).
  pose proof (len_nonneg (" " ++ inlineBody cs ++ " ")) as P2.
  pose proof (len_nonneg ("@field" ++ " ")) as P1.
  pose proof (len_open "@field") as P3.
  replace (len ("@field" ++ " ") =? -1)%Z with false
    by (symmetry; apply Z.eqb_neq; lia).
  replace (len ("@field" ++ " {") + len (" " ++ inlineBody cs ++ " ") =? -1)%Z
    with false by (symmetry; apply Z.eqb_neq; lia).
  replace (len ("@field" ++ " {") + len (" " ++ inlineBody cs ++ " ")
           <=? len ("@field" ++ " "))%Z
    with false by (symmetry; apply Z.leb_gt; lia).
  cbn [orb].
  rewrite (inlineLine_close "@field" cs), append_assoc, <- P3, slice_mid.
  destruct (nonempty_dec cs) as [E|Hne]; [rewrite E; reflexivity|].
  unfold Split. rewrite append_cons, append_nil_l, split_step.
  cbn [Ascii.eqb Bool.eqb]. rewrite append_nil_l.
  rewrite split_spaced by assumption.
  cbn [fold_left]. change (TrimSpace " ") with "". cbn [isEmpty String.eqb].
  now apply parts_applied.
Qed.

Lemma applyLine_other (line : string) (field : RField) :
  notFieldLine line = true ->
  applyLine float64 parseFloat parseInt line field = field.
Proof. unfold notFieldLine, applyLine. cbv zeta. now intros ->. Qed.

Lemma applyFieldAnnotations_other (lines : list string) (field : RField) :
  Forall (fun l => notFieldLine l = true) lines ->
  applyFieldAnnotations float64 parseFloat parseInt field (Some lines) = field.
Proof.
  cbn [applyFieldAnnotations]. induction 1 as [|l rest Hl _ IH]; [reflexivity|].
  cbn [fold_left]. now rewrite applyLine_other.
Qed.

Lemma applyFieldAnnotations_inline (before after : list string)
      (cs : list Child) (field : RField) :
  Forall (fun l => notFieldLine l = true) before ->
  Forall (fun l => notFieldLine l = true) after ->
  Forall wordOk cs -> Forall (fun c => noAt (snd c) = true) cs ->
  applyFieldAnnotations float64 parseFloat parseInt field
    (Some (before ++ inlineLine "@field" cs :: after)%list)
  = appliedChildren float64 parseFloat parseInt cs field.
Proof.
  intros Hb Ha Hw Hat. cbn [applyFieldAnnotations].
  rewrite fold_left_app. cbn [fold_left].
  pose proof (applyFieldAnnotations_other before field Hb) as E1.
  cbn [applyFieldAnnotations] in E1. rewrite E1.
  rewrite applyLine_inline by assumption.
  exact (applyFieldAnnotations_other after _ Ha).
Qed.
End Applied.
End CommentFacts.

(** * The claims of the specification *)

Module Claims.
Import ParserSpec ParserFacts InlineSpec InlineFacts.
Import Resolver ResolverSpec ResolverFacts Examples.
Import types (Type_, Field, FieldType, FieldName, Exported, Tag).

(** ** Parser *)




(** C2. Nested-inline rejection: the inline form of an endpoint with a
    response block is refused by [ParseInlineAnnotation], with the
    error of [ValidateNoNestedBraces], and by [ParseAnnotationBlock] on
    the same single line; the multi-line form of the same endpoint
    parses, with the metadata of the endpoint, one [@response] with
    metadata [200], and its [@body] child of value [User]. *)
Theorem nested_inline_rejected :
  ParseInlineAnnotation nestedInline "@endpoint" endpointNode
  = Error "nested blocks cannot be inlined, use multi-line format"
  /\ ValidateNoNestedBraces nestedInline
     = Error "nested blocks cannot be inlined, use multi-line format"
  /\ IsInlineFormat [nestedInline] = true
  /\ IsInlineFormat nestedMultiLine = false
  /\ ParseAnnotationBlock [nestedInline] "@endpoint" (Some endpointNode)
     = Error "failed to parse @endpoint children: unknown annotation @body in @endpoint"
  /\ exists r response body,
      ParseAnnotationBlock nestedMultiLine "@endpoint" (Some endpointNode) = Ok r
      /\ Metadata r = "GET /users"
      /\ PChildren r = []
      /\ RepeatedChildren r = [("@response", [response])]
      /\ Metadata response = "200"
      /\ PChildren response = [("@body", body)]
      /\ RepeatedChildren response = []
      /\ Value body = "User".
Proof.
  do 5 (split; [vm_compute; reflexivity|]).
  do 3 eexists. split; [vm_compute; reflexivity|].
  cbn. repeat split; reflexivity.
Qed.

(** C3. [findBlockOpener] returns the position of the first opening
    brace that a space or a tab immediately precedes, and -1 when the
    line has none; a brace with anything else before it is not an
    opener.  On the endpoint line with a path template the opener is
    the last byte of the line and the metadata keeps the braces of the
    path. *)
Theorem block_opener_first_blank_brace :
  (forall line,
      let p := findBlockOpener line in
      (p = -1 /\ forall q, openerAt line q = false)
      \/ (0 < p /\ openerAt line p = true
          /\ forall q, q < p -> openerAt line q = false))
  /\ findBlockOpener pathLine = 49
  /\ len pathLine = 50
  /\ ExtractMetadata pathLine "@endpoint" = "GET /orgs/{orgId}/projects/{projectId}"
  /\ findBlockOpener "/orgs/{orgId}/projects/{projectId}" = -1.
Proof.
  split.
  - intros line. cbv zeta. rewrite findBlockOpener_scan.
    pose proof (scanOpener_spec line 0) as H. cbv zeta in H.
    rewrite Z.sub_0_r in H. exact H.
  - repeat split; vm_compute; reflexivity.
Qed.

(** C4. [UnescapeValue] is the five replacements in the order backslash
    pair to placeholder, escaped opening brace, escaped closing brace,
    escaped at sign, placeholder to backslash; on a value without a NUL
    byte the result is that of a single decoding pass, in which every
    escape sequence is decoded once; two backslashes and a brace decode
    to a backslash and the brace. *)
Theorem UnescapeValue_decodes_once (s : string) (H : noNul s = true) :
  UnescapeValue s = decodeOnce s
  /\ UnescapeValue s
     = ReplaceAll
         (ReplaceAll
            (ReplaceAll
               (ReplaceAll (ReplaceAll s "\\" backslashPlaceholder) "\{" "{")
               "\}" "}")
            "\@" "@")
         backslashPlaceholder "\"
  /\ UnescapeValue "\\{" = "\{".
Proof.
  split; [now apply UnescapeValue_decodeOnce_aux|].
  split; [reflexivity|]. vm_compute. reflexivity.
Qed.

Lemma UnescapeValue_decodes_once_witness :
  UnescapeValue "^[A-Z]\{2\}\\d$" = "^[A-Z]{2}\d$"
  /\ decodeOnce "^[A-Z]\{2\}\\d$" = "^[A-Z]{2}\d$".
Proof.
  destruct (UnescapeValue_decodes_once "^[A-Z]\{2\}\\d$" eq_refl) as (H & _ & _).
  split; [rewrite H|]; vm_compute; reflexivity.
Defined.



(** ** Resolver *)

(** C6. The name of a schema field is the result of the fallback chain
    over the [json] tag, the [xml] tag and the Go field name:
    [resolveFieldNameFromTag] is [fallbackName]; [resolveField] skips a
    field when it is unexported or when the chain gives the empty name,
    and only then, and names every other field by the chain. *)
Theorem field_name_fallback (Get : string -> string -> string)
        (TS : Type_ -> string) (float64 : Type) :
  (forall tag goFieldName,
      resolveFieldNameFromTag Get tag goFieldName
      = fallbackName (Get tag "json") (Get tag "xml") goFieldName)
  /\ (forall f ann sn cache,
         fst (resolveField Get TS float64 f ann sn cache) = None
         <-> Exported f = false
             \/ fallbackName (Get (Tag f) "json") (Get (Tag f) "xml") (FieldName f)
                = "")
  /\ (forall f ann sn cache r,
         fst (resolveField Get TS float64 f ann sn cache) = Some r ->
         Name r
         = fallbackName (Get (Tag f) "json") (Get (Tag f) "xml") (FieldName f))
  /\ resolveFieldNameFromTag Reflect.Get jsonDashTag "GoName" = ""
  /\ resolveFieldNameFromTag Reflect.Get xmlDashTag "GoName" = ""
  /\ resolveFieldNameFromTag Reflect.Get unnamedJsonTag "GoName" = "from_xml"
  /\ resolveFieldNameFromTag Reflect.Get omitemptyTag "GoName" = "GoName"
  /\ resolveFieldNameFromTag Reflect.Get namedTag "GoName" = "user_id"
  /\ resolveFieldNameFromTag Reflect.Get "" "GoName" = "GoName"
  /\ fst (resolveField Reflect.Get typeString Z hiddenField None schemaNames ∅)
     = None.
Proof.
  split; [intros; apply resolveFieldNameFromTag_fallback|].
  split.
  { intros. rewrite <- resolveFieldNameFromTag_fallback.
    apply resolveField_skipped. }
  split.
  { intros f ann sn cache r Hr. rewrite <- resolveFieldNameFromTag_fallback.
    destruct (resolveField Get TS float64 f ann sn cache) as [o c'] eqn:E.
    cbn [fst] in Hr. subst o. exact (resolveField_name _ _ _ _ _ _ _ _ _ E). }
  repeat split; vm_compute; reflexivity.
Qed.

(** C7. What [resolveType] does with a pointer, on a fresh cache: the
    nullable mark set for the pointer stays on the result when the
    pointed-to type is resolved in the same call, and is lost when the
    call returns the result of the recursive call on an alias or on
    the underlying type of a named type that is not a special type.
    So a pointer to a named struct or to a named string is not marked
    nullable, and neither is a pointer to an anonymous struct, which
    [resolveField] resolves without [resolveType]. *)
Theorem pointer_nullable_lost_on_named (TS : Type_ -> string) (elem : Type_) :
  TypeInfo.IsNullable (fst (resolveType TS (types.Pointer elem) ∅))
  = match elem with
    | types.Named obj underlying =>
        match resolveSpecialType
                match types.Pkg obj with Some path => path | None => "" end
                (types.ObjName obj) with
        | Some _ => true
        | None => TypeInfo.IsNullable (fst (resolveType TS underlying ∅))
        end
    | types.Alias _ rhs => TypeInfo.IsNullable (fst (resolveType TS rhs ∅))
    | _ => true
    end
  /\ option_map Nullable
       (fst (resolveField Reflect.Get typeString Z nicknameField None schemaNames ∅))
     = Some true
  /\ option_map Nullable
       (fst (resolveField Reflect.Get typeString Z createdField None schemaNames ∅))
     = Some true
  /\ option_map Nullable
       (fst (resolveField Reflect.Get typeString Z managerField None schemaNames ∅))
     = Some false
  /\ option_map Nullable
       (fst (resolveField Reflect.Get typeString Z ownerField None schemaNames ∅))
     = Some false
  /\ option_map Nullable
       (fst (resolveField Reflect.Get typeString Z detailsField None schemaNames ∅))
     = Some false.
Proof.
  split; [|repeat split; vm_compute; reflexivity].
  rewrite resolveType_unfold. cbv zeta. rewrite lookup_empty.
  cbn [unwrapPointer isPointer].
  destruct elem as [kind|e|e|? e|k e|fields|obj u|obj rhs| |e| |obj];
    try reflexivity.
  - destruct kind; reflexivity.
  - destruct (resolveType TS e (∅ : gmap string TypeInfo.t)). reflexivity.
  - destruct (resolveSpecialType _ _); reflexivity.
Qed.

(** C8. The basic-kind table of [resolveType]: the OpenAPI type and the
    format of a basic type are those of the table, in which the ten
    kinds [int] to [int64] and [uint] to [uint64] are integers,
    [int32] and [int64] alone have a format, and [uintptr] is a string
    as every other kind is; an interface accepts any value and has no
    type; every type that is not recognized is a string.  This is what
    the call computes when the cache has no entry under the string of
    the type, what it stores there, and so what the next call
    returns. *)
Theorem basic_kind_table (TS : Type_ -> string) (t : Type_)
        (typeCache : gmap string TypeInfo.t)
        (Hown : ownEntry TS t typeCache) :
  let info := fst (resolveType TS t typeCache) in
  (forall kind,
      t = types.Basic kind ->
      (TypeInfo.OpenAPIType info, TypeInfo.Format info) = kindTable kind
      /\ TypeInfo.IsArray info = false /\ TypeInfo.IsNullable info = false
      /\ TypeInfo.IsAnyValue info = false)
  /\ (t = types.Interface ->
      TypeInfo.IsAnyValue info = true /\ TypeInfo.OpenAPIType info = ""
      /\ TypeInfo.Format info = "")
  /\ (unrecognized t = true ->
      TypeInfo.OpenAPIType info = "string" /\ TypeInfo.Format info = ""
      /\ TypeInfo.IsAnyValue info = false)
  /\ ((exists kind, t = types.Basic kind) \/ t = types.Interface
      \/ unrecognized t = true ->
      snd (resolveType TS t typeCache) !! TS t = Some info
      /\ fst (resolveType TS t (snd (resolveType TS t typeCache))) = info).
Proof.
  cbv zeta.
  assert (Hagain : forall info c,
             c !! TS t = Some info -> c !! TS t = Some info
             /\ fst (resolveType TS t c) = info).
  { intros info c Hl. split; [exact Hl|].
    rewrite resolveType_unfold. cbv zeta. now rewrite Hl. }
  rewrite (resolveType_unfold TS t typeCache). cbv zeta.
  destruct (typeCache !! TS t) as [cached|] eqn:El.
  - pose proof (Hown cached El) as Hc.
    rewrite resolveType_unfold in Hc. cbv zeta in Hc. rewrite lookup_empty in Hc.
    cbn [fst snd]. split; [|split; [|split]].
    + intros kind ->. subst cached. cbn. destruct kind; repeat split.
    + intros ->. subst cached. cbn. repeat split.
    + intros Hu. subst cached. destruct t; try discriminate; cbn; repeat split.
    + intros _. apply Hagain. exact El.
  - split; [|split; [|split]].
    + intros kind ->. cbn [unwrapPointer isPointer fst]. destruct kind; repeat split.
    + intros ->. cbn. repeat split.
    + destruct t; try discriminate; intros _; cbn; repeat split.
    + intros [[kind ->]|[->|Hu]]; [| |destruct t; try discriminate];
        cbn [unwrapPointer isPointer fst snd]; apply Hagain, lookup_insert_eq.
Qed.

Lemma basic_kind_table_witness :
  let typeCache := snd (resolveType typeString (types.Basic types.Int32) ∅) in
  let info := fst (resolveType typeString (types.Basic types.Int32) typeCache) in
  typeCache !! "int32" = Some info
  /\ (TypeInfo.OpenAPIType info, TypeInfo.Format info) = ("integer", "int32").
Proof.
  cbv zeta.
  assert (Hown : ownEntry typeString (types.Basic types.Int32)
                   (snd (resolveType typeString (types.Basic types.Int32) ∅))).
  { intros cached H. vm_compute in H. injection H as <-. reflexivity. }
  split; [vm_compute; reflexivity|].
  exact (proj1 (proj1 (basic_kind_table typeString (types.Basic types.Int32) _ Hown)
                  types.Int32 eq_refl)).
Defined.

(** The two unsigned kinds of 32 and 64 bits have no format; [uintptr]
    is not an integer; and a call that finds an entry in the cache
    returns it, whatever the table says. *)
Lemma kind_table_exceptions :
  TypeInfo.Format (fst (resolveType typeString (types.Basic types.Uint32) ∅)) = ""
  /\ TypeInfo.Format (fst (resolveType typeString (types.Basic types.Uint64) ∅)) = ""
  /\ TypeInfo.OpenAPIType (fst (resolveType typeString (types.Basic types.Uint32) ∅))
     = "integer"
  /\ TypeInfo.OpenAPIType (fst (resolveType typeString (types.Basic types.Uint64) ∅))
     = "integer"
  /\ TypeInfo.OpenAPIType (fst (resolveType typeString (types.Basic types.Uintptr) ∅))
     = "string"
  /\ typeString (types.Basic types.Int32) = "int32"
  /\ TypeInfo.OpenAPIType
       (fst (resolveType typeString (types.Basic types.Int32) foreignCache))
     = "string".
Proof. repeat split; vm_compute; reflexivity. Qed.

(** C9. Every field that [resolveField] produces from a cache of
    resolved types, and every field nested in it, has exactly one of
    the classifications primitive type, array, map, inline object and
    any-value.  The mark of an unresolved struct is not a sixth
    classification: a field that carries it carries the name that
    [checkUnresolvedStruct] returns for its type (it is set exactly
    when that function returns a name) and, beside it, the
    type, the array mark, the items type and the any-value mark that
    [resolveType] gives for that type, and it is no inline object and
    no map; on a fresh cache it is the primitive type [string] or an
    array. *)
Theorem one_classification (Get : string -> string -> string)
        (TS : Type_ -> string) (float64 : Type)
        (f : Field Type_) (ann : option (Field.t float64))
        (sn : gmap string bool) (typeCache typeCache' : gmap string TypeInfo.t)
        (r : ResolvedField float64)
        (Hcache : cache_ok typeCache)
        (H : resolveField Get TS float64 f ann sn typeCache = (Some r, typeCache')) :
  everyField float64 (uniquelyClassified float64) r
  /\ cache_ok typeCache'
  /\ IsUnresolvedStruct r = isSome (checkUnresolvedStruct (FieldType f) sn)
  /\ (IsUnresolvedStruct r = true ->
      checkUnresolvedStruct (FieldType f) sn = Some (UnresolvedTypeName r)
      /\ typedBy r (fst (resolveType TS (FieldType f) typeCache)))
  /\ (typeCache = ∅ ->
      IsUnresolvedStruct r = true ->
      (classifiedAs float64 r PrimitiveType = true /\ OpenAPIType r = "string")
      \/ classifiedAs float64 r ArrayType = true).
Proof.
  destruct (resolveField_classified Get TS float64 f ann sn typeCache r typeCache'
              Hcache H) as [Hc HQ].
  split; [exact HQ|]. split; [exact Hc|].
  split; [exact (resolveField_mark Get TS float64 f ann sn typeCache typeCache' r H)|].
  split.
  - now apply (resolveField_marked Get TS float64 f ann sn typeCache typeCache').
  - intros ->.
    now apply (resolveField_marked_fresh Get TS float64 f ann sn r typeCache').
Qed.

Lemma one_classification_witness :
  exists r,
    fst (resolveField Reflect.Get typeString Z detailsField None schemaNames ∅)
    = Some r
    /\ everyField Z (uniquelyClassified Z) r
    /\ classifiedAs Z r InlineObject = true.
Proof.
  destruct (resolveField Reflect.Get typeString Z detailsField None schemaNames ∅)
    as [[r|] c'] eqn:E; [|vm_compute in E; discriminate].
  exists r. split; [reflexivity|].
  split.
  - exact (proj1 (one_classification Reflect.Get typeString Z detailsField None
                    schemaNames ∅ c' r cache_ok_empty E)).
  - vm_compute in E. injection E as <- _. reflexivity.
Defined.

(** A field of a named struct that is no schema is marked and is a
    string; a slice of it is marked and is an array of strings; a slice
    of such slices is marked and is an array of arrays. *)
Lemma unresolved_is_primitive :
  (exists r,
      fst (resolveField Reflect.Get typeString Z addressField None schemaNames ∅)
      = Some r
      /\ IsUnresolvedStruct r = true
      /\ UnresolvedTypeName r = "Address"
      /\ OpenAPIType r = "string"
      /\ classifiedAs Z r PrimitiveType = true)
  /\ (exists r,
         fst (resolveField Reflect.Get typeString Z addressesField None schemaNames ∅)
         = Some r
         /\ IsUnresolvedStruct r = true
         /\ UnresolvedTypeName r = "Address"
         /\ OpenAPIType r = "array" /\ ItemsType r = "string"
         /\ classifiedAs Z r ArrayType = true)
  /\ (exists r,
         fst (resolveField Reflect.Get typeString Z gridField None schemaNames ∅)
         = Some r
         /\ IsUnresolvedStruct r = true
         /\ UnresolvedTypeName r = "Address"
         /\ OpenAPIType r = "array" /\ ItemsType r = "array"
         /\ classifiedAs Z r ArrayType = true).
Proof.
  split; [|split]; (eexists; split; [vm_compute; reflexivity|]); repeat split.
Qed.

(** C10. [Required] is the negation of [omitempty] of the raw tag, on
    every path that resolves a field: [resolveField], with or without
    an annotation, and the fields of the anonymous structs below it;
    [resolveFieldWithParamType]; [resolveAnonymousStruct]; and the
    fields of an inline declaration.  Each path produces a field for
    every field that it does not skip: an exported field with a name
    from its tags (every exported field of a parameter struct), every
    kept field of an anonymous struct, every named field of an inline
    declaration with a name from its tags.  A field with no tag is
    required. *)
Theorem required_iff_no_omitempty (Get : string -> string -> string)
        (TS : Type_ -> string) (float64 : Type)
        (parseFloat : string -> option float64) (parseInt : string -> option Z) :
  (forall f ann sn typeCache r typeCache',
      resolveField Get TS float64 f ann sn typeCache = (Some r, typeCache') ->
      Required r = negb (omitempty (Tag f)) /\ fieldRequired Get float64 f r)
  /\ (forall f ann paramType typeCache r typeCache',
         resolveFieldWithParamType Get TS float64 f ann paramType typeCache
         = (Some r, typeCache') ->
         Required r = negb (omitempty (Tag f)))
  /\ (forall t sn typeCache rs typeCache',
         resolveAnonymousStruct Get TS float64 t sn typeCache = (Some rs, typeCache') ->
         requiredFromTags Get float64 t rs)
  /\ (forall a comments tagType sn typeCache r typeCache',
         resolveInlineStructField Get TS float64 parseFloat parseInt a comments
           tagType sn typeCache = (Some r, typeCache') ->
         Required r = negb (omitempty (tagOfLiteral (TagLiteral a)))
         /\ forall ft, TypeOf a = Some ft -> nestedRequired Get float64 ft r)
  /\ omitempty "" = false
  /\ option_map Required
       (fst (resolveField Reflect.Get typeString Z optionalField (Some fullAnnotation)
               schemaNames ∅)) = Some false
  /\ option_map Required
       (fst (resolveField Reflect.Get typeString Z untaggedField (Some fullAnnotation)
               schemaNames ∅)) = Some true
  /\ (forall f ann sn typeCache,
         isSome (fst (resolveField Get TS float64 f ann sn typeCache))
         = Exported f
           && negb (isEmpty (resolveFieldNameFromTag Get (Tag f) (FieldName f))))
  /\ (forall f ann paramType typeCache,
         isSome (fst (resolveFieldWithParamType Get TS float64 f ann paramType
                        typeCache))
         = paramKept Get paramType f)
  /\ (forall t sn typeCache fields,
         unwrapPointer t = types.Struct fields ->
         exists rs typeCache',
           resolveAnonymousStruct Get TS float64 t sn typeCache
           = (Some rs, typeCache'))
  /\ (forall a comments tagType sn typeCache,
         isSome (fst (resolveInlineStructField Get TS float64 parseFloat parseInt a
                        comments tagType sn typeCache))
         = inlineKept Get tagType a)
  /\ (forall fields comments tagType sn typeCache,
         exists rs typeCache',
           resolveInlineStructFields Get TS float64 parseFloat parseInt
             (Some fields) comments tagType sn typeCache = (Some rs, typeCache')
           /\ Forall2
                (fun a r =>
                   Required r = negb (omitempty (tagOfLiteral (TagLiteral a))))
                (List.filter (inlineKept Get tagType) fields) rs)
  /\ option_map Required
       (fst (resolveFieldWithParamType Reflect.Get typeString Z limitField
               (Some fullAnnotation) "query" ∅)) = Some false
  /\ option_map Required
       (fst (resolveFieldWithParamType Reflect.Get typeString Z idField None
               "path" ∅)) = Some true
  /\ option_map (List.map Required)
       (fst (resolveAnonymousStruct Reflect.Get typeString Z contactStruct
               schemaNames ∅)) = Some [false; true]
  /\ option_map (List.map Required)
       (fst (resolveInlineStructFields Reflect.Get typeString Z noNumber noNumber
               (Some inlineFields) inlineComments "json" (Some schemaNames) ∅))
     = Some [false; true]
  /\ option_map (List.map Required)
       (fst (resolveInlineStructFields Reflect.Get typeString Z noNumber noNumber
               (Some inlineFields) inlineComments "query" None ∅))
     = Some [false; true].
Proof.
  split.
  { intros f ann sn c r c' H.
    pose proof (resolveField_required Get TS float64 f ann sn c r c' H) as Hr.
    split; [|exact Hr]. now inversion Hr. }
  split.
  { intros f ann pt c r c' H.
    exact (proj1 (resolveFieldWithParamType_required Get TS float64 f ann pt c r c' H)). }
  split.
  { intros t sn c rs c' H.
    exact (resolveAnonymousStruct_required Get TS float64 t sn c rs c' H). }
  split.
  { intros a comments tagType sn c r c' H.
    exact (resolveInlineStructField_required Get TS float64 parseFloat parseInt
             a comments tagType sn c r c' H). }
  split; [reflexivity|].
  split; [vm_compute; reflexivity|].
  split; [vm_compute; reflexivity|].
  split; [apply resolveField_kept|].
  split; [apply resolveFieldWithParamType_kept|].
  split; [apply resolveAnonymousStruct_produced|].
  split; [apply resolveInlineStructField_kept|].
  split.
  { intros fields comments tagType sn c. cbn [resolveInlineStructFields].
    pose proof (inline_fields_loop_required Get TS float64 parseFloat parseInt
                  fields comments tagType sn c) as HF.
    destruct (inline_fields_loop _ _ _ _ _ _ _ _ _ _) as [rs c'].
    exists rs, c'. split; [reflexivity|exact HF]. }
  repeat split; vm_compute; reflexivity.
Qed.

End Claims.

(** * Further properties of the code *)

Module Extras.
Import ParserSpec ParserFacts InlineSpec InlineFacts.
Import EscapeSpec HeaderSpec ParserMoreFacts HeaderFacts.

(** ** Escapes *)

(** X1. [RestoreEscapedAt] undoes [ProtectEscapedAt] on every content
    without a NUL byte: the escaped at signs that were hidden from the
    split come back as they were, and nothing else changes. *)
Theorem protect_restore_round_trip (content : string) (H : noNul content = true) :
  RestoreEscapedAt (ProtectEscapedAt content) = content.
Proof.
  rewrite ProtectEscapedAt_eq, RestoreEscapedAt_eq.
  now apply restore_protect_noNul.
Qed.

Lemma protect_restore_round_trip_witness :
  RestoreEscapedAt (ProtectEscapedAt "@example a\@b.c \\@x") = "@example a\@b.c \\@x".
Proof. apply protect_restore_round_trip. reflexivity. Defined.

(** X2. [UnescapeValue] decodes what escaping encodes: for a text
    without a NUL byte, written with a backslash before each of its
    braces, at signs and backslashes, it returns the text; a text that
    has none of these characters is returned as it is. *)
Theorem unescape_escaped_round_trip (text : string) (H : noNul text = true) :
  UnescapeValue (escaped text) = text
  /\ (allChars (fun c => negb (isEscapable c)) text = true ->
      UnescapeValue text = text).
Proof.
  assert (E : UnescapeValue (escaped text) = text).
  { destruct (UnescapeValue_decodeOnce_aux (escaped text)) as [U _].
    rewrite U by now apply noNul_escaped. apply decodeOnce_escaped. }
  split; [exact E|]. intros P. now rewrite <- (escaped_plain text P) at 1.
Qed.

Lemma unescape_escaped_round_trip_witness :
  UnescapeValue (escaped "^\d{2}@\\$") = "^\d{2}@\\$".
Proof. apply (unescape_escaped_round_trip "^\d{2}@\\$"). reflexivity. Defined.

(** ** Braces *)

(** X3. A content in which [ContainsUnescapedBrace] finds no brace is
    balanced at depth 0 for [CountUnescapedBraces], passes
    [ValidateNoNestedBraces], and has no block opener. *)
Theorem no_unescaped_brace_scanners (content : string)
        (H : ContainsUnescapedBrace content = false) :
  CountUnescapedBraces content = (0, true)
  /\ ValidateNoNestedBraces content = Ok tt
  /\ findBlockOpener content = -1.
Proof.
  rewrite contains_clean in H. apply negb_false_iff in H.
  split; [|split].
  - unfold CountUnescapedBraces. now rewrite count_clean.
  - unfold ValidateNoNestedBraces.
    pose proof (nested_clean_app content "" H I 0) as E.
    now rewrite append_nil_r in E.
  - now apply findBlockOpener_clean.
Qed.

Lemma no_unescaped_brace_scanners_witness :
  CountUnescapedBraces "^[a-z]\{2\} \\" = (0, true)
  /\ ValidateNoNestedBraces "^[a-z]\{2\} \\" = Ok tt
  /\ findBlockOpener "^[a-z]\{2\} \\" = -1.
Proof. apply no_unescaped_brace_scanners. reflexivity. Defined.

(** X4. What [ValidateNoNestedBraces] accepts, [CountUnescapedBraces]
    finds balanced: the two scanners skip the same escape sequences and
    agree on the depth at the end of the content. *)
Theorem validated_is_balanced (content : string)
        (H : ValidateNoNestedBraces content = Ok tt) :
  CountUnescapedBraces content = (0, true).
Proof.
  unfold CountUnescapedBraces. now rewrite (nested_count content 0 H).
Qed.

Lemma validated_is_balanced_witness :
  CountUnescapedBraces "@field { @pattern \{x\} }" = (0, true).
Proof. apply validated_is_balanced. reflexivity. Defined.

(** X5. [findUnescapedBrace] returns -1 or the index of a byte that is
    the brace asked for, and it finds neither brace exactly when
    [ContainsUnescapedBrace] is false. *)
Theorem findUnescapedBrace_position (content : string) (brace : ascii) :
  (Block.findUnescapedBrace content brace = -1
   \/ (0 <= Block.findUnescapedBrace content brace
       /\ at_ content (Block.findUnescapedBrace content brace) = Some brace))
  /\ ContainsUnescapedBrace content
     = negb ((Block.findUnescapedBrace content "{" =? -1)%Z
             && (Block.findUnescapedBrace content "}" =? -1)%Z).
Proof.
  split.
  - unfold Block.findUnescapedBrace.
    destruct (find_range content brace 0 ltac:(lia)) as [E|[E1 E2]];
      [now left|right].
    split; [exact E1|]. unfold at_.
    destruct (Z.ltb_spec (Block.findUnescapedBrace_loop 0 content brace) 0); [lia|].
    now rewrite Z.sub_0_r in E2.
  - unfold Block.findUnescapedBrace.
    rewrite find_none by lia. apply contains_clean.
Qed.

(** ** Blocks *)

(** X6. Every content line that [ParseBracedBlock] returns is trimmed
    and not empty. *)
Theorem braced_content_trimmed (lines content : list string)
        (H : ParseBracedBlock lines = Ok content) :
  Forall (fun line => TrimSpace line = line /\ line <> "") content.
Proof. now apply ParseBracedBlock_content in H. Qed.

Lemma braced_content_trimmed_witness :
  Forall (fun line => TrimSpace line = line /\ line <> "")
         ["@description X"; "@format email"].
Proof.
  apply (braced_content_trimmed
           ["@field {"; "   @description X  "; ""; "  @format email"; "}"]).
  reflexivity.
Defined.




(** X9. Storing a child and reading it back: after [storeChild] has
    stored [parsed] under [name], a singleton child is found by
    [HasChild] and [GetChildValue] gives its value, a repeatable child
    is the last of [GetRepeatedChildren]; under every other name the
    three accessors return what they returned before. *)
Theorem stored_child_read_back (childNode : SchemaNode) (name : string)
        (parsed result result' : ParsedAnnotation)
        (H : storeChild childNode name parsed result = Ok result') :
  (if Repeatable childNode
   then Block.GetRepeatedChildren result' name
        = (Block.GetRepeatedChildren result name ++ [parsed])%list
        /\ Block.HasChild result' name = Block.HasChild result name
        /\ Block.GetChildValue result' name = Block.GetChildValue result name
   else Block.HasChild result name = false
        /\ Block.HasChild result' name = true
        /\ Block.GetChildValue result' name = Value parsed
        /\ Block.GetRepeatedChildren result' name
           = Block.GetRepeatedChildren result name)
  /\ forall other, other <> name ->
       Block.HasChild result' other = Block.HasChild result other
       /\ Block.GetChildValue result' other = Block.GetChildValue result other
       /\ Block.GetRepeatedChildren result' other
          = Block.GetRepeatedChildren result other.
Proof.
  unfold storeChild in H.
  unfold Block.HasChild, Block.GetChildValue, Block.GetRepeatedChildren.
  destruct (Repeatable childNode).
  - injection H as <-.
    rewrite PChildren_setRepeated, Repeated_setRepeated, map_slice_store.
    split; [now repeat split|]. intros other Ho.
    now rewrite map_slice_store_other.
  - destruct (map_lookup (PChildren result) name) eqn:L; [discriminate|].
    injection H as <-.
    rewrite PChildren_setChildren, Repeated_setChildren, map_lookup_store.
    split; [now repeat split|]. intros other Ho.
    now rewrite map_lookup_store_other.
Qed.

Lemma stored_child_read_back_witness :
  Block.HasChild
    (MkParsed "@field" "" [("@format", MkParsed "@format" "" [] [] "email" false [])]
              [] "" false [])
    "@format" = true.
Proof.
  pose proof (stored_child_read_back (value "@format") "@format"
                (MkParsed "@format" "" [] [] "email" false [])
                (emptyParsed "@field" []) _ eq_refl) as [(_ & H & _) _].
  exact H.
Defined.

(** X10. [IsInlineFormat] looks at the first line only, and without
    regard to escapes or to block openers: when the first brace of the
    first line is an opening brace, the lines are taken as inline
    exactly when a closing brace follows it on that line. *)
Theorem inline_format_first_line (header tail : string) (rest : list string)
        (H : noBrace header = true) :
  IsInlineFormat ((header ++ "{" ++ tail) :: rest) = Contains tail "}".
Proof. now apply IsInlineFormat_first. Qed.

Lemma inline_format_first_line_witness :
  IsInlineFormat ["@endpoint GET /users/{id} {"; "@summary S"; "}"] = true.
Proof.
  apply (inline_format_first_line "@endpoint GET /users/" "id} {"
           ["@summary S"; "}"]).
  reflexivity.
Defined.

Import ParserSpec ParserFacts InlineSpec InlineFacts.
Import EscapeSpec HeaderSpec ParserMoreFacts HeaderFacts ConvertSpec ConvertFacts.
Import Examples.

(** ** The conversion of an inline line *)

(** X11. [ConvertToMultiLine] returns the line alone when it has no
    opening or no closing brace, and it panics on its slice expression
    exactly when the line has both and the last closing brace stands
    before the first opening brace; in every other case it returns the
    opening line of the annotation name, lines that start with two
    spaces and an at sign, and the closing brace. *)
Theorem convert_fails_when_close_first (line name : string) :
  (Index line "{" = -1 \/ LastIndex line "}" = -1 ->
   Inline.ConvertToMultiLine line name = Some [line])
  /\ (Inline.ConvertToMultiLine line name = None
      <-> Index line "{" <> -1 /\ LastIndex line "}" <> -1
          /\ LastIndex line "}" < Index line "{")
  /\ (Index line "{" <> -1 -> Index line "{" < LastIndex line "}" ->
      exists lines,
        Inline.ConvertToMultiLine line name = Some lines
        /\ convertedShape name lines).
Proof.
  pose proof (ConvertToMultiLine_cases line name) as H. cbv zeta in H.
  destruct (Z.eqb_spec (Index line "{") (-1)) as [E1|E1].
  { cbn [orb] in H. split; [intros _; exact H|].
    split; [|intros; contradiction].
    rewrite H. split; [discriminate|intros (? & _); contradiction]. }
  destruct (Z.eqb_spec (LastIndex line "}") (-1)) as [E2|E2].
  { cbn [orb] in H. split; [intros _; exact H|].
    split; [|intros _ ?; pose proof (Index_range line "{"); lia].
    rewrite H. split; [discriminate|intros (_ & ? & _); contradiction]. }
  cbn [orb] in H. split; [intros [?|?]; contradiction|].
  destruct (Z.ltb_spec (LastIndex line "}") (Index line "{")) as [L|L].
  - split; [|intros _ ?; lia].
    split; [intros _; now repeat split|intros _; exact H].
  - destruct H as (lines & H & Hs).
    split; [|intros _ _; now exists lines].
    rewrite H. split; [discriminate|intros (_ & _ & ?); lia].
Qed.



Import ParserSpec ParserFacts InlineSpec InlineFacts.
Import EscapeSpec HeaderSpec ParserMoreFacts HeaderFacts ConvertSpec ConvertFacts.
Import Resolver ResolverSpec ResolverFacts.
Import FieldSpec FieldFacts GrammarSpec GrammarFacts.
Import ParameterSpec ResolverMoreFacts CommentSpec CommentFacts.
Import Comments SchemaValidate ResolverMore.
Import Examples.
Import types (Type_, Field, FieldType, FieldName, Exported, Tag).

(** ** Bind targets and generic instantiations *)



(** X14. The two halves of a generic instantiation: for a base name
    that is not empty and has no opening bracket, [extractBaseType] of
    [base[arg]] is the base and [extractTypeArg] of it is the argument,
    whatever brackets the argument has; for the base alone the first
    returns it and the second returns the empty string. *)
Theorem generic_type_round_trip (base arg : string)
        (Hbase : isEmpty base = false)
        (Hbracket : without "[" base = true) :
  ParserGo.extractBaseType (base ++ "[" ++ arg ++ "]") = base
  /\ extractTypeArg (base ++ "[" ++ arg ++ "]") = arg
  /\ ParserGo.extractBaseType base = base
  /\ extractTypeArg base = "".
Proof.
  destruct (extract_generic base arg (isEmpty_false _ Hbase) Hbracket) as [H1 H2].
  destruct (extract_plain base Hbracket) as [H3 H4].
  now repeat split.
Qed.

Lemma generic_type_round_trip_witness :
  ParserGo.extractBaseType "DataResponse[[]User]" = "DataResponse"
  /\ extractTypeArg "DataResponse[[]User]" = "[]User"
  /\ ParserGo.extractBaseType "DataResponse" = "DataResponse"
  /\ extractTypeArg "DataResponse" = "".
Proof. exact (generic_type_round_trip "DataResponse" "[]User" eq_refl eq_refl). Defined.

(** ** Comment blocks *)

(** X15. [GetAnnotationLines] returns the lines of a comment from its
    first line that starts with an at sign on: the lines before it have
    no such start, the result is empty or starts with such a line, a
    second pass changes nothing, and the result is not empty when
    [HasAnnotation] finds an annotation. *)
Theorem annotation_lines_from_first_at (lines : list string) :
  (exists before,
      lines = (before ++ GetAnnotationLines (Some lines))%list
      /\ Forall (fun l => HasPrefix l "@" = false) before
      /\ (GetAnnotationLines (Some lines) = []
          \/ HasPrefix (first (GetAnnotationLines (Some lines))) "@" = true))
  /\ GetAnnotationLines (Some (GetAnnotationLines (Some lines)))
     = GetAnnotationLines (Some lines)
  /\ (forall annotation,
         HasPrefix annotation "@" = true ->
         HasAnnotation (Some lines) annotation = true ->
         GetAnnotationLines (Some lines) <> []).
Proof.
  cbn [GetAnnotationLines HasAnnotation]. split; [apply annotation_lines_split|].
  split; [apply annotation_lines_idem|].
  intros annotation. apply annotation_lines_has.
Qed.

(** X16. A field comment gives the same field in its two forms: when
    the lines before the annotation do not start with an at sign and
    the children are such that both forms read them alike, the field
    loop of the parser passes neither form over, and for
    [@field { child ... child }] on one line and for the block with one
    line for each child it fails for both or builds the same field
    with [convertParsedField]. *)
Theorem field_comment_forms_agree (float64 : Type)
        (ParseFloat : string -> option float64) (Atoi : string -> option Z)
        (structName fieldName : string) (before : list string) (cs : list Child)
        (Hbefore : forallb (fun l => negb (HasPrefix l "@")) before = true)
        (Hcs : forallb (childOk fieldNode) cs = true) :
  exists inline multi,
    ParserGo.fieldOfComment float64 ParseFloat Atoi structName fieldName
      (Some (before ++ [inlineLine "@field" cs])%list) = Some inline
    /\ ParserGo.fieldOfComment float64 ParseFloat Atoi structName fieldName
         (Some (before ++ multiLines "@field" cs)%list) = Some multi
    /\ sameResult inline multi.
Proof.
  assert (Hb : Forall (fun l => HasPrefix l "@" = false) before).
  { apply List.Forall_forall. intros l Hin. apply negb_true_iff.
    revert l Hin. now apply forallb_forall. }
  apply childOk_all in Hcs.
  rewrite fieldOfComment_inline, fieldOfComment_multi by exact Hb.
  do 2 eexists. split; [reflexivity|]. split; [reflexivity|].
  pose proof (inline_multi_same fieldNode "@field" cs "@field" eq_refl eq_refl Hcs)
    as Hsame.
  destruct (ParseInlineAnnotation _ _ _) as [x|e1],
           (ParseAnnotationBlock _ _ _) as [y|e2];
    cbn [sameChildren sameResult] in *; try assumption.
  now apply convertParsedField_children.
Qed.

Lemma field_comment_forms_agree_witness :
  exists inline multi,
    ParserGo.fieldOfComment Z noNumber noNumber "User" "Email"
      (Some (["Email is the address."] ++ [inlineLine "@field" fieldChildren])%list)
    = Some inline
    /\ ParserGo.fieldOfComment Z noNumber noNumber "User" "Email"
         (Some (["Email is the address."] ++ multiLines "@field" fieldChildren)%list)
       = Some multi
    /\ sameResult inline multi.
Proof.
  exact (field_comment_forms_agree Z noNumber noNumber "User" "Email"
           ["Email is the address."] fieldChildren eq_refl eq_refl).
Defined.

(** ** The grammar of annotations *)

(** X17. [Validate] accepts a schema node exactly when no node of its
    tree is both required and repeatable and no marker of it has
    children; an error it returns has one of these two messages, never
    the third one of the function, since a node without children can
    always be empty; and the grammar of the program passes
    [ValidateSchemaIntegrity]. *)
Theorem schema_grammar_validates :
  (forall n, Validate n = None <-> wellFormed n = true)
  /\ (forall n err,
         Validate n = Some err ->
         Message err = "annotation cannot be both required and repeatable"
         \/ Message err = "marker annotations cannot have children")
  /\ ValidateSchemaIntegrity = None.
Proof.
  split; [exact Validate_wellFormed|]. split; [exact Validate_message|].
  apply Validate_wellFormed. reflexivity.
Qed.

(** ** The fields of schemas and parameters *)

(** X18. The field loop of [resolveSchema] gives one resolved field for
    each exported field of the struct whose name from its tags is not
    empty, in the order of the struct and whatever the annotations
    are: its name is the name from the tags, its Go name the name of
    the field, and it is required unless the tag has [omitempty]. *)
Theorem schema_fields_in_order (Get : string -> string -> string)
        (TS : Type_ -> string) (float64 : Type)
        (annotations : list (Field.t float64)) (schemaNames : gmap string bool)
        (fields : list (Field Type_)) (typeCache : gmap string TypeInfo.t) :
  Forall2
    (fun f r =>
       Name r = resolveFieldNameFromTag Get (Tag f) (FieldName f)
       /\ GoName r = FieldName f
       /\ Required r = negb (omitempty (Tag f)))
    (keptFields Get fields)
    (fst (schemaFields Get TS float64 annotations schemaNames fields typeCache)).
Proof.
  unfold schemaFields, keptFields. apply fields_loop_kept.
  - intros f c. apply resolveField_kept.
  - intros f c r c' H. split; [exact (resolveField_name _ _ _ _ _ _ _ _ _ H)|].
    apply resolveField_required in H. inversion H; subst. now split.
Qed.

(** X19. The field loop of [resolveParameter] gives one resolved field
    for each field that [resolveFieldWithParamType] keeps, in order:
    its name is the part before the first comma of the tag of the
    parameter kind, or the Go name of the field when that part is empty
    or a dash.  For the kinds path, query, header and cookie every
    exported field is kept, also one whose tag names it with a dash. *)
Theorem parameter_fields_in_order (Get : string -> string -> string)
        (TS : Type_ -> string) (float64 : Type)
        (annotations : list (Field.t float64)) (paramType : string)
        (fields : list (Field Type_)) (typeCache : gmap string TypeInfo.t) :
  Forall2
    (fun f r =>
       Name r = paramName Get paramType f
       /\ GoName r = FieldName f
       /\ Required r = negb (omitempty (Tag f)))
    (List.filter (paramKept Get paramType) fields)
    (fst (parameterFields Get TS float64 annotations paramType fields typeCache))
  /\ (isParamKind paramType = true ->
      List.filter (paramKept Get paramType) fields = List.filter Exported fields)
  /\ (forall tag key, extractTagName Get tag key = beforeComma (Get tag key)).
Proof.
  split; [|split].
  - unfold parameterFields. apply fields_loop_kept.
    + intros f c. apply resolveFieldWithParamType_kept.
    + intros f c r c' H.
      split; [exact (resolveFieldWithParamType_name _ _ _ _ _ _ _ _ _ H)|].
      apply resolveFieldWithParamType_required in H. tauto.
  - intros K. unfold paramKept. rewrite K. cbn [orb].
    apply filter_ext. intros f. apply andb_true_r.
  - apply extractTagName_beforeComma.
Qed.

(** X20. An annotation is found by the Go name of its field: one whose
    Go name is the name of no field of the struct changes neither the
    fields of a schema nor those of a parameter, and of the annotations
    with the Go name of a field the first of the list is the one that
    is used. *)
Theorem unmatched_annotation_ignored (Get : string -> string -> string)
        (TS : Type_ -> string) (float64 : Type)
        (before after : list (Field.t float64)) (a : Field.t float64)
        (schemaNames : gmap string bool) (paramType : string)
        (fields : list (Field Type_)) (typeCache : gmap string TypeInfo.t)
        (Hnone : forallb (fun f => negb (String.eqb (Field.GoName a) (FieldName f)))
                   fields = true) :
  schemaFields Get TS float64 (before ++ a :: after)%list schemaNames fields typeCache
  = schemaFields Get TS float64 (before ++ after)%list schemaNames fields typeCache
  /\ parameterFields Get TS float64 (before ++ a :: after)%list paramType fields
       typeCache
     = parameterFields Get TS float64 (before ++ after)%list paramType fields
         typeCache
  /\ (forall goName,
         forallb (fun b => negb (String.eqb (Field.GoName b) goName)) before = true ->
         String.eqb (Field.GoName a) goName = true ->
         findAnnotation float64 (before ++ a :: after)%list goName = Some a).
Proof.
  apply unnamed_all in Hnone.
  split; [|split].
  - unfold schemaFields. apply fields_loop_ext.
    eapply List.Forall_impl; [|exact Hnone]. cbv beta. intros f Hf c.
    now rewrite findAnnotation_other.
  - unfold parameterFields. apply fields_loop_ext.
    eapply List.Forall_impl; [|exact Hnone]. cbv beta. intros f Hf c.
    now rewrite findAnnotation_other.
  - intros goName. apply findAnnotation_first.
Qed.

Lemma unmatched_annotation_ignored_witness :
  schemaFields Reflect.Get typeString Z ([] ++ fullAnnotation :: [])%list schemaNames
    [limitField; idField] ∅
  = schemaFields Reflect.Get typeString Z ([] ++ [])%list schemaNames
      [limitField; idField] ∅
  /\ parameterFields Reflect.Get typeString Z ([] ++ fullAnnotation :: [])%list "query"
       [limitField; idField] ∅
     = parameterFields Reflect.Get typeString Z ([] ++ [])%list "query"
         [limitField; idField] ∅
  /\ (forall goName,
         forallb (fun b : Field.t Z => negb (String.eqb (Field.GoName b) goName)) []
         = true ->
         String.eqb (Field.GoName fullAnnotation) goName = true ->
         findAnnotation Z ([] ++ fullAnnotation :: [])%list goName
         = Some fullAnnotation).
Proof.
  exact (unmatched_annotation_ignored Reflect.Get typeString Z [] [] fullAnnotation
           schemaNames "query" [limitField; idField] ∅ eq_refl).
Defined.

(** ** The type cache *)

(** X21. [resolveType] only adds to the type cache: every entry of the
    cache it starts from is in the cache it leaves, with the same
    value, the result is an entry of the cache it leaves, and when the
    cache has an entry for the string of the type the result is that
    entry and the cache is left as it was. *)
Theorem type_cache_grows (TS : Type_ -> string) (t : Type_)
        (typeCache : gmap string TypeInfo.t) :
  (forall key old,
      typeCache !! key = Some old ->
      snd (resolveType TS t typeCache) !! key = Some old)
  /\ (exists key,
         snd (resolveType TS t typeCache) !! key
         = Some (fst (resolveType TS t typeCache)))
  /\ (forall cached,
         typeCache !! TS t = Some cached ->
         resolveType TS t typeCache = (cached, typeCache)).
Proof.
  destruct (resolveType_extends_bound TS (S (size t)) t typeCache ltac:(lia))
    as [H1 H2].
  split; [exact H1|]. split; [exact H2|].
  intros cached H. rewrite resolveType_unfold. cbv zeta. now rewrite H.
Qed.

(** ** The comment of a field of an inline struct *)

(** X22. [applyFieldAnnotations] never changes what the type and the
    tag of a field decide: the field it returns has the same Go name,
    OpenAPI type, array, map and any-value marks, inline fields and
    required mark as the field it is given; and a comment of which no
    line starts, after trimming, with [@field] leaves the whole field
    as it is. *)
Theorem inline_comment_keeps_type (float64 : Type)
        (parseFloat : string -> option float64) (parseInt : string -> option Z)
        (field : ResolvedField float64) (comment : option (list string)) :
  shape float64 (applyFieldAnnotations float64 parseFloat parseInt field comment)
  = shape float64 field
  /\ (forall lines,
         forallb notFieldLine lines = true ->
         applyFieldAnnotations float64 parseFloat parseInt field (Some lines) = field).
Proof.
  split; [apply applyFieldAnnotations_shape|].
  intros lines H. apply applyFieldAnnotations_other.
  apply List.Forall_forall. now apply forallb_forall.
Qed.



End Extras.
